(* ===== verification/_CoqProject ===== *)
-Q . S2P
Prelude.v
Consts.v
Interfaces.v
Runtime.v
Float64.v
WaitGroup.v
SmartBuffer.v
SmartBufferConc.v
MinHeap.v
WrapHeap.v
SwitchStrategy.v
SwitchConfig.v
Waiters.v
BufferQueue.v
MediumPool.v
BigDataPool.v
LifeCycle.v
DataChunk.v
DoubleBuffer.v
DoubleBufferFlow.v
DoubleBufferDelivery.v
DoubleBufferZeroCopy.v
DoubleBufferEdges.v
DoubleBufferConc.v
DoubleBufferSafety.v
DoubleBufferView.v
DoubleBufferTurns.v
DoubleBufferMemory.v
DoubleBufferOnce.v
DoubleBufferProgress.v
DoubleBufferReaders.v
DoubleBufferReadersSafety.v
DoubleBufferReadersOnce.v
DoubleBufferReadersFrame.v
DoubleBufferReadersParts.v
DoubleBufferReadersTurns.v
DoubleBufferRaces.v
DoubleBufferClosing.v
AtomicX.v
AtomicBool.v
TextTemplate.v
AtomicGen.v
Prometheus.v
BatchCollector.v
Collectors.v
DiskCollector.v
Monitor.v
MonitorBooks.v
MonitorRestart.v
MonitorRates.v
Observers.v
Logging.v
OpenSourceTimeout.v
