(* ===== verification/Prelude.v ===== *)
(** * TurboStream: a verification development

    TurboStream moves byte slices from writers to readers through a double
    buffer.  Writers append slice headers (pointer and size) to an active ring
    buffer.  When the ring is full, or a monitor finds it full or old enough,
    it is swapped for an empty one, numbered, and filed in a heap from which
    readers take the rings in the order of their numbers.  Around this core
    the repository has object pools for the data, a switch condition that can
    be updated at run time, a manager of blocked readers, an eviction queue,
    atomic wrappers, metrics collectors, a system monitor and log adapters.

    ** The parts and their files

    All paths are under [src/].  A Go record is a [Record] with the fields of
    the source, a method is a function of the same name that returns the new
    state, and a call that can panic returns a [result].

    - [Consts]: the enumerations of [const.go] and the errors of
      [errorx/errorx.go].
    - [Runtime]: what the program uses of Go: byte memory with raw addresses,
      slices, [sync.Pool], time, and ranging over a map while deleting.
    - [Float64]: binary64 arithmetic with error bounds, for the strategies.
    - [WaitGroup]: Go's [sync.WaitGroup] with its panics, for the monitor.
    - [Interfaces]: the classes [PendingQueue] (a priority queue of numbered
      buffers, with its laws) and [Registry] (what the program uses of the
      registries of the Prometheus client); [SwitchStrategy] is in its file,
      and [CounterLibrary], what the client's counters refuse, in [Prometheus].
    - [SmartBuffer]: the ring of [core/component/smart_buffer.go], every
      method as one call; the bounded FIFO queue it implements.
    - [SmartBufferConc]: [Push] and [Pop] one shared access at a time, for any
      number of goroutines and any schedule.
    - [MinHeap], [WrapHeap]: [core/min_heap.go] with the operations of
      [container/heap]; [WrapHeap] is the instance of [PendingQueue].
    - [SwitchStrategy]: [core/switch_strategy.go].
    - [SwitchConfig]: [config/config.go], as calls and as interleaved steps.
    - [Waiters]: [core/waiters.go], with the channels in a store.
    - [BufferQueue]: [core/queue.go] and [core/component/queue.go].
    - [MediumPool], [BigDataPool], [LifeCycle]: [pools/life_cycle.go].
    - [DataChunk]: [core/chunk.go].
    - [DoubleBuffer]: [core/double_buffer.go], every method, tick and started
      goroutine, over the two classes.
    - [DoubleBufferFlow]: its invariant.  [DoubleBufferDelivery] and
      [DoubleBufferZeroCopy]: what it delivers in the two read modes.
      [DoubleBufferEdges]: closing, sizes, sharing, missed wake-ups.
    - [DoubleBufferConc]: [Write], [switchChannel] and the monitor one shared
      access at a time, with both locks, for any number of writers;
      [DoubleBufferSafety]: what holds and what fails in these runs;
      [DoubleBufferView]: the double buffer as it is when the switch and the
      push under way are taken as done or not begun; [DoubleBufferTurns]: with
      it, delivery for writers that take turns; [DoubleBufferMemory]: no
      panics and no dangling chunks, for all of them; [DoubleBufferOnce]: no
      delivery twice; [DoubleBufferProgress]: how many accesses writers take;
      [DoubleBufferReaders]: [tryRead] one shared access at a time as well,
      for any number of readers among all of these;
      [DoubleBufferReadersSafety]: panics and chunks there;
      [DoubleBufferReadersOnce]: no delivery twice when the reads take turns;
      [DoubleBufferReadersFrame], [DoubleBufferReadersParts]: what only a
      reader touches, and a read in parts; [DoubleBufferReadersTurns]: with
      them, delivery when writers and readers take turns;
      [DoubleBufferRaces]: what reads that overlap do;
      [DoubleBufferClosing]: the same runs with calls of [Close], one
      statement at a time.
    - [AtomicX], [AtomicBool]: [utils/atomicx].
    - [AtomicGen]: [utils/atomicx/gen], the generator of these wrappers, over
      [TextTemplate], what it uses of Go's [text/template].
    - [Prometheus], [BatchCollector]: [core/metrics].
    - [Collectors], [DiskCollector], [Monitor], [Observers]: [metrics], with
      the theorems on the monitor in [MonitorBooks] (its counts, and when it
      panics), [MonitorRestart] (after a stop) and [MonitorRates] (the disk
      rates).
    - [Logging]: [utils/log].
    - [OpenSourceTimeout]: [metrics/opensource_timeout.go], over the class
      [Logger] of which the adapters of [Logging] are instances.

    This file has the machine integers, the [result] type with its notation
    [let*], slice indexing as Go evaluates it, and the lemmas, tactics and
    hints the components share.

    ** How the parts interact

    The double buffer owns rings, heap, pools, waiters and its copy of the
    configuration.  It refers to rings by number in a store ([objs]), because
    the active, passive, current, pooled and filed rings are shared objects.
    [Write] copies small data into a pooled slice, registers medium and large
    data with its pool, and pushes the header; [switchChannel] swaps the rings
    and starts a goroutine that numbers the old one, pushes it to the heap,
    reads its length and starts another that wakes waiters: these four are
    separate steps ([goroutine]).  [tryRead] drains the current ring, resets
    and pools it, and picks the next from the heap.

    ** What the theorems show

    - Delivery: small data (1 to 1023 bytes) written in safe-read mode is
      delivered complete, unchanged and in order; until [Close] every write of
      it is accepted; finitely many reads drain what was switched; in zero-copy
      mode data of 1 byte to 2 GiB is delivered in order.  The interleaving of operations is free, with two
      conditions: the goroutines of the switches take their numbers in the
      order they were started, which a counterexample shows to be needed, and
      a method of the double buffer is not interrupted except where it sleeps.
      The theorems are proved over the invariant [flow]: every ring has one
      owner, and the items on their way form one queue.
    - Interleavings inside [Write]: a call that runs alone is the one-step
      call; in every interleaving switches exclude each other, a lock is
      released by its holder, every ring keeps one owner and the locks do not
      deadlock.  Delivery holds there while one writer at a time is inside
      [Write] and no exchange of the rings meets a reference it holds: what is
      delivered is a prefix of what took effect, and as many calls returned
      nil.  It fails otherwise: a writer that keeps a reference to a ring
      across a switch loses its item or sees it overtaken, and one that meets
      a switch is refused.  But whatever the writers and the goroutines do,
      nothing panics, the chunks readers get are mapped memory, nothing is
      delivered twice, no refused write is delivered, and the accesses a call
      takes, waiting apart, are bounded.  With calls of [Close] among them,
      one call closes the buffer and it stays closed; but [Close] can panic
      when it meets a reader, and does nothing when it meets a switch.
    - Interleavings inside [tryRead]: a call that runs alone is the one-step
      call.  With any number of readers the only panic is a nil dereference;
      while no read begins during another there is none, nothing is delivered
      twice, and under the conditions above delivery is in order.  Reads that overlap can panic, deliver an item twice,
      end delivery for good, or make the active and the passive ring one.
    - The ring: it refines a bounded FIFO queue, sequentially and access by
      access for one writer and one reader; two writers, or a reset under a
      writer, lose items; indices that wrap around overwrite one.
    - The heap drains in sequence order and keeps its index fields.
    - Waiters: how many a notification wakes, and that nothing panics.
    - Strategies: when the default strategy switches, up to a rounding error.
    - Configuration: always valid; one consumer sees every update in the end,
      the second of two may not.
    - Queue and pools: the FIFO contract; what the cleanups remove and keep.
    - Metrics: what the batch collector passes on, what a report loses; what
      the registry of the collectors holds; the monitor's books and its
      restart, which collects nothing and can panic in the wait group; disk
      rates, divided by the time since the monitor's last collection ended,
      and partitions; what the observers show.
    - Wrappers: counters and booleans; the generator writes the file the
      repository has; equivalence of the two log adapters and the round trip
      of the levels.

    ** Fuel and bounds

    [Push] and [Pop] retry a compare-and-swap; in one-step calls it succeeds
    at once, and [SmartBufferConc] shows that ten accesses are enough for a
    call that runs alone; [DoubleBufferConc] that 45 are enough for a [Write],
    [DoubleBufferReaders] that 35 are enough for a [tryRead], and
    [DoubleBufferProgress] bounds the retries in every interleaving.
    [drain_loop] of the double buffer and the loops of
    [container/heap] take as fuel the size of the heap or the index they start
    from, and the theorems
    show they end with [Ok].  Sequence numbers and counters keep their width
    ([int64], [int32]); theorems about runs bound the number of operations by
    [2 ^ 63] where a number must not wrap around, and a ring's capacity lies
    between 1 and [2 ^ 31 - 1].

    ** What is not modelled

    Memory is sequentially consistent, and the garbage collector is left out:
    a pointer kept as a number stays valid.  In the interleavings
    of [DoubleBufferConc] and [DoubleBufferReaders] a call of a pool or of the
    heap, and what a read does with the item it has popped, is one step; in
    those of the files that build on [DoubleBufferConc] alone a call of
    [tryRead] is one step.  Libraries are arguments, classes or
    traces of calls: the Prometheus client, the worker pool, the statistics
    libraries, zap and logrus; the text of [json.MarshalIndent] is an argument.
    [TextTemplate] refuses templates with other actions than the one of the
    repository has, and of [gofmt] only the layout it leaves open is used.
    Left out are files without behaviour of their own: the interface
    [ReadBuffer] of [core/types.go], which no type implements, the generated
    mocks of [core/mocks], and the empty files.  The
    methods [RegisterCallback] and [BatchRead] of the double buffer do
    nothing. *)
From stdpp Require Export base numbers option list list_numbers gmap strings relations.
From stdpp Require Export sorting.

(** ** Machine integers

    Go's fixed-width integers are values of [Z]; [signed w] and [unsigned w]
    are the two's complement wrap-around of the operation results. *)

Declare Scope go_scope.
Delimit Scope go_scope with go.

Definition signed (w z : Z) : Z := ((z + 2 ^ (w - 1)) `mod` 2 ^ w - 2 ^ (w - 1))%Z.
Definition unsigned (w z : Z) : Z := (z `mod` 2 ^ w)%Z.

Abbreviation int32 := (signed 32).
Abbreviation int64 := (signed 64).
Abbreviation uint32 := (unsigned 32).
Abbreviation uint64 := (unsigned 64).

Definition in_signed (w z : Z) : Prop := (- 2 ^ (w - 1) ≤ z < 2 ^ (w - 1))%Z.
Definition in_unsigned (w z : Z) : Prop := (0 ≤ z < 2 ^ w)%Z.

Abbreviation in_int32 := (in_signed 32).
Abbreviation in_int64 := (in_signed 64).

(** ** Run-time panics and the result of a Go call

    A call either returns a value or panics.  A loop whose number of turns is
    not a structural recursion is given fuel and ends in [OutOfFuel] when it
    runs out; the theorems about such loops show they return [Ok]. *)

Inductive panic : Set :=
  | IndexOutOfRange
  | SliceBoundsOutOfRange
  | NilDereference
  | CloseOfClosedChannel
  | SendOnClosedChannel
  | MakeLenOutOfRange
  | IntegerDivideByZero
  | NegativeWaitGroupCounter
  | WaitGroupMisuse   (** [Add] called concurrently with [Wait] *)
  | WaitGroupReused   (** before a previous [Wait] has returned *)
  | LibraryPanic   (** a library function that panics by its documentation *)
  | ExplicitPanic.  (** a call of [panic] *)

Inductive result (A : Type) : Type :=
  | Ok (a : A)
  | Panics (p : panic)
  | OutOfFuel.
Arguments Ok {A} a.
Arguments Panics {A} p.
Arguments OutOfFuel {A}.

Definition rbind {A B : Type} (m : result A) (k : A → result B) : result B :=
  match m with
  | Ok a => k a
  | Panics p => Panics p
  | OutOfFuel => OutOfFuel
  end.

Definition rmap {A B : Type} (f : A → B) (m : result A) : result B :=
  rbind m (λ a, Ok (f a)).

(** [m !!? i] as Go evaluates [m[i]] on a slice. *)
Definition index {A : Type} (l : list A) (i : nat) : result A :=
  match l !! i with
  | Some a => Ok a
  | None => Panics IndexOutOfRange
  end.

(** [l[i] = a] as Go evaluates it on a slice. *)
Definition set_index {A : Type} (l : list A) (i : nat) (a : A) : result (list A) :=
  if decide (i < length l) then Ok (<[i := a]> l) else Panics IndexOutOfRange.

(** The two forms with a machine integer as the index: a negative index is
    out of range as well. *)
Definition indexZ {A : Type} (l : list A) (i : Z) : result A :=
  if decide (0 ≤ i)%Z then index l (Z.to_nat i) else Panics IndexOutOfRange.

Definition set_indexZ {A : Type} (l : list A) (i : Z) (a : A) : result (list A) :=
  if decide (0 ≤ i)%Z then set_index l (Z.to_nat i) a else Panics IndexOutOfRange.

Notation "'let*' x := m 'in' k" := (rbind m (λ x, k))
  (at level 10, x pattern, m at level 100, k at level 200) : go_scope.

(** ** Decidability instances *)

#[export] Instance panic_eq_dec : EqDecision panic.
Proof. solve_decision. Defined.

#[export] Instance result_eq_dec {A : Type} `{EqDecision A} : EqDecision (result A).
Proof. solve_decision. Defined.

(** ** Tactics *)

(** Split every match of the goal or of a hypothesis on a condition of the
    code and close the branches arithmetic closes. *)
Ltac go_cases :=
  repeat (first [ progress simplify_eq/= | case_decide | case_match ]).

Ltac unfold_ints := unfold in_signed, in_unsigned, signed, unsigned in *.

(** Arithmetic with division and modulo by literals. *)
Ltac mod_lia := Z.to_euclidean_division_equations; nia.

(** ** Generic lemmas *)

Lemma signed_range (w z : Z) : (0 < w)%Z → in_signed w (signed w z).
Proof.
  intros Hw. unfold in_signed, signed.
  assert (2 ^ w = 2 * 2 ^ (w - 1))%Z as E.
  { rewrite <- Z.pow_succ_r by lia. f_equal. lia. }
  pose proof (Z.pow_pos_nonneg 2 (w - 1) ltac:(lia) ltac:(lia)).
  pose proof (Z.mod_pos_bound (z + 2 ^ (w - 1)) (2 ^ w) ltac:(lia)). lia.
Qed.

Lemma signed_id (w z : Z) : (0 < w)%Z → in_signed w z → signed w z = z.
Proof.
  intros Hw [H1 H2]. unfold signed.
  assert (2 ^ w = 2 * 2 ^ (w - 1))%Z as E.
  { rewrite <- Z.pow_succ_r by lia. f_equal. lia. }
  rewrite Z.mod_small by lia. lia.
Qed.

Lemma unsigned_range (w z : Z) : (0 ≤ w)%Z → in_unsigned w (unsigned w z).
Proof. intros Hw. apply Z.mod_pos_bound. apply Z.pow_pos_nonneg; lia. Qed.

Lemma unsigned_id (w z : Z) : in_unsigned w z → unsigned w z = z.
Proof. intros H. by apply Z.mod_small. Qed.

Lemma unsigned_idemp_add_l (w a b : Z) : unsigned w (unsigned w a + b) = unsigned w (a + b).
Proof. apply Zplus_mod_idemp_l. Qed.

(** [signed w z] and [z] differ by a multiple of [2 ^ w]. *)
Lemma signed_cong (w z : Z) : ∃ k : Z, signed w z = (z + k * 2 ^ w)%Z.
Proof.
  unfold signed. exists (- ((z + 2 ^ (w - 1)) `div` 2 ^ w))%Z.
  pose proof (Z.mod_eq (z + 2 ^ (w - 1)) (2 ^ w)) as E.
  destruct (decide (2 ^ w = 0))%Z as [E0|]; [|lia].
  rewrite E0, Z.mod_0_r, Z.div_0_r. lia.
Qed.

Lemma signed_add_mult (w z k : Z) : signed w (z + k * 2 ^ w) = signed w z.
Proof.
  unfold signed.
  replace (z + k * 2 ^ w + 2 ^ (w - 1))%Z with (z + 2 ^ (w - 1) + k * 2 ^ w)%Z by lia.
  by rewrite Z_mod_plus_full.
Qed.

Lemma signed_idemp_add_l (w a b : Z) : signed w (signed w a + b) = signed w (a + b).
Proof.
  destruct (signed_cong w a) as [k ->].
  replace (a + k * 2 ^ w + b)%Z with (a + b + k * 2 ^ w)%Z by lia.
  apply signed_add_mult.
Qed.

Lemma rbind_ok {A B : Type} (m : result A) (k : A → result B) (b : B) :
  rbind m k = Ok b ↔ ∃ a : A, m = Ok a ∧ k a = Ok b.
Proof. destruct m as [x|p|]; cbn; [split; [eauto | by intros (? & [= ->] & ?)] | split; [done | by intros (? & ? & ?)]..]. Qed.

Lemma rbind_assoc {A B C : Type} (m : result A) (f : A → result B) (g : B → result C) :
  rbind (rbind m f) g = rbind m (λ a, rbind (f a) g).
Proof. by destruct m. Qed.

Lemma index_ok {A : Type} (l : list A) (i : nat) (a : A) :
  index l i = Ok a ↔ l !! i = Some a.
Proof. unfold index. destruct (l !! i); naive_solver. Qed.

Lemma set_index_ok {A : Type} (l : list A) (i : nat) (a : A) :
  i < length l → set_index l i a = Ok (<[i := a]> l).
Proof. intros H. unfold set_index. by rewrite decide_True. Qed.

Lemma indexZ_ok {A : Type} (l : list A) (i : Z) (a : A) :
  (0 ≤ i)%Z → l !! Z.to_nat i = Some a → indexZ l i = Ok a.
Proof. intros H E. unfold indexZ, index. by rewrite decide_True, E. Qed.

Lemma set_indexZ_ok {A : Type} (l : list A) (i : Z) (a : A) :
  (0 ≤ i < Z.of_nat (length l))%Z → set_indexZ l i a = Ok (<[Z.to_nat i := a]> l).
Proof.
  intros H. unfold set_indexZ. rewrite decide_True by lia. apply set_index_ok. lia.
Qed.

(** Exchanging two elements of a list, each passed through a function that
    keeps what [f] observes of it, permutes the observations. *)
Lemma exchange_Permutation {A B : Type} (f : A → B) (l : list A) (i j : nat) (a b a' b' : A) :
  l !! i = Some a → l !! j = Some b → f a' = f a → f b' = f b → i ≠ j →
  f <$> <[j := a']> (<[i := b']> l) ≡ₚ f <$> l.
Proof.
  intros Hi Hj Ha Hb Hij. apply Permutation_inj.
  split; [by rewrite !length_fmap, !length_insert|].
  exists (λ k, if decide (k = i) then j else if decide (k = j) then i else k). split.
  - intros x y. repeat case_decide; congruence.
  - intros k. pose proof (lookup_lt_Some _ _ _ Hi). pose proof (lookup_lt_Some _ _ _ Hj).
    rewrite !list_lookup_fmap. repeat case_decide; subst.
    + rewrite list_lookup_insert_ne, list_lookup_insert_eq by done. cbn. by rewrite Hj, Hb.
    + rewrite list_lookup_insert_eq by (by rewrite length_insert). cbn. by rewrite Hi, Ha.
    + by rewrite !list_lookup_insert_ne by congruence.
Qed.

(** A sum over a list of which one element changes. *)
Lemma sum_list_with_insert {A : Type} (f : A → nat) (l : list A) (i : nat) (x y : A) :
  l !! i = Some x → sum_list_with f (<[i := y]> l) + f x = sum_list_with f l + f y.
Proof.
  intros Hi. rewrite insert_take_drop by (by eapply lookup_lt_Some).
  rewrite <- (take_drop_middle _ _ _ Hi) at 3. rewrite !sum_list_with_app. cbn [sum_list_with]. lia.
Qed.

Create HintDb go discriminated.
#[export] Hint Resolve signed_range unsigned_range : go.


(** An invariant of every step holds in every state a run reaches. *)
Lemma rtc_invariant {S : Type} (step : relation S) (I : S → Prop) (s s' : S) :
  (∀ x y : S, I x → step x y → I y) → I s → rtc step s s' → I s'.
Proof. intros Hstep Hs Hr. induction Hr; eauto. Qed.

Lemma list_elem_of_concat {A : Type} (x : A) (ls : list (list A)) :
  x ∈ concat ls ↔ ∃ l : list A, l ∈ ls ∧ x ∈ l.
Proof.
  induction ls as [|k ls IH]; cbn.
  - split; [by intros ?%not_elem_of_nil|by intros (l & ?%not_elem_of_nil & _)].
  - rewrite elem_of_app, IH. setoid_rewrite elem_of_cons. naive_solver.
Qed.

(** The value of a call that is known to return, [d] otherwise. *)
Definition get_ok {A : Type} (d : A) (r : result A) : A :=
  match r with Ok a => a | _ => d end.

Lemma get_ok_ok {A : Type} (d : A) (r : result A) :
  match r with Ok _ => True | _ => False end → r = Ok (get_ok d r).
Proof. by destruct r. Qed.
