(* ===== verification/Consts.v ===== *)
(** * Constants and errors

    The enumerations of [src/const.go] and the error values of
    [src/errorx/errorx.go].  A Go enumeration is an open integer type: its
    values are integers of which some have a name, so every method is defined
    on all of [Z]. *)
From S2P Require Import Prelude.
Open Scope Z_scope.

(** ** [const.go] *)

Definition Unknown : string := "unknown".

Definition PrometheusCollector : Z := 0.
Definition OpenTelemetryCollector : Z := 1.

Definition CollectorType_String (c : Z) : string :=
  if decide (c = PrometheusCollector) then "Prometheus"
  else if decide (c = OpenTelemetryCollector) then "OpenTelemetry"
  else Unknown.

Definition CollectorType_Validate (c : Z) : bool :=
  bool_decide (c = PrometheusCollector ∨ c = OpenTelemetryCollector).

Definition MetricsIncOp : Z := 0.
Definition MetricsDecOp : Z := 1.

Definition SwitchSuccess : Z := 0.
Definition SwitchFailure : Z := 1.
Definition SwitchSkip : Z := 2.

Definition SwitchStatus_String (s : Z) : string :=
  if decide (s = SwitchSuccess) then "Switch success"
  else if decide (s = SwitchFailure) then "Switch failure"
  else if decide (s = SwitchSkip) then "Switch skip"
  else "unknown".

(** Double buffer states. *)
Definition WritingState : Z := 0.
Definition SwitchingState : Z := 1.
Definition ClosedState : Z := 2.

Definition SafeRead : Z := 1.
Definition ZeroCopyRead : Z := 2.

Definition ReadMode_String (m : Z) : string :=
  if decide (m = SafeRead) then "Safe read"
  else if decide (m = ZeroCopyRead) then "Zero-copy read"
  else "unknown".

Definition ReadMode_Validate (m : Z) : bool :=
  bool_decide (m = SafeRead ∨ m = ZeroCopyRead).

(** Smart buffer states. *)
Definition WriteOnly : Z := 0.
Definition ReadOnly : Z := 1.
Definition Switching : Z := 2.

(** ** [errorx.go] and the [errors.New] values of the packages *)

Inductive error : Set :=
  | ErrBufferClose
  | ErrBufferFull
  | ErrSizeThreshold
  | ErrPercentThreshold
  | ErrTimeThreshold
  | ErrNoBuffer
  | ErrReadMode
  | ErrRead
  | ErrQueueFull
  | ErrQueueEmpty
  | ErrQueueClosed
  | ErrorsNew (msg : string)   (** a fresh [errors.New(msg)] made by a call *)
  | CtxErr.                    (** [ctx.Err()] of the caller's context *)

#[export] Instance error_eq_dec : EqDecision error.
Proof. solve_decision. Defined.

(** The text of an error; [None] for the context's own error. *)
Definition error_text (e : error) : option string :=
  match e with
  | ErrBufferClose => Some "buffer is closed"
  | ErrBufferFull => Some "buffer is full"
  | ErrSizeThreshold => Some "size threshold cannot be negative and zero"
  | ErrPercentThreshold => Some "percent threshold must be between 0 and 100"
  | ErrTimeThreshold => Some "time threshold cannot be negative"
  | ErrNoBuffer => Some "no buffer to read"
  | ErrReadMode => Some "read mode error"
  | ErrRead => Some "read error"
  | ErrQueueFull => Some "queue is full"
  | ErrQueueEmpty => Some "queue is empty"
  | ErrQueueClosed => Some "queue is closed"
  | ErrorsNew msg => Some msg
  | CtxErr => None
  end%string.

(** ** Lemmas *)

Lemma ReadMode_Validate_true (m : Z) :
  ReadMode_Validate m = true ↔ m = SafeRead ∨ m = ZeroCopyRead.
Proof. apply bool_decide_eq_true. Qed.

Lemma CollectorType_Validate_true (c : Z) :
  CollectorType_Validate c = true ↔ c = PrometheusCollector ∨ c = OpenTelemetryCollector.
Proof. apply bool_decide_eq_true. Qed.

(** A named value prints as itself: [Validate] holds exactly where [String]
    is not the default text. *)
Lemma ReadMode_Validate_String (m : Z) :
  ReadMode_Validate m = true ↔ ReadMode_String m ≠ Unknown.
Proof.
  rewrite ReadMode_Validate_true. unfold ReadMode_String.
  repeat case_decide; naive_solver.
Qed.

Lemma CollectorType_Validate_String (c : Z) :
  CollectorType_Validate c = true ↔ CollectorType_String c ≠ Unknown.
Proof.
  rewrite CollectorType_Validate_true. unfold CollectorType_String.
  repeat case_decide; naive_solver.
Qed.
