(* ===== verification/Interfaces.v ===== *)
(** * Interfaces between the components

    What one component promises to the components that call it, as type
    classes: the client's theorems are proved against the class and the
    implementing file has the instance. *)
From S2P Require Import Prelude.

(** ** A queue of pending buffers ordered by sequence number

    The double buffer files a buffer under its sequence number and later picks
    the one with the smallest number.  An entry is the number and the identity
    of the buffer. *)

Class PendingQueue (H : Type) := {
  pq_new : result H;
  pq_len : H → nat;
  pq_push : Z * nat → H → result H;
  pq_pick : H → result (H * option (Z * nat))
}.

Class PendingQueueLaws (H : Type) `{!PendingQueue H} := {
  pq_wf : H → Prop;
  pq_contents : H → list (Z * nat);
  pq_new_ok : ∃ h : H, pq_new = Ok h ∧ pq_wf h ∧ pq_contents h = [];
  pq_len_ok (h : H) : pq_wf h → pq_len h = length (pq_contents h);
  pq_push_ok (h : H) (x : Z * nat) :
    pq_wf h → ∃ h' : H, pq_push x h = Ok h' ∧ pq_wf h' ∧ pq_contents h' ≡ₚ x :: pq_contents h;
  pq_pick_none (h : H) : pq_wf h → pq_contents h = [] → pq_pick h = Ok (h, None);
  pq_pick_some (h : H) :
    pq_wf h → pq_contents h ≠ [] →
    ∃ (h' : H) (x : Z * nat), pq_pick h = Ok (h', Some x) ∧ pq_wf h' ∧
      pq_contents h ≡ₚ x :: pq_contents h' ∧ ∀ y : Z * nat, y ∈ pq_contents h' → (x.1 ≤ y.1)%Z
}.

(** ** The registries of the Prometheus client

    What the program uses of the client library's [Registry], with the
    documented behaviour of [MustRegister]: it panics when the name is not
    valid or taken, and adds the collector otherwise.  Which names are valid
    depends on the library's configuration.  [C] are the collectors. *)

Record metric_opts := mkOpts { oNamespace : string; oName : string; oHelp : string }.

Definition full_name (o : metric_opts) : string * string := (oNamespace o, oName o).

Class Registry (C R : Type) := {
  NewRegistry : R;
  MustRegister : metric_opts → C → R → result R
}.

Class RegistryLaws (C R : Type) `{!Registry C R} := {
  registered : R → list (metric_opts * C);
  valid_name : string * string → bool;
  NewRegistry_ok : registered NewRegistry = [];
  MustRegister_ok (o : metric_opts) (c : C) (r : R) :
    valid_name (full_name o) = true → full_name o ∉ full_name <$> (registered r).*1 →
    ∃ r' : R, MustRegister o c r = Ok r' ∧ registered r' = registered r ++ [(o, c)];
  MustRegister_panics (o : metric_opts) (c : C) (r : R) :
    valid_name (full_name o) = false ∨ full_name o ∈ full_name <$> (registered r).*1 →
    MustRegister o c r = Panics LibraryPanic
}.

(** [MustRegister] one collector after the other. *)
Fixpoint register_all {C R : Type} `{!Registry C R} (l : list (metric_opts * C)) (r : R) : result R :=
  match l with
  | [] => Ok r
  | (o, c) :: l => rbind (MustRegister o c r) (register_all l)
  end.

Section registry.
  Context {C R : Type} `{RegistryLaws C R}.

Lemma register_all_ok (l : list (metric_opts * C)) (r : R) :
  (∀ o : metric_opts, o ∈ l.*1 → valid_name (full_name o) = true) →
  NoDup (full_name <$> (registered r ++ l).*1) →
  ∃ r' : R, register_all l r = Ok r' ∧ registered r' = registered r ++ l.
Proof.
  revert r. induction l as [|[o c] l IH]; intros r Hv Hnd; cbn.
  { exists r. by rewrite app_nil_r. }
  rewrite (assoc app (registered r) [(o, c)] l) in Hnd.
  destruct (MustRegister_ok o c r) as (r1 & E & Er); [apply Hv; left| |].
  { rewrite !fmap_app in Hnd. apply NoDup_app in Hnd as [Hnd _].
    apply NoDup_app in Hnd as (_ & Hd & _). intros Hin. apply (Hd _ Hin). left. }
  rewrite E. cbn. rewrite <- Er in Hnd.
  destruct (IH r1) as (r' & E' & Er'); [intros o' Ho'; apply Hv; by right|done|].
  exists r'. split; [done|]. by rewrite Er', Er, <- (assoc app).
Qed.

Lemma register_all_panics (l : list (metric_opts * C)) (r : R) (o : metric_opts) :
  o ∈ l.*1 → valid_name (full_name o) = false → NoDup (full_name <$> (registered r ++ l).*1) →
  register_all l r = Panics LibraryPanic.
Proof.
  revert r. induction l as [|[o' c] l IH]; intros r Hin Hv Hnd; cbn; [by apply elem_of_nil in Hin|].
  destruct (valid_name (full_name o')) eqn:Ev.
  - rewrite (assoc app (registered r) [(o', c)] l) in Hnd.
    destruct (MustRegister_ok o' c r Ev) as (r1 & -> & Er).
    { rewrite !fmap_app in Hnd. apply NoDup_app in Hnd as [Hnd _].
      apply NoDup_app in Hnd as (_ & Hd & _). intros Hx. apply (Hd _ Hx). left. }
    cbn. apply IH; [|done|by rewrite Er].
    cbn in Hin. apply elem_of_cons in Hin as [->|?]; [congruence|done].
  - by rewrite MustRegister_panics by (by left).
Qed.
End registry.

(** A registry that keeps the list of its collectors; [valid] decides which
    names it takes. *)
Definition list_registry (C : Type) (valid : string * string → bool) :
    Registry C (list (metric_opts * C)) := {|
  NewRegistry := [];
  MustRegister o c r :=
    if decide (valid (full_name o) = true ∧ full_name o ∉ full_name <$> r.*1) then Ok (r ++ [(o, c)])
    else Panics LibraryPanic
|}.

Program Definition list_registry_laws (C : Type) (valid : string * string → bool) :
    @RegistryLaws C _ (list_registry C valid) := {|
  registered r := r;
  valid_name := valid
|}.
Next Obligation. done. Qed.
Next Obligation. intros C valid o c r Hv Hf. exists (r ++ [(o, c)]). cbn. by rewrite decide_True. Qed.
Next Obligation.
  intros C valid o c r Hb. cbn. rewrite decide_False; [done|]. intros [? ?].
  destruct Hb; [congruence|done].
Qed.
