(* ===== verification/Runtime.v ===== *)
(** * The Go runtime services the program uses

    Memory with raw addresses (the program keeps data as pointer and size and
    rebuilds slices with [unsafe.Slice]), slices, [sync.Pool] and durations. *)
From Stdlib Require Export Init.Byte.
From S2P Require Import Prelude.
Open Scope Z_scope.
Open Scope go_scope.

(** ** Memory *)

(** Mapped bytes by address; every mapped address is positive and below
    [brk], where the next object is allocated. *)
Record memory := mkMem { bytes : gmap Z byte; brk : Z }.

Definition mem_wf (m : memory) : Prop :=
  0 < brk m ∧ ∀ a : Z, is_Some (bytes m !! a) → 0 < a < brk m.

Definition empty_mem : memory := mkMem ∅ 1.

(** [n] bytes from address [p]. *)
Definition load (m : memory) (p : Z) (n : nat) : option (list byte) :=
  mapM (λ i, bytes m !! i) (seqZ p (Z.of_nat n)).

Definition store (p : Z) (l : list byte) (m : memory) : memory :=
  mkMem (map_seqZ p l ∪ bytes m) (brk m).

(** A new zeroed object of [n] bytes; two objects never share an address, also
    when they are empty. *)
Definition alloc (n : nat) (m : memory) : memory * Z :=
  (mkMem (map_seqZ (brk m) (replicate n x00) ∪ bytes m) (brk m + Z.of_nat n + 1), brk m).

(** ** Slices of bytes *)

Record slice := mkSlice { sptr : Z; slen : Z; scap : Z }.

#[export] Instance slice_eq_dec : EqDecision slice.
Proof. solve_decision. Defined.

Definition nil_slice : slice := mkSlice 0 0 0.

(** [make([]byte, len, cap)]. *)
Definition make_bytes (len cap : Z) (m : memory) : result (memory * slice) :=
  if decide (0 ≤ len ∧ len ≤ cap) then
    let (m, p) := alloc (Z.to_nat cap) m in
    Ok (m, mkSlice p len cap)
  else Panics MakeLenOutOfRange.

(** [s[:n]]. *)
Definition reslice (s : slice) (n : Z) : result slice :=
  if decide (0 ≤ n ≤ scap s) then Ok (mkSlice (sptr s) n (scap s))
  else Panics SliceBoundsOutOfRange.

(** [&s[0]]. *)
Definition addr_of_first (s : slice) : result Z :=
  if decide (0 < slen s) then Ok (sptr s) else Panics IndexOutOfRange.

(** The bytes a slice shows. *)
Definition slice_bytes (m : memory) (s : slice) : option (list byte) :=
  load m (sptr s) (Z.to_nat (slen s)).

(** [copy(dst, src)]; reading an unmapped address faults. *)
Definition copy (dst src : slice) (m : memory) : result memory :=
  let n := Z.min (slen dst) (slen src) in
  match load m (sptr src) (Z.to_nat n) with
  | Some l => Ok (store (sptr dst) l m)
  | None => Panics NilDereference
  end.

(** ** [sync.Pool] *)

(** [Get] takes an arbitrary pooled element or none at all; [choice] says
    which.  [None] as the result: the pool calls its [New]. *)
Definition pool_take {A : Type} (choice : option nat) (p : list A) : option (A * list A) :=
  match choice with
  | None => None
  | Some i =>
      match p !! i with
      | Some x => Some (x, delete i p)
      | None => None
      end
  end.

Definition pool_put {A : Type} (x : A) (p : list A) : list A := x :: p.

(** ** Time *)

(** Durations and instants are nanoseconds. *)
Definition second : Z := 1000000000.
Definition minute : Z := 60 * second.
Definition millisecond : Z := 1000000.

(** [time.Since(t)] at [now]: the difference saturates. *)
Definition since (now t : Z) : Z := Z.max (- 2 ^ 63) (Z.min (2 ^ 63 - 1) (now - t)).

(** ** Ranging over a map while deleting from it *)

(** The loop [for k, v := range m { if test(v) { delete(m, k); count++; if
    count > limit { return } } }].  The language leaves the iteration order
    open, so it is an argument: a list of the entries of [m], each visited
    once.  Deleting the entry under the cursor does not affect the others. *)
Fixpoint sweep {V : Type} (test : nat → V → bool) (limit : nat) (i : nat)
    (order : list (Z * V)) (m : gmap Z V) (count : nat) : gmap Z V :=
  match order with
  | [] => m
  | (k, v) :: order =>
      if test i v then
        let m := delete k m in
        let count := S count in
        if decide (limit < count)%nat then m else sweep test limit (S i) order m count
      else sweep test limit (S i) order m count
  end.

(** ** Lemmas *)

Lemma load_lookup (m : memory) (p : Z) (n : nat) (l : list byte) :
  load m p n = Some l ↔
  length l = n ∧ ∀ (i : nat) (b : byte), l !! i = Some b → bytes m !! (p + Z.of_nat i) = Some b.
Proof.
  unfold load. rewrite mapM_Some. split.
  - intros H. pose proof (Forall2_length _ _ _ H) as Hl. rewrite length_seqZ in Hl.
    split; [lia|]. intros i b Hb.
    destruct (Forall2_lookup_r _ _ _ _ _ H Hb) as (a & Ha & E).
    apply lookup_seqZ in Ha as [-> _]. done.
  - intros [Hl H]. apply Forall2_same_length_lookup_2; [rewrite length_seqZ; lia|].
    intros i a b Ha Hb. apply lookup_seqZ in Ha as [-> _]. by apply H.
Qed.

Lemma lookup_store (m : memory) (p a : Z) (l : list byte) :
  bytes (store p l m) !! a =
    if decide (p ≤ a < p + Z.of_nat (length l)) then l !! Z.to_nat (a - p) else bytes m !! a.
Proof.
  unfold store; cbn. rewrite lookup_union. case_decide as Ha.
  - destruct (lookup_lt_is_Some_2 l (Z.to_nat (a - p))) as [b Hb]; [lia|].
    assert (map_seqZ (M := gmap Z byte) p l !! a = Some b) as ->.
    { apply lookup_map_seqZ_Some. split; [lia|done]. }
    rewrite Hb. by destruct (bytes m !! a).
  - assert (map_seqZ (M := gmap Z byte) p l !! a = None) as ->.
    { apply lookup_map_seqZ_None. lia. }
    by destruct (bytes m !! a).
Qed.

(** What was stored is what is loaded. *)
Lemma load_store (m : memory) (p : Z) (l : list byte) :
  load (store p l m) p (length l) = Some l.
Proof.
  apply load_lookup. split; [done|]. intros i b Hb. rewrite lookup_store.
  pose proof (lookup_lt_Some _ _ _ Hb). rewrite decide_True by lia.
  by replace (Z.to_nat (p + Z.of_nat i - p)) with i by lia.
Qed.

(** A store elsewhere is not seen. *)
Lemma load_store_disjoint (m : memory) (p q : Z) (n : nat) (l l' : list byte) :
  (q + Z.of_nat n ≤ p ∨ p + Z.of_nat (length l) ≤ q) →
  load m q n = Some l' → load (store p l m) q n = Some l'.
Proof.
  intros Hd [Hl H]%load_lookup. apply load_lookup. split; [done|]. intros i b Hb.
  rewrite lookup_store. apply lookup_lt_Some in Hb as Hlt.
  rewrite decide_False by lia. by apply H.
Qed.

Lemma store_wf (m : memory) (p : Z) (l : list byte) :
  mem_wf m → 0 < p → p + Z.of_nat (length l) ≤ brk m → mem_wf (store p l m).
Proof.
  intros [Hb Hm] Hp Hl. split; [done|]. intros a. rewrite lookup_store.
  case_decide; [cbn; lia|apply Hm].
Qed.

Lemma load_range (m : memory) (p : Z) (n : nat) (l : list byte) :
  mem_wf m → (0 < n)%nat → load m p n = Some l → 0 < p ∧ p + Z.of_nat n ≤ brk m.
Proof.
  intros [_ Hm] Hn [Hl H]%load_lookup.
  destruct (lookup_lt_is_Some_2 l 0) as [b0 H0]; [lia|].
  destruct (lookup_lt_is_Some_2 l (n - 1)) as [b1 H1]; [lia|].
  pose proof (Hm _ (mk_is_Some _ _ (H _ _ H0))). pose proof (Hm _ (mk_is_Some _ _ (H _ _ H1))). lia.
Qed.

Lemma alloc_eq (n : nat) (m : memory) :
  alloc n m = (mkMem (bytes (store (brk m) (replicate n x00) m)) (brk m + Z.of_nat n + 1), brk m).
Proof. done. Qed.

Lemma alloc_wf (n : nat) (m : memory) : mem_wf m → mem_wf (alloc n m).1.
Proof.
  intros [Hb Hm]. rewrite alloc_eq. split; cbn -[store]; [lia|]. intros a.
  rewrite lookup_store, length_replicate. case_decide; intros Ha; [lia|]. apply Hm in Ha. lia.
Qed.

(** A new object is disjoint from everything mapped before. *)
Lemma load_alloc (m : memory) (n k : nat) (p : Z) (l : list byte) :
  mem_wf m → load m p k = Some l → load (alloc n m).1 p k = Some l.
Proof.
  intros Hwf Hl. destruct k as [|k]; [by apply load_lookup in Hl as [->%nil_length_inv _]|].
  pose proof (load_range m p (S k) l Hwf ltac:(lia) Hl).
  rewrite alloc_eq. change (load (store (brk m) (replicate n x00) m) p (S k) = Some l).
  apply load_store_disjoint; [left; lia|done].
Qed.

Lemma load_alloc_new (m : memory) (n : nat) :
  load (alloc n m).1 (brk m) n = Some (replicate n x00).
Proof.
  rewrite alloc_eq. change (load (store (brk m) (replicate n x00) m) (brk m) n = Some (replicate n x00)).
  rewrite <- (length_replicate n x00) at 2. apply load_store.
Qed.

Lemma pool_take_Some {A : Type} (choice : option nat) (p p' : list A) (x : A) :
  pool_take choice p = Some (x, p') → p ≡ₚ x :: p'.
Proof.
  unfold pool_take. repeat case_match; intros; simplify_eq. by apply delete_Permutation.
Qed.

Lemma sweep_spec {V : Type} (test : nat → V → bool) (limit i count : nat)
    (order : list (Z * V)) (m : gmap Z V) :
  NoDup order.*1 → (∀ (k : Z) (v : V), (k, v) ∈ order → m !! k = Some v) → (count ≤ limit)%nat →
  let m' := sweep test limit i order m count in
  m' ⊆ m ∧
  (∀ (k : Z) (v : V), m !! k = Some v → m' !! k = None →
     (k, v) ∈ order ∧ ∃ j : nat, test j v = true) ∧
  ∃ n : nat, size m = (size m' + n)%nat ∧ (count + n ≤ S limit)%nat ∧
    ((count + n)%nat = S limit ∨
     ∀ (k : Z) (v : V), (k, v) ∈ order → m' !! k = Some v → ∃ j : nat, test j v = false).
Proof.
  revert i m count. induction order as [|[k v] order IH]; intros i m count Hnd Hin Hc; cbn.
  { split; [done|]. split; [intros; congruence|]. exists 0%nat. split; [lia|]. split; [lia|].
    right. by intros ?? ?%not_elem_of_nil. }
  cbn in Hnd. apply NoDup_cons in Hnd as [Hk Hnd].
  assert (∀ (k' : Z) (v' : V), (k', v') ∈ order → k' ≠ k) as Hne.
  { intros k' v' Hk' ->. apply Hk. apply list_elem_of_fmap. by exists (k, v'). }
  assert (m !! k = Some v) as Hmk by (apply Hin; by left).
  destruct (test i v) eqn:Et; [case_decide as El|].
  - split; [apply delete_subseteq|]. split.
    + intros k' v' Hk' Hd. destruct (decide (k' = k)) as [->|].
      * simplify_eq. split; [by left|by exists i].
      * rewrite lookup_delete_ne in Hd by done. congruence.
    + exists 1%nat. rewrite map_size_delete_Some by done.
      assert (size m ≠ 0)%nat by (intros E%map_size_empty_inv; subst m; done).
      split; [lia|]. split; [lia|]. left. lia.
  - destruct (IH (S i) (delete k m) (S count) Hnd) as (Hsub & Hrem & n & Hs & Hl & Hrest); [|lia|].
    { intros k' v' Hk'. rewrite lookup_delete_ne; [apply Hin; by right|].
      intros ->. by eapply Hne. }
    split; [etrans; [done|apply delete_subseteq]|]. split.
    + intros k' v' Hk' Hd. destruct (decide (k' = k)) as [->|].
      * simplify_eq. split; [by left|by exists i].
      * destruct (Hrem k' v') as [? ?]; [by rewrite lookup_delete_ne|done|]. split; [by right|done].
    + exists (S n). rewrite map_size_delete_Some in Hs by done.
      assert (size m ≠ 0)%nat by (intros E%map_size_empty_inv; subst m; done).
      split; [lia|]. split; [lia|]. destruct Hrest as [?|Hrest]; [left; lia|right].
      intros k' v' [E|Hk']%elem_of_cons Hv'; [|by eapply Hrest]. simplify_eq.
      pose proof (lookup_weaken _ _ _ _ Hv' Hsub) as Hx. by rewrite lookup_delete_eq in Hx.
  - destruct (IH (S i) m count Hnd) as (Hsub & Hrem & n & Hs & Hl & Hrest); [|lia|].
    { intros k' v' Hk'. apply Hin. by right. }
    split; [done|]. split.
    + intros k' v' Hk' Hd. destruct (Hrem k' v' Hk' Hd). split; [by right|done].
    + exists n. split; [done|]. split; [done|]. destruct Hrest as [?|Hrest]; [by left|right].
      intros k' v' [E|Hk']%elem_of_cons Hv'; [simplify_eq; by exists i|by eapply Hrest].
Qed.
