(* ===== verification/Float64.v ===== *)
(** * IEEE 754 binary64

    Go's [float64], as the standard library's [SpecFloat] computes it: round
    to nearest even, every operation rounded on its own. *)
From Stdlib Require Import SpecFloat QArith Lqa Qpower.
From S2P Require Import Prelude.
Open Scope Z_scope.

Abbreviation float64 := spec_float.

Definition f64_add (x y : float64) : float64 := SFadd 53 1024 x y.
Definition f64_mul (x y : float64) : float64 := SFmul 53 1024 x y.
Definition f64_div (x y : float64) : float64 := SFdiv 53 1024 x y.
Definition f64_neg (x : float64) : float64 := SFopp x.

(** Comparisons are false when an operand is not a number. *)
Definition f64_leb (x y : float64) : bool := SFleb x y.
Definition f64_ltb (x y : float64) : bool := SFltb x y.
Definition f64_eqb (x y : float64) : bool := SFeqb x y.

(** [float64(n)] of an integer. *)
Definition f64_of_Z (n : Z) : float64 := binary_normalize 53 1024 n 0 false.

(** A decimal constant [num / den]; exact operands make the division round
    the exact quotient once. *)
Definition f64_ratio (num den : Z) : float64 := f64_div (f64_of_Z num) (f64_of_Z den).

(** The integer part, rounded towards zero; [None] for infinities and not a
    number. *)
Definition f64_trunc (x : float64) : option Z :=
  match x with
  | S754_zero _ => Some 0
  | S754_finite s m e =>
      let n := if decide (0 ≤ e) then Z.pos m * 2 ^ e else Z.pos m `div` 2 ^ (- e) in
      Some (if s then - n else n)
  | _ => None
  end.

(** [int64(x)]: the conversion of a value that does not fit is left to the
    platform by the language, here the argument [ub]. *)
Definition f64_to_int64 (ub : float64 → Z) (x : float64) : Z :=
  match f64_trunc x with
  | Some n => if decide (- 2 ^ 63 ≤ n < 2 ^ 63) then n else ub x
  | None => ub x
  end.

(** The platform conversion of amd64: the smallest integer. *)
Definition amd64_overflow (_ : float64) : Z := - 2 ^ 63.

(** ** The number a float stands for *)

Definition pow2 (e : Z) : Q := Qpower (2 # 1) e.

(** [r] is positive, normalised and within a relative error of [2 ^ -52] of
    [x]. *)
Definition approx (x : Q) (r : float64) : Prop :=
  ∃ (m : positive) (e : Z), r = S754_finite false m e ∧ 2 ^ 52 ≤ Z.pos m < 2 ^ 53 ∧
    (- (x * pow2 (-52)) <= inject_Z (Z.pos m) * pow2 e - x <= x * pow2 (-52))%Q.

(** [r] is positive, normalised and within a relative error of [eps] of [x]. *)
Definition within (eps x : Q) (r : float64) : Prop :=
  ∃ (m : positive) (e : Z), r = S754_finite false m e ∧ 2 ^ 52 ≤ Z.pos m < 2 ^ 53 ∧
    (x * (1 - eps) <= inject_Z (Z.pos m) * pow2 e <= x * (1 + eps))%Q.

(** The unit of relative rounding error. *)
Definition ulp : Q := pow2 (-52).

(** The value of a finite float. *)
Definition f64_val (r : float64) : Q :=
  match r with
  | S754_finite s m e => (inject_Z (if s then Z.neg m else Z.pos m) * pow2 e)%Q
  | _ => 0%Q
  end.

(** ** Powers of two *)

Lemma pow2_pos (e : Z) : (0 < pow2 e)%Q.
Proof. apply Qpower_0_lt. reflexivity. Qed.

Lemma pow2_add (a b : Z) : (pow2 (a + b) == pow2 a * pow2 b)%Q.
Proof. apply Qpower_plus. discriminate. Qed.

Lemma pow2_Z (n : Z) : 0 ≤ n → (pow2 n == inject_Z (2 ^ n))%Q.
Proof. intros Hn. unfold pow2. symmetry. by apply Zpower_Qpower. Qed.

Lemma pow2_le (a b : Z) : a ≤ b → (pow2 a <= pow2 b)%Q.
Proof. intros H. apply Qpower_le_compat_l; [done|discriminate]. Qed.

Lemma pow2_lt_inv (a b : Z) : (pow2 a < pow2 b)%Q → a < b.
Proof.
  intros H. destruct (Z.lt_ge_cases a b); [done|].
  pose proof (pow2_le b a ltac:(lia)). lra.
Qed.

(** ** Digits and shifts *)

Lemma digits2_pos_bounds (m : positive) :
  2 ^ (Z.pos (digits2_pos m) - 1) ≤ Z.pos m < 2 ^ Z.pos (digits2_pos m).
Proof.
  induction m as [m IH|m IH|]; cbn [digits2_pos]; [| |done];
    rewrite Pos2Z.inj_succ, Z.pow_succ_r by lia;
    replace (Z.succ (Z.pos (digits2_pos m)) - 1) with (Z.succ (Z.pos (digits2_pos m) - 1)) by lia;
    rewrite Z.pow_succ_r by lia; lia.
Qed.

(** A number of at least [2 ^ k] has more than [k] digits. *)
Lemma digits2_pos_ge (m : positive) (k : Z) :
  0 ≤ k → 2 ^ k ≤ Z.pos m → k < Z.pos (digits2_pos m).
Proof.
  intros Hk H. pose proof (digits2_pos_bounds m) as [_ Hb].
  destruct (Z.lt_ge_cases k (Z.pos (digits2_pos m))) as [|Hge]; [done|].
  pose proof (Z.pow_le_mono_r 2 _ _ ltac:(lia) Hge). lia.
Qed.

Lemma digits2_pos_le (m : positive) (k : Z) :
  0 ≤ k → Z.pos m < 2 ^ k → Z.pos (digits2_pos m) ≤ k.
Proof.
  intros Hk H. pose proof (digits2_pos_bounds m) as [Hb _].
  destruct (Z.le_gt_cases (Z.pos (digits2_pos m)) k) as [|Hgt]; [done|].
  pose proof (Z.pow_le_mono_r 2 k (Z.pos (digits2_pos m) - 1) ltac:(lia) ltac:(lia)). lia.
Qed.

Definition exact (r : shr_record) : Prop := shr_r r = false ∧ shr_s r = false.

Lemma shr_1_spec (r : shr_record) :
  0 ≤ shr_m r →
  shr_m (shr_1 r) = shr_m r `div` 2 ∧
  (exact (shr_1 r) → shr_m r = 2 * shr_m (shr_1 r) ∧ exact r).
Proof.
  destruct r as [m rr s]. cbn. intros Hm. unfold exact.
  destruct m as [|[p|p|]|p]; cbn; (split; [try done; try mod_lia|]);
    intros [? ?]; destruct rr, s; try done; try lia.
Qed.

Lemma shr_iter_spec (p : positive) (r : shr_record) :
  0 ≤ shr_m r →
  shr_m (SpecFloat.iter_pos shr_1 p r) = shr_m r `div` 2 ^ Z.pos p ∧
  (exact (SpecFloat.iter_pos shr_1 p r) → shr_m r = 2 ^ Z.pos p * shr_m (SpecFloat.iter_pos shr_1 p r) ∧ exact r).
Proof.
  revert r. induction p as [p IH|p IH|]; intros r Hr; cbn [SpecFloat.iter_pos].
  - destruct (shr_1_spec r Hr) as [E1 X1].
    assert (0 ≤ shr_m (shr_1 r)) as H1 by (rewrite E1; apply Z.div_pos; lia).
    destruct (IH (shr_1 r) H1) as [E2 X2].
    assert (0 ≤ shr_m (SpecFloat.iter_pos shr_1 p (shr_1 r))) as H2
      by (rewrite E2; apply Z.div_pos; lia).
    destruct (IH _ H2) as [E3 X3]. rewrite (Pos2Z.inj_xI p).
    replace (2 * Z.pos p + 1) with (Z.pos p + Z.pos p + 1) by lia.
    rewrite !Z.pow_add_r by lia. change (2 ^ 1) with 2. split.
    + rewrite E3, E2, E1, !Z.div_div by lia. f_equal. lia.
    + intros [A1 [A2 [A3 ?]%X1]%X2]%X3. split; [rewrite A3, A2, A1; lia|done].
  - destruct (IH r Hr) as [E2 X2].
    assert (0 ≤ shr_m (SpecFloat.iter_pos shr_1 p r)) as H2 by (rewrite E2; apply Z.div_pos; lia).
    destruct (IH _ H2) as [E3 X3]. rewrite (Pos2Z.inj_xO p).
    replace (2 * Z.pos p) with (Z.pos p + Z.pos p) by lia. rewrite Z.pow_add_r by lia. split.
    + by rewrite E3, E2, Z.div_div by lia.
    + intros [E [E' ?]%X2]%X3. split; [|done]. rewrite E', E. lia.
  - destruct (shr_1_spec r Hr). done.
Qed.

(** ** Rounding *)

Lemma shr_fexp_pos (m e : Z) (l : location) (p : positive) :
  fexp 53 1024 (Zdigits2 m + e) - e = Z.pos p →
  shr_fexp 53 1024 m e l = (SpecFloat.iter_pos shr_1 p (shr_record_of_loc m l), e + Z.pos p).
Proof. intros H. unfold shr_fexp, shr. by rewrite H. Qed.

Lemma shr_fexp_zero (m e : Z) (l : location) :
  fexp 53 1024 (Zdigits2 m + e) - e = 0 →
  shr_fexp 53 1024 m e l = (shr_record_of_loc m l, e).
Proof. intros H. unfold shr_fexp, shr. by rewrite H. Qed.

Lemma loc_of_exact (r : shr_record) : loc_of_shr_record r = loc_Exact → exact r.
Proof. by destruct r as [m [] []]. Qed.

(** The last step of a rounding: a mantissa of 53 bits, or [2 ^ 53]. *)
Lemma finish_ok (m1 e1 : Z) :
  2 ^ 52 ≤ m1 ≤ 2 ^ 53 → -1074 ≤ e1 ≤ 960 →
  ∃ (r : shr_record) (e : Z) (m : positive),
    shr_fexp 53 1024 m1 e1 loc_Exact = (r, e) ∧ shr_m r = Z.pos m ∧ e ≤ 971 ∧
    2 ^ 52 ≤ Z.pos m < 2 ^ 53 ∧
    (inject_Z (Z.pos m) * pow2 e == inject_Z m1 * pow2 e1)%Q.
Proof.
  intros Hm He. destruct m1 as [|p|]; [lia| |lia].
  destruct (decide (Z.pos p = 2 ^ 53)) as [->|Hne].
  - rewrite (shr_fexp_pos _ _ _ 1).
    2: { unfold fexp, emin. change (Zdigits2 (2 ^ 53)) with 54. lia. }
    eexists _, _, (2 ^ 52)%positive. split; [done|]. split; [done|]. split; [lia|].
    split; [done|]. rewrite pow2_add. change (pow2 1) with (2 # 1)%Q.
    change (inject_Z (2 ^ 53)) with ((inject_Z (Z.pos (2 ^ 52))) * (2 # 1))%Q. ring.
  - pose proof (digits2_pos_ge p 52 ltac:(lia) ltac:(lia)).
    pose proof (digits2_pos_le p 53 ltac:(lia) ltac:(lia)).
    rewrite shr_fexp_zero.
    2: { unfold fexp, emin. cbn [Zdigits2]. lia. }
    eexists _, _, p. split; [done|]. split; [done|]. split; [lia|]. split; [lia|]. reflexivity.
Qed.

(** The first step: the digits beyond 53 are shifted out. *)
Lemma truncate_ok (m : positive) (e : Z) (l : location) (x : Q) :
  2 ^ 52 ≤ Z.pos m → -1074 ≤ e → Z.pos (digits2_pos m) + e ≤ 1000 →
  (inject_Z (Z.pos m) * pow2 e <= x < inject_Z (Z.pos m + 1) * pow2 e)%Q →
  (l = loc_Exact → x == inject_Z (Z.pos m) * pow2 e)%Q →
  ∃ (r : shr_record) (e1 : Z),
    shr_fexp 53 1024 (Z.pos m) e l = (r, e1) ∧ 2 ^ 52 ≤ shr_m r < 2 ^ 53 ∧
    -1074 ≤ e1 ≤ 960 ∧
    (inject_Z (shr_m r) * pow2 e1 <= x < inject_Z (shr_m r + 1) * pow2 e1)%Q ∧
    (loc_of_shr_record r = loc_Exact → x == inject_Z (shr_m r) * pow2 e1)%Q.
Proof.
  intros Hm He Hd Hx Hex. pose proof (digits2_pos_bounds m) as Hb.
  pose proof (digits2_pos_ge m 52 ltac:(lia) Hm) as Hge.
  destruct (Z.eq_dec (Z.pos (digits2_pos m)) 53) as [E53|Hne].
  - exists (shr_record_of_loc (Z.pos m) l), e. rewrite shr_fexp_zero.
    2: { unfold fexp, emin. cbn [Zdigits2]. lia. }
    assert (shr_m (shr_record_of_loc (Z.pos m) l) = Z.pos m) as -> by by destruct l as [|[]].
    rewrite E53 in Hb. split_and!; [done|lia|lia|lia|lia|apply Hx|apply Hx|].
    intros Hl. apply Hex. by destruct l as [|[]].
  - destruct (Z.pos (digits2_pos m) - 53) as [|p|] eqn:Ep; [lia| |lia].
    rewrite (shr_fexp_pos _ _ _ p).
    2: { unfold fexp, emin. cbn [Zdigits2]. lia. }
    set (r0 := shr_record_of_loc (Z.pos m) l).
    assert (shr_m r0 = Z.pos m) as E0 by by destruct l as [|[]].
    destruct (shr_iter_spec p r0 ltac:(lia)) as [Em Hexact]. rewrite E0 in *.
    set (r := SpecFloat.iter_pos shr_1 p r0) in *.
    pose proof (Z.div_mod (Z.pos m) (2 ^ Z.pos p) ltac:(lia)) as Hdm.
    pose proof (Z.mod_pos_bound (Z.pos m) (2 ^ Z.pos p) ltac:(lia)) as Hmod.
    rewrite <- Em in Hdm.
    exists r, (e + Z.pos p). split; [done|].
    replace (Z.pos (digits2_pos m)) with (Z.pos p + 53) in Hb by lia.
    replace (Z.pos p + 53 - 1) with (Z.pos p + 52) in Hb by lia.
    rewrite !Z.pow_add_r in Hb by lia. split; [nia|]. split; [lia|].
    rewrite pow2_add, (Qmult_comm (pow2 e)), !Qmult_assoc, pow2_Z, <- !inject_Z_mult by lia.
    pose proof (pow2_pos e). split.
    + split.
      * eapply Qle_trans; [|apply Hx]. apply Qmult_le_compat_r; [|lra]. rewrite <- Zle_Qle. lia.
      * eapply Qlt_le_trans; [apply Hx|]. apply Qmult_le_compat_r; [|lra].
        rewrite <- Zle_Qle. lia.
    + intros [Hmul Hr0]%loc_of_exact%Hexact.
      assert (l = loc_Exact) as Hl.
      { destruct l as [|[]]; [done|destruct Hr0; done..]. }
      rewrite (Hex Hl), Hmul. by rewrite Z.mul_comm.
Qed.

Lemma round_nearest_even_range (m : Z) (l : location) :
  (round_nearest_even m l = m ∨ round_nearest_even m l = m + 1) ∧
  (l = loc_Exact → round_nearest_even m l = m).
Proof. destruct l as [|[]]; cbn; try case_match; (split; auto; discriminate). Qed.

(** A positive number between two consecutive mantissas, whichever the tie
    rule, is rounded within a relative error of [2 ^ -52]. *)
Lemma round_aux_approx (m : positive) (e : Z) (l : location) (x : Q) :
  2 ^ 52 ≤ Z.pos m → -1074 ≤ e → Z.pos (digits2_pos m) + e ≤ 1000 →
  (inject_Z (Z.pos m) * pow2 e <= x < inject_Z (Z.pos m + 1) * pow2 e)%Q →
  (l = loc_Exact → x == inject_Z (Z.pos m) * pow2 e)%Q →
  approx x (binary_round_aux 53 1024 false (Z.pos m) e l).
Proof.
  intros Hm He Hd Hx Hex.
  destruct (truncate_ok m e l x Hm He Hd Hx Hex) as (r & e1 & E1 & Hm1 & He1 & Hx1 & Hex1).
  unfold binary_round_aux. rewrite E1.
  destruct (round_nearest_even_range (shr_m r) (loc_of_shr_record r)) as [Hr Hre].
  set (m2 := round_nearest_even (shr_m r) (loc_of_shr_record r)) in *.
  destruct (finish_ok m2 e1) as (r2 & e2 & m3 & -> & -> & He2 & Hm3 & Hv); [lia|lia|].
  assert ((e2 <=? 1024 - 53) = true) as -> by lia.
  exists m3, e2. split; [done|]. split; [done|]. rewrite Hv.
  pose proof (pow2_pos e1) as Hp.
  assert (inject_Z (2 ^ 52) * pow2 e1 <= x)%Q as Hlow.
  { eapply Qle_trans; [|apply Hx1]. apply Qmult_le_compat_r; [|lra]. rewrite <- Zle_Qle. lia. }
  assert (pow2 e1 <= x * pow2 (-52))%Q as Hu.
  { change (pow2 (-52)) with (/ inject_Z (2 ^ 52))%Q.
    apply Qle_shift_div_l; [done|]. rewrite Qmult_comm. done. }
  rewrite inject_Z_plus, Qmult_plus_distr_l in Hx1.
  change (inject_Z 1 * pow2 e1)%Q with (1 * pow2 e1)%Q in Hx1.
  destruct Hr as [Hr|Hr]; rewrite Hr.
  - split; lra.
  - rewrite inject_Z_plus, Qmult_plus_distr_l. change (inject_Z 1) with 1%Q. split; lra.
Qed.

(** ** Operations on positive floats *)

Lemma approx_within (x : Q) (r : float64) : approx x r → within ulp x r.
Proof.
  intros (m & e & -> & Hm & H). exists m, e. split; [done|]. split; [done|].
  unfold ulp. split; lra.
Qed.

Lemma pos_iter_xO (m k : positive) : Z.pos (Pos.iter xO m k) = Z.pos m * 2 ^ Z.pos k.
Proof.
  induction k as [|k IH] using Pos.peano_ind; [cbn; lia|].
  rewrite Pos.iter_succ, Pos2Z.inj_succ, Z.pow_succ_r by lia. rewrite Pos2Z.inj_xO. lia.
Qed.

(** Aligning to a smaller exponent keeps the value. *)
Lemma shl_align_ok (m : positive) (e e' : Z) :
  let '(m', e1) := shl_align m e e' in
  e1 = Z.min e e' ∧ Z.pos m' = Z.pos m * 2 ^ (e - e1).
Proof.
  unfold shl_align. destruct (e' - e) as [|p|p] eqn:E.
  - replace (Z.min e e') with e by lia. rewrite Z.sub_diag. split; [done|lia].
  - replace (Z.min e e') with e by lia. rewrite Z.sub_diag. split; [done|lia].
  - replace (Z.min e e') with e' by lia. split; [done|]. rewrite pos_iter_xO. f_equal. f_equal. lia.
Qed.

Lemma scale_pow2 (m : Z) (e e' : Z) :
  e' ≤ e → (inject_Z (m * 2 ^ (e - e')) * pow2 e' == inject_Z m * pow2 e)%Q.
Proof.
  intros H. rewrite inject_Z_mult, <- pow2_Z, <- Qmult_assoc, <- pow2_add by lia.
  replace (e - e' + e') with e by lia. reflexivity.
Qed.

Lemma binary_round_approx (m : positive) (e : Z) (x : Q) :
  -1000 ≤ Z.pos (digits2_pos m) + e ≤ 1000 → -1074 ≤ e →
  (x == inject_Z (Z.pos m) * pow2 e)%Q →
  approx x (binary_round 53 1024 false m e).
Proof.
  intros Hd He Hx. unfold binary_round.
  pose proof (shl_align_ok m e (fexp 53 1024 (Z.pos (digits2_pos m) + e))) as Ha.
  destruct (shl_align _ _ _) as [m' e']. destruct Ha as [E1 E2].
  pose proof (digits2_pos_bounds m) as Hb. unfold fexp, emin in E1.
  assert (2 ^ 52 ≤ Z.pos m') as Hm'.
  { rewrite E2. destruct (Z.le_gt_cases (Z.pos (digits2_pos m)) 53) as [Hle|Hgt].
    - replace (e - e') with (53 - Z.pos (digits2_pos m)) by lia.
      transitivity (2 ^ (Z.pos (digits2_pos m) - 1) * 2 ^ (53 - Z.pos (digits2_pos m))).
      + rewrite <- Z.pow_add_r by lia.
        by replace (Z.pos (digits2_pos m) - 1 + (53 - Z.pos (digits2_pos m))) with 52 by lia.
      + apply Z.mul_le_mono_nonneg_r; [apply Z.pow_nonneg; lia|lia].
    - replace (e - e') with 0 by lia.
      pose proof (Z.pow_le_mono_r 2 52 (Z.pos (digits2_pos m) - 1) ltac:(lia) ltac:(lia)). lia. }
  assert (Z.pos (digits2_pos m') + e' ≤ 1000) as Hd'.
  { assert (Z.pos (digits2_pos m') ≤ Z.pos (digits2_pos m) + (e - e')); [|lia].
    apply digits2_pos_le; [lia|]. rewrite E2, Z.pow_add_r by lia.
    apply Z.mul_lt_mono_pos_r; [apply Z.pow_pos_nonneg; lia|lia]. }
  assert (x == inject_Z (Z.pos m') * pow2 e')%Q as Hx'.
  { rewrite Hx, E2, scale_pow2 by lia. reflexivity. }
  pose proof (pow2_pos e'). apply round_aux_approx; [done|lia|done| |intros _; exact Hx'].
  rewrite Hx', inject_Z_plus, Qmult_plus_distr_l. change (inject_Z 1) with 1%Q. split; lra.
Qed.

Lemma f64_of_Z_within (n : Z) : 0 < n < 2 ^ 100 → within ulp (inject_Z n) (f64_of_Z n).
Proof.
  intros Hn. destruct n as [|p|]; [lia| |lia]. apply approx_within. cbn.
  pose proof (digits2_pos_le p 100 ltac:(lia) ltac:(lia)).
  apply binary_round_approx; [lia|lia|]. change (pow2 0) with 1%Q. ring.
Qed.

(** Ordinary magnitudes, far from overflow and from the subnormal numbers. *)
Definition ordinary (x : Q) : Prop := (pow2 (-200) <= x <= pow2 200)%Q.

Lemma within_exp (eps x : Q) (m : positive) (e : Z) :
  ordinary x → (0 <= eps <= 1 # 2)%Q → 2 ^ 52 ≤ Z.pos m < 2 ^ 53 →
  (x * (1 - eps) <= inject_Z (Z.pos m) * pow2 e <= x * (1 + eps))%Q →
  -255 ≤ e ≤ 150.
Proof.
  intros [Hx1 Hx2] He Hm [H1 H2]. pose proof (pow2_pos e). pose proof (pow2_pos (-200)).
  assert (inject_Z (2 ^ 52) * pow2 e <= inject_Z (Z.pos m) * pow2 e)%Q as Hl.
  { apply Qmult_le_compat_r; [|lra]. rewrite <- Zle_Qle. lia. }
  assert (inject_Z (Z.pos m) * pow2 e <= inject_Z (2 ^ 53) * pow2 e)%Q as Hu.
  { apply Qmult_le_compat_r; [|lra]. rewrite <- Zle_Qle. lia. }
  rewrite <- pow2_Z, <- pow2_add in Hl, Hu by lia.
  assert (pow2 (-202) < pow2 (53 + e))%Q as A1%pow2_lt_inv.
  { change (pow2 (-202)) with ((1 # 4) * pow2 (-200))%Q. nra. }
  assert (pow2 (52 + e) < pow2 202)%Q as A2%pow2_lt_inv.
  { change (pow2 202) with ((4 # 1) * pow2 200)%Q. pose proof (pow2_pos 200). nra. }
  lia.
Qed.

Lemma approx_combine (lo hi eps x v : Q) (r : float64) :
  approx v r → (0 < x)%Q → (x * lo <= v <= x * hi)%Q →
  (hi * (1 + ulp) <= 1 + eps)%Q → (1 - eps <= lo * (1 - ulp))%Q → within eps x r.
Proof.
  intros (m & e & -> & Hm & H) Hx Hv Hhi Hlo. exists m, e. split; [done|]. split; [done|].
  fold ulp in H. assert (0 < ulp)%Q as Hu by reflexivity. assert (ulp < 1)%Q as Hu1 by reflexivity.
  split.
  - apply Qle_trans with (v * (1 - ulp))%Q; [|lra].
    apply Qle_trans with (x * (lo * (1 - ulp)))%Q.
    + rewrite !(Qmult_comm x). apply Qmult_le_compat_r; lra.
    + rewrite Qmult_assoc. apply Qmult_le_compat_r; lra.
  - apply Qle_trans with (v * (1 + ulp))%Q; [lra|].
    apply Qle_trans with (x * (hi * (1 + ulp)))%Q.
    + rewrite Qmult_assoc. apply Qmult_le_compat_r; lra.
    + rewrite !(Qmult_comm x). apply Qmult_le_compat_r; lra.
Qed.

Lemma Qmult_le_compat (a b c d : Q) : (0 <= a <= b)%Q → (0 <= c <= d)%Q → (a * c <= b * d)%Q.
Proof.
  intros [Ha Hab] [Hc Hcd]. apply Qle_trans with (b * c)%Q.
  - apply Qmult_le_compat_r; lra.
  - rewrite !(Qmult_comm b). apply Qmult_le_compat_r; lra.
Qed.

Lemma f64_mul_within (e1 e2 eps x1 x2 : Q) (r1 r2 : float64) :
  within e1 x1 r1 → within e2 x2 r2 → ordinary x1 → ordinary x2 →
  (0 <= e1 <= 1 # 2)%Q → (0 <= e2 <= 1 # 2)%Q →
  ((1 + e1) * (1 + e2) * (1 + ulp) <= 1 + eps)%Q →
  (1 - eps <= (1 - e1) * (1 - e2) * (1 - ulp))%Q →
  within eps (x1 * x2) (f64_mul r1 r2).
Proof.
  intros (m1 & k1 & -> & Hm1 & H1) (m2 & k2 & -> & Hm2 & H2) Ho1 Ho2 He1 He2 Hhi Hlo.
  pose proof (within_exp e1 x1 m1 k1 Ho1 He1 Hm1 H1) as Hk1.
  pose proof (within_exp e2 x2 m2 k2 Ho2 He2 Hm2 H2) as Hk2.
  assert (0 < x1)%Q as Hx1 by (eapply Qlt_le_trans; [apply (pow2_pos (-200))|apply Ho1]).
  assert (0 < x2)%Q as Hx2 by (eapply Qlt_le_trans; [apply (pow2_pos (-200))|apply Ho2]).
  set (v1 := (inject_Z (Z.pos m1) * pow2 k1)%Q) in *.
  set (v2 := (inject_Z (Z.pos m2) * pow2 k2)%Q) in *.
  apply (approx_combine ((1 - e1) * (1 - e2)) ((1 + e1) * (1 + e2)) _ _ (v1 * v2)); [| | |done..].
  - cbn. assert (inject_Z (Z.pos (m1 * m2)) * pow2 (k1 + k2) == v1 * v2)%Q as Ev.
    { unfold v1, v2. rewrite Pos2Z.inj_mul, inject_Z_mult, pow2_add. ring. }
    pose proof (pow2_pos (k1 + k2)).
    assert (Z.pos (digits2_pos (m1 * m2)) ≤ 106) by (apply digits2_pos_le; [lia|]; nia).
    apply round_aux_approx; [nia|lia|lia| |intros _; by rewrite Ev].
    rewrite <- Ev, inject_Z_plus, Qmult_plus_distr_l. change (inject_Z 1) with 1%Q. split; lra.
  - nra.
  - split.
    + apply Qle_trans with ((x1 * (1 - e1)) * (x2 * (1 - e2)))%Q; [apply Qle_lteq; right; ring|].
      apply Qmult_le_compat; (split; [nra|lra]).
    + apply Qle_trans with ((x1 * (1 + e1)) * (x2 * (1 + e2)))%Q; [|apply Qle_lteq; right; ring].
      assert (0 <= v1)%Q by nra. assert (0 <= v2)%Q by nra.
      apply Qmult_le_compat; (split; [lra|lra]).
Qed.

(** The quotient [SFdiv] computes on two normalised mantissas. *)
Lemma div_core_ok (m1 m2 : positive) (k1 k2 : Z) :
  2 ^ 52 ≤ Z.pos m1 < 2 ^ 53 → 2 ^ 52 ≤ Z.pos m2 < 2 ^ 53 →
  -500 ≤ k1 ≤ 500 → -500 ≤ k2 ≤ 500 →
  ∃ (q : positive) (r : Z),
    SFdiv_core_binary 53 1024 (Z.pos m1) k1 (Z.pos m2) k2 =
      (Z.pos q, k1 - k2 - 53, new_location (Z.pos m2) r) ∧
    Z.pos m1 * 2 ^ 53 = Z.pos m2 * Z.pos q + r ∧ 0 ≤ r < Z.pos m2 ∧
    2 ^ 52 ≤ Z.pos q < 2 ^ 54.
Proof.
  intros Hm1 Hm2 Hk1 Hk2. unfold SFdiv_core_binary. cbn [Zdigits2].
  assert (Z.pos (digits2_pos m1) = 53) as ->.
  { pose proof (digits2_pos_ge m1 52). pose proof (digits2_pos_le m1 53). lia. }
  assert (Z.pos (digits2_pos m2) = 53) as ->.
  { pose proof (digits2_pos_ge m2 52). pose proof (digits2_pos_le m2 53). lia. }
  assert (Z.min (fexp 53 1024 (53 + k1 - (53 + k2))) (k1 - k2) = k1 - k2 - 53) as ->
    by (unfold fexp, emin; lia).
  replace (k1 - k2 - (k1 - k2 - 53)) with 53 by lia. rewrite Z.shiftl_mul_pow2 by lia.
  pose proof (Z_div_mod (Z.pos m1 * 2 ^ 53) (Z.pos m2) ltac:(lia)) as Hdm.
  destruct (Z.div_eucl _ _) as [q r]. destruct Hdm as [Hdm Hr].
  assert (2 ^ 52 ≤ q < 2 ^ 54) as Hq by nia.
  destruct q as [|q|q]; [lia| |lia]. exists q, r. auto.
Qed.

Lemma new_location_exact (n k : Z) : new_location n k = loc_Exact → k = 0.
Proof.
  unfold new_location, new_location_even, new_location_odd.
  destruct (Z.even n), (Z.eqb_spec k 0); done.
Qed.

(** The scaled quotient of two integers, against the quotient of the scaled
    integers. *)
Lemma div_scale (a b q : Z) (k1 k2 : Z) :
  (inject_Z q * pow2 (k1 - k2 - 53) * (inject_Z b * pow2 k2) ==
   inject_Z (b * q) * pow2 (k1 - 53))%Q ∧
  (inject_Z (a * 2 ^ 53) * pow2 (k1 - 53) == inject_Z a * pow2 k1)%Q.
Proof.
  split.
  - replace (k1 - 53) with (k1 - k2 - 53 + k2) by lia. rewrite pow2_add, inject_Z_mult. ring.
  - replace k1 with (53 + (k1 - 53)) at 2 by lia.
    rewrite pow2_add, inject_Z_mult. change (pow2 53) with (inject_Z (2 ^ 53)). ring.
Qed.

Lemma f64_div_approx (m1 m2 : positive) (k1 k2 : Z) :
  2 ^ 52 ≤ Z.pos m1 < 2 ^ 53 → 2 ^ 52 ≤ Z.pos m2 < 2 ^ 53 →
  -255 ≤ k1 ≤ 150 → -255 ≤ k2 ≤ 150 →
  approx ((inject_Z (Z.pos m1) * pow2 k1) / (inject_Z (Z.pos m2) * pow2 k2))
    (f64_div (S754_finite false m1 k1) (S754_finite false m2 k2)).
Proof.
  intros Hm1 Hm2 Hk1 Hk2. unfold f64_div, SFdiv.
  destruct (div_core_ok m1 m2 k1 k2) as (q & r & -> & Hdm & Hr & Hq); [lia..|]. cbn [xorb].
  assert (0 < inject_Z (Z.pos m2) * pow2 k2)%Q as Hv2
    by (apply Qmult_lt_0_compat; [done|apply pow2_pos]).
  pose proof (pow2_pos (k1 - 53)) as Hp.
  destruct (div_scale (Z.pos m1) (Z.pos m2) (Z.pos q) k1 k2) as [Eq Ea].
  destruct (div_scale (Z.pos m1) (Z.pos m2) (Z.pos q + 1) k1 k2) as [Eq1 _].
  pose proof (digits2_pos_le q 54 ltac:(lia) ltac:(lia)).
  apply round_aux_approx; [lia|lia|lia|split|].
  - apply Qle_shift_div_l; [done|]. rewrite Eq, <- Ea.
    apply Qmult_le_compat_r; [|lra]. rewrite <- Zle_Qle. lia.
  - apply Qlt_shift_div_r; [done|]. rewrite Eq1, <- Ea.
    apply Qmult_lt_compat_r; [done|]. rewrite <- Zlt_Qlt. lia.
  - intros ->%new_location_exact.
    assert (inject_Z (Z.pos m1) * pow2 k1 ==
            inject_Z (Z.pos q) * pow2 (k1 - k2 - 53) * (inject_Z (Z.pos m2) * pow2 k2))%Q as ->.
    { rewrite Eq, <- Ea. by replace (Z.pos m1 * 2 ^ 53) with (Z.pos m2 * Z.pos q) by lia. }
    apply Qdiv_mult_l. intros E. rewrite E in Hv2. lra.
Qed.

Lemma f64_div_within (e1 e2 eps x1 x2 : Q) (r1 r2 : float64) :
  within e1 x1 r1 → within e2 x2 r2 → ordinary x1 → ordinary x2 →
  (0 <= e1 <= 1 # 2)%Q → (0 <= e2 <= 1 # 2)%Q →
  ((1 + e1) / (1 - e2) * (1 + ulp) <= 1 + eps)%Q →
  (1 - eps <= (1 - e1) / (1 + e2) * (1 - ulp))%Q →
  within eps (x1 / x2) (f64_div r1 r2).
Proof.
  intros (m1 & k1 & -> & Hm1 & H1) (m2 & k2 & -> & Hm2 & H2) Ho1 Ho2 He1 He2 Hhi Hlo.
  pose proof (within_exp e1 x1 m1 k1 Ho1 He1 Hm1 H1) as Hk1.
  pose proof (within_exp e2 x2 m2 k2 Ho2 He2 Hm2 H2) as Hk2.
  assert (0 < x1)%Q as Hx1 by (eapply Qlt_le_trans; [apply (pow2_pos (-200))|apply Ho1]).
  assert (0 < x2)%Q as Hx2 by (eapply Qlt_le_trans; [apply (pow2_pos (-200))|apply Ho2]).
  eapply (approx_combine ((1 - e1) / (1 + e2)) ((1 + e1) / (1 - e2)));
    [by apply f64_div_approx| | |done|done].
  - apply Qlt_shift_div_l; [done|]. lra.
  - set (v1 := (inject_Z (Z.pos m1) * pow2 k1)%Q) in *.
    set (v2 := (inject_Z (Z.pos m2) * pow2 k2)%Q) in *.
    assert (0 < v2)%Q as Hv2 by nra. split.
    + apply Qle_shift_div_l; [done|].
      apply Qle_trans with (x1 / x2 * ((1 - e1) / (1 + e2)) * (x2 * (1 + e2)))%Q.
      * rewrite !(Qmult_comm (x1 / x2 * _)). apply Qmult_le_compat_r; [lra|].
        apply Qmult_le_0_compat; apply Qle_shift_div_l; lra.
      * apply Qle_trans with (x1 * (1 - e1))%Q; [apply Qle_lteq; right; field; lra|lra].
    + apply Qle_shift_div_r; [done|].
      apply Qle_trans with (x1 / x2 * ((1 + e1) / (1 - e2)) * (x2 * (1 - e2)))%Q.
      * apply Qle_trans with (x1 * (1 + e1))%Q; [lra|apply Qle_lteq; right; field; lra].
      * rewrite !(Qmult_comm (x1 / x2 * _)). apply Qmult_le_compat_r; [lra|].
        apply Qmult_le_0_compat; apply Qle_shift_div_l; lra.
Qed.

Lemma f64_add_approx (m1 m2 : positive) (k1 k2 : Z) :
  2 ^ 52 ≤ Z.pos m1 < 2 ^ 53 → 2 ^ 52 ≤ Z.pos m2 < 2 ^ 53 →
  -255 ≤ k1 ≤ 150 → -255 ≤ k2 ≤ 150 →
  approx (inject_Z (Z.pos m1) * pow2 k1 + inject_Z (Z.pos m2) * pow2 k2)
    (f64_add (S754_finite false m1 k1) (S754_finite false m2 k2)).
Proof.
  intros Hm1 Hm2 Hk1 Hk2. unfold f64_add, SFadd. cbn [cond_Zopp].
  pose proof (shl_align_ok m1 k1 (Z.min k1 k2)) as H1.
  pose proof (shl_align_ok m2 k2 (Z.min k1 k2)) as H2.
  destruct (shl_align m1 k1 (Z.min k1 k2)) as [n1 c1], H1 as [E1 N1].
  destruct (shl_align m2 k2 (Z.min k1 k2)) as [n2 c2], H2 as [E2 N2].
  replace c1 with (Z.min k1 k2) in * by lia. replace c2 with (Z.min k1 k2) in * by lia.
  set (k := Z.min k1 k2) in *. cbn [fst].
  change (Z.pos n1 + Z.pos n2) with (Z.pos (n1 + n2)). cbn [binary_normalize].
  assert (∀ (m : positive) (j : Z), 2 ^ 52 ≤ Z.pos m < 2 ^ 53 → k ≤ j ≤ 150 →
    2 ^ 52 ≤ Z.pos m * 2 ^ (j - k) < 2 ^ 500) as Hb.
  { intros m j Hm Hj. pose proof (Z.pow_pos_nonneg 2 (j - k) ltac:(lia) ltac:(lia)).
    pose proof (Z.pow_le_mono_r 2 (j - k) 405 ltac:(lia) ltac:(lia)). split; [nia|].
    apply Z.lt_le_trans with (2 ^ 53 * 2 ^ 405); [nia|].
    rewrite <- Z.pow_add_r by lia. apply Z.pow_le_mono_r; lia. }
  pose proof (Hb m1 k1 Hm1 ltac:(lia)). pose proof (Hb m2 k2 Hm2 ltac:(lia)).
  assert (Z.pos (digits2_pos (n1 + n2)) ≤ 501).
  { apply digits2_pos_le; [lia|]. rewrite Pos2Z.inj_add, N1, N2.
    change (2 ^ 501) with (2 ^ 500 + 2 ^ 500). lia. }
  apply binary_round_approx; [lia|lia|].
  rewrite Pos2Z.inj_add, N1, N2, inject_Z_plus, Qmult_plus_distr_l, !scale_pow2 by lia.
  reflexivity.
Qed.

Lemma f64_add_within (e eps x1 x2 : Q) (r1 r2 : float64) :
  within e x1 r1 → within e x2 r2 → ordinary x1 → ordinary x2 → (0 <= e <= 1 # 2)%Q →
  ((1 + e) * (1 + ulp) <= 1 + eps)%Q → (1 - eps <= (1 - e) * (1 - ulp))%Q →
  within eps (x1 + x2) (f64_add r1 r2).
Proof.
  intros (m1 & k1 & -> & Hm1 & H1) (m2 & k2 & -> & Hm2 & H2) Ho1 Ho2 He Hhi Hlo.
  pose proof (within_exp e x1 m1 k1 Ho1 He Hm1 H1) as Hk1.
  pose proof (within_exp e x2 m2 k2 Ho2 He Hm2 H2) as Hk2.
  assert (0 < x1)%Q as Hx1 by (eapply Qlt_le_trans; [apply (pow2_pos (-200))|apply Ho1]).
  assert (0 < x2)%Q as Hx2 by (eapply Qlt_le_trans; [apply (pow2_pos (-200))|apply Ho2]).
  apply (approx_combine (1 - e) (1 + e) _ _
    (inject_Z (Z.pos m1) * pow2 k1 + inject_Z (Z.pos m2) * pow2 k2));
    [by apply f64_add_approx|lra|split; lra|done|done].
Qed.

Lemma within_weaken (e e' x : Q) (r : float64) :
  within e x r → (0 < x)%Q → (e <= e')%Q → within e' x r.
Proof.
  intros (m & k & -> & Hm & H) Hx He. exists m, k. split; [done|]. split; [done|]. split; nra.
Qed.

Lemma within_Qeq (e x y : Q) (r : float64) : (x == y)%Q → within e x r → within e y r.
Proof.
  intros E (m & k & -> & Hm & H). exists m, k. split; [done|]. split; [done|].
  by rewrite <- E.
Qed.

(** Normalised mantissas: the order of floats is that of their values. *)
Lemma f64_leb_value (m1 m2 : positive) (k1 k2 : Z) :
  2 ^ 52 ≤ Z.pos m1 < 2 ^ 53 → 2 ^ 52 ≤ Z.pos m2 < 2 ^ 53 →
  if f64_leb (S754_finite false m1 k1) (S754_finite false m2 k2)
  then (inject_Z (Z.pos m1) * pow2 k1 <= inject_Z (Z.pos m2) * pow2 k2)%Q
  else (inject_Z (Z.pos m2) * pow2 k2 <= inject_Z (Z.pos m1) * pow2 k1)%Q.
Proof.
  intros Hm1 Hm2.
  assert (∀ (m m' : positive) (k k' : Z), 2 ^ 52 ≤ Z.pos m < 2 ^ 53 → 2 ^ 52 ≤ Z.pos m' < 2 ^ 53 →
    k < k' → (inject_Z (Z.pos m) * pow2 k <= inject_Z (Z.pos m') * pow2 k')%Q) as Hlt.
  { intros m m' k k' Hm Hm' Hk. pose proof (pow2_pos k). pose proof (pow2_pos k').
    apply Qle_trans with (inject_Z (2 ^ 52) * pow2 k')%Q.
    - apply Qle_trans with (inject_Z (2 ^ 53) * pow2 k)%Q.
      + apply Qmult_le_compat_r; [|lra]. rewrite <- Zle_Qle. lia.
      + rewrite <- !pow2_Z, <- !pow2_add by lia. apply pow2_le. lia.
    - apply Qmult_le_compat_r; [|lra]. rewrite <- Zle_Qle. lia. }
  unfold f64_leb, SFleb, SFcompare. change (Pos.compare_cont Eq m1 m2) with (m1 ?= m2)%positive.
  destruct (Z.compare_spec k1 k2) as [->|Hk|Hk]; [|by apply Hlt..].
  pose proof (pow2_pos k2).
  destruct (Pos.compare_spec m1 m2) as [->|Hc|Hc]; apply Qmult_le_compat_r; try lra;
    rewrite <- Zle_Qle; lia.
Qed.

Lemma f64_leb_within (e1 e2 x1 x2 : Q) (r1 r2 : float64) :
  within e1 x1 r1 → within e2 x2 r2 →
  if f64_leb r1 r2 then (x1 * (1 - e1) <= x2 * (1 + e2))%Q else (x2 * (1 - e2) <= x1 * (1 + e1))%Q.
Proof.
  intros (m1 & k1 & -> & Hm1 & H1) (m2 & k2 & -> & Hm2 & H2).
  pose proof (f64_leb_value m1 m2 k1 k2 Hm1 Hm2). destruct (f64_leb _ _); lra.
Qed.

(** ** Signs *)

Lemma binary_round_aux_opp (m e : Z) (l : location) :
  binary_round_aux 53 1024 true m e l = SFopp (binary_round_aux 53 1024 false m e l).
Proof.
  unfold binary_round_aux. destruct (shr_fexp _ _ m e l) as [r e1].
  destruct (shr_fexp _ _ _ e1 loc_Exact) as [r2 e2]. destruct (shr_m r2); [done| |done]. by destruct (e2 <=? _).
Qed.

Lemma f64_of_Z_opp (p : positive) : f64_of_Z (Z.neg p) = SFopp (f64_of_Z (Z.pos p)).
Proof.
  unfold f64_of_Z, binary_normalize, binary_round. destruct (shl_align _ _ _).
  apply binary_round_aux_opp.
Qed.

(** The conversion of an integer keeps its sign. *)
Lemma f64_of_Z_negative (n : Z) : - 2 ^ 100 < n < 0 → f64_ltb (f64_of_Z n) (f64_of_Z 0) = true.
Proof.
  intros Hn. destruct n as [|p|p]; [lia..|]. rewrite f64_of_Z_opp.
  destruct (f64_of_Z_within (Z.pos p)) as (m & e & -> & _); [lia|]. done.
Qed.

Lemma f64_of_Z_nonnegative (n : Z) : 0 ≤ n < 2 ^ 100 → f64_leb (f64_of_Z 0) (f64_of_Z n) = true.
Proof.
  intros Hn. destruct (decide (n = 0)) as [->|]; [done|].
  destruct (f64_of_Z_within n) as (m & e & -> & _); [lia|]. done.
Qed.
