(* ===== verification/WaitGroup.v ===== *)
(** * Go's [sync.WaitGroup]

    The counter and the number of blocked goroutines share one atomic word;
    [sema] counts the releases of the semaphore that no goroutine has used.
    [Add] is split where it reads the word a second time, and [Wait] where it
    blocks, because the panics of both depend on what happens in between. *)
From S2P Require Import Prelude.
Open Scope Z_scope.
Open Scope go_scope.

Record WaitGroup := mkWG { counter : Z; blocked : nat; sema : nat }.

Definition zeroWaitGroup : WaitGroup := mkWG 0 0 0.

(** [Add] up to its first return; the flag says that it goes on with
    [wg_release].  [Done] is [Add(-1)]. *)
Definition wg_Add (delta : Z) (wg : WaitGroup) : result (WaitGroup * bool) :=
  let v := int32 (counter wg + delta) in
  if decide (v < 0) then Panics NegativeWaitGroupCounter
  else if decide (blocked wg ≠ 0%nat ∧ 0 < delta ∧ v = delta) then Panics WaitGroupMisuse
  else Ok (mkWG v (blocked wg) (sema wg), bool_decide (v = 0 ∧ blocked wg ≠ 0%nat)).

(** The rest of [Add], which saw [w] blocked goroutines. *)
Definition wg_release (w : nat) (wg : WaitGroup) : result WaitGroup :=
  if decide (counter wg = 0 ∧ blocked wg = w) then Ok (mkWG 0 0 (sema wg + w))
  else Panics WaitGroupMisuse.

(** [Wait] until it returns or blocks. *)
Definition wg_Wait (wg : WaitGroup) : WaitGroup * bool :=
  if decide (counter wg = 0) then (wg, true)
  else (mkWG (counter wg) (S (blocked wg)) (sema wg), false).

(** A blocked goroutine after a release; [None] when there is none. *)
Definition wg_wake (wg : WaitGroup) : option (result WaitGroup) :=
  match sema wg with
  | O => None
  | S n =>
      Some (if decide (counter wg = 0 ∧ blocked wg = 0%nat) then Ok (mkWG 0 0 n)
            else Panics WaitGroupReused)
  end.

(** The panics a wait group has. *)
Definition waitgroup_panic (p : panic) : Prop :=
  p = NegativeWaitGroupCounter ∨ p = WaitGroupMisuse ∨ p = WaitGroupReused.

Lemma wg_Add_panics (delta : Z) (wg : WaitGroup) :
  match wg_Add delta wg with
  | Ok _ => True
  | Panics p => waitgroup_panic p
  | OutOfFuel => False
  end.
Proof. unfold wg_Add, waitgroup_panic. repeat case_decide; auto. Qed.

(** [Add(1)] while no goroutine is blocked, and [Done]. *)
Lemma wg_Add_one (wg : WaitGroup) :
  counter wg = 0 → blocked wg = 0%nat →
  wg_Add 1 wg = Ok (mkWG 1 0 (sema wg), false).
Proof. destruct wg. cbn. by intros -> ->. Qed.

Lemma wg_Done_one (wg : WaitGroup) :
  counter wg = 1 →
  wg_Add (-1) wg = Ok (mkWG 0 (blocked wg) (sema wg), bool_decide (blocked wg ≠ 0%nat)).
Proof. destruct wg as [c [|b] s]; cbn; by intros ->. Qed.
