(* ===== verification/SmartBuffer.v ===== *)
(** * The ring buffer of [src/core/component/smart_buffer.go]

    [SmartBuffer] is the lock-free ring the double buffer writes to and reads
    from.  This file holds the data, every operation as one call runs it when
    no other goroutine touches the buffer (the compare-and-swap loops then
    succeed at their first attempt), the bounded FIFO queue it implements and
    the refinement between the two.  [SmartBufferConc] has the same operations
    instruction by instruction, for interleaved goroutines. *)
From S2P Require Import Prelude.
From S2P Require Import Consts.
Open Scope Z_scope.
Open Scope go_scope.

(** ** Data *)

(** A pointer is its address; the nil pointer is address 0. *)
Record BufferItem := mkItem { Ptr : Z; Size : Z }.

Definition zeroItem : BufferItem := mkItem 0 0.

Record SmartBuffer := mkSB {
  buf : list BufferItem;   (** ring of slice headers *)
  head : Z;                (** write index *)
  tail : Z;                (** read index *)
  count : Z;               (** number of data currently written *)
  capacity : Z;
  state : Z;
  sem_closed : bool        (** whether the signal channel [sem] is closed *)
}.

#[export] Instance BufferItem_eq_dec : EqDecision BufferItem.
Proof. solve_decision. Defined.

#[export] Instance SmartBuffer_eq_dec : EqDecision SmartBuffer.
Proof. solve_decision. Defined.

(** ** Operations *)

Definition NewSmartBuffer (cap : Z) : result SmartBuffer :=
  if decide (0 ≤ cap) then
    Ok (mkSB (replicate (Z.to_nat cap) zeroItem) (-1) (-1) 0 cap WriteOnly false)
  else Panics MakeLenOutOfRange.

Definition SetState (st : Z) (s : SmartBuffer) : SmartBuffer :=
  mkSB (buf s) (head s) (tail s) (count s) (capacity s) st (sem_closed s).

Definition GetState (s : SmartBuffer) : Z := state s.

Definition Len (s : SmartBuffer) : Z := count s.

(** [%] of Go is the remainder of the division rounded towards zero. *)
Definition calcPos (cap idx : Z) : Z :=
  if decide (cap ≤ 0) then 0
  else
    let pos := Z.rem idx cap in
    let pos := if decide (pos < 0) then int32 (pos + cap) else pos in
    Z.rem pos cap.

(** The attempts [Push] makes at finding its slot free, [n] of them: they read
    the slot and change nothing. *)
Fixpoint scan_free (n : nat) (b : list BufferItem) (pos : Z) : result unit :=
  match n with
  | O => Ok tt
  | S n =>
      let* it := indexZ b pos in
      if decide (Ptr it = 0) then Ok tt else scan_free n b pos
  end.

(** The attempts [Pop] makes at finding its slot filled: the last item read. *)
Fixpoint retry_read (n : nat) (item : BufferItem) (b : list BufferItem) (pos : Z) :
    result BufferItem :=
  match n with
  | O => Ok item
  | S n =>
      let* it := indexZ b pos in
      if decide (Ptr it ≠ 0) then Ok it else retry_read n it b pos
  end.

Definition maxRetry : nat := 3.

Definition errReadOnly : error := ErrorsNew "buffer is read-only".

Definition Push (sli : BufferItem) (s : SmartBuffer) : result (SmartBuffer * option error) :=
  if decide (state s = ReadOnly) then Ok (s, Some errReadOnly)
  else if decide (capacity s ≤ count s) then
    let st := if decide (state s = WriteOnly) then ReadOnly else state s in
    Ok (SetState st s, Some errReadOnly)
  else
    let newHead := int32 (head s + 1) in
    let pos := calcPos (capacity s) (head s) in
    let* _ := scan_free maxRetry (buf s) pos in
    let* b := set_indexZ (buf s) pos sli in
    Ok (mkSB b newHead (tail s) (int32 (count s + 1)) (capacity s) (state s) (sem_closed s),
        None).

Definition Write (bufferItem : BufferItem) (s : SmartBuffer) :
    result (SmartBuffer * option error) :=
  if decide (state s = ClosedState) then Ok (s, Some ErrBufferClose)
  else Push bufferItem s.

(** The receive on [sem] never blocks and takes nothing: the channel is
    unbuffered and is only ever closed. *)
Definition Reset (s : SmartBuffer) : SmartBuffer :=
  mkSB (buf s) (-1) (-1) 0 (capacity s) WriteOnly (sem_closed s).

Definition Close (s : SmartBuffer) : result SmartBuffer :=
  if sem_closed s then Panics CloseOfClosedChannel
  else Ok (mkSB (buf s) (head s) (tail s) (count s) (capacity s) (state s) true).

Definition Pop (s : SmartBuffer) : result (SmartBuffer * (Z * Z)) :=
  if decide (count s = 0) then Ok (s, (0, 0))
  else
    let newTail := int32 (tail s + 1) in
    let pos := calcPos (capacity s) (tail s) in
    let* item := retry_read maxRetry zeroItem (buf s) pos in
    let* b := set_indexZ (buf s) pos zeroItem in
    Ok (mkSB b (head s) newTail (int32 (count s - 1)) (capacity s) (state s) (sem_closed s),
        (Ptr item, Size item)).

(** ** Runs of operations *)

Inductive op :=
  | OWrite (x : BufferItem)
  | OPop
  | OLen
  | OSetState (st : Z)
  | OGetState
  | OReset.

Inductive output :=
  | VErr (e : option error)
  | VItem (ptr size : Z)
  | VInt (n : Z)
  | VUnit.

Definition exec (o : op) (s : SmartBuffer) : result (SmartBuffer * output) :=
  match o with
  | OWrite x => let* (s', e) := Write x s in Ok (s', VErr e)
  | OPop => let* (s', (p, n)) := Pop s in Ok (s', VItem p n)
  | OLen => Ok (s, VInt (Len s))
  | OSetState st => Ok (SetState st s, VUnit)
  | OGetState => Ok (s, VInt (GetState s))
  | OReset => Ok (Reset s, VUnit)
  end.

Fixpoint exec_all (os : list op) (s : SmartBuffer) : result (SmartBuffer * list output) :=
  match os with
  | [] => Ok (s, [])
  | o :: os =>
      let* (s, v) := exec o s in
      let* (s, vs) := exec_all os s in
      Ok (s, v :: vs)
  end.

(** ** The abstract queue *)

(** What the buffer promises: a FIFO queue of at most [cap] items with a state
    word; a write to a full write-only queue turns it read-only. *)
Record fifo := mkFifo { items : list BufferItem; status : Z }.

Definition spec_write (cap : Z) (x : BufferItem) (q : fifo) : fifo * option error :=
  if decide (status q = ClosedState) then (q, Some ErrBufferClose)
  else if decide (status q = ReadOnly) then (q, Some errReadOnly)
  else if decide (cap ≤ Z.of_nat (length (items q))) then
    (mkFifo (items q) (if decide (status q = WriteOnly) then ReadOnly else status q),
     Some errReadOnly)
  else (mkFifo (items q ++ [x]) (status q), None).

Definition spec_pop (q : fifo) : fifo * (Z * Z) :=
  match items q with
  | [] => (q, (0, 0))
  | x :: xs => (mkFifo xs (status q), (Ptr x, Size x))
  end.

Definition spec_exec (cap : Z) (o : op) (q : fifo) : fifo * output :=
  match o with
  | OWrite x => let (q', e) := spec_write cap x q in (q', VErr e)
  | OPop => let '(q', (p, n)) := spec_pop q in (q', VItem p n)
  | OLen => (q, VInt (Z.of_nat (length (items q))))
  | OSetState st => (mkFifo (items q) st, VUnit)
  | OGetState => (q, VInt (status q))
  | OReset => (mkFifo [] WriteOnly, VUnit)
  end.

Fixpoint spec_all (cap : Z) (os : list op) (q : fifo) : fifo * list output :=
  match os with
  | [] => (q, [])
  | o :: os =>
      let (q, v) := spec_exec cap o q in
      let (q, vs) := spec_all cap os q in
      (q, v :: vs)
  end.

(** The write attempts of a run: the indices grow by at most this much. *)
Fixpoint writes (os : list op) : nat :=
  match os with
  | [] => 0
  | OWrite _ :: os => S (writes os)
  | _ :: os => writes os
  end.

(** ** The representation invariant

    [T] is the number of the oldest stored item and [T + length q] that of the
    next one, counted without wrap-around from -1; the fields [head] and
    [tail] are their 32-bit images. *)

(** The slot [calcPos] computes is the one of the unbounded index. *)
Definition aligned (cap L : Z) : Prop := calcPos cap (int32 L) = L `mod` cap.

Definition slot (cap L : Z) : nat := Z.to_nat (L `mod` cap).

Record repr (s : SmartBuffer) (T : Z) (q : list BufferItem) : Prop := {
  repr_cap : 0 < capacity s < 2 ^ 31;
  repr_buf : length (buf s) = Z.to_nat (capacity s);
  repr_tail : tail s = int32 T;
  repr_head : head s = int32 (T + Z.of_nat (length q));
  repr_count : count s = Z.of_nat (length q);
  repr_room : Z.of_nat (length q) ≤ capacity s;
  repr_items : ∀ (i : nat) (x : BufferItem),
    q !! i = Some x → buf s !! slot (capacity s) (T + Z.of_nat i) = Some x
}.

(** Every slot that holds no stored item is the zero item: the buffer keeps
    no pointer to data that was read. *)
Definition clean (s : SmartBuffer) (T : Z) (q : list BufferItem) : Prop :=
  ∀ j : Z, T + Z.of_nat (length q) ≤ j < T + capacity s →
    buf s !! slot (capacity s) j = Some zeroItem.

(** [n] rounds of one write and one read. *)
Fixpoint cycles (n : nat) (x : BufferItem) (s : SmartBuffer) : result SmartBuffer :=
  match n with
  | O => Ok s
  | S n =>
      let* s := cycles n x s in
      let* (s, _) := Write x s in
      let* (s, _) := Pop s in
      Ok s
  end.

(** An empty write-only buffer of capacity [cap] whose two indices are [L]. *)
Definition idle (cap L : Z) : SmartBuffer :=
  mkSB (replicate (Z.to_nat cap) zeroItem) (int32 L) (int32 L) 0 cap WriteOnly false.

(** ** Positions *)

Lemma rem_fix_mod (cap idx : Z) :
  0 < cap →
  (if decide (Z.rem idx cap < 0) then Z.rem idx cap + cap else Z.rem idx cap) = idx `mod` cap.
Proof.
  intros Hc. pose proof (Z.quot_rem' idx cap) as E.
  pose proof (Z.rem_bound_abs idx cap ltac:(lia)) as B.
  case_decide.
  - apply (Z.mod_unique_pos _ _ (Z.quot idx cap - 1)); lia.
  - apply (Z.mod_unique_pos _ _ (Z.quot idx cap)); lia.
Qed.

Lemma calcPos_mod (cap idx : Z) :
  0 < cap < 2 ^ 31 → calcPos cap idx = idx `mod` cap.
Proof.
  intros Hc. unfold calcPos. rewrite decide_False by lia. cbv zeta.
  pose proof (Z.mod_pos_bound idx cap ltac:(lia)) as Hm.
  assert ((if decide (Z.rem idx cap < 0) then int32 (Z.rem idx cap + cap) else Z.rem idx cap)
          = idx `mod` cap) as ->.
  { rewrite <- (rem_fix_mod cap idx) by lia. case_decide; [|done].
    pose proof (Z.rem_bound_abs idx cap ltac:(lia)).
    apply signed_id; unfold in_signed; lia. }
  apply Z.rem_small. lia.
Qed.

Lemma aligned_small (cap L : Z) : 0 < cap < 2 ^ 31 → in_int32 L → aligned cap L.
Proof.
  intros Hc HL. unfold aligned. rewrite signed_id by done. by apply calcPos_mod.
Qed.

(** When the capacity divides [2 ^ 32] the wrap-around does not disturb the
    slots. *)
Lemma aligned_pow2 (cap L : Z) :
  0 < cap < 2 ^ 31 → 2 ^ 32 `mod` cap = 0 → aligned cap L.
Proof.
  intros Hc Hd. unfold aligned.
  rewrite calcPos_mod by lia.
  destruct (signed_cong 32 L) as [k ->].
  apply Z.mod_divide in Hd as [m Hm]; [|lia]. rewrite Hm, Z.mul_assoc.
  apply Z_mod_plus_full.
Qed.

Lemma slot_lt (cap L : Z) (b : list BufferItem) :
  0 < cap → length b = Z.to_nat cap → (slot cap L < length b)%nat.
Proof.
  intros Hc ->. unfold slot. pose proof (Z.mod_pos_bound L cap ltac:(lia)). lia.
Qed.

(** Two indices less than a capacity apart have different slots. *)
Lemma slot_inj (cap L1 L2 : Z) :
  0 < cap → Z.abs (L1 - L2) < cap → slot cap L1 = slot cap L2 → L1 = L2.
Proof.
  intros Hc Hd Hs. unfold slot in Hs.
  pose proof (Z.mod_pos_bound L1 cap ltac:(lia)).
  pose proof (Z.mod_pos_bound L2 cap ltac:(lia)).
  assert (L1 `mod` cap = L2 `mod` cap) as E by lia.
  pose proof (Z.div_mod L1 cap ltac:(lia)). pose proof (Z.div_mod L2 cap ltac:(lia)).
  destruct (Z.lt_trichotomy (L1 `div` cap) (L2 `div` cap)) as [|[|]]; nia.
Qed.

Lemma slot_wrap (cap L : Z) : 0 < cap → slot cap (L + cap) = slot cap L.
Proof.
  intros Hc. unfold slot. f_equal.
  replace (L + cap) with (L + 1 * cap) by lia. apply Z_mod_plus_full.
Qed.

Lemma index_slot (cap L : Z) (b : list BufferItem) (x : BufferItem) :
  0 < cap → b !! slot cap L = Some x → indexZ b (L `mod` cap) = Ok x.
Proof.
  intros Hc H. apply indexZ_ok; [|done].
  pose proof (Z.mod_pos_bound L cap ltac:(lia)). lia.
Qed.

Lemma set_slot (cap L : Z) (b : list BufferItem) (x : BufferItem) :
  0 < cap → length b = Z.to_nat cap →
  set_indexZ b (L `mod` cap) x = Ok (<[slot cap L := x]> b).
Proof.
  intros Hc Hb. apply set_indexZ_ok.
  pose proof (Z.mod_pos_bound L cap ltac:(lia)). lia.
Qed.

(** ** Each operation on a represented queue *)

Lemma scan_free_ok (n : nat) (b : list BufferItem) (pos : Z) (x : BufferItem) :
  indexZ b pos = Ok x → scan_free n b pos = Ok tt.
Proof. intros H. induction n; cbn; [done|]. rewrite H; cbn. by case_decide. Qed.

(** However many attempts it makes, the reader ends up with the slot's item. *)
Lemma retry_read_ok (n : nat) (x0 x : BufferItem) (b : list BufferItem) (pos : Z) :
  indexZ b pos = Ok x → retry_read (S n) x0 b pos = Ok x.
Proof.
  intros H. revert x0. induction n as [|n IH]; intros x0.
  - cbn. rewrite H; cbn. by case_decide.
  - change (retry_read (S (S n)) x0 b pos) with
      (rbind (indexZ b pos) (λ it, if decide (Ptr it ≠ 0) then Ok it else retry_read (S n) it b pos)).
    rewrite H; cbn [rbind]. case_decide; [done|]. apply IH.
Qed.

Lemma NewSmartBuffer_repr (cap : Z) :
  0 < cap < 2 ^ 31 →
  ∃ s : SmartBuffer, NewSmartBuffer cap = Ok s ∧ repr s (-1) [] ∧ clean s (-1) [] ∧
    capacity s = cap ∧ state s = WriteOnly ∧ sem_closed s = false.
Proof.
  intros Hc. unfold NewSmartBuffer. rewrite decide_True by lia.
  eexists. split; [done|]. split; [split; cbn; try done|]; cbn.
  - by rewrite length_replicate.
  - lia.
  - split; [|done]. intros j _. cbn. apply lookup_replicate_2.
    unfold slot. pose proof (Z.mod_pos_bound j cap ltac:(lia)). lia.
Qed.

Lemma Push_full (s : SmartBuffer) (T : Z) (q : list BufferItem) (x : BufferItem) :
  repr s T q → state s ≠ ReadOnly → capacity s ≤ Z.of_nat (length q) →
  Push x s = Ok (SetState (if decide (state s = WriteOnly) then ReadOnly else state s) s,
                 Some errReadOnly).
Proof.
  intros [] Hst Hf. unfold Push. by rewrite decide_False, decide_True by lia.
Qed.

(** The state [Push] leaves behind when it stores [x]. *)
Definition pushed (x : BufferItem) (L : Z) (s : SmartBuffer) : SmartBuffer :=
  mkSB (<[slot (capacity s) L := x]> (buf s)) (int32 (L + 1)) (tail s) (count s + 1)
    (capacity s) (state s) (sem_closed s).

Lemma Push_stores (s : SmartBuffer) (T : Z) (q : list BufferItem) (x : BufferItem) :
  repr s T q → state s ≠ ReadOnly → Z.of_nat (length q) < capacity s →
  aligned (capacity s) (T + Z.of_nat (length q)) →
  Push x s = Ok (pushed x (T + Z.of_nat (length q)) s, None).
Proof.
  intros [Hc Hb Ht Hh Hn Hr Hi] Hst Hf Ha. unfold Push, pushed.
  rewrite !decide_False by lia. rewrite Hh, Ha.
  destruct (lookup_lt_is_Some_2 (buf s) (slot (capacity s) (T + Z.of_nat (length q))))
    as [y Hy]; [by apply slot_lt; lia|].
  erewrite scan_free_ok by (eapply index_slot; [lia|done]).
  rewrite (set_slot _ _ _ x) by lia. cbn.
  rewrite signed_idemp_add_l. rewrite (signed_id 32 (count s + 1)) by (unfold in_signed; lia).
  done.
Qed.

Lemma pushed_repr (s : SmartBuffer) (T : Z) (q : list BufferItem) (x : BufferItem) :
  repr s T q → Z.of_nat (length q) < capacity s →
  repr (pushed x (T + Z.of_nat (length q)) s) T (q ++ [x]).
Proof.
  intros [Hc Hb Ht Hh Hn Hr Hi] Hf.
  assert (slot (capacity s) (T + Z.of_nat (length q)) < length (buf s))%nat as Hlt
    by (apply slot_lt; lia).
  split; cbn; rewrite ?length_insert, ?length_app; cbn; try lia; try done.
  - f_equal. lia.
  - intros i y [Hy|[Hl Hy]]%lookup_app_Some.
    + rewrite list_lookup_insert_ne; [by apply Hi|].
      intros E%slot_inj; apply lookup_lt_Some in Hy; lia.
    + apply list_lookup_singleton_Some in Hy as [Hy <-].
      replace (T + Z.of_nat i) with (T + Z.of_nat (length q)) by lia.
      by apply list_lookup_insert_eq.
Qed.

Lemma pushed_clean (s : SmartBuffer) (T : Z) (q : list BufferItem) (x : BufferItem) :
  repr s T q → clean s T q →
  clean (pushed x (T + Z.of_nat (length q)) s) T (q ++ [x]).
Proof.
  intros [Hc Hb Ht Hh Hn Hr Hi] Hcl j. rewrite length_app; cbn. intros Hj.
  rewrite list_lookup_insert_ne; [apply Hcl; lia|].
  intros E%slot_inj; lia.
Qed.

(** The state [Pop] leaves behind when it takes the oldest item. *)
Definition popped (T : Z) (s : SmartBuffer) : SmartBuffer :=
  mkSB (<[slot (capacity s) T := zeroItem]> (buf s)) (head s) (int32 (T + 1)) (count s - 1)
    (capacity s) (state s) (sem_closed s).

Lemma Pop_empty (s : SmartBuffer) (T : Z) : repr s T [] → Pop s = Ok (s, (0, 0)).
Proof. intros []. unfold Pop. by rewrite decide_True. Qed.

Lemma Pop_takes (s : SmartBuffer) (T : Z) (x : BufferItem) (q : list BufferItem) :
  repr s T (x :: q) → aligned (capacity s) T →
  Pop s = Ok (popped T s, (Ptr x, Size x)).
Proof.
  intros [Hc Hb Ht Hh Hn Hr Hi] Ha. unfold Pop, popped. cbn [length] in *.
  rewrite decide_False by lia. rewrite Ht, Ha.
  pose proof (Hi 0%nat x eq_refl) as Hx. change (Z.of_nat 0) with 0 in Hx. rewrite Z.add_0_r in Hx.
  change maxRetry with 3%nat. rewrite (retry_read_ok 2 zeroItem x) by (eapply index_slot; [lia|done]).
  cbn. rewrite set_slot by lia. cbn. rewrite signed_idemp_add_l.
  rewrite (signed_id 32 (count s - 1)) by (unfold in_signed; lia). done.
Qed.

Lemma popped_repr (s : SmartBuffer) (T : Z) (x : BufferItem) (q : list BufferItem) :
  repr s T (x :: q) → repr (popped T s) (T + 1) q.
Proof.
  intros [Hc Hb Ht Hh Hn Hr Hi]. cbn in *.
  split; cbn; rewrite ?length_insert; try lia; try done.
  - rewrite Hh. f_equal. lia.
  - intros i y Hy. replace (T + 1 + Z.of_nat i) with (T + Z.of_nat (S i)) by lia.
    rewrite list_lookup_insert_ne; [by apply Hi|].
    apply lookup_lt_Some in Hy. intros E%slot_inj; lia.
Qed.

Lemma popped_clean (s : SmartBuffer) (T : Z) (x : BufferItem) (q : list BufferItem) :
  repr s T (x :: q) → clean s T (x :: q) → clean (popped T s) (T + 1) q.
Proof.
  intros [Hc Hb Ht Hh Hn Hr Hi] Hcl j Hj. cbn in *.
  destruct (decide (j = T + capacity s)) as [->|].
  - rewrite slot_wrap by lia. apply list_lookup_insert_eq. apply slot_lt; lia.
  - rewrite list_lookup_insert_ne; [apply Hcl; cbn; lia|]. intros E%slot_inj; lia.
Qed.

Lemma SetState_repr (st : Z) (s : SmartBuffer) (T : Z) (q : list BufferItem) :
  repr s T q → repr (SetState st s) T q.
Proof. by intros []. Qed.

Lemma Reset_repr (s : SmartBuffer) (T : Z) (q : list BufferItem) :
  repr s T q → repr (Reset s) (-1) [].
Proof. intros []. split; cbn in *; try done; lia. Qed.

(** A drained buffer is as good as a new one: resetting it leaves no item of
    its former use in any slot. *)
Lemma Reset_clean (s : SmartBuffer) (T : Z) :
  repr s T [] → clean s T [] → clean (Reset s) (-1) [].
Proof.
  intros [] Hcl j Hj. unfold clean in Hcl. cbn in *.
  pose proof (Z.mod_pos_bound (j - T) (capacity s) ltac:(lia)).
  specialize (Hcl (T + (j - T) `mod` capacity s) ltac:(lia)).
  rewrite <- Hcl. f_equal. unfold slot. f_equal.
  rewrite Zplus_mod_idemp_r. f_equal. lia.
Qed.

(** ** The refinement *)

(** The buffer [s] of capacity [cap] represents the queue [q] after at most
    [W] write attempts since it was made. *)
Definition sim (cap W : Z) (s : SmartBuffer) (q : fifo) : Prop :=
  capacity s = cap ∧ state s = status q ∧
  ∃ T : Z, -1 ≤ T ∧ T + Z.of_nat (length (items q)) < W ∧ repr s T (items q).

Definition op_writes (o : op) : Z := Z.of_nat (writes [o]).

Lemma writes_cons (o : op) (os : list op) :
  Z.of_nat (writes (o :: os)) = op_writes o + Z.of_nat (writes os).
Proof. destruct o; unfold op_writes; cbn [writes]; lia. Qed.

Lemma sim_weaken (cap W W' : Z) (s : SmartBuffer) (q : fifo) :
  sim cap W s q → W ≤ W' → sim cap W' s q.
Proof.
  intros (? & ? & T & ? & ? & ?) ?. do 2 (split; [done|]).
  exists T. split; [lia|]. split; [lia|]. done.
Qed.

Lemma Write_sim (cap W : Z) (s : SmartBuffer) (q : fifo) (x : BufferItem) :
  sim cap W s q → (∀ L : Z, -1 ≤ L < W → aligned cap L) →
  ∃ s' : SmartBuffer, Write x s = Ok (s', (spec_write cap x q).2) ∧
    sim cap (W + 1) s' (spec_write cap x q).1.
Proof.
  intros Hsim Ha. pose proof (sim_weaken _ _ (W + 1) _ _ Hsim ltac:(lia)) as Hsim'.
  destruct Hsim as (Hc & Hs & T & HT & HW & Hr). subst cap.
  unfold Write, spec_write. rewrite Hs.
  case_decide as E1; [eauto|].
  case_decide as E2; [exists s; unfold Push; rewrite decide_True by congruence; auto|].
  case_decide as E3.
  - rewrite (Push_full s T (items q)), Hs by first [done | congruence]. eexists; split; [done|].
    split; [done|]. split; [done|]. exists T. cbn. split_and!; [lia..|].
    by apply SetState_repr.
  - rewrite (Push_stores s T (items q)) by first [done | congruence | lia | apply Ha; lia].
    eexists; split; [done|]. split; [done|]. split; [done|]. exists T. cbn.
    rewrite length_app; cbn. split_and!; [lia..|]. apply pushed_repr; [done|lia].
Qed.

Lemma Pop_sim (cap W : Z) (s : SmartBuffer) (q : fifo) :
  sim cap W s q → (∀ L : Z, -1 ≤ L < W → aligned cap L) →
  ∃ s' : SmartBuffer, Pop s = Ok (s', (spec_pop q).2) ∧ sim cap W s' (spec_pop q).1.
Proof.
  intros Hsim Ha. pose proof Hsim as (Hc & Hs & T & HT & HW & Hr). subst cap.
  unfold spec_pop. destruct q as [[|x xs] st]; cbn in *.
  - exists s. split; [by eapply Pop_empty|]. done.
  - rewrite (Pop_takes s T x xs) by first [done | apply Ha; lia].
    eexists; split; [done|]. split; [done|]. split; [done|]. exists (T + 1). cbn.
    split_and!; [lia..|]. by eapply popped_repr.
Qed.

Lemma exec_sim (cap W : Z) (s : SmartBuffer) (q : fifo) (o : op) :
  sim cap W s q → 0 ≤ W → (∀ L : Z, -1 ≤ L < W → aligned cap L) →
  ∃ s' : SmartBuffer, exec o s = Ok (s', (spec_exec cap o q).2) ∧
    sim cap (W + op_writes o) s' (spec_exec cap o q).1.
Proof.
  intros Hsim HW0 Ha. pose proof Hsim as (Hc & Hs & T & HT & HW & Hr).
  destruct o as [x| | |st| |]; cbn [exec spec_exec].
  - destruct (Write_sim cap W s q x Hsim Ha) as (s' & -> & ?). cbn.
    destruct (spec_write cap x q); cbn in *. eauto.
  - destruct (Pop_sim cap W s q Hsim Ha) as (s' & -> & ?). cbn.
    destruct (spec_pop q) as [? []]; cbn in *. rewrite Z.add_0_r. eauto.
  - exists s. cbn. rewrite Z.add_0_r. unfold Len. by rewrite (repr_count _ _ _ Hr).
  - eexists; split; [done|]. cbn. rewrite Z.add_0_r.
    split; [done|]. split; [done|]. exists T. eauto using SetState_repr.
  - exists s. cbn. rewrite Z.add_0_r. unfold GetState. by rewrite Hs.
  - eexists; split; [done|]. cbn. rewrite Z.add_0_r.
    split; [done|]. split; [done|]. exists (-1). cbn. split_and!; [lia..|].
    by eapply Reset_repr.
Qed.

Lemma exec_all_sim (cap : Z) (os : list op) (W : Z) (s : SmartBuffer) (q : fifo) :
  sim cap W s q → 0 ≤ W →
  (∀ L : Z, -1 ≤ L < W + Z.of_nat (writes os) → aligned cap L) →
  ∃ s' : SmartBuffer, exec_all os s = Ok (s', (spec_all cap os q).2) ∧
    sim cap (W + Z.of_nat (writes os)) s' (spec_all cap os q).1.
Proof.
  revert W s q. induction os as [|o os IH]; intros W s q Hsim HW Ha.
  - exists s. cbn. by rewrite Z.add_0_r.
  - rewrite writes_cons in *. assert (0 ≤ op_writes o) by (unfold op_writes; lia).
    destruct (exec_sim cap W s q o) as (s1 & E1 & H1); [done|done|intros; apply Ha; lia|].
    cbn [exec_all spec_all]. rewrite E1. cbn.
    destruct (spec_exec cap o q) as [q1 v]. cbn in *.
    destruct (IH (W + op_writes o) s1 q1) as (s2 & E2 & H2);
      [done|lia|intros; apply Ha; lia|].
    rewrite E2. cbn. destruct (spec_all cap os q1). cbn in *.
    rewrite Z.add_assoc. eauto.
Qed.

(** Enough for the indices not to disturb the slots: the writes stay below
    the 32-bit range, or the capacity divides [2 ^ 32]. *)
Lemma aligned_horizon (cap : Z) (n : nat) :
  0 < cap < 2 ^ 31 → Z.of_nat n ≤ 2 ^ 31 ∨ 2 ^ 32 `mod` cap = 0 →
  ∀ L : Z, -1 ≤ L < 0 + Z.of_nat n → aligned cap L.
Proof.
  intros Hc [H|H] L HL; [|by apply aligned_pow2].
  apply aligned_small; [done|]. unfold in_signed. lia.
Qed.

Lemma New_sim (cap : Z) :
  0 < cap < 2 ^ 31 →
  ∃ s : SmartBuffer, NewSmartBuffer cap = Ok s ∧ sim cap 0 s (mkFifo [] WriteOnly).
Proof.
  intros Hc. destruct (NewSmartBuffer_repr cap Hc) as (s & E & Hr & _ & Hcap & Hst & _).
  exists s. split; [done|]. split; [done|]. split; [done|]. exists (-1). cbn. auto with lia.
Qed.

(** C10. The sequential ring buffer is a bounded FIFO queue: whatever writes,
    reads, state changes and resets are made on a new buffer, none of them
    panics and each returns what the abstract queue of the same capacity
    returns, as long as the write attempts stay within the 32-bit indices or
    the capacity divides [2 ^ 32]. *)
Theorem SmartBuffer_refines_fifo (cap : Z) (os : list op)
    (Hcap : 0 < cap < 2 ^ 31)
    (Hw : Z.of_nat (writes os) ≤ 2 ^ 31 ∨ 2 ^ 32 `mod` cap = 0) :
  ∃ s s' : SmartBuffer, NewSmartBuffer cap = Ok s ∧
    exec_all os s = Ok (s', (spec_all cap os (mkFifo [] WriteOnly)).2).
Proof.
  destruct (New_sim cap Hcap) as (s & Es & Hs).
  destruct (exec_all_sim cap os 0 s _ Hs) as (s' & E & _);
    [done|by apply aligned_horizon|]. eauto.
Qed.

Lemma SmartBuffer_refines_fifo_witness :
  ∃ s s' : SmartBuffer, NewSmartBuffer 2 = Ok s ∧
    exec_all [OWrite (mkItem 8 1); OWrite (mkItem 16 2); OWrite (mkItem 24 3); OGetState;
              OPop; OPop; OPop; OReset; OWrite (mkItem 32 4); OPop] s
    = Ok (s', [VErr None; VErr None; VErr (Some errReadOnly); VInt ReadOnly;
               VItem 8 1; VItem 16 2; VItem 0 0; VUnit; VErr None; VItem 32 4]).
Proof.
  apply (SmartBuffer_refines_fifo 2
    [OWrite (mkItem 8 1); OWrite (mkItem 16 2); OWrite (mkItem 24 3); OGetState;
     OPop; OPop; OPop; OReset; OWrite (mkItem 32 4); OPop]); [lia | left; cbn; lia].
Defined.

(** ** What the slots retain *)

Definition no_reset (o : op) : Prop := o ≠ OReset.

Lemma exec_clean (cap W : Z) (s s' : SmartBuffer) (q : fifo) (o : op) (v : output) (T : Z) :
  capacity s = cap → state s = status q → repr s T (items q) → clean s T (items q) →
  -1 ≤ T → T + Z.of_nat (length (items q)) < W → (∀ L : Z, -1 ≤ L < W → aligned cap L) →
  no_reset o → exec o s = Ok (s', v) →
  ∃ T' : Z, repr s' T' (items (spec_exec cap o q).1) ∧
    clean s' T' (items (spec_exec cap o q).1) ∧
    capacity s' = cap ∧ state s' = status (spec_exec cap o q).1 ∧
    -1 ≤ T' ∧ T' + Z.of_nat (length (items (spec_exec cap o q).1)) < W + op_writes o.
Proof.
  intros Hc Hs Hr Hcl HT HW Ha Hno E. subst cap.
  destruct o as [x| | |st| |]; [| | | | |by destruct Hno]; cbn [exec spec_exec] in *.
  - unfold Write, spec_write in *. rewrite Hs in E. change (op_writes (OWrite x)) with 1.
    case_decide; simplify_eq/=; [exists T; auto with lia|].
    case_decide as Hro.
    { unfold Push in E. rewrite decide_True in E by congruence. simplify_eq/=.
      exists T. auto with lia. }
    case_decide.
    + rewrite (Push_full s T (items q)), Hs in E by first [done | congruence].
      simplify_eq/=. exists T. split_and!; [by apply SetState_repr|done..|lia].
    + rewrite (Push_stores s T (items q)) in E by first [done | congruence | lia | apply Ha; lia].
      simplify_eq/=. exists T. rewrite length_app; cbn.
      split_and!; [apply pushed_repr; [done|lia]|by apply pushed_clean|done..|lia].
  - change (op_writes OPop) with 0. rewrite Z.add_0_r. unfold spec_pop.
    destruct q as [[|x xs] st]; cbn in *.
    + rewrite (Pop_empty s T) in E by done. simplify_eq/=. exists T. auto with lia.
    + rewrite (Pop_takes s T x xs) in E by first [done | apply Ha; lia].
      simplify_eq/=. exists (T + 1).
      split_and!; [by eapply popped_repr|by eapply popped_clean|done|done|lia|lia].
  - simplify_eq/=. exists T. change (op_writes OLen) with 0. auto with lia.
  - simplify_eq/=. exists T. change (op_writes (OSetState st)) with 0.
    split_and!; [by apply SetState_repr|done..|lia].
  - simplify_eq/=. exists T. change (op_writes OGetState) with 0. auto with lia.
Qed.

(** A clean represented buffer holds zero items and queued items only. *)
Lemma clean_retains (s : SmartBuffer) (T : Z) (q : list BufferItem) (i : nat) (x : BufferItem) :
  repr s T q → clean s T q → buf s !! i = Some x → x = zeroItem ∨ x ∈ q.
Proof.
  intros [Hc Hb Ht Hh Hn Hr Hi] Hcl Hx.
  pose proof (lookup_lt_Some _ _ _ Hx) as Hlt.
  set (k := (Z.of_nat i - T) `mod` capacity s).
  pose proof (Z.mod_pos_bound (Z.of_nat i - T) (capacity s) ltac:(lia)) as Hk.
  assert (slot (capacity s) (T + k) = i) as Hslot.
  { unfold slot, k. rewrite Zplus_mod_idemp_r.
    replace (T + (Z.of_nat i - T)) with (Z.of_nat i) by lia. rewrite Z.mod_small; lia. }
  destruct (decide (k < Z.of_nat (length q))) as [Hlo|Hhi].
  - right. destruct (lookup_lt_is_Some_2 q (Z.to_nat k)) as [y Hy]; [lia|].
    pose proof (Hi _ _ Hy) as Hs. rewrite Z2Nat.id in Hs by lia.
    rewrite Hslot, Hx in Hs. simplify_eq. by eapply list_elem_of_lookup_2.
  - left. specialize (Hcl (T + k)). rewrite Hslot, Hx in Hcl. apply Some_inj, Hcl. lia.
Qed.

Lemma exec_all_clean (cap W : Z) (os : list op) (s s' : SmartBuffer) (q : fifo)
    (vs : list output) (T : Z) :
  capacity s = cap → state s = status q → repr s T (items q) → clean s T (items q) →
  -1 ≤ T → T + Z.of_nat (length (items q)) < W →
  (∀ L : Z, -1 ≤ L < W + Z.of_nat (writes os) → aligned cap L) →
  Forall no_reset os → exec_all os s = Ok (s', vs) →
  ∃ T' : Z, repr s' T' (items (spec_all cap os q).1) ∧ clean s' T' (items (spec_all cap os q).1).
Proof.
  revert W s q vs T. induction os as [|o os IH];
    intros W s q vs T Hc Hs Hr Hcl HT HW Ha Hno E.
  - cbn in *. simplify_eq. eauto.
  - rewrite writes_cons in Ha. assert (0 ≤ op_writes o) by (unfold op_writes; lia).
    inversion_clear Hno as [|? ? Ho Hos]. cbn [exec_all] in E.
    apply rbind_ok in E as ([s1 v] & E1 & E). apply rbind_ok in E as ([s2 vs2] & E2 & E).
    simplify_eq.
    destruct (exec_clean _ W s s1 q o v T eq_refl Hs Hr Hcl HT HW) as (T1 & ? & ? & Hc1 & ? & ? & ?);
      [intros; apply Ha; lia|done|done|].
    cbn [spec_all]. destruct (spec_exec (capacity s) o q) as [q1 v1]. cbn in *.
    destruct (IH (W + op_writes o) s1 q1 vs2 T1) as (T2 & ? & ?);
      [done..|intros; apply Ha; lia|done|done|].
    destruct (spec_all (capacity s) os q1). cbn in *. eauto.
Qed.

(** The ring keeps no item it has handed out: after any run without a
    reset, every slot is empty or holds an item that is still queued, so the
    memory of an item that was read is not kept alive by the buffer. *)
Theorem SmartBuffer_retains_only_queued (cap : Z) (os : list op) (s s' : SmartBuffer)
    (vs : list output) (i : nat) (x : BufferItem)
    (Hcap : 0 < cap < 2 ^ 31)
    (Hw : Z.of_nat (writes os) ≤ 2 ^ 31 ∨ 2 ^ 32 `mod` cap = 0)
    (Hno : Forall no_reset os)
    (Hnew : NewSmartBuffer cap = Ok s)
    (Hrun : exec_all os s = Ok (s', vs))
    (Hslot : buf s' !! i = Some x) :
  x = zeroItem ∨ x ∈ items (spec_all cap os (mkFifo [] WriteOnly)).1.
Proof.
  destruct (NewSmartBuffer_repr cap Hcap) as (s0 & E & Hr & Hcl & Hc & Hst & _).
  rewrite Hnew in E. simplify_eq.
  destruct (exec_all_clean (capacity s0) 0 os s0 s' (mkFifo [] WriteOnly) vs (-1)) as (T' & Hr' & Hcl');
    [done..|cbn; lia|by apply aligned_horizon|done|done|].
  by eapply clean_retains.
Qed.

Lemma SmartBuffer_retains_only_queued_witness :
  mkItem 16 2 = zeroItem ∨
  mkItem 16 2 ∈ items (spec_all 3 [OWrite (mkItem 8 1); OWrite (mkItem 16 2); OPop]
                         (mkFifo [] WriteOnly)).1.
Proof.
  eapply (SmartBuffer_retains_only_queued 3 [OWrite (mkItem 8 1); OWrite (mkItem 16 2); OPop]
    _ _ _ 0%nat).
  - lia.
  - left; cbn; lia.
  - repeat constructor; discriminate.
  - reflexivity.
  - reflexivity.
  - reflexivity.
Defined.

(** ** Wrap-around of the indices *)

Lemma idle_repr (cap L : Z) : 0 < cap < 2 ^ 31 → repr (idle cap L) L [].
Proof.
  intros Hc. split; cbn [idle buf head tail count capacity length]; try done; try lia.
  - by rewrite length_replicate.
  - f_equal. lia.
Qed.

Lemma idle_cycle (cap L : Z) (x : BufferItem) :
  0 < cap < 2 ^ 31 → aligned cap L →
  Write x (idle cap L) = Ok (pushed x L (idle cap L), None) ∧
  Pop (pushed x L (idle cap L)) = Ok (idle cap (L + 1), (Ptr x, Size x)).
Proof.
  intros Hc Ha. pose proof (idle_repr cap L Hc) as Hr.
  pose proof (Push_stores (idle cap L) L [] x Hr) as E.
  pose proof (pushed_repr (idle cap L) L [] x Hr) as Hr'.
  cbn [length Z.of_nat] in *. rewrite Z.add_0_r in *. split.
  - unfold Write. rewrite decide_False by done. apply E; [done|cbn; lia|done].
  - rewrite (Pop_takes _ L x []) by first [apply Hr'; cbn; lia | done].
    unfold popped, pushed, idle. cbn. rewrite list_insert_insert_eq.
    rewrite list_insert_id; [done|]. apply lookup_replicate_2.
    unfold slot. pose proof (Z.mod_pos_bound L cap ltac:(lia)). lia.
Qed.

Lemma cycles_idle (cap : Z) (x : BufferItem) (n : nat) :
  0 < cap < 2 ^ 31 → Z.of_nat n ≤ 2 ^ 31 →
  cycles n x (idle cap (-1)) = Ok (idle cap (Z.of_nat n - 1)).
Proof.
  intros Hc. induction n as [|n IH]; intros Hn; [done|].
  cbn [cycles]. rewrite IH by lia. cbn [rbind].
  destruct (idle_cycle cap (Z.of_nat n - 1) x Hc) as [-> E].
  { apply aligned_small; [done|]. unfold in_signed. lia. }
  cbn [rbind]. rewrite E. cbn [rbind]. do 2 f_equal. lia.
Qed.

(** C31. The queue property ends with the 32-bit range of the indices when the
    capacity does not divide [2 ^ 32]: with capacity 3, after [2 ^ 31] rounds
    of a write and a read, two items written to the empty buffer share a slot;
    the second overwrites the first, is read in its place, and the next read
    returns nil. *)
Theorem SmartBuffer_index_wraparound_loses_item (x a b : BufferItem) :
  ∃ s0 s : SmartBuffer, NewSmartBuffer 3 = Ok s0 ∧ cycles (Z.to_nat (2 ^ 31)) x s0 = Ok s ∧
    ∃ s' : SmartBuffer, exec_all [OWrite a; OWrite b; OPop; OPop; OLen] s =
      Ok (s', [VErr None; VErr None; VItem (Ptr b) (Size b); VItem 0 0; VInt 0]).
Proof.
  exists (idle 3 (-1)), (idle 3 (Z.of_nat (Z.to_nat (2 ^ 31)) - 1)).
  split; [done|]. split; [apply cycles_idle; lia|].
  rewrite Z2Nat.id by lia.
  destruct a as [[|pa|pa] na], b as [[|pb|pb] nb]; eexists; reflexivity.
Qed.
