(* ===== verification/SmartBufferConc.v ===== *)
(** * The ring buffer under concurrent goroutines

    The calls [Push] and [Pop] of [src/core/component/smart_buffer.go] one
    shared access at a time, for any number of writing and reading goroutines
    in any interleaving.  The memory is sequentially consistent; an access to a
    slot, which has two words, is one step.  A call that runs alone is the
    call of [SmartBuffer]. *)
From S2P Require Import Prelude.
From S2P Require Import Consts.
From S2P Require Import SmartBuffer.
Open Scope Z_scope.
Open Scope go_scope.

(** ** The calls, instruction by instruction *)

(** Where a goroutine is inside [Push]. *)
Inductive push_pc :=
  | PushState                        (** loads [state] *)
  | PushCount                        (** loads [count] *)
  | PushFull                         (** turns a full write-only buffer read-only *)
  | PushHead                         (** loads [head] *)
  | PushCas (h : Z)                  (** tries to claim the slot of index [h] *)
  | PushScan (n : nat) (pos : Z)     (** looks at the slot, [n] attempts left *)
  | PushStore (pos : Z)              (** stores the item *)
  | PushAdd.                         (** increments [count] *)

(** Where a goroutine is inside [Pop]. *)
Inductive pop_pc :=
  | PopCount
  | PopTail
  | PopCas (t : Z)
  | PopRead (n : nat) (pos : Z) (item : BufferItem)
  | PopClear (pos : Z) (item : BufferItem)
  | PopSub (item : BufferItem).

#[export] Instance push_pc_eq_dec : EqDecision push_pc.
Proof. solve_decision. Defined.

#[export] Instance pop_pc_eq_dec : EqDecision pop_pc.
Proof. solve_decision. Defined.

Definition set_head (h : Z) (s : SmartBuffer) : SmartBuffer :=
  mkSB (buf s) h (tail s) (count s) (capacity s) (state s) (sem_closed s).
Definition set_tail (t : Z) (s : SmartBuffer) : SmartBuffer :=
  mkSB (buf s) (head s) t (count s) (capacity s) (state s) (sem_closed s).
Definition add_count (n : Z) (s : SmartBuffer) : SmartBuffer :=
  mkSB (buf s) (head s) (tail s) (int32 (count s + n)) (capacity s) (state s) (sem_closed s).
Definition set_buf (b : list BufferItem) (s : SmartBuffer) : SmartBuffer :=
  mkSB b (head s) (tail s) (count s) (capacity s) (state s) (sem_closed s).

(** One access of [Push]: the goroutine goes on or the call returns. *)
Definition push_step (sli : BufferItem) (pc : push_pc) (s : SmartBuffer) :
    result (SmartBuffer * (push_pc + option error)) :=
  match pc with
  | PushState =>
      if decide (state s = ReadOnly) then Ok (s, inr (Some errReadOnly)) else Ok (s, inl PushCount)
  | PushCount =>
      if decide (capacity s ≤ count s) then Ok (s, inl PushFull) else Ok (s, inl PushHead)
  | PushFull =>
      let st := if decide (state s = WriteOnly) then ReadOnly else state s in
      Ok (SetState st s, inr (Some errReadOnly))
  | PushHead => Ok (s, inl (PushCas (head s)))
  | PushCas h =>
      if decide (head s = h) then
        Ok (set_head (int32 (h + 1)) s, inl (PushScan maxRetry (calcPos (capacity s) h)))
      else Ok (s, inl PushState)
  | PushScan O pos => Ok (s, inl (PushStore pos))
  | PushScan (S n) pos =>
      let* it := indexZ (buf s) pos in
      if decide (Ptr it = 0) then Ok (s, inl (PushStore pos)) else Ok (s, inl (PushScan n pos))
  | PushStore pos =>
      let* b := set_indexZ (buf s) pos sli in
      Ok (set_buf b s, inl PushAdd)
  | PushAdd => Ok (add_count 1 s, inr None)
  end.

(** One access of [Pop]: [None] is the empty buffer, [Some] the item taken. *)
Definition pop_step (pc : pop_pc) (s : SmartBuffer) :
    result (SmartBuffer * (pop_pc + option BufferItem)) :=
  match pc with
  | PopCount => if decide (count s = 0) then Ok (s, inr None) else Ok (s, inl PopTail)
  | PopTail => Ok (s, inl (PopCas (tail s)))
  | PopCas t =>
      if decide (tail s = t) then
        Ok (set_tail (int32 (t + 1)) s, inl (PopRead maxRetry (calcPos (capacity s) t) zeroItem))
      else Ok (s, inl PopCount)
  | PopRead O pos item => Ok (s, inl (PopClear pos item))
  | PopRead (S n) pos _ =>
      let* it := indexZ (buf s) pos in
      if decide (Ptr it ≠ 0) then Ok (s, inl (PopClear pos it)) else Ok (s, inl (PopRead n pos it))
  | PopClear pos item =>
      let* b := set_indexZ (buf s) pos zeroItem in
      Ok (set_buf b s, inl (PopSub item))
  | PopSub item => Ok (add_count (-1) s, inr (Some item))
  end.

(** ** Calls that run alone *)

Fixpoint push_alone (n : nat) (sli : BufferItem) (pc : push_pc) (s : SmartBuffer) :
    result (SmartBuffer * option error) :=
  match n with
  | O => OutOfFuel
  | S n =>
      let* (s, next) := push_step sli pc s in
      match next with
      | inl pc => push_alone n sli pc s
      | inr err => Ok (s, err)
      end
  end.

Fixpoint pop_alone (n : nat) (pc : pop_pc) (s : SmartBuffer) : result (SmartBuffer * (Z * Z)) :=
  match n with
  | O => OutOfFuel
  | S n =>
      let* (s, next) := pop_step pc s in
      match next with
      | inl pc => pop_alone n pc s
      | inr None => Ok (s, (0, 0))
      | inr (Some item) => Ok (s, (Ptr item, Size item))
      end
  end.

(** Enough for any call: the longest path has ten accesses. *)
Definition call_fuel : nat := 10.

(** ** Goroutines *)

(** A writer pushes the items of [todo] one after the other. *)
Record producer := mkProducer {
  todo : list BufferItem;
  ppc : push_pc;
  accepted : list BufferItem;
  refused : list BufferItem
}.

(** A reader pops for ever; [got] is what its calls returned, the calls that
    found the buffer empty left out. *)
Record consumer := mkConsumer { cpc : pop_pc; got : list BufferItem }.

Record system := mkSystem {
  ring : SmartBuffer;
  producers : list producer;
  consumers : list consumer
}.

Definition producer_step (p : producer) (s : SmartBuffer) : result (SmartBuffer * producer) :=
  match todo p with
  | [] => Ok (s, p)
  | x :: xs =>
      let* (s, next) := push_step x (ppc p) s in
      match next with
      | inl pc => Ok (s, mkProducer (todo p) pc (accepted p) (refused p))
      | inr None => Ok (s, mkProducer xs PushState (accepted p ++ [x]) (refused p))
      | inr (Some _) => Ok (s, mkProducer xs PushState (accepted p) (refused p ++ [x]))
      end
  end.

Definition consumer_step (c : consumer) (s : SmartBuffer) : result (SmartBuffer * consumer) :=
  let* (s, next) := pop_step (cpc c) s in
  match next with
  | inl pc => Ok (s, mkConsumer pc (got c))
  | inr None => Ok (s, mkConsumer PopCount (got c))
  | inr (Some item) => Ok (s, mkConsumer PopCount (got c ++ [item]))
  end.

(** What runs next: a writer, a reader, or another goroutine that sets the
    state or resets the buffer. *)
Inductive event :=
  | EPush (i : nat)
  | EPop (j : nat)
  | ESetState (st : Z)
  | EReset.

Definition step (e : event) (sys : system) : result system :=
  match e with
  | EPush i =>
      match producers sys !! i with
      | None => Ok sys
      | Some p =>
          let* (s, p) := producer_step p (ring sys) in
          Ok (mkSystem s (<[i := p]> (producers sys)) (consumers sys))
      end
  | EPop j =>
      match consumers sys !! j with
      | None => Ok sys
      | Some c =>
          let* (s, c) := consumer_step c (ring sys) in
          Ok (mkSystem s (producers sys) (<[j := c]> (consumers sys)))
      end
  | ESetState st => Ok (mkSystem (SetState st (ring sys)) (producers sys) (consumers sys))
  | EReset => Ok (mkSystem (Reset (ring sys)) (producers sys) (consumers sys))
  end.

Fixpoint run (es : list event) (sys : system) : result system :=
  match es with
  | [] => Ok sys
  | e :: es =>
      let* sys := step e sys in
      run es sys
  end.

Definition start (s : SmartBuffer) (xss : list (list BufferItem)) (readers : nat) : system :=
  mkSystem s ((λ xs, mkProducer xs PushState [] []) <$> xss) (replicate readers (mkConsumer PopCount [])).

(** ** Calls that run alone are the calls of [SmartBuffer] *)

(** Runs a call that is not interrupted, whatever the buffer answers. *)
Ltac run_call :=
  repeat first [ done
               | progress cbn [maxRetry push_alone push_step pop_alone pop_step rbind scan_free
                               retry_read set_head set_tail buf capacity]
               | rewrite decide_True by done
               | case_decide
               | match goal with E : indexZ _ _ = _ |- _ => rewrite E end
               | match goal with E : set_indexZ _ _ _ = _ |- _ => rewrite E end
               | match goal with |- context [indexZ ?b ?i] => destruct (indexZ b i) eqn:? end
               | match goal with |- context [set_indexZ ?b ?i ?y] =>
                   destruct (set_indexZ b i y) eqn:? end ].

Lemma push_alone_Push (x : BufferItem) (s : SmartBuffer) :
  push_alone call_fuel x PushState s = Push x s.
Proof. unfold Push, call_fuel. run_call. Qed.

Lemma Push_returns (x : BufferItem) (s : SmartBuffer) : Push x s ≠ OutOfFuel.
Proof.
  assert (∀ (l : list BufferItem) (k : Z), indexZ l k ≠ OutOfFuel) as Hget.
  { intros l k. unfold indexZ, index. case_decide; [by destruct (l !! _)|done]. }
  assert (∀ n : nat, scan_free n (buf s) (calcPos (capacity s) (head s)) ≠ OutOfFuel) as Hscan.
  { induction n as [|n IH]; cbn; [done|].
    pose proof (Hget (buf s) (calcPos (capacity s) (head s))) as Hi.
    destruct (indexZ _ _); cbn; [by case_decide|done..]. }
  unfold Push. do 2 (case_decide; [done|]). specialize (Hscan maxRetry).
  destruct (scan_free _ _ _); cbn; [|done..].
  unfold set_indexZ, set_index. by repeat case_decide.
Qed.

Lemma pop_alone_Pop (s : SmartBuffer) : pop_alone call_fuel PopCount s = Pop s.
Proof. unfold Pop, call_fuel. run_call. Qed.

(** A call that no other goroutine interrupts returns: run access by
    access from any buffer, a push and a pop end within ten accesses with the
    buffer, the result and the panics of the one-step definitions. *)
Theorem uninterrupted_calls (x : BufferItem) (s : SmartBuffer) :
  push_alone call_fuel x PushState s = Push x s ∧ pop_alone call_fuel PopCount s = Pop s.
Proof. split; [apply push_alone_Push|apply pop_alone_Pop]. Qed.

(** ** One writer and one reader

    [q] holds the items whose push has counted and whose pop has not
    subtracted yet; [T] is the unbounded index of the oldest of them. *)

Definition push_claimed (pc : push_pc) : Z :=
  match pc with PushScan _ _ | PushStore _ | PushAdd => 1 | _ => 0 end.

Definition pop_claimed (pc : pop_pc) : Z :=
  match pc with PopRead _ _ _ | PopClear _ _ | PopSub _ => 1 | _ => 0 end.

(** What the writer has learnt is still true. *)
Definition push_ok (s : SmartBuffer) (T : Z) (q : list BufferItem) (p : producer) : Prop :=
  let room := Z.of_nat (length q) < capacity s in
  let L := T + Z.of_nat (length q) in
  match ppc p with
  | PushState | PushCount | PushFull => True
  | PushHead => room
  | PushCas h => room ∧ h = head s
  | PushScan _ pos | PushStore pos => room ∧ pos = L `mod` capacity s
  | PushAdd => room ∧ buf s !! slot (capacity s) L = hd_error (todo p)
  end.

Definition pop_ok (s : SmartBuffer) (T : Z) (q : list BufferItem) (c : consumer) : Prop :=
  match cpc c with
  | PopCount => True
  | PopTail => q ≠ []
  | PopCas t => q ≠ [] ∧ t = tail s
  | PopRead n pos item => q ≠ [] ∧ pos = T `mod` capacity s ∧ (n = maxRetry ∨ hd_error q = Some item)
  | PopClear pos item => pos = T `mod` capacity s ∧ hd_error q = Some item
  | PopSub item => hd_error q = Some item
  end.

Definition cleared (c : consumer) : Prop := match cpc c with PopSub _ => True | _ => False end.

(** The unbounded index of the oldest item. *)
Definition oldest (c : consumer) : Z := -1 + Z.of_nat (length (got c)).

Record inv (cap : Z) (xs : list BufferItem) (s : SmartBuffer) (p : producer) (c : consumer)
    (q : list BufferItem) : Prop := {
  inv_cap : capacity s = cap ∧ 0 < cap < 2 ^ 31;
  inv_buf : length (buf s) = Z.to_nat (capacity s);
  inv_accepted : accepted p = got c ++ q;
  inv_sublist : accepted p ++ todo p `sublist_of` xs;
  inv_head : head s = int32 (oldest c + Z.of_nat (length q) + push_claimed (ppc p));
  inv_tail : tail s = int32 (oldest c + pop_claimed (cpc c));
  inv_count : count s = Z.of_nat (length q);
  inv_room : Z.of_nat (length q) ≤ capacity s;
  inv_push : push_ok s (oldest c) q p;
  inv_pop : pop_ok s (oldest c) q c;
  inv_slots : ∀ (i : nat) (x : BufferItem), q !! i = Some x →
    (i = 0%nat ∧ cleared c) ∨ buf s !! slot (capacity s) (oldest c + Z.of_nat i) = Some x
}.

(** The indices of the run stay in step with their slots. *)
Definition horizon (cap : Z) (xs : list BufferItem) : Prop :=
  ∀ L : Z, -1 ≤ L < Z.of_nat (length xs) → aligned cap L.

Lemma inv_length (cap : Z) (xs : list BufferItem) (s : SmartBuffer) (p : producer) (c : consumer)
    (q : list BufferItem) :
  inv cap xs s p c q →
  -1 ≤ oldest c ∧
  oldest c + Z.of_nat (length q) + Z.of_nat (length (todo p)) < Z.of_nat (length xs).
Proof.
  intros [_ _ Ha Hs _ _ _ _ _ _ _]. apply sublist_length in Hs.
  rewrite Ha, !length_app in Hs. unfold oldest. lia.
Qed.

Lemma slot_read (cap : Z) (xs : list BufferItem) (s : SmartBuffer) (p : producer) (c : consumer)
    (q : list BufferItem) (L : Z) :
  inv cap xs s p c q → ∃ y : BufferItem, indexZ (buf s) (L `mod` capacity s) = Ok y.
Proof.
  intros []. destruct (lookup_lt_is_Some_2 (buf s) (slot (capacity s) L)) as [y Hy];
    [apply slot_lt; lia|]. exists y. apply index_slot; [lia|done].
Qed.

Lemma producer_step_inv (cap : Z) (xs : list BufferItem) (s : SmartBuffer) (p : producer)
    (c : consumer) (q : list BufferItem) :
  horizon cap xs → inv cap xs s p c q →
  ∃ (s' : SmartBuffer) (p' : producer) (q' : list BufferItem),
    producer_step p s = Ok (s', p') ∧ inv cap xs s' p' c q'.
Proof.
  intros Hor H. pose proof (inv_length _ _ _ _ _ _ H) as [HT Hlen].
  destruct p as [td pc acc ref], td as [|x td]; [by exists s, (mkProducer [] pc acc ref), q|].
  pose proof H as [[Hc1 Hc2] Hb Ha Hsub Hh Ht Hn Hr Hpush Hpop Hslots].
  unfold producer_step, push_ok in *. cbn [todo ppc accepted refused] in *.
  assert (acc ++ td `sublist_of` xs) as Hsub'
    by (etrans; [|exact Hsub]; apply sublist_app; [done|by constructor]).
  destruct pc as [| | | |h|n pos|pos|]; cbn [push_step rbind push_claimed] in *.
  - case_decide; cbn [rbind]; do 3 eexists; (split; [reflexivity|]); by split.
  - case_decide; cbn [rbind]; do 3 eexists; (split; [reflexivity|]); split; try done.
    unfold push_ok; cbn. lia.
  - do 3 eexists; (split; [reflexivity|]); by split.
  - do 3 eexists; (split; [reflexivity|]). split; try done.
  - destruct Hpush as [Hroom ->]. rewrite decide_True by done. cbn [rbind].
    do 3 eexists; (split; [reflexivity|]). split; cbn; try done.
    + rewrite Hh, signed_idemp_add_l. f_equal. lia.
    + split; [done|]. rewrite Hh, Z.add_0_r, Hc1. apply Hor. cbn in Hlen. lia.
  - destruct Hpush as [Hroom ->]. destruct n as [|n].
    + do 3 eexists; (split; [reflexivity|]); by split.
    + destruct (slot_read _ _ _ _ _ _ (oldest c + Z.of_nat (length q)) H) as [y ->]. cbn [rbind].
      case_decide; do 3 eexists; (split; [reflexivity|]); by split.
  - destruct Hpush as [Hroom ->]. rewrite set_slot by lia. cbn [rbind].
    do 3 eexists; (split; [reflexivity|]). split; cbn; try done.
    + by rewrite length_insert.
    + split; [done|]. apply list_lookup_insert_eq. apply slot_lt; lia.
    + intros i y Hy. destruct (Hslots i y Hy) as [?|Hs]; [by left|right].
      rewrite list_lookup_insert_ne; [done|].
      apply lookup_lt_Some in Hy. intros E%slot_inj; lia.
  - destruct Hpush as [Hroom Hx]. exists (add_count 1 s), (mkProducer td PushState (acc ++ [x]) ref), (q ++ [x]).
    split; [reflexivity|]. split; cbn; rewrite ?length_app; cbn; try done.
    + by rewrite Ha, app_assoc.
    + by rewrite <- app_assoc.
    + rewrite Hh. f_equal. lia.
    + rewrite signed_id by (unfold in_signed; lia). lia.
    + lia.
    + unfold pop_ok in *. destruct (cpc c), q; cbn in *; intuition congruence.
    + intros i y [Hy|[Hl Hy]]%lookup_app_Some; [by apply Hslots|]. right.
      apply list_lookup_singleton_Some in Hy as [Hy <-]. cbn in Hx. rewrite <- Hx. do 2 f_equal. lia.
Qed.

(** How far a reader that runs alone is from having emptied the buffer. *)
Definition distance (q : list BufferItem) (c : consumer) : nat :=
  10 * length q +
  match cpc c with
  | PopCount => 9
  | PopTail => 8
  | PopCas _ => 7
  | PopRead n _ _ => 3 + n
  | PopClear _ _ => 2
  | PopSub _ => 1
  end.

(** The reader clears the slot it has read. *)
Lemma clear_inv (cap : Z) (xs : list BufferItem) (s : SmartBuffer) (p : producer) (g q : list BufferItem)
    (pos : Z) (item : BufferItem) :
  let T := -1 + Z.of_nat (length g) in
  inv cap xs s p (mkConsumer (PopClear pos item) g) q →
  inv cap xs (set_buf (<[slot (capacity s) T := zeroItem]> (buf s)) s) p (mkConsumer (PopSub item) g) q.
Proof.
  intros T [[Hc1 Hc2] Hb Ha Hsub Hh Ht Hn Hr Hpush Hpop Hslots].
  unfold pop_ok, oldest, cleared in *. cbn [cpc got] in *. destruct Hpop as [-> Hitem].
  split; cbn; try done.
  - by rewrite length_insert.
  - unfold push_ok in *; cbn. destruct (ppc p); try done. destruct Hpush as [Hroom <-]. split; [done|].
    apply list_lookup_insert_ne. unfold oldest in *; cbn [got] in *.
    intros E%slot_inj; destruct q; cbn [length hd_error] in *; try done; lia.
  - intros i y Hy. destruct i as [|i]; [by left|right].
    destruct (Hslots (S i) y Hy) as [[]|Hs]; [done|].
    unfold oldest; cbn [got]. rewrite list_lookup_insert_ne; [done|].
    apply lookup_lt_Some in Hy. intros E%slot_inj; lia.
Qed.

(** The pop counts: the oldest item has left the queue. *)
Lemma sub_inv (cap : Z) (xs : list BufferItem) (s : SmartBuffer) (p : producer) (g q : list BufferItem)
    (item : BufferItem) :
  inv cap xs s p (mkConsumer (PopSub item) g) (item :: q) →
  inv cap xs (add_count (-1) s) p (mkConsumer PopCount (g ++ [item])) q.
Proof.
  intros [[Hc1 Hc2] Hb Ha Hsub Hh Ht Hn Hr Hpush Hpop Hslots].
  unfold oldest, cleared in *. cbn [cpc got pop_claimed] in *.
  assert (oldest (mkConsumer PopCount (g ++ [item])) = -1 + Z.of_nat (length g) + 1) as Hold
    by (unfold oldest; cbn; rewrite length_app; cbn; lia).
  split; rewrite ?Hold; cbn; try done.
  - by rewrite Ha, <- app_assoc.
  - rewrite Hh. f_equal. cbn. lia.
  - rewrite Ht. f_equal. cbn. lia.
  - rewrite signed_id by (unfold in_signed; cbn in *; lia). cbn in *. lia.
  - cbn in *. lia.
  - unfold push_ok in *. destruct (ppc p); cbn in *; try done;
      replace (-1 + Z.of_nat (length g) + 1 + Z.of_nat (length q))
        with (-1 + Z.of_nat (length g) + Z.of_nat (S (length q))) by lia;
      intuition lia.
  - intros i y Hy. right. destruct (Hslots (S i) y Hy) as [[]|Hs]; [done|].
    rewrite <- Hs. f_equal. f_equal. lia.
Qed.

Lemma consumer_step_inv (cap : Z) (xs : list BufferItem) (s : SmartBuffer) (p : producer)
    (c : consumer) (q : list BufferItem) :
  horizon cap xs → inv cap xs s p c q →
  ∃ (s' : SmartBuffer) (c' : consumer) (q' : list BufferItem),
    consumer_step c s = Ok (s', c') ∧ inv cap xs s' p c' q' ∧
    ((q' = [] ∧ cpc c' = PopCount) ∨ (distance q' c' < distance q c)%nat).
Proof.
  intros Hor H. pose proof (inv_length _ _ _ _ _ _ H) as [HT Hlen].
  destruct c as [pc g]. pose proof H as [[Hc1 Hc2] Hb Ha Hsub Hh Ht Hn Hr Hpush Hpop Hslots].
  unfold consumer_step, pop_ok, oldest, cleared in *. cbn [cpc got] in *.
  destruct pc as [| |t|n pos item|pos item|item]; cbn [pop_step rbind pop_claimed] in *.
  - case_decide; cbn [rbind].
    + exists s, (mkConsumer PopCount g), q. split; [done|]. split; [done|]. left.
      split; [|done]. destruct q; cbn in *; [done|lia].
    + exists s, (mkConsumer PopTail g), q. split; [done|]. split; [|right; cbn; lia].
      split; try done. unfold pop_ok; cbn. intros ->. cbn in *. lia.
  - exists s, (mkConsumer (PopCas (tail s)) g), q. split; [done|]. split; [|right; cbn; lia].
    split; try done.
  - destruct Hpop as [Hq ->]. rewrite decide_True by done. cbn [rbind].
    eexists _, _, q. split; [done|]. split; [|right; cbn; unfold maxRetry; lia].
    split; cbn; try done.
    + rewrite Ht, signed_idemp_add_l. unfold oldest; cbn. f_equal. lia.
    + unfold pop_ok; cbn. split; [done|]. split; [|by left].
      rewrite Ht, Z.add_0_r, Hc1. unfold oldest; cbn [got]. apply Hor.
      destruct q; cbn [length] in *; [done|lia].
  - destruct Hpop as (Hq & -> & Hitem). destruct q as [|x q]; [done|].
    destruct (Hslots 0%nat x eq_refl) as [[]|Hx]; [done|]. rewrite Z.add_0_r in Hx.
    destruct n as [|n].
    + exists s, (mkConsumer (PopClear ((-1 + Z.of_nat (length g)) `mod` capacity s) item) g), (x :: q).
      split; [done|]. split; [|right; cbn; lia]. split; try done. unfold pop_ok; cbn.
      split; [done|]. by destruct Hitem.
    + rewrite (index_slot _ _ _ x) by (done || lia). cbn [rbind].
      case_decide; eexists _, _, (x :: q); (split; [reflexivity|]); (split; [|right; cbn; lia]);
        split; try done; unfold pop_ok; cbn; auto.
  - destruct Hpop as [-> Hitem]. rewrite set_slot by lia. cbn [rbind].
    eexists _, _, q. split; [done|]. split; [by eapply clear_inv|right; cbn; lia].
  - destruct q as [|x q]; [done|]. cbn in Hpop. injection Hpop as ->.
    exists (add_count (-1) s), (mkConsumer PopCount (g ++ [item])), q.
    split; [reflexivity|]. split; [by apply sub_inv|right; cbn; lia].
Qed.

Lemma ESetState_inv (cap : Z) (xs : list BufferItem) (s : SmartBuffer) (p : producer)
    (c : consumer) (q : list BufferItem) (st : Z) :
  inv cap xs s p c q → inv cap xs (SetState st s) p c q.
Proof. by intros []. Qed.

Lemma step_inv (cap : Z) (xs : list BufferItem) (e : event) (s : SmartBuffer) (p : producer)
    (c : consumer) (q : list BufferItem) :
  horizon cap xs → e ≠ EReset → inv cap xs s p c q →
  ∃ (s' : SmartBuffer) (p' : producer) (c' : consumer) (q' : list BufferItem),
    step e (mkSystem s [p] [c]) = Ok (mkSystem s' [p'] [c']) ∧ inv cap xs s' p' c' q'.
Proof.
  intros Hor He H. destruct e as [[|i]|[|j]|st|]; cbn [step producers consumers ring].
  - destruct (producer_step_inv _ _ _ _ _ _ Hor H) as (s' & p' & q' & E & ?).
    cbn. rewrite E. cbn. by exists s', p', c, q'.
  - by exists s, p, c, q.
  - destruct (consumer_step_inv _ _ _ _ _ _ Hor H) as (s' & c' & q' & E & ? & _).
    cbn. rewrite E. cbn. by exists s', p, c', q'.
  - by exists s, p, c, q.
  - exists (SetState st s), p, c, q. split; [done|]. by apply ESetState_inv.
  - done.
Qed.

Lemma run_inv (cap : Z) (xs : list BufferItem) (es : list event) (s : SmartBuffer) (p : producer)
    (c : consumer) (q : list BufferItem) :
  horizon cap xs → EReset ∉ es → inv cap xs s p c q →
  ∃ (s' : SmartBuffer) (p' : producer) (c' : consumer) (q' : list BufferItem),
    run es (mkSystem s [p] [c]) = Ok (mkSystem s' [p'] [c']) ∧ inv cap xs s' p' c' q'.
Proof.
  intros Hor. revert s p c q. induction es as [|e es IH]; intros s p c q He H.
  { by exists s, p, c, q. }
  apply not_elem_of_cons in He as [He Hes].
  destruct (step_inv _ _ e _ _ _ _ Hor (not_eq_sym He) H) as (s1 & p1 & c1 & q1 & E & H1).
  cbn [run]. rewrite E. cbn. by apply (IH s1 p1 c1 q1).
Qed.

(** A reader that runs alone long enough empties the buffer. *)
Lemma reader_drains (cap : Z) (xs : list BufferItem) (s : SmartBuffer) (p : producer)
    (c : consumer) (q : list BufferItem) (n : nat) :
  horizon cap xs → inv cap xs s p c q → (distance q c ≤ n + 9)%nat →
  ∃ (s' : SmartBuffer) (c' : consumer),
    run (replicate n (EPop 0)) (mkSystem s [p] [c]) = Ok (mkSystem s' [p] [c']) ∧
    inv cap xs s' p c' [].
Proof.
  intros Hor. revert s c q. induction n as [|n IH]; intros s c q H Hn.
  { exists s, c. split; [done|]. destruct q; [done|]. unfold distance in Hn. cbn in Hn.
    destruct (cpc c); lia. }
  destruct (consumer_step_inv _ _ _ _ _ _ Hor H) as (s1 & c1 & q1 & E & H1 & Hd).
  cbn [replicate run step consumers lookup list_lookup]. cbn [ring]. rewrite E.
  cbn [rbind producers insert list_insert]. apply (IH _ _ q1 H1).
  destruct Hd as [[-> Hc]|Hd]; [|lia]. unfold distance. rewrite Hc. cbn. lia.
Qed.

Lemma start_inv (cap : Z) (xs : list BufferItem) :
  0 < cap < 2 ^ 31 →
  ∃ s : SmartBuffer, NewSmartBuffer cap = Ok s ∧
    inv cap xs s (mkProducer xs PushState [] []) (mkConsumer PopCount []) [].
Proof.
  intros Hc. destruct (NewSmartBuffer_repr cap Hc) as (s & E & Hr & _ & Hcap & _).
  destruct Hr. exists s. split; [done|]. split; cbn in *; try done; lia.
Qed.

Lemma horizon_ok (cap : Z) (xs : list BufferItem) :
  0 < cap < 2 ^ 31 → Z.of_nat (length xs) ≤ 2 ^ 31 ∨ 2 ^ 32 `mod` cap = 0 → horizon cap xs.
Proof. intros Hc Hl L HL. by apply (aligned_horizon cap (length xs)). Qed.

(** ** Properties *)

(** C11. One writer of at most [2 ^ 31] items, or of any number when the
    capacity divides [2 ^ 32], and one reader never lose, duplicate or reorder
    an item, however their accesses interleave with each other and with changes
    of the state word, as long as nobody resets the ring: no access panics, the accepted items are, in order, those the
    reader got followed by at most [cap] items still stored, they are writer's
    items in its order, and a reader that goes on alone gets all of them. *)
Theorem SPSC_fifo (cap : Z) (xs : list BufferItem) (es : list event)
    (Hcap : 0 < cap < 2 ^ 31)
    (Hxs : Z.of_nat (length xs) ≤ 2 ^ 31 ∨ 2 ^ 32 `mod` cap = 0) (Hes : EReset ∉ es) :
  ∃ (s r : SmartBuffer) (p : producer) (c : consumer) (q : list BufferItem),
    NewSmartBuffer cap = Ok s ∧ run es (start s [xs] 1) = Ok (mkSystem r [p] [c]) ∧
    accepted p = got c ++ q ∧ Z.of_nat (length q) ≤ cap ∧ accepted p `sublist_of` xs ∧
    ∃ (n : nat) (r' : SmartBuffer) (c' : consumer),
      run (replicate n (EPop 0)) (mkSystem r [p] [c]) = Ok (mkSystem r' [p] [c']) ∧
      got c' = accepted p.
Proof.
  pose proof (horizon_ok cap xs Hcap Hxs) as Hor.
  destruct (start_inv cap xs Hcap) as (s & Es & Hs).
  destruct (run_inv cap xs es s _ _ _ Hor Hes Hs) as (r & p & c & q & E & H).
  exists s, r, p, c, q. split; [done|]. split; [exact E|].
  destruct (reader_drains cap xs r p c q (distance q c) Hor H) as (r' & c' & E' & H'); [lia|].
  destruct H as [[<- _] _ Ha Hsub _ _ _ Hr _ _ _].
  split; [done|]. split; [done|]. split.
  { etrans; [|exact Hsub]. by apply sublist_inserts_r. }
  exists (distance q c), r', c'. split; [done|].
  destruct H' as [_ _ Ha' _ _ _ _ _ _ _ _]. by rewrite Ha', app_nil_r.
Qed.

Lemma SPSC_fifo_witness :
  ∃ (s r : SmartBuffer) (p : producer) (c : consumer) (q : list BufferItem),
    NewSmartBuffer 2 = Ok s ∧
    run (concat (replicate 8 [EPush 0; EPush 0; EPop 0]))
      (start s [[mkItem 8 1; mkItem 16 2; mkItem 24 3]] 1) = Ok (mkSystem r [p] [c]) ∧
    accepted p = got c ++ q ∧ Z.of_nat (length q) ≤ 2 ∧
    accepted p `sublist_of` [mkItem 8 1; mkItem 16 2; mkItem 24 3] ∧
    ∃ (n : nat) (r' : SmartBuffer) (c' : consumer),
      run (replicate n (EPop 0)) (mkSystem r [p] [c]) = Ok (mkSystem r' [p] [c']) ∧
      got c' = accepted p.
Proof.
  apply (SPSC_fifo 2 [mkItem 8 1; mkItem 16 2; mkItem 24 3]).
  - lia.
  - left. cbn. lia.
  - vm_compute. intros H. repeat (inversion H as [|? ? ? H']; clear H; rename H' into H).
Defined.

(** A new buffer of capacity 4. *)
Definition ring4 : SmartBuffer := mkSB (replicate 4 zeroItem) (-1) (-1) 0 4 WriteOnly false.

(** Writer 0 claims its slot; writer 1 pushes; the reader pops; writer 0
    stores; the reader pops. *)
Definition overtaken : list event :=
  replicate 4 (EPush 0) ++ replicate 7 (EPush 1) ++ replicate 9 (EPop 0) ++
  replicate 3 (EPush 0) ++ replicate 6 (EPop 0).

Definition idle_reader (sys : system) : Prop :=
  count (ring sys) = 0 ∧ cpc <$> consumers sys = [PopCount].

Lemma idle_reader_stays (sys : system) (n : nat) :
  idle_reader sys → run (replicate n (EPop 0)) sys = Ok sys.
Proof.
  intros [Hn Hc]. destruct sys as [s ps [|[pc g] [|]]]; try done. cbn in *. injection Hc as ->.
  induction n as [|n IH]; [done|]. cbn. unfold consumer_step. cbn. rewrite decide_True by done.
  cbn. exact IH.
Qed.

(** Two writers are not safe even when the buffer has room for both: when
    the second counts its item while the first has claimed its slot but not
    stored, the reader takes an empty item from the first slot; both pushes
    report success, the buffer then counts as empty, and however often the
    reader goes on it never gets the first item. *)
Theorem two_writers_lose_item :
  NewSmartBuffer 4 = Ok ring4 ∧
  ∃ sys : system,
    run overtaken (start ring4 [[mkItem 8 1]; [mkItem 16 2]] 1) = Ok sys ∧
    (accepted <$> producers sys) = [[mkItem 8 1]; [mkItem 16 2]] ∧
    (got <$> consumers sys) = [[zeroItem; mkItem 16 2]] ∧
    ∀ n : nat, run (replicate n (EPop 0)) sys = Ok sys.
Proof.
  split; [reflexivity|]. eexists. split; [vm_compute; reflexivity|].
  split; [reflexivity|]. split; [reflexivity|].
  intros n. apply idle_reader_stays. split; reflexivity.
Qed.

(** The writer pushes one item, which the reader takes, and claims a slot for
    the next; the buffer, which counts as empty, is reset; the writer stores;
    the reader goes on. *)
Definition reset_under_writer : list event :=
  replicate 7 (EPush 0) ++ replicate 6 (EPop 0) ++ replicate 4 (EPush 0) ++ [EReset] ++
  replicate 3 (EPush 0) ++ replicate 9 (EPop 0).

(** Resetting a buffer that counts as empty is not safe while a writer is
    inside [Push], even a single one: its push reports success, and the reader
    gets an empty item and never the one written. *)
Theorem reset_loses_item :
  ∃ sys : system,
    run reset_under_writer (start ring4 [[mkItem 8 1; mkItem 16 2]] 1) = Ok sys ∧
    (accepted <$> producers sys) = [[mkItem 8 1; mkItem 16 2]] ∧
    (got <$> consumers sys) = [[mkItem 8 1; zeroItem]] ∧
    ∀ n : nat, run (replicate n (EPop 0)) sys = Ok sys.
Proof.
  eexists. split; [vm_compute; reflexivity|].
  split; [reflexivity|]. split; [reflexivity|].
  intros n. apply idle_reader_stays. split; reflexivity.
Qed.
