(* ===== verification/MinHeap.v ===== *)
(** * The heap of pending buffers: [src/core/min_heap.go], part one

    [MinHeap] is the slice that implements [heap.Interface], with the
    operations of the standard library's [container/heap] that the program
    calls.  [WrapHeap] holds the type the double buffer uses.  Items are the
    objects the pointers of the slice refer to: every pointer is pushed once,
    so an item is held at one place of the slice. *)
From S2P Require Import Prelude.
Open Scope go_scope.

(** ** Data *)

Record MinHeapItem := mkHeapItem {
  sequence : Z;   (** globally increasing number of the buffer *)
  buf : nat;      (** the buffer, by its identity *)
  heap_index : Z  (** index in the heap, -1 once popped *)
}.

Abbreviation MinHeap := (list MinHeapItem).

#[export] Instance MinHeapItem_eq_dec : EqDecision MinHeapItem.
Proof. solve_decision. Defined.

Definition set_heap_index (i : Z) (x : MinHeapItem) : MinHeapItem :=
  mkHeapItem (sequence x) (buf x) i.

(** ** [heap.Interface] *)

Definition Len (m : MinHeap) : nat := length m.

Definition Less (m : MinHeap) (i j : nat) : result bool :=
  let* a := index m i in
  let* b := index m j in
  Ok (bool_decide (sequence a < sequence b)%Z).

Definition Swap (m : MinHeap) (i j : nat) : result MinHeap :=
  let* a := index m i in
  let* b := index m j in
  let* m := set_index m i b in
  let* m := set_index m j a in
  let m := alter (set_heap_index (Z.of_nat i)) i m in
  Ok (alter (set_heap_index (Z.of_nat j)) j m).

Definition Push (m : MinHeap) (item : MinHeapItem) : MinHeap :=
  m ++ [set_heap_index (Z.of_nat (length m)) item].

Definition Pop (m : MinHeap) : result (MinHeap * MinHeapItem) :=
  match length m with
  | O => Panics IndexOutOfRange
  | S n =>
      let* item := index m n in
      Ok (take n m, set_heap_index (-1) item)
  end.

(** ** [container/heap] *)

(** [heap.up(h, j)], at most [n] exchanges. *)
Fixpoint heap_up_fuel (n : nat) (h : MinHeap) (j : nat) : result MinHeap :=
  match n with
  | O => OutOfFuel
  | S n =>
      let i := ((j - 1) / 2)%nat in
      if decide (i = j) then Ok h
      else
        let* less := Less h j i in
        if less then
          let* h := Swap h i j in
          heap_up_fuel n h i
        else Ok h
  end.

Definition heap_up (h : MinHeap) (j : nat) : result MinHeap := heap_up_fuel (S j) h j.

(** [heap.down(h, i0, len)], at most [n] exchanges. *)
Fixpoint heap_down_fuel (n : nat) (h : MinHeap) (i len : nat) : result MinHeap :=
  match n with
  | O => OutOfFuel
  | S n =>
      let j1 := (2 * i + 1)%nat in
      if decide (len ≤ j1) then Ok h
      else
        let j2 := S j1 in
        let* right_less := (if decide (j2 < len) then Less h j2 j1 else Ok false) in
        let j := if right_less : bool then j2 else j1 in
        let* less := Less h j i in
        if less then
          let* h := Swap h i j in
          heap_down_fuel n h j len
        else Ok h
  end.

Definition heap_down (h : MinHeap) (i len : nat) : result MinHeap :=
  heap_down_fuel (S len) h i len.

(** [heap.Init(h)]: sift down from [k] - 1 to 0. *)
Fixpoint heap_init_from (k : nat) (h : MinHeap) : result MinHeap :=
  match k with
  | O => Ok h
  | S k =>
      let* h := heap_down h k (Len h) in
      heap_init_from k h
  end.

Definition heap_Init (h : MinHeap) : result MinHeap := heap_init_from (Len h / 2) h.

Definition heap_Push (h : MinHeap) (x : MinHeapItem) : result MinHeap :=
  let h := Push h x in
  heap_up h (Len h - 1).

Definition heap_Pop (h : MinHeap) : result (MinHeap * MinHeapItem) :=
  match Len h with
  | O => Panics IndexOutOfRange
  | S n =>
      let* h := Swap h 0 n in
      let* h := heap_down h 0 n in
      Pop h
  end.

(** ** Well-formed heaps *)

Definition parent (c : nat) : nat := (c - 1) / 2.

(** Every item is at least as large as its parent, among the first [n]. *)
Definition ordered_upto (n : nat) (h : MinHeap) : Prop :=
  ∀ (c : nat) (a b : MinHeapItem), 0 < c < n → h !! parent c = Some a → h !! c = Some b →
    (sequence a ≤ sequence b)%Z.

Definition ordered (h : MinHeap) : Prop := ordered_upto (length h) h.

(** Every item knows its index. *)
Definition indexed (h : MinHeap) : Prop :=
  ∀ (i : nat) (x : MinHeapItem), h !! i = Some x → heap_index x = Z.of_nat i.

(** What the heap holds, whatever the order and the indices. *)
Definition entry (x : MinHeapItem) : Z * nat := (sequence x, buf x).
Definition contents (h : MinHeap) : list (Z * nat) := entry <$> h.

(** Ordered except that the item at [j] may be smaller than its parent. *)
Definition up_ordered (j : nat) (h : MinHeap) : Prop :=
  (∀ (c : nat) (a b : MinHeapItem), 0 < c → c ≠ j → h !! parent c = Some a → h !! c = Some b →
     (sequence a ≤ sequence b)%Z) ∧
  (∀ (c : nat) (a b : MinHeapItem), 0 < c → 0 < j → parent c = j →
     h !! parent j = Some a → h !! c = Some b → (sequence a ≤ sequence b)%Z).

(** Ordered among the first [n] except that the item at [i] may be larger
    than its children. *)
Definition down_ordered (n i : nat) (h : MinHeap) : Prop :=
  (∀ (c : nat) (a b : MinHeapItem), 0 < c < n → parent c ≠ i →
     h !! parent c = Some a → h !! c = Some b → (sequence a ≤ sequence b)%Z) ∧
  (∀ (c : nat) (a b : MinHeapItem), 0 < c < n → 0 < i → parent c = i →
     h !! parent i = Some a → h !! c = Some b → (sequence a ≤ sequence b)%Z).

(** The result of exchanging [a] at [i] and [b] at [j]. *)
Definition swapped (m : MinHeap) (i j : nat) (a b : MinHeapItem) : MinHeap :=
  <[j := set_heap_index (Z.of_nat j) a]> (<[i := set_heap_index (Z.of_nat i) b]> m).

(** ** Exchanges *)

Lemma Less_ok (m : MinHeap) (i j : nat) (a b : MinHeapItem) :
  m !! i = Some a → m !! j = Some b →
  Less m i j = Ok (bool_decide (sequence a < sequence b)%Z).
Proof. intros Ha Hb. unfold Less, index. by rewrite Ha, Hb. Qed.

Lemma Swap_ok (m : MinHeap) (i j : nat) (a b : MinHeapItem) :
  m !! i = Some a → m !! j = Some b → Swap m i j = Ok (swapped m i j a b).
Proof.
  intros Ha Hb. unfold Swap, index. rewrite Ha, Hb. cbn.
  pose proof (lookup_lt_Some _ _ _ Ha). pose proof (lookup_lt_Some _ _ _ Hb).
  rewrite set_index_ok by done. cbn. rewrite set_index_ok by (by rewrite length_insert). cbn.
  f_equal. apply list_eq. intros k. unfold swapped.
  destruct (decide (k = j)) as [->|].
  - rewrite list_lookup_alter_eq. destruct (decide (i = j)) as [->|].
    + rewrite list_lookup_alter_eq, !list_lookup_insert_eq by (by rewrite ?length_insert). done.
    + rewrite list_lookup_alter_ne by done.
      by rewrite !list_lookup_insert_eq by (by rewrite ?length_insert).
  - rewrite list_lookup_alter_ne, list_lookup_insert_ne by done.
    destruct (decide (k = i)) as [->|].
    + rewrite list_lookup_alter_eq, list_lookup_insert_ne, !list_lookup_insert_eq by done. done.
    + rewrite list_lookup_alter_ne by done. by rewrite !list_lookup_insert_ne by done.
Qed.

Lemma length_swapped (m : MinHeap) (i j : nat) (a b : MinHeapItem) :
  length (swapped m i j a b) = length m.
Proof. unfold swapped. by rewrite !length_insert. Qed.

Lemma lookup_swapped (m : MinHeap) (i j k : nat) (a b : MinHeapItem) :
  i < length m → j < length m →
  swapped m i j a b !! k =
    if decide (k = j) then Some (set_heap_index (Z.of_nat j) a)
    else if decide (k = i) then Some (set_heap_index (Z.of_nat i) b)
    else m !! k.
Proof.
  intros Hi Hj. unfold swapped. repeat case_decide; subst.
  - apply list_lookup_insert_eq. by rewrite length_insert.
  - rewrite list_lookup_insert_ne by done. by apply list_lookup_insert_eq.
  - by rewrite !list_lookup_insert_ne by done.
Qed.

Lemma swapped_indexed (m : MinHeap) (i j : nat) (a b : MinHeapItem) :
  i < length m → j < length m → indexed m → indexed (swapped m i j a b).
Proof.
  intros Hi Hj Hm k x. rewrite lookup_swapped by done.
  repeat case_decide; intros; simplify_eq; try done. by apply Hm.
Qed.

Lemma swapped_contents (m : MinHeap) (i j : nat) (a b : MinHeapItem) :
  m !! i = Some a → m !! j = Some b → i ≠ j → contents (swapped m i j a b) ≡ₚ contents m.
Proof. intros Ha Hb Hij. by eapply exchange_Permutation. Qed.

Lemma parent_lt (c : nat) : 0 < c → parent c < c.
Proof. intros Hc. unfold parent. apply Nat.Div0.div_lt_upper_bound. lia. Qed.

Lemma parent_eq (c i : nat) : 0 < c → parent c = i → c = 2 * i + 1 ∨ c = 2 * i + 2.
Proof.
  intros Hc <-. unfold parent. pose proof (Nat.div_mod_eq (c - 1) 2).
  pose proof (Nat.mod_upper_bound (c - 1) 2). lia.
Qed.

Lemma parent_child (i c : nat) : c = 2 * i + 1 ∨ c = 2 * i + 2 → parent c = i.
Proof.
  intros H. unfold parent. symmetry. apply (Nat.div_unique _ _ _ (c - 1 - 2 * i)); lia.
Qed.

(** Case analysis on the equality of indices in every [lookup] of an
    exchanged heap. *)
Ltac swap_cases :=
  repeat match goal with
  | H : swapped _ _ _ _ _ !! _ = Some _ |- _ => rewrite lookup_swapped in H by lia
  end; repeat case_decide; simplify_eq/=.

(** ** Sifting up *)

Lemma up_ordered_swap (h : MinHeap) (j : nat) (a b : MinHeapItem) :
  0 < j → h !! parent j = Some a → h !! j = Some b → (sequence b < sequence a)%Z →
  up_ordered j h → up_ordered (parent j) (swapped h (parent j) j a b).
Proof.
  intros Hj Ha Hb Hlt [H1 H2].
  pose proof (lookup_lt_Some _ _ _ Ha). pose proof (lookup_lt_Some _ _ _ Hb).
  pose proof (parent_lt j Hj). split.
  - intros c x y Hc Hne Hx Hy. pose proof (parent_lt c Hc). swap_cases; try lia.
    + by eapply (H2 c).
    + transitivity (sequence a); [lia|]. eapply (H1 c); [done|done|congruence|done].
    + by eapply (H1 c).
  - intros c x y Hc Hpos Hpar Hx Hy. pose proof (parent_lt _ Hpos). pose proof (parent_lt c Hc).
    swap_cases; try lia.
    + eapply (H1 (parent j)); [done|lia|done|done].
    + transitivity (sequence a); [eapply (H1 (parent j)); [done|lia|done|done]|].
      eapply (H1 c); [done|done|congruence|done].
Qed.

Lemma heap_up_fuel_ok (n : nat) (h : MinHeap) (j : nat) :
  j < n → j < length h → up_ordered j h → indexed h →
  ∃ h' : MinHeap, heap_up_fuel n h j = Ok h' ∧ ordered h' ∧ indexed h' ∧
    contents h' ≡ₚ contents h.
Proof.
  revert h j. induction n as [|n IH]; intros h j Hn Hj Hup Hix; [lia|].
  cbn [heap_up_fuel]. fold (parent j). case_decide as E.
  { exists h. split_and!; [done| |done..]. destruct Hup as [H1 _].
    intros c a b Hc. assert (j = 0) as ->.
    { destruct j; [done|]. pose proof (parent_lt (S j)). lia. }
    apply H1; lia. }
  assert (0 < j) as Hpos by (destruct j; [done|lia]).
  pose proof (parent_lt j Hpos) as Hlt.
  destruct (lookup_lt_is_Some_2 h j Hj) as [b Hb].
  destruct (lookup_lt_is_Some_2 h (parent j)) as [a Ha]; [lia|].
  rewrite (Less_ok h j (parent j) b a) by done. cbn [rbind].
  case_bool_decide as Hcmp.
  - rewrite (Swap_ok h (parent j) j a b) by done. cbn [rbind].
    destruct (IH (swapped h (parent j) j a b) (parent j)) as (h' & -> & Ho & Hi & Hp).
    + lia.
    + rewrite length_swapped. lia.
    + by apply up_ordered_swap.
    + apply swapped_indexed; [lia|done..].
    + exists h'. split_and!; [done..|]. rewrite Hp. apply swapped_contents; [done..|lia].
  - exists h. split_and!; [done| |done..]. destruct Hup as [H1 _]. intros c x y Hc Hx Hy.
    destruct (decide (c = j)) as [->|]; [simplify_eq; lia|]. eapply H1; [|done..]. lia.
Qed.

(** ** Sifting down *)

(** [j] is the smaller child of [i] among the first [len] items. *)
Definition least_child (h : MinHeap) (len i j : nat) (b : MinHeapItem) : Prop :=
  0 < j < len ∧ parent j = i ∧ h !! j = Some b ∧
  ∀ (c : nat) (x : MinHeapItem), 0 < c < len → parent c = i → h !! c = Some x →
    (sequence b ≤ sequence x)%Z.

Lemma select_child (h : MinHeap) (len i : nat) :
  len ≤ length h → 2 * i + 1 < len →
  ∃ (less : bool) (b : MinHeapItem),
    (if decide (S (2 * i + 1) < len) then Less h (S (2 * i + 1)) (2 * i + 1) else Ok false)
      = Ok less ∧
    least_child h len i (if less then S (2 * i + 1) else 2 * i + 1) b.
Proof.
  intros Hlen Hj1. destruct (lookup_lt_is_Some_2 h (2 * i + 1)) as [b1 Hb1]; [lia|].
  assert (∀ c : nat, 0 < c → parent c = i → c = 2 * i + 1 ∨ c = S (2 * i + 1)) as Hch.
  { intros c Hc Hp. destruct (parent_eq c i Hc Hp); lia. }
  case_decide as Hj2.
  - destruct (lookup_lt_is_Some_2 h (S (2 * i + 1))) as [b2 Hb2]; [lia|].
    rewrite (Less_ok _ _ _ b2 b1) by done.
    case_bool_decide as Hcmp; [exists true, b2 | exists false, b1]; (split; [done|]);
      (split; [lia|]); (split; [apply parent_child; lia|]); (split; [done|]);
      intros c x Hc Hp Hx; destruct (Hch c) as [-> | ->]; try done; try lia; simplify_eq; lia.
  - exists false, b1. split; [done|]. split; [lia|]. split; [apply parent_child; lia|].
    split; [done|]. intros c x Hc Hp Hx.
    destruct (Hch c) as [-> | ->]; try done; try lia. by simplify_eq.
Qed.

Lemma down_ordered_swap (h : MinHeap) (len i j : nat) (a b : MinHeapItem) :
  len ≤ length h → h !! i = Some a → least_child h len i j b → (sequence b < sequence a)%Z →
  down_ordered len i h → down_ordered len j (swapped h i j a b).
Proof.
  intros Hlen Ha (Hj & Hpar & Hb & Hmin) Hlt [H1 H2].
  pose proof (lookup_lt_Some _ _ _ Ha). pose proof (lookup_lt_Some _ _ _ Hb).
  pose proof (parent_lt j ltac:(lia)). split.
  - intros c x y Hc Hne Hx Hy. pose proof (parent_lt c ltac:(lia)). swap_cases; try lia.
    + eapply (H2 j); [lia|lia|done|done|done].
    + by eapply (Hmin c).
    + by eapply (H1 c).
  - intros c x y Hc Hpos Hp Hx Hy. pose proof (parent_lt c ltac:(lia)). swap_cases; try lia.
    eapply (H1 c); [lia|lia|done|done].
Qed.

Lemma heap_down_fuel_ok (n : nat) (h : MinHeap) (i len : nat) :
  len - i < n → len ≤ length h → i < length h → down_ordered len i h → indexed h →
  ∃ h' : MinHeap, heap_down_fuel n h i len = Ok h' ∧ ordered_upto len h' ∧ indexed h' ∧
    contents h' ≡ₚ contents h ∧ length h' = length h ∧
    (∀ k : nat, len ≤ k → i < len → h' !! k = h !! k) ∧ (len ≤ i → h' = h).
Proof.
  revert h i. induction n as [|n IH]; intros h i Hn Hlen Hi Hdo Hix; [lia|].
  cbn [heap_down_fuel]. case_decide as Hj1.
  { exists h. split_and!; try done. destruct Hdo as [H1 _]. intros c x y Hc.
    apply H1; [lia|]. intros Hp. destruct (parent_eq c i); lia. }
  destruct (select_child h len i) as (less & b & -> & Hch); [lia..|]. cbn [rbind].
  set (j := if less then S (2 * i + 1) else 2 * i + 1) in *.
  destruct (lookup_lt_is_Some_2 h i Hi) as [a Ha].
  pose proof Hch as (Hj & Hpar & Hb & Hmin). pose proof (parent_lt j ltac:(lia)).
  rewrite (Less_ok h j i b a) by done. cbn [rbind]. case_bool_decide as Hcmp.
  - rewrite (Swap_ok h i j a b) by done. cbn [rbind].
    destruct (IH (swapped h i j a b) j) as (h' & -> & Ho & Hi' & Hp & Hl & Hk & _).
    + lia.
    + rewrite length_swapped. lia.
    + rewrite length_swapped. lia.
    + by apply down_ordered_swap.
    + apply swapped_indexed; [lia..|done].
    + exists h'. rewrite length_swapped in Hl. split_and!; [done..| |done| |lia].
      * rewrite Hp. apply swapped_contents; [done..|lia].
      * intros k Hlk _. rewrite Hk, lookup_swapped by lia.
        by rewrite !decide_False by lia.
  - exists h. split_and!; try done. destruct Hdo as [H1 _]. intros c x y Hc Hx Hy.
    destruct (decide (parent c = i)) as [E|]; [|by eapply (H1 c)].
    rewrite E in Hx. simplify_eq. pose proof (Hmin c y Hc E Hy). lia.
Qed.

(** ** Push and pop *)

Lemma ordered_root (h : MinHeap) (r x : MinHeapItem) (i : nat) :
  ordered h → h !! 0 = Some r → h !! i = Some x → (sequence r ≤ sequence x)%Z.
Proof.
  intros Ho Hr. revert x. induction (lt_wf i) as [i _ IH]; intros x Hx.
  destruct (decide (i = 0)) as [->|]; [by simplify_eq|].
  pose proof (lookup_lt_Some _ _ _ Hx). pose proof (parent_lt i ltac:(lia)).
  destruct (lookup_lt_is_Some_2 h (parent i)) as [y Hy]; [lia|].
  transitivity (sequence y); [by eapply (IH (parent i))|]. eapply (Ho i); [lia|done..].
Qed.

Lemma heap_Push_ok (h : MinHeap) (x : MinHeapItem) :
  ordered h → indexed h →
  ∃ h' : MinHeap, heap_Push h x = Ok h' ∧ ordered h' ∧ indexed h' ∧
    contents h' ≡ₚ entry x :: contents h.
Proof.
  intros Ho Hix. unfold heap_Push, heap_up, Len, Push. rewrite length_app; cbn.
  replace (length h + 1 - 1) with (length h) by lia.
  destruct (heap_up_fuel_ok (S (length h)) (h ++ [set_heap_index (Z.of_nat (length h)) x])
              (length h)) as (h' & E & Ho' & Hix' & Hp).
  - lia.
  - rewrite length_app; cbn; lia.
  - split.
    + intros c a b Hc Hne Ha Hb. pose proof (parent_lt c Hc).
      apply lookup_lt_Some in Hb as Hlt. rewrite length_app in Hlt; cbn in Hlt.
      rewrite lookup_app_l in Ha, Hb by lia. eapply (Ho c); [lia|done..].
    + intros c a b Hc Hpos Hpar _ Hb%lookup_lt_Some. pose proof (parent_lt c Hc).
      rewrite length_app in Hb; cbn in Hb. lia.
  - intros i y [Hy|[Hl Hy]]%lookup_app_Some; [by apply Hix|].
    apply list_lookup_singleton_Some in Hy as [? <-]. cbn. lia.
  - exists h'. split_and!; [done..|]. rewrite Hp. unfold contents. rewrite fmap_app.
    cbn. by rewrite Permutation_app_comm.
Qed.

Lemma heap_Pop_ok (h : MinHeap) (r : MinHeapItem) :
  ordered h → indexed h → h !! 0 = Some r →
  ∃ h' : MinHeap, heap_Pop h = Ok (h', set_heap_index (-1) r) ∧ ordered h' ∧ indexed h' ∧
    contents h ≡ₚ entry r :: contents h'.
Proof.
  intros Ho Hix Hr. unfold heap_Pop, Len.
  pose proof (lookup_lt_Some _ _ _ Hr) as Hl. destruct (length h) as [|n] eqn:E; [lia|].
  destruct (lookup_lt_is_Some_2 h n) as [z Hz]; [lia|].
  rewrite (Swap_ok h 0 n r z) by done. cbn [rbind]. unfold heap_down.
  set (h1 := swapped h 0 n r z).
  assert (h1 !! n = Some (set_heap_index (Z.of_nat n) r)) as Hn1.
  { unfold h1. rewrite lookup_swapped by lia. by rewrite decide_True. }
  destruct (heap_down_fuel_ok (S n) h1 0 n) as (h' & -> & Ho' & Hix' & Hp & Hlen & Hk & Hsame).
  - lia.
  - unfold h1. rewrite length_swapped. lia.
  - unfold h1. rewrite length_swapped. lia.
  - split; [|intros; lia]. intros c x y Hc Hne Hx Hy. pose proof (parent_lt c ltac:(lia)).
    unfold h1 in *. swap_cases; try lia. eapply (Ho c); [lia|done..].
  - unfold h1. apply swapped_indexed; [lia..|done].
  - cbn [rbind]. unfold Pop. rewrite Hlen. unfold h1. rewrite length_swapped, E.
    assert (h' !! n = Some (set_heap_index (Z.of_nat n) r)) as Hn.
    { destruct n; [by rewrite Hsame by lia|]. by rewrite Hk by lia. }
    unfold index. rewrite Hn. cbn. exists (take n h').
    assert (length h' = S n) as Hl' by (unfold h1 in Hlen; rewrite length_swapped in Hlen; lia).
    split_and!; [done| | |].
    + intros c x y Hc Hx Hy. rewrite length_take in Hc.
      apply lookup_take_Some in Hx as [Hx _], Hy as [Hy _]. eapply (Ho' c); [lia|done..].
    + intros i x [Hx _]%lookup_take_Some. by apply Hix'.
    + assert (contents h1 ≡ₚ contents h) as <-.
      { destruct (decide (n = 0)) as [->|]; [|by apply swapped_contents; [done..|lia]].
        unfold h1, swapped. simplify_eq. rewrite list_insert_insert_eq.
        unfold contents. rewrite list_fmap_insert. rewrite list_insert_id; [done|].
        by rewrite list_lookup_fmap, Hr. }
      rewrite <- Hp. rewrite <- (take_drop n h') at 1.
      rewrite (drop_S h' _ n Hn), drop_ge by lia. unfold contents. rewrite fmap_app. cbn.
      by rewrite Permutation_app_comm.
Qed.
