(* ===== verification/WrapHeap.v ===== *)
(** * The heap of pending buffers: [src/core/min_heap.go], part two

    [WrapHeap] guards a [MinHeap] with a lock that every method holds from its
    first to its last statement, so a method call is one step for the other
    goroutines.  The file proves that it is a priority queue, the interface
    the double buffer relies on. *)
From S2P Require Import Prelude.
From S2P Require Import Interfaces.
From S2P Require Import MinHeap.
Open Scope go_scope.

(** ** Data and operations *)

Record WrapHeap := mkWrapHeap { heap : MinHeap }.

(** [NewWrapHeap] also initialises a heap it does not keep. *)
Definition NewWrapHeap : result WrapHeap :=
  let* _ := heap_Init [] in
  Ok (mkWrapHeap []).

Definition Len (h : WrapHeap) : nat := MinHeap.Len (heap h).

Definition Push (h : WrapHeap) (item : MinHeapItem) : result WrapHeap :=
  let* m := heap_Push (heap h) item in
  Ok (mkWrapHeap m).

(** The item, or nil on an empty heap. *)
Definition Pick (h : WrapHeap) : result (WrapHeap * option MinHeapItem) :=
  if decide (MinHeap.Len (heap h) = 0) then Ok (h, None)
  else
    let* (m, item) := heap_Pop (heap h) in
    Ok (mkWrapHeap m, Some item).

Definition PeekFirst (h : WrapHeap) : result MinHeapItem := index (heap h) 0.

(** ** Runs *)

Inductive op :=
  | OPush (s : Z) (b : nat)   (** push a new item *)
  | OPick.

(** The item a [&MinHeapItem{sequence: s, buf: b}] expression makes. *)
Definition newItem (s : Z) (b : nat) : MinHeapItem := mkHeapItem s b 0.

Definition exec (o : op) (h : WrapHeap) : result (WrapHeap * option MinHeapItem) :=
  match o with
  | OPush s b => let* h := Push h (newItem s b) in Ok (h, None)
  | OPick => Pick h
  end.

Fixpoint exec_all (os : list op) (h : WrapHeap) : result (WrapHeap * list (option MinHeapItem)) :=
  match os with
  | [] => Ok (h, [])
  | o :: os =>
      let* (h, v) := exec o h in
      let* (h, vs) := exec_all os h in
      Ok (h, v :: vs)
  end.

Fixpoint push_all (es : list (Z * nat)) (h : WrapHeap) : result WrapHeap :=
  match es with
  | [] => Ok h
  | (s, b) :: es => let* h := Push h (newItem s b) in push_all es h
  end.

(** [n] picks, which stop at the first nil. *)
Fixpoint pick_all (n : nat) (h : WrapHeap) : result (WrapHeap * list MinHeapItem) :=
  match n with
  | O => Ok (h, [])
  | S n =>
      let* (h, x) := Pick h in
      match x with
      | None => Ok (h, [])
      | Some x => let* (h, xs) := pick_all n h in Ok (h, x :: xs)
      end
  end.

(** ** The interface *)

Definition wf (h : WrapHeap) : Prop := ordered (heap h) ∧ indexed (heap h).

#[export] Instance WrapHeap_PendingQueue : PendingQueue WrapHeap := {|
  pq_new := NewWrapHeap;
  pq_len := Len;
  pq_push := λ '(s, b) h, Push h (newItem s b);
  pq_pick := λ h, rmap (λ '(h, x), (h, entry <$> x)) (Pick h)
|}.

(** ** Lemmas *)

Lemma NewWrapHeap_ok : NewWrapHeap = Ok (mkWrapHeap []).
Proof. done. Qed.

Lemma empty_wf : wf (mkWrapHeap []).
Proof. split; intros ? *; cbn; [lia|done]. Qed.

Lemma Push_ok (h : WrapHeap) (x : MinHeapItem) :
  wf h → ∃ h' : WrapHeap, Push h x = Ok h' ∧ wf h' ∧
    contents (heap h') ≡ₚ entry x :: contents (heap h).
Proof.
  intros [Ho Hi]. destruct (heap_Push_ok (heap h) x Ho Hi) as (m & E & ? & ? & ?).
  exists (mkWrapHeap m). unfold Push. rewrite E. by split_and!.
Qed.

Lemma Pick_empty (h : WrapHeap) : heap h = [] → Pick h = Ok (h, None).
Proof. intros E. unfold Pick. by rewrite E. Qed.

(** A pick takes an item of the smallest sequence number and marks it as out
    of the heap. *)
Lemma Pick_ok (h : WrapHeap) :
  wf h → heap h ≠ [] →
  ∃ (h' : WrapHeap) (r : MinHeapItem), Pick h = Ok (h', Some (set_heap_index (-1) r)) ∧
    heap h !! 0 = Some r ∧ wf h' ∧ contents (heap h) ≡ₚ entry r :: contents (heap h') ∧
    ∀ y : MinHeapItem, y ∈ heap h' → (sequence r ≤ sequence y)%Z.
Proof.
  intros [Ho Hi] Hne. destruct (heap h) as [|r m] eqn:E; [done|].
  destruct (heap_Pop_ok (r :: m) r Ho Hi eq_refl) as (m' & Ep & ? & ? & Hp).
  exists (mkWrapHeap m'), r. unfold Pick. rewrite decide_False by (by rewrite E).
  rewrite E, Ep. cbn. split_and!; [done..|].
  intros y Hy. assert (entry y ∈ contents (r :: m)) as Hin.
  { rewrite Hp. apply list_elem_of_further. by apply list_elem_of_fmap_2. }
  apply list_elem_of_fmap_1 in Hin as (z & Ez & [i Hz]%list_elem_of_lookup).
  apply (f_equal fst) in Ez; cbn in Ez. rewrite Ez. by apply (ordered_root (r :: m) r z i).
Qed.

Lemma contents_nil (m : MinHeap) : contents m = [] ↔ m = [].
Proof. unfold contents. by destruct m. Qed.

#[export] Instance WrapHeap_PendingQueueLaws : PendingQueueLaws WrapHeap.
Proof.
  refine {| pq_wf := wf; pq_contents := λ h, contents (heap h) |}.
  - exists (mkWrapHeap []). split_and!; [done|apply empty_wf|done].
  - intros h _. unfold contents. by rewrite length_fmap.
  - intros h [s b] Hwf. cbn. by apply Push_ok.
  - intros h Hwf E%contents_nil%Pick_empty. cbn -[Pick]. by rewrite E.
  - intros h Hwf Hne. destruct (Pick_ok h Hwf) as (h' & r & E & _ & Hwf' & Hp & Hmin).
    { by rewrite <- contents_nil. }
    exists h', (entry r). cbn -[Pick]. rewrite E. split_and!; [done..|].
    intros y (z & -> & Hz)%list_elem_of_fmap_1. by apply Hmin.
Defined.

(** ** Draining the heap *)

Lemma push_all_ok (es : list (Z * nat)) (h : WrapHeap) :
  wf h → ∃ h' : WrapHeap, push_all es h = Ok h' ∧ wf h' ∧
    contents (heap h') ≡ₚ es ++ contents (heap h).
Proof.
  revert h. induction es as [|[s b] es IH]; intros h Hwf; [by exists h|].
  destruct (Push_ok h (newItem s b) Hwf) as (h1 & E & Hwf1 & Hp). cbn. rewrite E. cbn.
  destruct (IH h1 Hwf1) as (h' & -> & Hwf' & Hp'). exists h'. split_and!; [done..|].
  rewrite Hp', Hp. cbn. by rewrite <- Permutation_middle.
Qed.

Lemma pick_all_ok (n : nat) (h : WrapHeap) :
  wf h → length (heap h) ≤ n →
  ∃ (h' : WrapHeap) (xs : list MinHeapItem), pick_all n h = Ok (h', xs) ∧ heap h' = [] ∧
    Sorted (λ x y, sequence x ≤ sequence y)%Z xs ∧ contents xs ≡ₚ contents (heap h) ∧
    Forall (λ x, heap_index x = -1)%Z xs.
Proof.
  revert h. induction n as [|n IH]; intros h Hwf Hn.
  { destruct (heap h) as [|? ?] eqn:E; cbn in Hn; [|lia].
    exists h, []. by rewrite E. }
  cbn [pick_all]. destruct (decide (heap h = [])) as [E|Hne].
  { rewrite (Pick_empty h E). exists h, []. by rewrite E. }
  destruct (Pick_ok h Hwf Hne) as (h1 & r & -> & Hr & Hwf1 & Hp & Hmin). cbn [rbind].
  destruct (IH h1 Hwf1) as (h' & xs & -> & He & Hs & Hp' & Hix).
  { apply Permutation_length in Hp. cbn in Hp. unfold contents in Hp.
    rewrite !length_fmap in Hp. lia. }
  cbn. eexists h', _. split_and!; [done|done| | |by constructor].
  - constructor; [done|]. destruct xs as [|y ys]; constructor. cbn.
    assert (entry y ∈ contents (heap h1)) as Hy.
    { rewrite <- Hp'. unfold contents. cbn. by apply list_elem_of_here. }
    apply list_elem_of_fmap_1 in Hy as (z & Ez%(f_equal fst) & Hz). cbn in Ez. rewrite Ez.
    by apply Hmin.
  - rewrite Hp. unfold contents in *. cbn. by rewrite Hp'.
Qed.

(** C14. The heap sorts: whatever items are pushed onto a new heap and in
    whatever order, picking until nil returns every one of them exactly once,
    in increasing order of sequence numbers and marked with index -1, and
    leaves the heap empty; no call panics and every sift terminates. *)
Theorem WrapHeap_drains_in_sequence_order (es : list (Z * nat)) :
  ∃ (h h0 h' : WrapHeap) (xs : list MinHeapItem),
    NewWrapHeap = Ok h0 ∧ push_all es h0 = Ok h ∧
    Len h = length es ∧ pick_all (Len h) h = Ok (h', xs) ∧
    Pick h' = Ok (h', None) ∧
    Sorted (λ x y, sequence x ≤ sequence y)%Z xs ∧ contents xs ≡ₚ es ∧
    Forall (λ x, heap_index x = -1)%Z xs.
Proof.
  destruct (push_all_ok es (mkWrapHeap []) empty_wf) as (h & E & Hwf & Hp).
  cbn in Hp. rewrite app_nil_r in Hp.
  destruct (pick_all_ok (Len h) h Hwf) as (h' & xs & Ex & He & Hs & Hpx & Hix); [done|].
  exists h, (mkWrapHeap []), h', xs. split_and!; [done|done| |done|by apply Pick_empty|done| |done].
  - apply Permutation_length in Hp. unfold contents in Hp. by rewrite length_fmap in Hp.
  - by rewrite Hpx.
Qed.

(** ** The index fields *)

Lemma exec_wf (o : op) (h : WrapHeap) :
  wf h → ∃ (h' : WrapHeap) (v : option MinHeapItem), exec o h = Ok (h', v) ∧ wf h' ∧
    (∀ x : MinHeapItem, v = Some x → heap_index x = (-1)%Z) ∧
    (v = None → o = OPick → heap h = []).
Proof.
  intros Hwf. destruct o as [s b|]; cbn -[Pick].
  - destruct (Push_ok h (newItem s b) Hwf) as (h' & -> & Hwf' & _). cbn.
    exists h', None. by split_and!.
  - destruct (decide (heap h = [])) as [E|Hne].
    + rewrite (Pick_empty h E). exists h, None. by split_and!.
    + destruct (Pick_ok h Hwf Hne) as (h' & r & -> & _ & Hwf' & _).
      exists h', (Some (set_heap_index (-1) r)). split_and!; try done. intros x [= <-]. done.
Qed.

