(* ===== verification/SwitchStrategy.v ===== *)
(** * Switching strategies: [src/core/switch_strategy.go]

    The three implementations of [SwitchStrategy].  A strategy decides from
    the number of items in the active buffer, its capacity, the time since the
    last switch and the configured interval whether the channels are
    switched. *)
From Stdlib Require Import SpecFloat QArith Lqa.
From S2P Require Import Prelude.
From S2P Require Import Float64.
Open Scope Z_scope.

(** Constants of [src/const.go]. *)
Definition SizeWeight : float64 := f64_ratio 6 10.
Definition TimeWeight : float64 := f64_ratio 4 10.
Definition FullCapacity : float64 := f64_ratio 85 100.

Definition MinBufferSize : Z := 1.

(** The interface: [needSwitch] of currentCount, bufferSize, elapsed and
    interval, both durations in nanoseconds. *)
Class SwitchStrategy (S : Type) := needSwitch : S → Z → Z → Z → Z → bool.

Inductive DefaultStrategy := NewDefaultStrategy.
Inductive SizeOnlyStrategy := NewSizeOnlyStrategy.
Inductive TimeWindowOnlyStrategy := NewTimeWindowOnlyStrategy.

(** The weighted sum of the capacity factor and the time factor. *)
Definition combinedFactor (currentCount bufferSize elapsed interval : Z) : float64 :=
  let countFactor := f64_div (f64_of_Z currentCount) (f64_of_Z bufferSize) in
  let switchFactor := f64_div (f64_of_Z elapsed) (f64_of_Z interval) in
  f64_add (f64_mul TimeWeight switchFactor) (f64_mul SizeWeight countFactor).

Definition default_needSwitch (currentCount bufferSize elapsed interval : Z) : bool :=
  let bufferSize := if decide (bufferSize < MinBufferSize) then MinBufferSize else bufferSize in
  if decide (bufferSize ≤ currentCount) then true
  else if decide (interval ≤ elapsed) then true
  else f64_leb FullCapacity (combinedFactor currentCount bufferSize elapsed interval).

Definition size_needSwitch (currentCount bufferSize : Z) : bool :=
  bool_decide (bufferSize ≤ currentCount).

Definition time_needSwitch (elapsed interval : Z) : bool :=
  bool_decide (interval ≤ elapsed).

#[export] Instance DefaultStrategy_SwitchStrategy : SwitchStrategy DefaultStrategy :=
  λ _, default_needSwitch.
#[export] Instance SizeOnlyStrategy_SwitchStrategy : SwitchStrategy SizeOnlyStrategy :=
  λ _ currentCount bufferSize _ _, size_needSwitch currentCount bufferSize.
#[export] Instance TimeWindowOnlyStrategy_SwitchStrategy : SwitchStrategy TimeWindowOnlyStrategy :=
  λ _ _ _ elapsed interval, time_needSwitch elapsed interval.

(** ** The weighted sum without rounding *)

Definition exactFactor (currentCount bufferSize elapsed interval : Z) : Q :=
  ((2 # 5) * (inject_Z elapsed / inject_Z interval) +
   (3 # 5) * (inject_Z currentCount / inject_Z bufferSize))%Q.

(** The bound on the rounding error of the comparison. *)
Definition tolerance : Q := pow2 (-48).

(** ** Rounding error of the weighted sum *)

Lemma SizeWeight_within : within ulp (3 # 5) SizeWeight.
Proof. exists 5404319552844595%positive, (-53). by vm_compute. Qed.

Lemma TimeWeight_within : within ulp (2 # 5) TimeWeight.
Proof. exists 7205759403792794%positive, (-54). by vm_compute. Qed.

Lemma FullCapacity_within : within ulp (85 # 100) FullCapacity.
Proof. exists 7656119366529843%positive, (-53). by vm_compute. Qed.

Lemma ordinary_Z (n : Z) : 0 < n < 2 ^ 64 → ordinary (inject_Z n).
Proof.
  intros Hn. split.
  - apply Qle_trans with 1%Q; [by vm_compute|]. change 1%Q with (inject_Z 1).
    rewrite <- Zle_Qle. lia.
  - apply Qle_trans with (inject_Z (2 ^ 64)); [rewrite <- Zle_Qle; lia|by vm_compute].
Qed.

(** A quotient of two positive 64-bit numbers. *)
Lemma quotient_bounds (n d : Z) :
  0 < n < 2 ^ 64 → 0 < d < 2 ^ 64 →
  (pow2 (-64) <= inject_Z n / inject_Z d <= pow2 64)%Q.
Proof.
  intros Hn Hd. assert (0 < inject_Z d)%Q as Hd0 by (change 0%Q with (inject_Z 0); rewrite <- Zlt_Qlt; lia).
  assert (1 <= inject_Z n)%Q by (change 1%Q with (inject_Z 1); rewrite <- Zle_Qle; lia).
  assert (1 <= inject_Z d)%Q by (change 1%Q with (inject_Z 1); rewrite <- Zle_Qle; lia).
  assert (inject_Z n <= inject_Z (2 ^ 64))%Q by (rewrite <- Zle_Qle; lia).
  assert (inject_Z d <= inject_Z (2 ^ 64))%Q by (rewrite <- Zle_Qle; lia).
  change (pow2 64) with (inject_Z (2 ^ 64)).
  assert (pow2 (-64) * inject_Z (2 ^ 64) == 1)%Q as Hinv by done.
  assert (0 < pow2 (-64))%Q by done. split.
  - apply Qle_shift_div_l; [done|]. nra.
  - apply Qle_shift_div_r; [done|]. nra.
Qed.

Lemma quotient_within (n d : Z) :
  0 < n < 2 ^ 64 → 0 < d < 2 ^ 64 →
  within (4 * ulp) (inject_Z n / inject_Z d) (f64_div (f64_of_Z n) (f64_of_Z d)).
Proof.
  intros Hn Hd. apply (f64_div_within ulp ulp);
    [apply f64_of_Z_within; lia|apply f64_of_Z_within; lia|by apply ordinary_Z|by apply ordinary_Z
    |by vm_compute|by vm_compute|by vm_compute|by vm_compute].
Qed.

Lemma weighted_within (w : Q) (f : float64) (n d : Z) :
  within ulp w f → (1 # 4 <= w <= 1)%Q → 0 < n < 2 ^ 64 → 0 < d < 2 ^ 64 →
  within (7 * ulp) (w * (inject_Z n / inject_Z d)) (f64_mul f (f64_div (f64_of_Z n) (f64_of_Z d))).
Proof.
  intros Hf Hw Hn Hd. pose proof (quotient_bounds n d Hn Hd) as Hq.
  apply (f64_mul_within ulp (4 * ulp)); [done|by apply quotient_within|split|split
    |by vm_compute|by vm_compute|by vm_compute|by vm_compute].
  - apply Qle_trans with (1 # 4)%Q; [by vm_compute|apply Hw].
  - apply Qle_trans with 1%Q; [apply Hw|by vm_compute].
  - apply Qle_trans with (pow2 (-64)); [by vm_compute|apply Hq].
  - apply Qle_trans with (pow2 64); [apply Hq|by vm_compute].
Qed.

Lemma weighted_ordinary (w : Q) (n d : Z) :
  (1 # 4 <= w <= 1)%Q → 0 < n < 2 ^ 64 → 0 < d < 2 ^ 64 →
  ordinary (w * (inject_Z n / inject_Z d)).
Proof.
  intros Hw Hn Hd. pose proof (quotient_bounds n d Hn Hd) as [Hq1 Hq2].
  assert (0 < pow2 (-64))%Q by done. split.
  - apply Qle_trans with ((1 # 4) * pow2 (-64))%Q; [by vm_compute|].
    apply Qmult_le_compat; split; (done || lra).
  - apply Qle_trans with (1 * pow2 64)%Q; [|by vm_compute].
    apply Qmult_le_compat; split; lra.
Qed.

Lemma f64_zero_num (d : Z) :
  0 < d < 2 ^ 64 → f64_div (f64_of_Z 0) (f64_of_Z d) = S754_zero false.
Proof.
  intros Hd. destruct (f64_of_Z_within d ltac:(lia)) as (m & e & -> & _). done.
Qed.

(** Non-negative counts and durations, within their machine types. *)
Lemma combined_within (c s e i : Z) :
  0 ≤ c < 2 ^ 64 → 0 < s < 2 ^ 64 → 0 ≤ e < 2 ^ 64 → 0 < i < 2 ^ 64 →
  (c = 0 ∧ e = 0 ∧ combinedFactor c s e i = S754_zero false) ∨
  within (9 * ulp) (exactFactor c s e i) (combinedFactor c s e i).
Proof.
  intros Hc Hs He Hi. unfold combinedFactor, exactFactor.
  assert (∀ (n d : Z) (w : Q), n = 0%Z → (w * (inject_Z n / inject_Z d) == 0)%Q) as Hz.
  { intros n d w ->. change (inject_Z 0) with 0%Q. unfold Qdiv. ring. }
  destruct (decide (c = 0)) as [->|Hc0], (decide (e = 0)) as [->|He0].
  - left. by rewrite !f64_zero_num by lia.
  - right. rewrite (f64_zero_num s) by lia.
    destruct (weighted_within (2 # 5) TimeWeight e i TimeWeight_within) as (m & k & Ef & Hm & H);
      [by vm_compute|lia|lia|]. rewrite Ef.
    apply (within_Qeq _ ((2 # 5) * (inject_Z e / inject_Z i))).
    { rewrite (Hz 0 s) by done. ring. }
    apply (within_weaken (7 * ulp)); [by exists m, k| |by vm_compute].
    eapply Qlt_le_trans; [|apply weighted_ordinary; [by vm_compute|lia|lia]]. done.
  - right. rewrite (f64_zero_num i) by lia.
    destruct (weighted_within (3 # 5) SizeWeight c s SizeWeight_within) as (m & k & Ef & Hm & H);
      [by vm_compute|lia|lia|]. rewrite Ef.
    apply (within_Qeq _ ((3 # 5) * (inject_Z c / inject_Z s))).
    { rewrite (Hz 0 i) by done. ring. }
    apply (within_weaken (7 * ulp)); [by exists m, k| |by vm_compute].
    eapply Qlt_le_trans; [|apply weighted_ordinary; [by vm_compute|lia|lia]]. done.
  - right. apply (f64_add_within (7 * ulp)).
    + apply weighted_within; [apply TimeWeight_within|by vm_compute|lia|lia].
    + apply weighted_within; [apply SizeWeight_within|by vm_compute|lia|lia].
    + apply weighted_ordinary; [by vm_compute|lia|lia].
    + apply weighted_ordinary; [by vm_compute|lia|lia].
    + by vm_compute.
    + by vm_compute.
    + by vm_compute.
Qed.

(** The sign of the comparison with the threshold, up to the tolerance. *)
Lemma threshold_ok (c s e i : Z) :
  0 ≤ c < 2 ^ 64 → 0 < s < 2 ^ 64 → 0 ≤ e < 2 ^ 64 → 0 < i < 2 ^ 64 →
  if f64_leb FullCapacity (combinedFactor c s e i)
  then ((85 # 100) - tolerance <= exactFactor c s e i)%Q
  else (exactFactor c s e i <= (85 # 100) + tolerance)%Q.
Proof.
  intros Hc Hs He Hi. destruct (combined_within c s e i) as [(-> & -> & ->)|Hw]; [done..| |].
  - change (f64_leb FullCapacity (S754_zero false)) with false. unfold exactFactor, Qdiv.
    change (inject_Z 0) with 0%Q. rewrite !Qmult_0_l, !Qmult_0_r. by vm_compute.
  - pose proof (f64_leb_within _ _ _ _ _ _ FullCapacity_within Hw) as H.
    change tolerance with (1 # 281474976710656)%Q. change ulp with (1 # 4503599627370496)%Q in *.
    destruct (f64_leb FullCapacity (combinedFactor c s e i)); lra.
Qed.

(** C21. The default strategy decides by the weighted sum of its two factors.
    It switches only when the buffer is full, the interval has passed, or
    0.4 elapsed / interval + 0.6 count / size reaches 0.85 less a rounding
    tolerance of [2 ^ -48]; when it does not switch, neither of the first two
    holds and the sum is at most 0.85 plus the tolerance. *)
Theorem default_needSwitch_decides (c s e i : Z)
    (Hc : 0 ≤ c < 2 ^ 31) (Hs : in_int32 s) (He : 0 ≤ e < 2 ^ 63) (Hi : in_int64 i) :
  let size := Z.max MinBufferSize s in
  if needSwitch NewDefaultStrategy c s e i
  then size ≤ c ∨ i ≤ e ∨ ((85 # 100) - tolerance <= exactFactor c size e i)%Q
  else c < size ∧ e < i ∧ (exactFactor c size e i <= (85 # 100) + tolerance)%Q.
Proof.
  cbv zeta. unfold needSwitch, DefaultStrategy_SwitchStrategy, default_needSwitch.
  unfold in_signed, MinBufferSize in *.
  replace (if decide (s < 1) then 1 else s) with (Z.max 1 s) by (case_decide; lia).
  case_decide as E1; [by left|]. case_decide as E2; [by right; left|].
  pose proof (threshold_ok c (Z.max 1 s) e i) as H.
  destruct (f64_leb FullCapacity _).
  - right; right. apply H; lia.
  - split; [lia|]. split; [lia|]. apply H; lia.
Qed.

Lemma default_needSwitch_decides_witness :
  (99 < 100 ∧ 5000000 < 10000000 ∧ True) ∧
  (100 ≤ 99 ∨ 10000000 ≤ 7000000 ∨ ((85 # 100) - tolerance <= exactFactor 99 100 7000000 10000000)%Q).
Proof.
  split; [auto with lia|].
  apply (default_needSwitch_decides 99 100 7000000 10000000); unfold in_signed; lia.
Defined.

(** Below three quarters of the capacity the time factor alone cannot reach
    the threshold. *)
Lemma exactFactor_below (c s e i : Z) :
  0 ≤ c → 0 < s < 2 ^ 31 → 4 * c < 3 * s → 0 ≤ e < i →
  (exactFactor c s e i < (85 # 100) - tolerance)%Q.
Proof.
  intros Hc Hs Hcs He. unfold exactFactor.
  assert (0 < inject_Z i)%Q as Hi0 by (change 0%Q with (inject_Z 0); rewrite <- Zlt_Qlt; lia).
  assert (0 < inject_Z s)%Q as Hs0 by (change 0%Q with (inject_Z 0); rewrite <- Zlt_Qlt; lia).
  assert (inject_Z e / inject_Z i <= 1)%Q as H1.
  { apply Qle_shift_div_r; [done|]. rewrite Qmult_1_l, <- Zle_Qle. lia. }
  assert (inject_Z c / inject_Z s <= (3 # 4) - (1 # 8589934592))%Q as H2.
  { apply Qle_shift_div_r; [done|].
    assert (inject_Z (4 * c) <= inject_Z (3 * s - 1))%Q as H by (rewrite <- Zle_Qle; lia).
    unfold Z.sub in H. rewrite inject_Z_plus, !inject_Z_mult in H.
    change (inject_Z (- (1))) with (- (1))%Q in H.
    change (inject_Z 4) with 4%Q in H. change (inject_Z 3) with 3%Q in H.
    assert (inject_Z s <= inject_Z (2 ^ 31))%Q as Hs31 by (rewrite <- Zle_Qle; lia).
    change (inject_Z (2 ^ 31)) with 2147483648%Q in Hs31. lra. }
  change tolerance with (1 # 281474976710656)%Q. lra.
Qed.

(** Below three quarters of the capacity the default strategy waits for
    the interval: while less than the interval has passed it does not switch,
    whatever the time factor adds. *)
Theorem default_needSwitch_waits (c s e i : Z)
    (Hc : 0 ≤ c) (Hs : 0 < s < 2 ^ 31) (Hcs : 4 * c < 3 * s) (He : 0 ≤ e < i) (Hi : in_int64 i) :
  needSwitch NewDefaultStrategy c s e i = false.
Proof.
  pose proof (exactFactor_below c s e i Hc Hs Hcs He) as Hlt. unfold in_signed in *.
  pose proof (threshold_ok c s e i ltac:(lia) ltac:(lia) ltac:(lia) ltac:(lia)) as H.
  unfold needSwitch, DefaultStrategy_SwitchStrategy, default_needSwitch, MinBufferSize.
  rewrite (decide_False (P := s < 1)) by lia. rewrite !decide_False by lia.
  destruct (f64_leb FullCapacity _); [lra|done].
Qed.

Lemma default_needSwitch_waits_witness :
  needSwitch NewDefaultStrategy 74 100 9999999 10000000 = false.
Proof. apply default_needSwitch_waits; unfold in_signed; lia. Defined.

(** The default strategy is at least as eager as the other two: where
    the size-only strategy or the time-window strategy switches, it switches,
    for every buffer of positive size. *)
Theorem default_needSwitch_subsumes (c s e i : Z) (Hs : MinBufferSize ≤ s) :
  needSwitch NewSizeOnlyStrategy c s e i = true ∨ needSwitch NewTimeWindowOnlyStrategy c s e i = true →
  needSwitch NewDefaultStrategy c s e i = true.
Proof.
  unfold needSwitch, SizeOnlyStrategy_SwitchStrategy, TimeWindowOnlyStrategy_SwitchStrategy,
    DefaultStrategy_SwitchStrategy, default_needSwitch, size_needSwitch, time_needSwitch.
  rewrite !bool_decide_eq_true. intros H. rewrite (decide_False (P := s < MinBufferSize)) by lia.
  case_decide; [done|]. rewrite decide_True by lia. done.
Qed.

Lemma default_needSwitch_subsumes_witness :
  needSwitch NewDefaultStrategy 100 100 0 10 = true.
Proof.
  apply default_needSwitch_subsumes; [vm_compute; discriminate|]. left. reflexivity.
Defined.
