(* ===== verification/SwitchConfig.v ===== *)
(** * The switch condition of [src/config/config.go]

    A configuration that is updated while consumers hold copies of it.  The
    condition has one channel with room for one token; a consumer that takes
    the token reads the configuration again.  The file has each method as one
    call and, for interleaved goroutines, the steps in which [UpdateConfig]
    and the consumer's poll in [DoubleBuffer.needSwitch] run. *)
From S2P Require Import Prelude.
From S2P Require Import Consts.
From S2P Require Import Runtime.
Open Scope Z_scope.

(** ** Data *)

Record SwitchConfig := mkConfig {
  cversion : Z;
  PercentThreshold : Z;
  TimeThreshold : Z;          (** nanoseconds *)
  timeThresholdMillis : Z
}.

Record SwitchCondition := mkCondition {
  config : SwitchConfig;
  notify : bool;              (** whether the channel holds its token *)
  version : Z
}.

#[export] Instance SwitchConfig_eq_dec : EqDecision SwitchConfig.
Proof. solve_decision. Defined.

#[export] Instance SwitchCondition_eq_dec : EqDecision SwitchCondition.
Proof. solve_decision. Defined.

(** ** Operations *)

Definition validate (sc : SwitchConfig) : option error :=
  if decide (PercentThreshold sc < 0 ∨ 100 < PercentThreshold sc) then Some ErrPercentThreshold
  else if decide (TimeThreshold sc < 0) then Some ErrTimeThreshold
  else None.

(** [d.Milliseconds()]. *)
Definition Milliseconds (d : Z) : Z := Z.quot d millisecond.

(** The configuration as it is stored under a version. *)
Definition stamp (v : Z) (sc : SwitchConfig) : SwitchConfig :=
  mkConfig v (PercentThreshold sc) (TimeThreshold sc) (Milliseconds (TimeThreshold sc)).

Definition NewSwitchCondition (sc : SwitchConfig) : SwitchCondition + error :=
  match validate sc with
  | Some err => inr err
  | None => inl (mkCondition (stamp 1 sc) true 1)
  end.

(** The statements of [UpdateConfig] under the lock, up to the send. *)
Definition UpdateConfig_store (sc : SwitchConfig) (s : SwitchCondition) : SwitchCondition :=
  let v := int64 (version s + 1) in
  mkCondition (stamp v sc) (notify s) v.

(** The non-blocking send: a full channel keeps its token. *)
Definition UpdateConfig_send (s : SwitchCondition) : SwitchCondition :=
  mkCondition (config s) true (version s).

Definition UpdateConfig (sc : SwitchConfig) (s : SwitchCondition) :
    SwitchCondition * option error :=
  match validate sc with
  | Some err => (s, Some err)
  | None => (UpdateConfig_send (UpdateConfig_store sc s), None)
  end.

Definition GetConfig (s : SwitchCondition) : SwitchConfig := config s.

(** The receive of a poll, when there is a token. *)
Definition take_token (s : SwitchCondition) : option SwitchCondition :=
  if notify s then Some (mkCondition (config s) false (version s)) else None.

(** The [select] of [needSwitch] on the channel, as one call: the copy the
    consumer goes on with. *)
Definition poll (cached : SwitchConfig) (s : SwitchCondition) : SwitchCondition * SwitchConfig :=
  match take_token s with
  | Some s => (s, GetConfig s)
  | None => (s, cached)
  end.

(** ** Interleaved updates and polls *)

(** A consumer: its copy, and whether it has taken the token and not read the
    configuration yet. *)
Record consumer := mkConsumer { cached : SwitchConfig; taken : bool }.

(** The shared condition, whether an updater is between its store and its
    send (it holds the lock), and the consumers. *)
Record system := mkSystem {
  condition : SwitchCondition;
  updating : bool;
  consumers : list consumer
}.

Inductive step : relation system :=
  | step_update_store (s : SwitchCondition) (cs : list consumer) (sc : SwitchConfig) :
      validate sc = None →
      step (mkSystem s false cs) (mkSystem (UpdateConfig_store sc s) true cs)
  | step_update_send (s : SwitchCondition) (cs : list consumer) :
      step (mkSystem s true cs) (mkSystem (UpdateConfig_send s) false cs)
  | step_take (s s' : SwitchCondition) (up : bool) (cs : list consumer) (i : nat) (c : SwitchConfig) :
      cs !! i = Some (mkConsumer c false) → take_token s = Some s' →
      step (mkSystem s up cs) (mkSystem s' up (<[i := mkConsumer c true]> cs))
  | step_get (s : SwitchCondition) (cs : list consumer) (i : nat) (c : SwitchConfig) :
      cs !! i = Some (mkConsumer c true) →
      step (mkSystem s false cs)
        (mkSystem s false (<[i := mkConsumer (GetConfig s) false]> cs)).

(** What a consumer holds is current, or a signal to read again is under way. *)
Definition signalled (x : system) (c : consumer) : Prop :=
  cached c = config (condition x) ∨ notify (condition x) = true ∨ taken c = true ∨
  updating x = true.

(** ** Lemmas *)

Lemma validate_None (sc : SwitchConfig) :
  validate sc = None ↔ 0 ≤ PercentThreshold sc ≤ 100 ∧ 0 ≤ TimeThreshold sc.
Proof. unfold validate. repeat case_decide; split; (done || lia). Qed.

(** Stored configurations are valid and carry their version and threshold in
    milliseconds. *)
Definition stored (s : SwitchCondition) : Prop :=
  cversion (config s) = version s ∧ validate (config s) = None ∧
  timeThresholdMillis (config s) = TimeThreshold (config s) `div` millisecond.

Lemma validate_stamp (v : Z) (sc : SwitchConfig) : validate (stamp v sc) = validate sc.
Proof. done. Qed.

Lemma stamp_stored (v : Z) (sc : SwitchConfig) (b : bool) :
  validate sc = None → stored (mkCondition (stamp v sc) b v).
Proof.
  intros Hv. split; [done|]. split; [done|]. apply validate_None in Hv. cbn. unfold Milliseconds.
  apply Z.quot_div_nonneg; unfold millisecond; lia.
Qed.

Lemma consumer_insert (x : consumer) (cs : list consumer) (i : nat) (c c' : consumer) :
  cs !! i = Some c' → <[i := x]> cs = [c] → cs = [c'] ∧ x = c.
Proof.
  intros Hi E. pose proof (f_equal length E) as El. rewrite length_insert in El.
  destruct cs as [|a [|b cs]]; [done| |done]. destruct i as [|i]; [|done].
  cbn in *. by simplify_eq.
Qed.

(** A consumer that is alone keeps its signal. *)
Lemma step_signalled (x y : system) (c : consumer) :
  step x y → consumers y = [c] → (∀ c0 : consumer, consumers x = [c0] → signalled x c0) →
  signalled y c.
Proof.
  destruct 1 as [s cs sc Hv|s cs|s s' up cs i c0 Hi Ht|s cs i c0 Hi]; cbn; intros Hc IH.
  - by right; right; right.
  - by right; left.
  - apply (consumer_insert _ _ _ _ _ Hi) in Hc as [_ <-]. by right; right; left.
  - apply (consumer_insert _ _ _ _ _ Hi) in Hc as [_ <-]. by left.
Qed.

Lemma step_consumers (x y : system) : step x y → length (consumers y) = length (consumers x).
Proof. destruct 1; cbn; by rewrite ?length_insert. Qed.

Lemma one_consumer (x y : system) (c : consumer) :
  rtc step x y → consumers x = [c] → signalled x c →
  ∃ c' : consumer, consumers y = [c'] ∧ signalled y c'.
Proof.
  intros Hr Hc Hs.
  apply (rtc_invariant step (λ z, ∃ c' : consumer, consumers z = [c'] ∧ signalled z c') x y);
    [|by exists c|done].
  intros a b (c1 & E1 & H1) Hst. pose proof (step_consumers a b Hst) as Hl. rewrite E1 in Hl.
  destruct (consumers b) as [|c2 [|]] eqn:E2; [done| |done]. exists c2. split; [done|].
  apply (step_signalled a b c2 Hst E2). intros c0 E0. rewrite E1 in E0. by simplify_eq.
Qed.

(** ** Properties *)

(** C28. A condition always holds a valid configuration with its version and
    its threshold in milliseconds: the constructor and every accepted update
    make one, an update that is refused (percent outside 0 to 100, or a
    negative time) reports which bound it breaks and changes nothing, and the
    version counts the accepted updates. *)
Theorem SwitchCondition_stores_valid_configs (s : SwitchCondition) (sc : SwitchConfig)
    (Hs : stored s) (Hv : in_int64 (version s + 1)) :
  (∀ s' : SwitchCondition, NewSwitchCondition sc = inl s' →
     stored s' ∧ version s' = 1 ∧ notify s' = true) ∧
  match UpdateConfig sc s with
  | (s', None) =>
      validate sc = None ∧ stored s' ∧ version s' = version s + 1 ∧
      PercentThreshold (GetConfig s') = PercentThreshold sc ∧
      TimeThreshold (GetConfig s') = TimeThreshold sc
  | (s', Some err) =>
      s' = s ∧
      (err = ErrPercentThreshold ∧ ¬ (0 ≤ PercentThreshold sc ≤ 100) ∨
       err = ErrTimeThreshold ∧ TimeThreshold sc < 0)
  end.
Proof.
  split.
  - intros s'. unfold NewSwitchCondition. destruct (validate sc) eqn:E; [done|].
    intros [= <-]. split; [by apply stamp_stored|done].
  - unfold UpdateConfig. destruct (validate sc) as [err|] eqn:E.
    + split; [done|]. unfold validate in E. repeat case_decide; simplify_eq; [left|right];
        (split; [done|lia]).
    + cbn. rewrite signed_id by (lia || done). split_and!; try done. by apply stamp_stored.
Qed.

Lemma SwitchCondition_stores_valid_configs_witness :
  let s := mkCondition (mkConfig 1 50 1000000 1) true 1 in
  let sc := mkConfig 0 80 2500000 0 in
  stored s ∧ UpdateConfig sc s = (mkCondition (mkConfig 2 80 2500000 2) true 2, None) ∧
  stored (UpdateConfig sc s).1.
Proof.
  assert (stored (mkCondition (mkConfig 1 50 1000000 1) true 1)) as H by (split_and!; reflexivity).
  split; [exact H|]. split; [reflexivity|].
  apply (SwitchCondition_stores_valid_configs (mkCondition (mkConfig 1 50 1000000 1) true 1)
    (mkConfig 0 80 2500000 0) H).
  split; reflexivity || discriminate.
Defined.

(** C26. A single consumer never misses an update for good: however updates and
    its polls interleave, whenever no update is half done and the consumer is
    not inside a poll, one more poll leaves it with the current
    configuration. *)
Theorem single_consumer_sees_latest_config (s : SwitchCondition) (x : system) (c : SwitchConfig)
    (Hs : notify s = true)
    (Hr : rtc step (mkSystem s false [mkConsumer c false]) x)
    (Hup : updating x = false) (Hidle : ∀ c : consumer, c ∈ consumers x → taken c = false) :
  ∃ held : SwitchConfig,
    consumers x = [mkConsumer held false] ∧
    (poll held (condition x)).2 = config (condition x).
Proof.
  destruct (one_consumer _ x (mkConsumer c false) Hr eq_refl) as ([held t] & E & Hsig).
  { by right; left. }
  exists held. rewrite E in *. assert (t = false) as -> by (apply (Hidle (mkConsumer held t)); left).
  split; [done|]. unfold poll, take_token.
  destruct Hsig as [<-|[->|[?|?]]]; cbn in *; try done; [|congruence].
  by destruct (notify (condition x)).
Qed.

Definition fast : SwitchConfig := mkConfig 0 80 1000000 0.
Definition slow : SwitchConfig := mkConfig 0 80 60000000000 0.
Definition started : SwitchCondition := mkCondition (stamp 1 slow) true 1.

Lemma single_consumer_sees_latest_config_witness :
  ∃ held : SwitchConfig,
    [mkConsumer slow false] = [mkConsumer held false] ∧
    (poll held (UpdateConfig fast started).1).2 = stamp 2 fast.
Proof.
  apply (single_consumer_sees_latest_config started
    (mkSystem (UpdateConfig fast started).1 false [mkConsumer slow false]) slow).
  - reflexivity.
  - eapply rtc_l; [eapply step_update_store with (sc := fast); reflexivity|].
    apply rtc_once. apply step_update_send.
  - reflexivity.
  - intros c Hc. apply list_elem_of_singleton in Hc. rewrite Hc. reflexivity.
Defined.

(** Two consumers of one condition share its only token, so one of them
    can be left behind: from a state in which both hold the current
    configuration, an update and one poll reach a state in which no update
    and no poll is under way, the second consumer still holds the old
    configuration, and polling again does not change that. *)
Theorem second_consumer_left_behind :
  let before := mkSystem (mkCondition (stamp 1 slow) false 1) false
    [mkConsumer (stamp 1 slow) false; mkConsumer (stamp 1 slow) false] in
  ∃ x : system,
    rtc step before x ∧ updating x = false ∧
    consumers x = [mkConsumer (stamp 2 fast) false; mkConsumer (stamp 1 slow) false] ∧
    config (condition x) = stamp 2 fast ∧
    poll (stamp 1 slow) (condition x) = (condition x, stamp 1 slow).
Proof.
  eexists. split.
  { eapply rtc_l; [by eapply step_update_store with (sc := fast)|].
    eapply rtc_l; [apply step_update_send|].
    eapply rtc_l; [by eapply step_take with (i := 0%nat)|].
    apply rtc_once. by eapply step_get with (i := 0%nat). }
  done.
Qed.
