(* ===== verification/Waiters.v ===== *)
(** * The waiter manager of [src/core/waiters.go]

    Blocked readers register a channel each and are woken by a token in it.
    Every method holds the manager's lock from its first to its last
    statement.  The channels have room for one token and are objects shared
    between the manager, its pool and the readers, so they live in a store. *)
From S2P Require Import Prelude.
Open Scope Z_scope.
Open Scope go_scope.

(** ** Data *)

(** A [chan struct{}] of capacity one. *)
Record channel := mkChan { token : bool; shut : bool }.

Record WaiterManager := mkWM {
  ws : gmap Z nat;             (** registered waiters: id to channel *)
  pool : list nat;             (** [sync.Pool] of idle channels *)
  currentID : Z;
  closed : bool;
  chans : gmap nat channel;    (** every channel made so far *)
  fresh : nat                  (** the next channel to be made *)
}.

#[export] Instance channel_eq_dec : EqDecision channel.
Proof. solve_decision. Defined.

#[export] Instance WaiterManager_eq_dec : EqDecision WaiterManager.
Proof. solve_decision. Defined.

Definition newWaiterManager : WaiterManager := mkWM ∅ [] 0 false ∅ 0.

(** ** Operations *)

(** [w.pool.Get()]: any idle channel, or a new one. *)
Definition pool_Get (choice : option nat) (w : WaiterManager) : WaiterManager * nat :=
  match choice ≫= λ i, pool w !! i with
  | Some ch =>
      (mkWM (ws w) (delete (default 0%nat choice) (pool w)) (currentID w) (closed w) (chans w)
         (fresh w), ch)
  | None =>
      (mkWM (ws w) (pool w) (currentID w) (closed w) (<[fresh w := mkChan false false]> (chans w))
         (S (fresh w)), fresh w)
  end.

Definition register (choice : option nat) (w : WaiterManager) : WaiterManager * (Z * nat) :=
  let id := int64 (currentID w + 1) in
  let (w, ch) := pool_Get choice w in
  (mkWM (<[id := ch]> (ws w)) (pool w) id (closed w) (chans w) (fresh w), (id, ch)).

Definition unregister (id : Z) (w : WaiterManager) : WaiterManager :=
  match ws w !! id with
  | None => w
  | Some ch =>
      mkWM (delete id (ws w)) (ch :: pool w) (currentID w) (closed w) (chans w) (fresh w)
  end.

(** [_min(values...)] on a non-empty argument list. *)
Definition _min (v : Z) (values : list Z) : Z :=
  foldl (λ m v, if decide (v < m) then v else m) v values.

Definition MaxWaitersPerBatch : Z := 64.
Definition MaxTotalWaiters : Z := 1024.

(** The first inner loop: entries in the iteration order until [batchSize] are
    gathered. *)
Fixpoint gather (batchSize : Z) (order : list (Z * nat)) (batch : list nat)
    (shouldDelete : list Z) : list nat * list Z :=
  match order with
  | [] => (batch, shouldDelete)
  | (id, ch) :: order =>
      let batch := batch ++ [ch] in
      let shouldDelete := shouldDelete ++ [id] in
      if decide (batchSize ≤ Z.of_nat (length batch)) then (batch, shouldDelete)
      else gather batchSize order batch shouldDelete
  end.

(** The non-blocking send [select { case ch <- struct{}{}: ... default: }]:
    whether it sent.  A send on a closed channel panics. *)
Definition try_send (ch : nat) (cs : gmap nat channel) : result (gmap nat channel * bool) :=
  match cs !! ch with
  | None => Panics NilDereference
  | Some c =>
      if shut c then Panics SendOnClosedChannel
      else if token c then Ok (cs, false)
      else Ok (<[ch := mkChan true false]> cs, true)
  end.

(** The second inner loop. *)
Fixpoint send_all (batch : list nat) (remaining : Z) (cs : gmap nat channel) :
    result (gmap nat channel * Z) :=
  match batch with
  | [] => Ok (cs, remaining)
  | ch :: batch =>
      let* (cs, sent) := try_send ch cs in
      send_all batch (if sent then int64 (remaining - 1) else remaining) cs
  end.

Definition set_ws_chans (m : gmap Z nat) (cs : gmap nat channel) (w : WaiterManager) :
    WaiterManager :=
  mkWM m (pool w) (currentID w) (closed w) cs (fresh w).

(** The outer loop.  [range m] is the order in which one [range] statement
    visits the map [m]. *)
Fixpoint notify_loop (fuel : nat) (range : gmap Z nat → list (Z * nat)) (remaining : Z)
    (shouldDelete : list Z) (w : WaiterManager) : result WaiterManager :=
  match fuel with
  | O => OutOfFuel
  | S fuel =>
      if decide (remaining ≤ 0) then Ok w
      else
        let batchSize := _min MaxTotalWaiters [remaining] in
        let (batch, shouldDelete) := gather batchSize (range (ws w)) [] shouldDelete in
        let* (cs, remaining) := send_all batch remaining (chans w) in
        let m := foldl (λ m id, delete id m) (ws w) shouldDelete in
        let w := set_ws_chans m cs w in
        if decide (size m = 0)%nat then Ok w
        else notify_loop fuel range remaining shouldDelete w
  end.

(** A turn of the loop removes at least one waiter, so one turn more than
    there are waiters is enough. *)
Definition notify (range : gmap Z nat → list (Z * nat)) (dataSize : Z) (w : WaiterManager) :
    result WaiterManager :=
  if decide (size (ws w) = 0%nat ∨ closed w = true) then Ok w
  else
    let totalToNotify := _min MaxWaitersPerBatch [dataSize; MaxTotalWaiters] in
    if decide (totalToNotify ≤ 0) then Ok w
    else notify_loop (S (size (ws w))) range totalToNotify [] w.

Fixpoint close_all (order : list (Z * nat)) (cs : gmap nat channel) : result (gmap nat channel) :=
  match order with
  | [] => Ok cs
  | (_, ch) :: order =>
      match cs !! ch with
      | None => Panics NilDereference
      | Some c =>
          if shut c then Panics CloseOfClosedChannel
          else close_all order (<[ch := mkChan (token c) true]> cs)
      end
  end.

Definition Close (range : gmap Z nat → list (Z * nat)) (w : WaiterManager) :
    result WaiterManager :=
  let* cs := close_all (range (ws w)) (chans w) in
  Ok (mkWM (ws w) (pool w) (currentID w) true cs (fresh w)).

(** What a reader does with its channel: a receive succeeds when there is a
    token or the channel is closed. *)
Definition recv (ch : nat) (w : WaiterManager) : option WaiterManager :=
  match chans w !! ch with
  | Some (mkChan true s) =>
      Some (set_ws_chans (ws w) (<[ch := mkChan false s]> (chans w)) w)
  | Some (mkChan false true) => Some w
  | _ => None
  end.

(** ** Iteration order

    The language leaves the order of a [range] over a map open. *)
Class RangeOrder (range : gmap Z nat → list (Z * nat)) : Prop :=
  range_perm (m : gmap Z nat) : range m ≡ₚ map_to_list m.

#[export] Instance map_to_list_RangeOrder : RangeOrder map_to_list.
Proof. by intros m. Qed.

(** ** Well-formed managers *)

(** The channel of a registered waiter is its own; it and every idle channel
    hold no token, and none is closed before the manager is. *)
Definition quiet (w : WaiterManager) (ch : nat) : Prop :=
  ∃ s : bool, chans w !! ch = Some (mkChan false s) ∧ (closed w = false → s = false).

Record wf (w : WaiterManager) : Prop := {
  wf_ids (id : Z) (ch : nat) : ws w !! id = Some ch → 0 < id ≤ currentID w;
  wf_inj (i j : Z) (ch : nat) : ws w !! i = Some ch → ws w !! j = Some ch → i = j;
  wf_ws (id : Z) (ch : nat) : ws w !! id = Some ch → quiet w ch;
  wf_pool (ch : nat) : ch ∈ pool w → quiet w ch;
  wf_pool_nodup : NoDup (pool w);
  wf_pool_ws (id : Z) (ch : nat) : ws w !! id = Some ch → ch ∉ pool w;
  wf_fresh (ch : nat) : is_Some (chans w !! ch) → (ch < fresh w)%nat;
  wf_current : 0 ≤ currentID w
}.

(** ** Runs *)

Inductive op :=
  | ORegister (choice : option nat)
  | OUnregister (id : Z)
  | ONotify (dataSize : Z)
  | OClose
  | ORecv (ch : nat).

Section runs.
  Context (range : gmap Z nat → list (Z * nat)).

Definition exec (o : op) (w : WaiterManager) : result WaiterManager :=
  match o with
  | ORegister choice => Ok (register choice w).1
  | OUnregister id => Ok (unregister id w)
  | ONotify dataSize => notify range dataSize w
  | OClose => Close range w
  | ORecv ch => Ok (default w (recv ch w))
  end.

Fixpoint exec_all (os : list op) (w : WaiterManager) : result WaiterManager :=
  match os with
  | [] => Ok w
  | o :: os => let* w := exec o w in exec_all os w
  end.
End runs.

Fixpoint closes (os : list op) : nat :=
  match os with
  | [] => 0
  | OClose :: os => S (closes os)
  | _ :: os => closes os
  end.

(** ** Lemmas *)

Lemma gather_take (n : Z) (order : list (Z * nat)) (batch : list nat) (dels : list Z) :
  Z.of_nat (length batch) < n →
  gather n order batch dels =
    (batch ++ take (Z.to_nat n - length batch) order.*2,
     dels ++ take (Z.to_nat n - length batch) order.*1).
Proof.
  revert batch dels. induction order as [|[id ch] order IH]; intros batch dels Hn; cbn.
  - by rewrite !take_nil, !app_nil_r.
  - replace (Z.to_nat n - length batch)%nat
      with (S (Z.to_nat n - length (batch ++ [ch])))%nat by (rewrite length_app; cbn; lia).
    cbn. case_decide as Hb.
    + replace (Z.to_nat n - length (batch ++ [ch]))%nat with 0%nat by lia. done.
    + rewrite IH by lia. by rewrite <- !app_assoc.
Qed.

Lemma try_send_quiet (ch : nat) (cs : gmap nat channel) :
  cs !! ch = Some (mkChan false false) →
  try_send ch cs = Ok (<[ch := mkChan true false]> cs, true).
Proof. intros H. unfold try_send. by rewrite H. Qed.

(** Marking the channels of a batch. *)
Definition mark (batch : list nat) (cs : gmap nat channel) : gmap nat channel :=
  foldl (λ cs ch, <[ch := mkChan true false]> cs) cs batch.

Lemma lookup_mark (batch : list nat) (cs : gmap nat channel) (ch : nat) :
  mark batch cs !! ch = if decide (ch ∈ batch) then Some (mkChan true false) else cs !! ch.
Proof.
  unfold mark. revert cs. induction batch as [|c batch IH]; intros cs; cbn.
  - by rewrite decide_False by apply not_elem_of_nil.
  - rewrite IH. destruct (decide (ch ∈ batch)) as [Hc|Hc].
    + by rewrite decide_True by (by right).
    + destruct (decide (c = ch)) as [->|Hne].
      * rewrite lookup_insert_eq, decide_True by left. done.
      * rewrite lookup_insert_ne by done. rewrite decide_False; [done|].
        by intros [?|?]%elem_of_cons.
Qed.

Lemma send_all_quiet (batch : list nat) (remaining : Z) (cs : gmap nat channel) :
  NoDup batch → (∀ ch : nat, ch ∈ batch → cs !! ch = Some (mkChan false false)) →
  0 ≤ remaining - Z.of_nat (length batch) → remaining < 2 ^ 63 →
  send_all batch remaining cs = Ok (mark batch cs, remaining - Z.of_nat (length batch)).
Proof.
  revert remaining cs. induction batch as [|ch batch IH]; intros r cs Hnd Hq Hr Hr'; cbn -[try_send].
  - by rewrite Z.sub_0_r.
  - apply NoDup_cons in Hnd as [Hch Hnd].
    rewrite try_send_quiet by (apply Hq; by left). cbn -[try_send].
    cbn in Hr. rewrite signed_id by (unfold in_signed; lia).
    rewrite IH; [f_equal; f_equal; lia|done| |lia|lia].
    intros c Hc. rewrite lookup_insert_ne by (by intros ->). apply Hq. by right.
Qed.

Lemma lookup_foldl_delete {A : Type} (dels : list Z) (m : gmap Z A) (i : Z) :
  foldl (λ m id, delete id m) m dels !! i = if decide (i ∈ dels) then None else m !! i.
Proof.
  revert m. induction dels as [|d dels IH]; intros m; cbn.
  - by rewrite decide_False by apply not_elem_of_nil.
  - rewrite IH. destruct (decide (i ∈ dels)) as [Hi|Hi].
    + by rewrite decide_True by (by right).
    + destruct (decide (d = i)) as [->|Hne].
      * rewrite lookup_delete_eq, decide_True by left. done.
      * rewrite lookup_delete_ne by done. rewrite decide_False; [done|].
        by intros [?|?]%elem_of_cons.
Qed.

Lemma _min_notify (dataSize : Z) :
  _min MaxWaitersPerBatch [dataSize; MaxTotalWaiters] = Z.min 64 dataSize.
Proof. unfold _min, MaxWaitersPerBatch, MaxTotalWaiters; cbn. repeat case_decide; lia. Qed.

Lemma _min_batch (remaining : Z) : remaining ≤ 64 → _min MaxTotalWaiters [remaining] = remaining.
Proof. unfold _min, MaxTotalWaiters; cbn. case_decide; lia. Qed.

Lemma NoDup_take {A : Type} (n : nat) (l : list A) : NoDup l → NoDup (take n l).
Proof. intros H. apply (sublist_NoDup _ l H), sublist_take. Qed.

Lemma elem_of_take_NoDup {A : Type} (n k : nat) (l : list A) (x : A) :
  NoDup l → l !! k = Some x → x ∈ take n l ↔ (k < n)%nat.
Proof.
  intros Hnd Hk. rewrite elem_of_take. split; [|by exists k].
  intros (i & Hi & Hn). by rewrite (NoDup_lookup l i k x Hnd Hi Hk) in Hn.
Qed.

(** What one notification does: the waiters [woken] get their token and are
    removed; nothing else changes. *)
Definition notified (dataSize : Z) (woken : list Z) (w w' : WaiterManager) : Prop :=
  NoDup woken ∧ length woken = Z.to_nat (Z.min (Z.min 64 dataSize) (Z.of_nat (size (ws w)))) ∧
  (∀ id : Z, id ∈ woken → is_Some (ws w !! id)) ∧
  (∀ id : Z, ws w' !! id = if decide (id ∈ woken) then None else ws w !! id) ∧
  (∀ (id : Z) (ch : nat), id ∈ woken → ws w !! id = Some ch →
     chans w' !! ch = Some (mkChan true false)) ∧
  (∀ ch : nat, (∀ id : Z, id ∈ woken → ws w !! id ≠ Some ch) → chans w' !! ch = chans w !! ch) ∧
  pool w' = pool w ∧ currentID w' = currentID w ∧ closed w' = closed w ∧ fresh w' = fresh w.

Lemma notified_none (dataSize : Z) (w : WaiterManager) :
  size (ws w) = 0%nat ∨ dataSize ≤ 0 → notified dataSize [] w w.
Proof.
  intros H. unfold notified. split_and!; try done.
  - apply NoDup_nil_2.
  - cbn. lia.
  - by intros id ?%not_elem_of_nil.
  - by intros id ch ?%not_elem_of_nil.
Qed.

Lemma NoDup_channels (w : WaiterManager) (order : list (Z * nat)) :
  wf w → order ≡ₚ map_to_list (ws w) → NoDup order.*2.
Proof.
  intros Hwf Ho. rewrite Ho. pose proof (NoDup_fst_map_to_list (ws w)) as Hnd.
  apply NoDup_fmap_2_strong; [|apply NoDup_map_to_list].
  intros [i ch] [j ch'] Hi Hj E; cbn in E; subst ch'.
  apply elem_of_map_to_list in Hi, Hj. by rewrite (wf_inj w Hwf i j ch Hi Hj).
Qed.

(** The first turn of the loop reaches the total or empties the map. *)
Lemma notify_turn (range : gmap Z nat → list (Z * nat)) `{!RangeOrder range} (n : nat)
    (w : WaiterManager) :
  wf w → closed w = false → (0 < n ≤ 64)%nat → (0 < size (ws w))%nat →
  let ids := take n (range (ws w)).*1 in
  let batch := take n (range (ws w)).*2 in
  notify_loop (S (size (ws w))) range (Z.of_nat n) [] w =
    Ok (set_ws_chans (foldl (λ m id, delete id m) (ws w) ids) (mark batch (chans w)) w).
Proof.
  intros Hwf Hc Hn Hs ids batch. pose proof (range_perm (range := range) (ws w)) as Ho.
  change (S (size (ws w))) with (1 + size (ws w))%nat.
  cbn -[gather _min send_all foldl]. rewrite decide_False by lia. rewrite _min_batch by lia.
  rewrite gather_take by (cbn; lia). cbn -[send_all foldl _min].
  rewrite Nat2Z.id, Nat.sub_0_r. fold batch ids.
  rewrite (send_all_quiet batch); [| | | |lia].
  - cbn -[_min]. case_decide as Hm; [done|].
    assert (length batch = n) as Hl.
    { unfold batch. rewrite length_take, length_fmap. destruct (decide (n ≤ length (range (ws w))))%nat; [lia|].
      exfalso. apply Hm, map_size_empty_iff. apply map_eq. intros i.
      rewrite lookup_foldl_delete, lookup_empty. case_decide as Hi; [done|].
      destruct (ws w !! i) as [ch|] eqn:E; [|done]. exfalso. apply Hi. unfold ids.
      rewrite take_ge by (rewrite length_fmap; lia). apply list_elem_of_fmap.
      exists (i, ch). split; [done|]. by rewrite Ho, elem_of_map_to_list. }
    rewrite Hl, Z.sub_diag. destruct (size (ws w)); [lia|]. cbn -[_min]. done.
  - apply (NoDup_take _ _ (NoDup_channels w _ Hwf Ho)).
  - intros ch Hch. unfold batch in Hch. apply (subseteq_take n) in Hch.
    apply list_elem_of_fmap in Hch as ([id ch'] & -> & Hid).
    rewrite Ho, elem_of_map_to_list in Hid.
    destruct (wf_ws w Hwf id _ Hid) as (s & E & Es). cbn. by rewrite (Es Hc) in E.
  - unfold batch. rewrite length_take. lia.
Qed.

Lemma notify_ok (range : gmap Z nat → list (Z * nat)) `{!RangeOrder range} (dataSize : Z)
    (w : WaiterManager) :
  wf w → closed w = false →
  ∃ (w' : WaiterManager) (woken : list Z),
    notify range dataSize w = Ok w' ∧ notified dataSize woken w w'.
Proof.
  intros Hwf Hc. unfold notify. rewrite _min_notify.
  destruct (decide (size (ws w) = 0%nat ∨ closed w = true)) as [[Hs|?]|Hs]; [|congruence|].
  { exists w, []. split; [done|]. apply notified_none. by left. }
  case_decide as Hd.
  { exists w, []. split; [done|]. apply notified_none. right. lia. }
  pose proof (range_perm (range := range) (ws w)) as Ho.
  set (n := Z.to_nat (Z.min 64 dataSize)).
  replace (Z.min 64 dataSize) with (Z.of_nat n) by (unfold n; lia).
  rewrite (notify_turn range n w Hwf Hc) by (unfold n; lia || tauto).
  eexists _, (take n (range (ws w)).*1). split; [done|].
  assert (NoDup (range (ws w)).*1) as Hnd1 by (rewrite Ho; apply NoDup_fst_map_to_list).
  pose proof (NoDup_channels w _ Hwf Ho) as Hnd2.
  assert (∀ (id : Z) (ch : nat), ws w !! id = Some ch →
    id ∈ take n (range (ws w)).*1 ↔ ch ∈ take n (range (ws w)).*2) as Hiff.
  { intros id ch Hid. apply elem_of_map_to_list in Hid. rewrite <- Ho in Hid.
    apply list_elem_of_lookup in Hid as [k Hk].
    rewrite (elem_of_take_NoDup n k _ id), (elem_of_take_NoDup n k _ ch);
      [done|done| |done|]; by rewrite list_lookup_fmap, Hk. }
  unfold notified; cbn -[_min take]. split_and!; try done.
  - by apply NoDup_take.
  - rewrite length_take, length_fmap, Ho, length_map_to_list. lia.
  - intros id Hid. apply subseteq_take, list_elem_of_fmap in Hid as ([i ch] & -> & Hid).
    rewrite Ho, elem_of_map_to_list in Hid. by exists ch.
  - intros id. apply lookup_foldl_delete.
  - intros id ch Hid E. rewrite lookup_mark, decide_True; [done|]. by apply (Hiff id).
  - intros ch Hch. rewrite lookup_mark, decide_False; [done|]. intros Hin.
    pose proof Hin as Hin'. apply subseteq_take, list_elem_of_fmap in Hin' as ([id c] & -> & Hid).
    rewrite Ho, elem_of_map_to_list in Hid. apply (Hch id); [|done]. by apply (Hiff id c).
Qed.

(** ** Preservation *)

Lemma notified_wf (dataSize : Z) (woken : list Z) (w w' : WaiterManager) :
  wf w → notified dataSize woken w w' → wf w'.
Proof.
  intros Hwf (_ & _ & Hdom & Hws & Hin & Hout & Hp & Hc & Hcl & Hf).
  assert (∀ (id : Z) (ch : nat), ws w' !! id = Some ch → ws w !! id = Some ch ∧ id ∉ woken) as Hsub.
  { intros id ch. rewrite Hws. case_decide; [done|]. by split. }
  assert (∀ ch : nat, (∀ id : Z, id ∈ woken → ws w !! id ≠ Some ch) → quiet w ch → quiet w' ch) as Hq.
  { intros ch Hn (s & E & Es). exists s. rewrite Hout, Hcl by done. done. }
  constructor; rewrite ?Hp, ?Hc, ?Hf.
  - intros id ch [? _]%Hsub. by eapply wf_ids.
  - intros i j ch [? _]%Hsub [? _]%Hsub. by eapply wf_inj.
  - intros id ch [E Hnin]%Hsub. apply Hq; [|by eapply wf_ws].
    intros i Hi Ei. by rewrite (wf_inj w Hwf i id ch Ei E) in Hi.
  - intros ch Hch. apply Hq; [|by apply wf_pool]. intros i Hi Ei.
    by apply (wf_pool_ws w Hwf i ch Ei).
  - by apply wf_pool_nodup.
  - intros id ch [? _]%Hsub. by eapply wf_pool_ws.
  - intros ch Hch. destruct (decide (Exists (λ id, ws w !! id = Some ch) woken)) as [He|He].
    + apply Exists_exists in He as (id & Hid & E). destruct (wf_ws w Hwf id ch E) as (s & Es & _).
      apply (wf_fresh w Hwf). by eexists.
    + apply (wf_fresh w Hwf). rewrite <- Hout; [done|]. intros id Hid E. apply He, Exists_exists.
      by exists id.
  - by apply wf_current.
Qed.

Lemma quiet_insert_new (w w' : WaiterManager) (ch : nat) :
  wf w → chans w' = <[fresh w := mkChan false false]> (chans w) → closed w' = closed w →
  quiet w ch → quiet w' ch ∧ ch ≠ fresh w.
Proof.
  intros Hwf Hch Hcl (s & E & Es).
  assert (ch ≠ fresh w) as Hne.
  { intros ->. assert (fresh w < fresh w)%nat; [|lia]. apply (wf_fresh w Hwf). by eexists. }
  split; [|done]. exists s. by rewrite Hch, Hcl, lookup_insert_ne.
Qed.

Lemma pool_Get_wf (choice : option nat) (w w' : WaiterManager) (ch : nat) :
  wf w → pool_Get choice w = (w', ch) →
  wf w' ∧ ws w' = ws w ∧ currentID w' = currentID w ∧ closed w' = closed w ∧
  quiet w' ch ∧ ch ∉ pool w' ∧ ∀ id : Z, ws w !! id ≠ Some ch.
Proof.
  intros Hwf. unfold pool_Get. destruct (choice ≫= λ i, pool w !! i) as [c|] eqn:E;
    intros [= <- <-].
  - destruct choice as [i|]; [cbn in E|done]. pose proof (delete_Permutation _ _ _ E) as Hp.
    assert (c ∈ pool w) as Hc by (rewrite Hp; left).
    pose proof (wf_pool_nodup w Hwf) as Hnd. rewrite Hp in Hnd. apply NoDup_cons in Hnd as [Hcn Hnd].
    cbn. split_and!; try done.
    + destruct Hwf as [H1 H2 H3 H4 H5 H6 H7 H8]. constructor; cbn; try done.
      * intros ch Hch. apply H4. rewrite Hp. by right.
      * intros id ch Hid Hch. apply (H6 id ch Hid). rewrite Hp. by right.
    + by apply (wf_pool w Hwf).
    + intros id Hid. by apply (wf_pool_ws w Hwf id c Hid).
  - cbn. assert (chans w !! fresh w = None) as Hnone.
    { destruct (chans w !! fresh w) eqn:Ef; [|done].
      assert (fresh w < fresh w)%nat; [|lia]. apply (wf_fresh w Hwf). by eexists. }
    set (w' := mkWM _ _ _ _ _ _).
    assert (∀ ch : nat, quiet w ch → quiet w' ch ∧ ch ≠ fresh w) as Hq
      by (intros; by apply quiet_insert_new).
    split_and!; try done.
    + destruct Hwf as [H1 H2 H3 H4 H5 H6 H7 H8]. constructor; cbn; try done.
      * intros id ch Hid. by apply Hq, (H3 id).
      * intros ch Hch. by apply Hq, H4.
      * intros ch Hch. destruct (decide (ch = fresh w)) as [->|]; [lia|].
        rewrite lookup_insert_ne in Hch by done. apply H7 in Hch. lia.
    + exists false. cbn. by rewrite lookup_insert_eq.
    + intros Hch. by destruct (Hq _ (wf_pool w Hwf _ Hch)) as [_ ?].
    + intros id Hid. by destruct (Hq _ (wf_ws w Hwf _ _ Hid)) as [_ ?].
Qed.

Lemma register_wf (choice : option nat) (w w' : WaiterManager) (id : Z) (ch : nat) :
  wf w → currentID w < 2 ^ 63 - 1 → register choice w = (w', (id, ch)) →
  wf w' ∧ id = currentID w + 1 ∧ ws w !! id = None ∧ ws w' = <[id := ch]> (ws w) ∧ quiet w' ch ∧
  currentID w' = id ∧ closed w' = closed w.
Proof.
  intros Hwf Hid. unfold register.
  rewrite signed_id by (pose proof (wf_current w Hwf); unfold in_signed; lia).
  destruct (pool_Get choice w) as [w1 c] eqn:E. intros [= <- <- <-]. cbn.
  destruct (pool_Get_wf choice w w1 c Hwf E) as (Hwf1 & Hws & Hcur & Hcl & Hq & Hp & Hnew).
  assert (ws w !! (currentID w + 1) = None) as Hnone.
  { destruct (ws w !! (currentID w + 1)) as [c'|] eqn:Ec; [|done].
    pose proof (wf_ids w Hwf _ _ Ec). lia. }
  split_and!; try done; [|by rewrite Hws].
  pose proof Hwf1 as [H1 H2 H3 H4 H5 H6 H7 H8]. rewrite Hws, Hcur in *.
  constructor; cbn; rewrite ?Hws; try done.
  - intros id ch. rewrite lookup_insert_Some. intros [[<- _]|[_ Hi]]; [lia|].
    pose proof (H1 id ch Hi). lia.
  - intros i j ch. rewrite !lookup_insert_Some.
    intros [[<- <-]|[? Hi]] [[<- ?]|[? Hj]]; subst; try done.
    + by destruct (Hnew j).
    + by destruct (Hnew i).
    + by apply (H2 i j ch).
  - intros id ch. rewrite lookup_insert_Some. intros [[_ <-]|[_ Hi]]; [done|by apply (H3 id)].
  - intros id ch. rewrite lookup_insert_Some. intros [[_ <-]|[_ Hi]]; [done|by apply (H6 id)].
  - lia.
Qed.

Lemma unregister_wf (id : Z) (w : WaiterManager) : wf w → wf (unregister id w).
Proof.
  intros Hwf. unfold unregister. destruct (ws w !! id) as [ch|] eqn:E; [|done].
  destruct Hwf as [H1 H2 H3 H4 H5 H6 H7 H8].
  constructor; cbn; try done.
  - intros i c [_ Hi]%lookup_delete_Some. by eapply H1.
  - intros i j c [_ Hi]%lookup_delete_Some [_ Hj]%lookup_delete_Some. by eapply H2.
  - intros i c [_ Hi]%lookup_delete_Some. by eapply H3.
  - intros c [->|Hc]%elem_of_cons; [by eapply H3|by apply H4].
  - apply NoDup_cons. split; [by eapply H6|done].
  - intros i c [Hne Hi]%lookup_delete_Some [->|Hc]%elem_of_cons; [|by eapply H6].
    by rewrite (H2 i id ch Hi E) in Hne.
Qed.

Lemma recv_wf (ch : nat) (w w' : WaiterManager) :
  wf w → recv ch w = Some w' → wf w' ∧ currentID w' = currentID w ∧ closed w' = closed w.
Proof.
  intros Hwf. unfold recv. destruct (chans w !! ch) as [[[] s]|] eqn:E; [|destruct s|];
    intros; simplify_eq; [|done].
  split; [|done].
  set (w' := set_ws_chans _ _ w).
  assert (∀ c : nat, quiet w c → quiet w' c) as Hq.
  { intros c (s' & Ec & Es). exists s'. split; [|done]. cbn.
    rewrite lookup_insert_ne; [done|]. intros ->. congruence. }
  destruct Hwf as [H1 H2 H3 H4 H5 H6 H7 H8]. constructor; cbn; try done.
  - intros i c Hi. apply Hq. by eapply H3.
  - intros c Hc. apply Hq. by apply H4.
  - intros c Hc. apply H7. destruct (decide (c = ch)) as [->|]; [by eexists|].
    by rewrite lookup_insert_ne in Hc.
Qed.

Lemma close_all_ok (order : list (Z * nat)) (cs : gmap nat channel) :
  NoDup order.*2 → (∀ ch : nat, ch ∈ order.*2 → cs !! ch = Some (mkChan false false)) →
  ∃ cs' : gmap nat channel,
    close_all order cs = Ok cs' ∧
    (∀ ch : nat, ch ∈ order.*2 → cs' !! ch = Some (mkChan false true)) ∧
    (∀ ch : nat, ch ∉ order.*2 → cs' !! ch = cs !! ch).
Proof.
  revert cs. induction order as [|[id ch] order IH]; intros cs Hnd Hq; cbn.
  { exists cs. split_and!; [done| |done]. by intros ? ?%not_elem_of_nil. }
  cbn in Hnd, Hq. apply NoDup_cons in Hnd as [Hch Hnd]. rewrite (Hq ch) by left. cbn.
  destruct (IH (<[ch := mkChan false true]> cs) Hnd) as (cs' & -> & Hin & Hout).
  { intros c Hc. rewrite lookup_insert_ne by (by intros ->). apply Hq. by right. }
  exists cs'. split_and!; [done|..].
  - intros c [->|Hc]%elem_of_cons; [|by apply Hin]. by rewrite Hout, lookup_insert_eq.
  - intros c [Hne Hc]%not_elem_of_cons. by rewrite Hout, lookup_insert_ne.
Qed.

Lemma Close_ok (range : gmap Z nat → list (Z * nat)) `{!RangeOrder range} (w : WaiterManager) :
  wf w → closed w = false →
  ∃ w' : WaiterManager, Close range w = Ok w' ∧ wf w' ∧ closed w' = true ∧ ws w' = ws w ∧
    currentID w' = currentID w ∧
    ∀ (id : Z) (ch : nat), ws w !! id = Some ch → chans w' !! ch = Some (mkChan false true).
Proof.
  intros Hwf Hc. unfold Close. pose proof (range_perm (range := range) (ws w)) as Ho.
  pose proof (NoDup_channels w _ Hwf Ho) as Hnd.
  assert (∀ ch : nat, ch ∈ (range (ws w)).*2 ↔ ∃ id : Z, ws w !! id = Some ch) as Hin.
  { intros ch. rewrite Ho, list_elem_of_fmap. split.
    - intros ([id c] & -> & Hid). exists id. by apply elem_of_map_to_list.
    - intros [id Hid]. exists (id, ch). by rewrite elem_of_map_to_list. }
  destruct (close_all_ok (range (ws w)) (chans w) Hnd) as (cs & -> & Hcl & Hop).
  { intros ch [id Hid]%Hin. destruct (wf_ws w Hwf id ch Hid) as (s & E & Es). by rewrite (Es Hc) in E. }
  cbn. set (w' := mkWM _ _ _ _ _ _). exists w'.
  assert (∀ ch : nat, quiet w ch → quiet w' ch) as Hq.
  { intros ch (s & E & _). destruct (decide (ch ∈ (range (ws w)).*2)) as [Hch|Hch].
    - exists true. split; [by apply Hcl|done].
    - exists s. cbn. by rewrite Hop. }
  split_and!; try done.
  - destruct Hwf as [H1 H2 H3 H4 H5 H6 H7 H8]. constructor; cbn; try done.
    + intros id ch Hid. apply Hq. by eapply H3.
    + intros ch Hch. apply Hq. by apply H4.
    + intros ch Hch. destruct (decide (ch ∈ (range (ws w)).*2)) as [Hin'|Hout].
      * apply Hin in Hin' as [id Hid]. destruct (H3 id ch Hid) as (s & E & _). apply H7. by eexists.
      * apply H7. by rewrite <- Hop.
  - intros id ch Hid. apply Hcl, Hin. by exists id.
Qed.

Lemma close_all_shut (order : list (Z * nat)) (cs : gmap nat channel) :
  order ≠ [] → (∀ ch : nat, ch ∈ order.*2 → cs !! ch = Some (mkChan false true)) →
  close_all order cs = Panics CloseOfClosedChannel.
Proof.
  destruct order as [|[id ch] order]; [done|]. intros _ H. cbn. by rewrite (H ch) by left.
Qed.

Lemma newWaiterManager_wf : wf newWaiterManager.
Proof.
  constructor; cbn; try done.
  - by intros ch ?%not_elem_of_nil.
  - apply NoDup_nil_2.
  - intros ch. rewrite lookup_empty. by intros [? ?].
Qed.

Lemma exec_ok (range : gmap Z nat → list (Z * nat)) `{!RangeOrder range} (o : op)
    (w : WaiterManager) :
  wf w → currentID w < 2 ^ 63 - 1 → (o = OClose → closed w = false) →
  ∃ w' : WaiterManager, exec range o w = Ok w' ∧ wf w' ∧ currentID w' ≤ currentID w + 1 ∧
    (closed w' = true → closed w = true ∨ o = OClose).
Proof.
  intros Hwf Hid Hcl. destruct o as [choice|id|n| |ch]; cbn -[notify Close register].
  - destruct (register choice w) as [w' [id ch]] eqn:E. exists w'. split; [done|].
    destruct (register_wf choice w w' id ch Hwf Hid E) as (? & -> & _ & _ & _ & -> & ->).
    split_and!; [done|lia|by left].
  - exists (unregister id w). split; [done|]. split; [by apply unregister_wf|].
    unfold unregister. destruct (ws w !! id); cbn; split; (lia || by left).
  - destruct (closed w) eqn:Ec.
    + exists w. unfold notify. rewrite decide_True by (by right). split_and!; [done..|lia|by left].
    + destruct (notify_ok range n w Hwf Ec) as (w' & woken & E & Hn). exists w'. split; [done|].
      split; [by eapply notified_wf|]. destruct Hn as (_ & _ & _ & _ & _ & _ & _ & -> & -> & _).
      split; [lia|]. rewrite Ec. by left.
  - destruct (Close_ok range w Hwf (Hcl eq_refl)) as (w' & E & Hwf' & _ & _ & Hc & _).
    exists w'. split_and!; [done..|lia|by right].
  - exists (default w (recv ch w)). split; [done|]. destruct (recv ch w) as [w'|] eqn:E; cbn.
    + destruct (recv_wf ch w w' Hwf E) as (? & -> & ->). split_and!; [done|lia|by left].
    + split_and!; [done|lia|by left].
Qed.

Lemma exec_all_ok (range : gmap Z nat → list (Z * nat)) `{!RangeOrder range} (os : list op)
    (w : WaiterManager) :
  wf w → currentID w + Z.of_nat (length os) < 2 ^ 63 →
  (closes os ≤ 1)%nat → (closed w = true → closes os = 0%nat) →
  ∃ w' : WaiterManager, exec_all range os w = Ok w' ∧ wf w'.
Proof.
  revert w. induction os as [|o os IH]; intros w Hwf Hid Hcs Hcl; [by exists w|].
  cbn [length] in Hid.
  destruct (exec_ok range o w Hwf) as (w1 & E & Hwf1 & Hid1 & Hcl1); [lia| |].
  { intros ->. destruct (closed w); [|done]. by specialize (Hcl eq_refl). }
  cbn [exec_all]. rewrite E. cbn -[exec_all]. apply IH; [done|lia| |].
  - destruct o; cbn in Hcs; lia.
  - intros [Hc| ->]%Hcl1; [specialize (Hcl Hc); destruct o; cbn in Hcl; lia|cbn in Hcs; lia].
Qed.

(** ** Properties *)

(** C15. A notification wakes exactly as many waiters as it can: in a
    well-formed open manager [notify] returns, without a send that blocks or
    panics, after waking the minimum of 64, the data size and the number of
    waiters; each woken waiter has one token in its own channel and is no
    longer registered, every other waiter stays registered with an empty
    channel, and the manager stays well-formed.  Although the constants of the
    code allow 1024 waiters in batches, 64 is the limit, because the total is
    the minimum of the two constants.  This holds for every order in which the
    map is visited. *)
Theorem notify_wakes_exactly (range : gmap Z nat → list (Z * nat)) (dataSize : Z)
    (w : WaiterManager) (Hrange : RangeOrder range) (Hwf : wf w) (Hopen : closed w = false) :
  ∃ (w' : WaiterManager) (woken : list Z),
    notify range dataSize w = Ok w' ∧ notified dataSize woken w w' ∧ wf w'.
Proof.
  destruct (notify_ok range dataSize w Hwf Hopen) as (w' & woken & E & Hn).
  exists w', woken. split_and!; [done..|]. by eapply notified_wf.
Qed.

(** The manager after three registrations. *)
Definition three_waiting : WaiterManager :=
  (register None (register None (register None newWaiterManager).1).1).1.

Lemma three_waiting_wf : wf three_waiting.
Proof.
  destruct (exec_all_ok map_to_list [ORegister None; ORegister None; ORegister None]
    newWaiterManager newWaiterManager_wf) as (w & [= <-] & H); cbn; (lia || done).
Qed.

Lemma notify_wakes_exactly_witness :
  ∃ (w' : WaiterManager) (woken : list Z),
    notify map_to_list 2 three_waiting = Ok w' ∧ notified 2 woken three_waiting w' ∧ wf w'.
Proof.
  apply (notify_wakes_exactly map_to_list 2 three_waiting map_to_list_RangeOrder three_waiting_wf).
  reflexivity.
Defined.

(** C16. No sequence of registrations, unregistrations, notifications, receives
    and at most one [Close] panics or fails to return: no send on a closed
    channel, no double close, and no channel is ever shared by two waiters or
    handed out from the pool while a waiter holds it or while it holds a
    token. *)
Theorem WaiterManager_safe (range : gmap Z nat → list (Z * nat)) (os : list op)
    (Hrange : RangeOrder range) (Hlen : Z.of_nat (length os) < 2 ^ 63)
    (Hclose : (closes os ≤ 1)%nat) :
  ∃ w : WaiterManager, exec_all range os newWaiterManager = Ok w ∧ wf w.
Proof. apply exec_all_ok; [done|apply newWaiterManager_wf|cbn; lia|done..]. Qed.

Lemma WaiterManager_safe_witness :
  ∃ w : WaiterManager,
    exec_all map_to_list
      [ORegister None; ORegister None; OUnregister 1; ORegister (Some 0%nat); ONotify 5;
       ORecv 0; OClose; ORegister None; ONotify 1] newWaiterManager = Ok w ∧ wf w.
Proof.
  apply (WaiterManager_safe map_to_list _ map_to_list_RangeOrder); cbn; lia.
Defined.

(** [Close] wakes every registered waiter and ends the manager: the channel
    of each waiter is closed, so its receive succeeds, later notifications do
    nothing, and a waiter that registers afterwards on a new channel is never
    woken by a notification.  A second [Close] panics if a waiter is still
    registered. *)
Theorem Close_wakes_all (range : gmap Z nat → list (Z * nat)) (w : WaiterManager)
    (Hrange : RangeOrder range) (Hwf : wf w) (Hopen : closed w = false) :
  ∃ w' : WaiterManager,
    Close range w = Ok w' ∧ wf w' ∧
    (∀ (id : Z) (ch : nat), ws w !! id = Some ch → recv ch w' = Some w') ∧
    (∀ n : Z, notify range n w' = Ok w') ∧
    (∀ (n : Z) (w2 : WaiterManager) (id : Z) (ch : nat), register None w' = (w2, (id, ch)) →
       notify range n w2 = Ok w2 ∧ recv ch w2 = None) ∧
    (ws w ≠ ∅ → Close range w' = Panics CloseOfClosedChannel).
Proof.
  destruct (Close_ok range w Hwf Hopen) as (w' & E & Hwf' & Hcl & Hws & _ & Hshut).
  exists w'. split; [done|]. split; [done|]. split_and!.
  - intros id ch Hid. unfold recv. by rewrite (Hshut id ch Hid).
  - intros n. unfold notify. by rewrite decide_True by (by right).
  - intros n w2 id ch [= <- <- <-]. split.
    + unfold notify. cbn. by rewrite decide_True by (by right).
    + unfold recv. cbn. by rewrite lookup_insert_eq.
  - intros Hne. unfold Close. pose proof (range_perm (range := range) (ws w')) as Ho.
    rewrite close_all_shut; [done| |].
    + intros E0. apply Hne. rewrite <- Hws. rewrite E0 in Ho.
      apply map_to_list_empty_iff. by apply Permutation_nil.
    + intros ch. rewrite Ho, list_elem_of_fmap, Hws. intros ([id c] & -> & Hid).
      apply elem_of_map_to_list in Hid. by apply (Hshut id).
Qed.

Lemma Close_wakes_all_witness :
  ∃ w' : WaiterManager,
    Close map_to_list three_waiting = Ok w' ∧ Close map_to_list w' = Panics CloseOfClosedChannel.
Proof.
  destruct (Close_wakes_all map_to_list three_waiting map_to_list_RangeOrder three_waiting_wf
    eq_refl) as (w' & E & _ & _ & _ & _ & H).
  exists w'. split; [exact E|]. apply H. discriminate.
Defined.
