(* ===== verification/BufferQueue.v ===== *)
(** * The buffer queue of [src/core/queue.go]

    A queue of buffers on a doubly linked list, with an eviction policy the
    caller supplies.  The list is an object the policy can be shown a pointer
    to, so lists live in a store; the policy is an interface, and the theorems
    hold for every policy or for every policy with a stated law.  The types
    [PolicyConfig] and [FixedThreshold] of the file have no operations. *)
From Stdlib Require Import SpecFloat.
From S2P Require Import Prelude.
From S2P Require Import Consts.
Open Scope Z_scope.
Open Scope go_scope.

(** ** Data *)

(** [src/core/component/queue.go]. *)
Record QueueItem := mkQueueItem { ID : Z; Buf : option nat; PushTime : Z }.

(** The lists of the program, by the identity of the list. *)
Abbreviation lists := (gmap nat (list QueueItem)).

Record EvictContext := mkEvictContext {
  QueueSize : Z;
  Queue : option nat;
  CurrentMemory : Z;
  CPUUsage : spec_float;
  LatencyP99 : Z
}.

Definition emptyContext : EvictContext := mkEvictContext 0 None 0 (S754_zero false) 0.

(** The interface [EvictPolicy]: both methods may change the policy's own
    state; [Evict] has no arguments, so it can only reach a list the policy
    was shown before.  [Name] and [Metrics] are not called. *)
Class EvictPolicy (P : Type) := {
  ShouldEvict : EvictContext → lists → P → P * bool;
  Evict : lists → P → P * lists * Z
}.

Section queue.
  Context {P : Type} `{!EvictPolicy P}.

Record BufferQueue := mkBQ {
  q : nat;                 (** the current list *)
  ep : P;
  evictCount : Z;
  maxSize : Z;
  enableAutoEvict : bool;
  stop_closed : bool;
  state : Z;
  store : lists;
  fresh : nat
}.

Definition NewBufferQueue (p : P) (max : Z) (auto : bool) : BufferQueue :=
  mkBQ 0 p 0 max auto false 0 {[ 0%nat := [] ]} 1.

(** The elements of the current list. *)
Definition elems (b : BufferQueue) : list QueueItem := default [] (store b !! q b).

Definition set_elems (l : list QueueItem) (b : BufferQueue) : BufferQueue :=
  mkBQ (q b) (ep b) (evictCount b) (maxSize b) (enableAutoEvict b) (stop_closed b) (state b)
    (<[q b := l]> (store b)) (fresh b).

Definition set_policy (p : P) (m : lists) (n : Z) (b : BufferQueue) : BufferQueue :=
  mkBQ (q b) p n (maxSize b) (enableAutoEvict b) (stop_closed b) (state b) m (fresh b).

(** ** Operations *)

Definition len (b : BufferQueue) : Z := Z.of_nat (length (elems b)).

(** [if q.ep.ShouldEvict(ctx) { evictNum := q.ep.Evict(); q.evictCount +=
    evictNum }]. *)
Definition evict_if (ctx : EvictContext) (b : BufferQueue) : BufferQueue :=
  let (p, yes) := ShouldEvict ctx (store b) (ep b) in
  if yes then
    let '(p, m, evictNum) := Evict (store b) p in
    set_policy p m (int64 (evictCount b + evictNum)) b
  else set_policy p (store b) (evictCount b) b.

Definition PushBack (s : QueueItem) (b : BufferQueue) : BufferQueue :=
  set_elems (elems b ++ [s]) b.

Definition Push (s : QueueItem) (b : BufferQueue) : BufferQueue * option error :=
  if decide (state b = 1) then (b, Some ErrQueueClosed)
  else if decide (len b < maxSize b) then (PushBack s b, None)
  else (PushBack s (evict_if emptyContext b), None).

Definition Pick (b : BufferQueue) : BufferQueue * (option QueueItem * option error) :=
  if decide (state b = 1) then (b, (None, Some ErrQueueClosed))
  else
    match elems b with
    | [] => (b, (None, Some ErrQueueEmpty))
    | e :: l => (set_elems l b, (Some e, None))
    end.

Definition SetEvictPolicy (p : P) (b : BufferQueue) : BufferQueue :=
  set_policy p (store b) (evictCount b) b.

Definition Reset (b : BufferQueue) : BufferQueue :=
  mkBQ (fresh b) (ep b) 0 (maxSize b) (enableAutoEvict b) (stop_closed b) (state b)
    (<[fresh b := []]> (store b)) (S (fresh b)).

(** One tick of [autoEvict].  The context is built from the list pointer the
    goroutine read before it took the lock. *)
Definition autoEvict_tick (list_seen : nat) (b : BufferQueue) : BufferQueue :=
  evict_if (mkEvictContext 0 (Some list_seen) 0 (S754_zero false) 0) b.

Definition Close (b : BufferQueue) : result BufferQueue :=
  if decide (state b ≠ 0) then Ok b
  else if stop_closed b then Panics CloseOfClosedChannel
  else
    Ok (mkBQ (q b) (ep b) (evictCount b) (maxSize b) (enableAutoEvict b) true 1 (store b) (fresh b)).

(** ** Runs *)

Inductive op :=
  | OPush (s : QueueItem)
  | OPick
  | OLen
  | OSetPolicy (p : P)
  | OReset
  | OTick (list_seen : nat)
  | OClose.

Inductive output :=
  | VErr (e : option error)
  | VItem (i : option QueueItem) (e : option error)
  | VInt (n : Z)
  | VUnit.

Definition exec (o : op) (b : BufferQueue) : result (BufferQueue * output) :=
  match o with
  | OPush s => let (b, e) := Push s b in Ok (b, VErr e)
  | OPick => let '(b, (i, e)) := Pick b in Ok (b, VItem i e)
  | OLen => Ok (b, VInt (len b))
  | OSetPolicy p => Ok (SetEvictPolicy p b, VUnit)
  | OReset => Ok (Reset b, VUnit)
  | OTick l => Ok (autoEvict_tick l b, VUnit)
  | OClose => let* b := Close b in Ok (b, VUnit)
  end.

Fixpoint exec_all (os : list op) (b : BufferQueue) : result (BufferQueue * list output) :=
  match os with
  | [] => Ok (b, [])
  | o :: os =>
      let* (b, v) := exec o b in
      let* (b, vs) := exec_all os b in
      Ok (b, v :: vs)
  end.

(** ** The abstract queue: no bound, and closed for good once closed *)

Record fifo := mkFifo { items : list QueueItem; shut : bool }.

Definition spec_exec (o : op) (s : fifo) : fifo * output :=
  match o with
  | OPush x =>
      if shut s then (s, VErr (Some ErrQueueClosed))
      else (mkFifo (items s ++ [x]) false, VErr None)
  | OPick =>
      if shut s then (s, VItem None (Some ErrQueueClosed))
      else match items s with
           | [] => (s, VItem None (Some ErrQueueEmpty))
           | x :: l => (mkFifo l false, VItem (Some x) None)
           end
  | OLen => (s, VInt (Z.of_nat (length (items s))))
  | OReset => (mkFifo [] (shut s), VUnit)
  | OSetPolicy _ | OTick _ => (s, VUnit)
  | OClose => (mkFifo (items s) true, VUnit)
  end.

Fixpoint spec_all (os : list op) (s : fifo) : fifo * list output :=
  match os with
  | [] => (s, [])
  | o :: os =>
      let (s, v) := spec_exec o s in
      let (s, vs) := spec_all os s in
      (s, v :: vs)
  end.

(** A policy that removes nothing. *)
Class InertPolicy : Prop :=
  evict_inert (m : lists) (p : P) : (Evict m p).1.2 = m.

(** ** Lemmas *)

(** The current list exists and the next list is new. *)
Record wf (b : BufferQueue) : Prop := {
  wf_state : state b = 0 ∨ state b = 1;
  wf_stop : stop_closed b = true ↔ state b = 1;
  wf_q : is_Some (store b !! q b)
}.

Definition sim (b : BufferQueue) (s : fifo) : Prop :=
  wf b ∧ elems b = items s ∧ (shut s = true ↔ state b = 1).

Lemma elems_set_elems (l : list QueueItem) (b : BufferQueue) : elems (set_elems l b) = l.
Proof. unfold elems; cbn. by rewrite lookup_insert_eq. Qed.

Lemma set_elems_wf (l : list QueueItem) (b : BufferQueue) : wf b → wf (set_elems l b).
Proof. intros [H1 H2 H3]. constructor; cbn; [done|done|]. rewrite lookup_insert_eq. by eexists. Qed.

Lemma evict_if_fields (ctx : EvictContext) (b : BufferQueue) :
  q (evict_if ctx b) = q b ∧ state (evict_if ctx b) = state b ∧
  stop_closed (evict_if ctx b) = stop_closed b ∧ maxSize (evict_if ctx b) = maxSize b.
Proof.
  unfold evict_if. destruct (ShouldEvict _ _ _) as [p [|]]; [|done].
  by destruct (Evict _ _) as [[p' m] n].
Qed.

Lemma evict_if_inert `{!InertPolicy} (ctx : EvictContext) (b : BufferQueue) :
  store (evict_if ctx b) = store b.
Proof.
  unfold evict_if. destruct (ShouldEvict _ _ _) as [p [|]]; [|done].
  pose proof (evict_inert (store b) p) as He. by destruct (Evict _ _) as [[p' m] n].
Qed.

Lemma evict_if_sim `{!InertPolicy} (ctx : EvictContext) (b : BufferQueue) (s : fifo) :
  sim b s → sim (evict_if ctx b) s.
Proof.
  intros ([H1 H2 H3] & He & Hs). destruct (evict_if_fields ctx b) as (Hq & Hst & Hstop & _).
  pose proof (evict_if_inert ctx b) as Hstore. split; [|split].
  - constructor; by rewrite ?Hq, ?Hst, ?Hstop, ?Hstore.
  - unfold elems. by rewrite Hq, Hstore.
  - by rewrite Hst.
Qed.

Lemma PushBack_sim (x : QueueItem) (b : BufferQueue) (s : fifo) :
  sim b s → shut s = false → sim (PushBack x b) (mkFifo (items s ++ [x]) false).
Proof.
  intros (Hwf & He & Hs) Hsh. rewrite Hsh in Hs. unfold PushBack. split; [by apply set_elems_wf|].
  split; [|done]. rewrite elems_set_elems. by rewrite He.
Qed.

Lemma BufferQueue_exec_sim `{!InertPolicy} (o : op) (b : BufferQueue) (s : fifo) :
  sim b s →
  ∃ b' : BufferQueue, exec o b = Ok (b', (spec_exec o s).2) ∧ sim b' (spec_exec o s).1.
Proof.
  intros Hsim. pose proof Hsim as (Hwf & He & Hs). destruct (wf_state b Hwf) as [Hst|Hst].
  - assert (shut s = false) as Hsh by (destruct (shut s); [|done]; destruct Hs as [Hs _]; specialize (Hs eq_refl); lia).
    destruct o as [x| | |p| |l|]; cbn; rewrite ?Hsh.
    + unfold Push. rewrite decide_False by lia. case_decide.
      * eexists. split; [done|]. by apply PushBack_sim.
      * eexists. split; [done|]. apply PushBack_sim; [|done]. by apply evict_if_sim.
    + unfold Pick. rewrite decide_False, He by lia. destruct (items s) as [|x l] eqn:Ei; cbn.
      * exists b. split; [done|]. unfold sim. by rewrite Ei.
      * eexists. split; [done|]. split; [by apply set_elems_wf|]. rewrite elems_set_elems.
        split; [done|]. by rewrite Hsh in Hs.
    + exists b. unfold len. by rewrite He.
    + eexists. split; [done|]. split; [|done]. destruct Hwf; by constructor.
    + eexists. split; [done|]. split; [|split; [|by rewrite Hsh in Hs]].
      * destruct Hwf. constructor; cbn; [done..|]. rewrite lookup_insert_eq. by eexists.
      * unfold elems; cbn. by rewrite lookup_insert_eq.
    + eexists. split; [done|]. by apply evict_if_sim.
    + unfold Close. rewrite decide_False by lia. destruct (stop_closed b) eqn:E.
      * exfalso. assert (state b = 1) by (by apply (wf_stop b Hwf)). lia.
      * eexists. split; [done|]. split; [|done]. destruct Hwf. constructor; cbn; [by right|done|done].
  - assert (shut s = true) as Hsh by (by apply Hs).
    destruct o as [x| | |p| |l|]; cbn; rewrite ?Hsh.
    + unfold Push. rewrite decide_True by done. by exists b.
    + unfold Pick. rewrite decide_True by done. by exists b.
    + exists b. unfold len. by rewrite He.
    + eexists. split; [done|]. split; [|done]. destruct Hwf; by constructor.
    + eexists. split; [done|]. split; [|split; [|by rewrite Hsh in Hs]].
      * destruct Hwf. constructor; cbn; [done..|]. rewrite lookup_insert_eq. by eexists.
      * unfold elems; cbn. by rewrite lookup_insert_eq.
    + eexists. split; [done|]. by apply evict_if_sim.
    + unfold Close. rewrite decide_True by lia. exists b. split; [done|]. by rewrite Hsh in Hs.
Qed.
End queue.

(** ** Properties *)

Section runs.
  Context {P : Type} `{!EvictPolicy P, !InertPolicy (P := P)}.

Lemma BufferQueue_exec_all_sim (os : list (op (P := P))) (b : BufferQueue) (s : fifo) :
  sim b s →
  ∃ b' : BufferQueue, exec_all os b = Ok (b', (spec_all os s).2) ∧ sim b' (spec_all os s).1.
Proof.
  revert b s. induction os as [|o os IH]; intros b s Hsim; cbn; [by exists b|].
  destruct (BufferQueue_exec_sim o b s Hsim) as (b1 & -> & Hsim1). cbn.
  destruct (spec_exec o s) as [s1 v]; cbn in *.
  destruct (IH b1 s1 Hsim1) as (b2 & -> & Hsim2). cbn.
  destruct (spec_all os s1) as [s2 vs]. by exists b2.
Qed.
End runs.

Lemma NewBufferQueue_sim {P : Type} `{!EvictPolicy P} (p : P) (max : Z) (auto : bool) :
  sim (NewBufferQueue p max auto) (mkFifo [] false).
Proof. split; [|done]. constructor; cbn; [by left|done|by eexists]. Qed.

(** C20. With a policy that removes nothing, the buffer queue is an unbounded
    FIFO queue that is closed at most once: every run of pushes, picks, resets,
    policy changes, eviction ticks and closes returns the results of the
    abstract queue and ends with its contents.  In particular [maxSize] bounds
    nothing: a push to a full queue is stored too, and no push reports a full
    queue. *)
Theorem BufferQueue_refines_unbounded_fifo {P : Type} `(EvictPolicy P)
    (p : P) (max : Z) (auto : bool) (os : list (op (P := P)))
    (Hinert : InertPolicy (P := P)) :
  ∃ b : BufferQueue,
    exec_all os (NewBufferQueue p max auto) = Ok (b, (spec_all os (mkFifo [] false)).2) ∧
    elems b = items (spec_all os (mkFifo [] false)).1.
Proof.
  destruct (BufferQueue_exec_all_sim os _ _ (NewBufferQueue_sim p max auto)) as (b & E & _ & Hb & _).
  by exists b.
Qed.

(** A policy that always asks for an eviction and evicts nothing. *)
Definition eager_but_idle : EvictPolicy unit := {|
  ShouldEvict := λ _ _ p, (p, true);
  Evict := λ m p, (p, m, 0)
|}.

Lemma BufferQueue_refines_unbounded_fifo_witness :
  let x i := mkQueueItem i None 0 in
  ∃ b : @BufferQueue unit,
    @exec_all unit eager_but_idle [OPush (x 1); OPush (x 2); OPush (x 3); OPick; OClose; OPick]
      (NewBufferQueue tt 2 false) =
      Ok (b, [VErr None; VErr None; VErr None; VItem (Some (x 1)) None; VUnit;
              VItem None (Some ErrQueueClosed)]) ∧
    elems b = [x 2; x 3].
Proof.
  intros x. apply (BufferQueue_refines_unbounded_fifo eager_but_idle tt 2 false
    [OPush (x 1); OPush (x 2); OPush (x 3); OPick; OClose; OPick]).
  intros m p. reflexivity.
Defined.

(** Whatever the policy does, a push to an open queue succeeds and leaves
    its item at the back of the queue, also when the queue is at its maximum
    size, while a closed queue refuses pushes and picks without consulting the
    policy, and closing it again does nothing. *)
Theorem BufferQueue_push_never_refuses {P : Type} `(EvictPolicy P) (b : @BufferQueue P)
    (x : QueueItem) (Hwf : wf b) :
  (state b = 0 → (Push x b).2 = None ∧ last (elems (Push x b).1) = Some x) ∧
  (∃ b' : BufferQueue, Close b = Ok b' ∧ Close b' = Ok b' ∧
     Push x b' = (b', Some ErrQueueClosed) ∧ Pick b' = (b', (None, Some ErrQueueClosed))).
Proof.
  split.
  - intros Hst. unfold Push. rewrite decide_False by lia. unfold PushBack.
    case_decide; cbn; rewrite elems_set_elems; by rewrite last_snoc.
  - destruct (wf_state b Hwf) as [Hst|Hst]; unfold Close.
    + rewrite decide_False by lia. destruct (stop_closed b) eqn:E.
      * exfalso. assert (state b = 1) by (by apply (wf_stop b Hwf)). lia.
      * by eexists.
    + rewrite decide_True by lia. exists b. split; [done|]. rewrite decide_True by lia.
      unfold Push, Pick. by rewrite !decide_True by done.
Qed.

(** A policy that keeps the list it was shown and drops its front. *)
Definition drop_front : EvictPolicy (option nat) := {|
  ShouldEvict := λ ctx _ p, (match Queue ctx with Some l => Some l | None => p end, true);
  Evict := λ m p,
    match p with
    | Some l => (p, alter tail l m, 1)
    | None => (p, m, 0)
    end
|}.

Lemma BufferQueue_push_never_refuses_witness :
  let x i := mkQueueItem i None 0 in
  let b := @PushBack (option nat) (x 1) (NewBufferQueue (Some 0%nat) 1 true) in
  (@Push _ drop_front (x 2) b).2 = None ∧ last (elems (@Push _ drop_front (x 2) b).1) = Some (x 2).
Proof.
  intros x b. apply (BufferQueue_push_never_refuses drop_front b (x 2)); [|reflexivity].
  split; [left; reflexivity|split; discriminate|].
  exists [x 1]. reflexivity.
Defined.
