(* ===== verification/MediumPool.v ===== *)
(** * The medium object pool of [src/pools/life_cycle.go]

    The time at which each medium-sized object was registered, by address.
    Every method holds the pool's lock from its first to its last statement.
    The field [stop] is never used and left out. *)
From S2P Require Import Prelude.
From S2P Require Import Runtime.
Open Scope Z_scope.

(** ** Data and operations *)

Definition mediumPoolTTL : Z := 2 * minute.

Record MediumPool := mkMediumPool { cache : gmap Z Z }.

Definition Put (ptr t : Z) (m : MediumPool) : MediumPool :=
  mkMediumPool (<[ptr := t]> (cache m)).

Definition IsValid (now ptr : Z) (m : MediumPool) : bool :=
  match cache m !! ptr with
  | None => false
  | Some t => bool_decide (since now t < mediumPoolTTL)
  end.

Definition Release (ptr : Z) (m : MediumPool) : MediumPool :=
  mkMediumPool (delete ptr (cache m)).

Definition maxCleanCounts : nat := 200.

(** [clock i] is the reading of the clock at the [i]-th entry visited and
    [order] the order in which the map is visited. *)
Definition cleanup (clock : nat → Z) (order : list (Z * Z)) (m : MediumPool) : MediumPool :=
  if decide (size (cache m) = 0%nat) then m
  else
    mkMediumPool
      (sweep (λ i t, bool_decide (minute < since (clock i) t)) maxCleanCounts 0 order (cache m) 0).

(** ** Properties *)

Lemma MediumPool_cleanup_ok (clock : nat → Z) (order : list (Z * Z)) (m : MediumPool)
    (start stop : Z) :
  order ≡ₚ map_to_list (cache m) → (∀ i : nat, start ≤ clock i ≤ stop) →
  let m' := cleanup clock order m in
  cache m' ⊆ cache m ∧
  (∀ p t : Z, cache m !! p = Some t → cache m' !! p = None → minute < since stop t) ∧
  (size (cache m) ≤ size (cache m') + 201)%nat ∧
  ((size (cache m) = size (cache m') + 201)%nat ∨
   ∀ p t : Z, cache m' !! p = Some t → since start t ≤ minute).
Proof.
  intros Horder Hclock.
  unfold cleanup. case_decide as Hs.
  { apply map_size_empty_inv in Hs. split; [done|]. rewrite Hs. split; [done|].
    split; [lia|]. right. by intros p t. }
  cbn [cache]. set (test := λ (i : nat) (t : Z), bool_decide (minute < since (clock i) t)).
  destruct (sweep_spec test maxCleanCounts 0 0 order (cache m)) as (Hsub & Hrem & n & Hsize & Hn & Hrest).
  - rewrite Horder. apply NoDup_fst_map_to_list.
  - intros k v Hk. rewrite Horder in Hk. by apply elem_of_map_to_list.
  - unfold maxCleanCounts. lia.
  - unfold maxCleanCounts in *. split; [done|]. split; [|split; [lia|]].
    + intros p t Hp Hd. destruct (Hrem p t Hp Hd) as (_ & j & Hj).
      apply bool_decide_eq_true in Hj. specialize (Hclock j). unfold since in *. lia.
    + destruct Hrest as [?|Hrest]; [left; lia|right]. intros p t Hp.
      destruct (Hrest p t) as [j Hj]; [|done|].
      { rewrite Horder, elem_of_map_to_list. by eapply lookup_weaken. }
      apply bool_decide_eq_false in Hj. specialize (Hclock j). unfold since in *. lia.
Qed.

(** A cleanup removes only entries registered more than a minute ago,
    changes none of the others and adds none; it removes at most 201 of them,
    and unless it stops at that number every entry it leaves was registered
    at most a minute before the cleanup began. This holds for every order in
    which the map is visited and every clock that runs between [start] and
    [stop] during the call. *)
Theorem MediumPool_cleanup_removes_stale (clock : nat → Z) (order : list (Z * Z)) (m : MediumPool)
    (start stop : Z)
    (Horder : order ≡ₚ map_to_list (cache m))
    (Hclock : ∀ i : nat, start ≤ clock i ≤ stop) :
  let m' := cleanup clock order m in
  cache m' ⊆ cache m ∧
  (∀ p t : Z, cache m !! p = Some t → cache m' !! p = None → minute < since stop t) ∧
  (size (cache m) ≤ size (cache m') + 201)%nat ∧
  ((size (cache m) = size (cache m') + 201)%nat ∨
   ∀ p t : Z, cache m' !! p = Some t → since start t ≤ minute).
Proof. by apply MediumPool_cleanup_ok. Qed.

Lemma MediumPool_cleanup_removes_stale_witness :
  let m := mkMediumPool (<[8 := 0]> (<[16 := 100 * second]> ∅)) in
  let m' := cleanup (λ _, 120 * second) (map_to_list (cache m)) m in
  map_to_list (cache m') = [(16, 100 * second)] ∧ cache m' ⊆ cache m.
Proof.
  split; [reflexivity|].
  eapply (MediumPool_cleanup_removes_stale (λ _, 120 * second) _ _ (120 * second) (120 * second)).
  - reflexivity.
  - intros i. vm_compute. split; discriminate.
Defined.

(** The time to live is not the age at which entries go: an object that
    [IsValid] accepts because it is younger than two minutes is dropped by a
    cleanup that runs at the same moment once it is older than one. *)
Theorem MediumPool_cleanup_drops_valid (ptr t now : Z)
    (Hage : minute < now - t < mediumPoolTTL) :
  let m := Put ptr t (mkMediumPool ∅) in
  IsValid now ptr m = true ∧
  ∀ order : list (Z * Z), order ≡ₚ map_to_list (cache m) →
    IsValid now ptr (cleanup (λ _, now) order m) = false.
Proof.
  cbv zeta. unfold mediumPoolTTL, minute, second in *.
  split.
  - unfold IsValid, Put, mediumPoolTTL, minute, second. cbn [cache].
    rewrite lookup_insert_eq. apply bool_decide_eq_true. unfold since. lia.
  - intros order Ho. unfold IsValid.
    destruct (cache (cleanup _ _ _) !! ptr) as [t'|] eqn:E; [|done].
    destruct (MediumPool_cleanup_ok (λ _, now) order (Put ptr t (mkMediumPool ∅)) now now Ho)
      as (Hsub & _ & _ & Hrest); [intros; lia|].
    exfalso. destruct Hrest as [Hsz|Hrest].
    + unfold Put in Hsz. cbn [cache] in Hsz. rewrite map_size_insert_None, map_size_empty in Hsz by done.
      lia.
    + pose proof (Hrest _ _ E). pose proof (lookup_weaken _ _ _ _ E Hsub) as Hl.
      unfold Put in Hl. cbn [cache] in Hl. rewrite lookup_insert_eq in Hl. simplify_eq.
      unfold since, minute, second in *. lia.
Qed.

Lemma MediumPool_cleanup_drops_valid_witness :
  let m := Put 8 0 (mkMediumPool ∅) in
  IsValid (90 * second) 8 m = true ∧
  ∀ order : list (Z * Z), order ≡ₚ map_to_list (cache m) →
    IsValid (90 * second) 8 (cleanup (λ _, 90 * second) order m) = false.
Proof. apply MediumPool_cleanup_drops_valid. vm_compute. split; reflexivity. Defined.
