(* ===== verification/BigDataPool.v ===== *)
(** * The large object pool of [src/pools/life_cycle.go]

    Reference counts of large objects, by address.  Every method holds the
    pool's lock from its first to its last statement.  The call of
    [runtime.SetFinalizer] in [Free] clears a finalizer the program never
    sets; it has no effect on the state and is left out. *)
From S2P Require Import Prelude.
From S2P Require Import Runtime.
Open Scope Z_scope.

(** ** Data and operations *)

Record BigDataEntry := mkEntry {
  esize : Z;   (** data size *)
  owner : Z;   (** original data reference *)
  ref : Z      (** data reference counter *)
}.

Record BigDataPool := mkBigDataPool {
  pool : gmap Z BigDataEntry;
  currentSize : Z;
  maxSize : Z
}.

Definition NewBigDataPool (max : Z) : BigDataPool := mkBigDataPool ∅ 0 max.

Definition maxCleanCounts : nat := 200.

Definition cleanup (order : list (Z * BigDataEntry)) (b : BigDataPool) : BigDataPool :=
  if decide (size (pool b) = 0%nat) then b
  else
    mkBigDataPool (sweep (λ _ bd, bool_decide (ref bd = 0)) maxCleanCounts 0 order (pool b) 0)
      (currentSize b) (maxSize b).

Definition Put (ptr n : Z) (b : BigDataPool) : BigDataPool :=
  mkBigDataPool (<[ptr := mkEntry n ptr 1]> (pool b)) (int64 (currentSize b + n)) (maxSize b).

Definition Release (ptr : Z) (b : BigDataPool) : BigDataPool :=
  match pool b !! ptr with
  | None => b
  | Some entry =>
      let entry := mkEntry (esize entry) (owner entry) (int64 (ref entry - 1)) in
      mkBigDataPool (<[ptr := entry]> (pool b)) (currentSize b) (maxSize b)
  end.

Definition Free (ptr n : Z) (b : BigDataPool) : BigDataPool :=
  match pool b !! ptr with
  | Some _ => mkBigDataPool (delete ptr (pool b)) (int64 (currentSize b - n)) (maxSize b)
  | None => b
  end.

(** ** Accounting *)

(** The sizes of the entries, summed. *)
Definition total (m : gmap Z BigDataEntry) : Z := map_fold (λ _ e acc, esize e + acc) 0 m.

Inductive op :=
  | OPut (ptr n : Z)
  | ORelease (ptr : Z)
  | OFree (ptr n : Z)
  | OCleanup (order : list (Z * BigDataEntry)).

Definition exec (o : op) (b : BigDataPool) : BigDataPool :=
  match o with
  | OPut ptr n => Put ptr n b
  | ORelease ptr => Release ptr b
  | OFree ptr n => Free ptr n b
  | OCleanup order => cleanup order b
  end.

(** How a caller uses the pool: it registers addresses that are not registered
    and frees an address with the size it registered it with; a cleanup visits
    the map's entries in some order. *)
Definition proper (o : op) (b : BigDataPool) : Prop :=
  match o with
  | OPut ptr _ => pool b !! ptr = None
  | ORelease _ => True
  | OFree ptr n => ∀ e : BigDataEntry, pool b !! ptr = Some e → esize e = n
  | OCleanup order => order ≡ₚ map_to_list (pool b)
  end.

(** A run of proper operations; [swept] sums the sizes of what the cleanups
    took out. *)
Inductive run : BigDataPool → Z → Prop :=
  | run_new (max : Z) : run (NewBigDataPool max) 0
  | run_op (b : BigDataPool) (swept : Z) (o : op) :
      run b swept → proper o b → (if o is OCleanup _ then False else True) →
      run (exec o b) swept
  | run_cleanup (b : BigDataPool) (swept : Z) (order : list (Z * BigDataEntry)) :
      run b swept → proper (OCleanup order) b →
      run (cleanup order b) (swept + (total (pool b) - total (pool (cleanup order b)))).

(** ** Lemmas *)

Lemma total_insert (m : gmap Z BigDataEntry) (p : Z) (e : BigDataEntry) :
  m !! p = None → total (<[p := e]> m) = esize e + total m.
Proof.
  intros H. unfold total. rewrite map_fold_insert_L; [done| |done]. intros; lia.
Qed.

Lemma total_delete (m : gmap Z BigDataEntry) (p : Z) (e : BigDataEntry) :
  m !! p = Some e → total m = esize e + total (delete p m).
Proof.
  intros H. rewrite <- (total_insert (delete p m) p e) by apply lookup_delete_eq.
  by rewrite insert_delete_id.
Qed.

Lemma total_update (m : gmap Z BigDataEntry) (p : Z) (e e' : BigDataEntry) :
  m !! p = Some e → esize e' = esize e → total (<[p := e']> m) = total m.
Proof.
  intros H E. rewrite (total_delete m p e H), <- E.
  rewrite <- (total_insert (delete p m) p e') by apply lookup_delete_eq.
  by rewrite insert_delete_eq.
Qed.

Lemma BigDataPool_cleanup_ok (order : list (Z * BigDataEntry)) (b : BigDataPool) :
  order ≡ₚ map_to_list (pool b) →
  let b' := cleanup order b in
  pool b' ⊆ pool b ∧ currentSize b' = currentSize b ∧
  (∀ (p : Z) (e : BigDataEntry), pool b !! p = Some e → pool b' !! p = None → ref e = 0) ∧
  ((size (pool b) = size (pool b') + 201)%nat ∨
   ∀ (p : Z) (e : BigDataEntry), pool b' !! p = Some e → ref e ≠ 0).
Proof.
  intros Horder. unfold cleanup. case_decide as Hs.
  { apply map_size_empty_inv in Hs. rewrite Hs. split_and!; [done..|]. right. by intros p t. }
  cbn [pool currentSize].
  set (test := λ (_ : nat) (bd : BigDataEntry), bool_decide (ref bd = 0)).
  destruct (sweep_spec test maxCleanCounts 0 0 order (pool b)) as (Hsub & Hrem & n & Hsize & Hn & Hrest).
  - rewrite Horder. apply NoDup_fst_map_to_list.
  - intros k v Hk. rewrite Horder in Hk. by apply elem_of_map_to_list.
  - unfold maxCleanCounts. lia.
  - unfold maxCleanCounts in *. split_and!; [done|done| |].
    + intros p e Hp Hd. destruct (Hrem p e Hp Hd) as (_ & j & Hj).
      by apply bool_decide_eq_true in Hj.
    + destruct Hrest as [?|Hrest]; [left; lia|right]. intros p e Hp.
      destruct (Hrest p e) as [j Hj]; [|done|].
      { rewrite Horder, elem_of_map_to_list. by eapply lookup_weaken. }
      by apply bool_decide_eq_false in Hj.
Qed.

Lemma run_total (b : BigDataPool) (swept : Z) :
  run b swept → currentSize b = int64 (total (pool b) + swept).
Proof.
  induction 1 as [max|b swept o Hr IH Hp Hno|b swept order Hr IH Hp].
  - done.
  - destruct o as [p n|p|p n|order]; cbn in *; [| | |done].
    + rewrite total_insert by done. cbn. rewrite IH, signed_idemp_add_l. f_equal. lia.
    + unfold Release. destruct (pool b !! p) as [e|] eqn:E; [|done]. cbn.
      by rewrite (total_update _ _ e).
    + unfold Free. destruct (pool b !! p) as [e|] eqn:E; [|done]. cbn.
      rewrite IH. unfold Z.sub. rewrite signed_idemp_add_l.
      rewrite (total_delete _ _ _ E), (Hp e eq_refl). f_equal. lia.
  - destruct (BigDataPool_cleanup_ok order b Hp) as (_ & -> & _). rewrite IH. f_equal. lia.
Qed.

(** The size account of the large object pool drifts by exactly what the
    cleanups remove: in every state reached by proper calls, [currentSize] is
    the sum of the sizes of the registered objects plus the sizes of all
    objects a cleanup has taken out, because [cleanup] deletes entries without
    subtracting them. *)
Theorem BigDataPool_account_drifts (b : BigDataPool) (swept : Z) (Hrun : run b swept) :
  currentSize b = int64 (total (pool b) + swept).
Proof. by apply run_total. Qed.

(** One large object that is registered, released and swept: nothing is left
    in the pool, but its size is still on the account. *)
Lemma BigDataPool_account_drifts_witness :
  let b := Release 8 (Put 8 40000 (NewBigDataPool 0)) in
  pool (cleanup (map_to_list (pool b)) b) = ∅ ∧
  currentSize (cleanup (map_to_list (pool b)) b) = 40000.
Proof.
  intros b. split; [reflexivity|].
  transitivity (int64 (total (pool (cleanup (map_to_list (pool b)) b)) + 40000)); [|reflexivity].
  apply (BigDataPool_account_drifts (cleanup (map_to_list (pool b)) b) 40000).
  apply (run_cleanup b 0); [|apply (Permutation_refl (map_to_list (pool b)))].
  apply (run_op (Put 8 40000 (NewBigDataPool 0)) 0 (ORelease 8)); [|exact I|exact I].
  apply (run_op (NewBigDataPool 0) 0 (OPut 8 40000)); [|reflexivity|exact I].
  apply run_new.
Defined.

(** ** The reference counter *)

Lemma release_iter (k : nat) (ptr n : Z) (b : BigDataPool) :
  (Z.of_nat k < 2 ^ 63) →
  pool (Nat.iter k (Release ptr) (Put ptr n b)) !! ptr = Some (mkEntry n ptr (1 - Z.of_nat k)).
Proof.
  induction k as [|k IH]; intros Hk.
  - cbn. by rewrite lookup_insert_eq.
  - rewrite Nat.iter_succ. unfold Release at 1. rewrite IH by lia. cbn.
    rewrite lookup_insert_eq. do 2 f_equal. rewrite signed_id; [lia|lia|unfold in_signed; lia].
Qed.

(** A large object is reclaimed by the background cleanup exactly when it
    has been released once since it was registered: without a release its
    counter is 1, and a second release makes it negative, which no cleanup
    removes, in whatever order it visits the pool; with exactly one release it
    is removed unless the cleanup stops at its limit of 201 entries first. *)
Theorem BigDataPool_reclaimed_once_released (k : nat) (ptr n : Z) (b : BigDataPool)
    (order : list (Z * BigDataEntry)) (Hk : Z.of_nat k < 2 ^ 63)
    (Horder : order ≡ₚ map_to_list (pool (Nat.iter k (Release ptr) (Put ptr n b)))) :
  let before := Nat.iter k (Release ptr) (Put ptr n b) in
  let after := cleanup order before in
  (k ≠ 1%nat → pool after !! ptr = Some (mkEntry n ptr (1 - Z.of_nat k))) ∧
  (k = 1%nat → pool after !! ptr = None ∨ (size (pool before) = size (pool after) + 201)%nat).
Proof.
  pose proof (release_iter k ptr n b Hk) as He. cbv zeta.
  destruct (BigDataPool_cleanup_ok order _ Horder) as (Hsub & _ & Hrem & Hrest).
  set (b1 := Nat.iter k (Release ptr) (Put ptr n b)) in *. split.
  - intros Hne. destruct (pool (cleanup order b1) !! ptr) as [e|] eqn:E.
    + pose proof (lookup_weaken _ _ _ _ E Hsub). congruence.
    + specialize (Hrem ptr _ He E). cbn in Hrem. lia.
  - intros ->. destruct (pool (cleanup order b1) !! ptr) as [e|] eqn:E; [|by left].
    destruct Hrest as [Hs|Hrest]; [by right|]. exfalso. apply (Hrest ptr e E).
    pose proof (lookup_weaken _ _ _ _ E Hsub). by simplify_eq.
Qed.

Lemma BigDataPool_reclaimed_once_released_witness :
  let b1 := Nat.iter 2 (Release 8) (Put 8 40000 (NewBigDataPool 0)) in
  pool (cleanup (map_to_list (pool b1)) b1) !! 8 = Some (mkEntry 40000 8 (1 - Z.of_nat 2)).
Proof.
  apply (BigDataPool_reclaimed_once_released 2 8 40000 (NewBigDataPool 0)
    (map_to_list (pool (Nat.iter 2 (Release 8) (Put 8 40000 (NewBigDataPool 0)))))).
  - vm_compute. reflexivity.
  - reflexivity.
  - discriminate.
Defined.
