(* ===== verification/LifeCycle.v ===== *)
(** * The life cycle manager of [src/pools/life_cycle.go]

    The three pools together.  The pool of small buffers is a [sync.Pool]: a
    bag of slices from which a [Get] takes any element or none, as its
    [choice] argument says. *)
From Stdlib Require Import SpecFloat.
From S2P Require Import Prelude.
From S2P Require Import Runtime.
From S2P Require Import Float64.
From S2P Require Import MediumPool.
From S2P Require Import BigDataPool.
Open Scope Z_scope.
Open Scope go_scope.

(** ** Data and operations *)

Definition initializeBufSize : Z := 512.

Record LifeCycleManager := mkLifeCycle {
  SmallPool : list slice;
  Medium : MediumPool;
  BigData : BigDataPool
}.

Definition NewLifeCycleManager : LifeCycleManager :=
  mkLifeCycle [] (mkMediumPool ∅) (mkBigDataPool ∅ 0 0).

Definition set_Medium (m : MediumPool) (l : LifeCycleManager) : LifeCycleManager :=
  mkLifeCycle (SmallPool l) m (BigData l).

Definition set_BigData (b : BigDataPool) (l : LifeCycleManager) : LifeCycleManager :=
  mkLifeCycle (SmallPool l) (Medium l) b.

(** [l.SmallPool.Get()]. *)
Definition SmallPool_Get (choice : option nat) (l : LifeCycleManager) (mem : memory) :
    result (LifeCycleManager * memory * slice) :=
  match pool_take choice (SmallPool l) with
  | Some (s, rest) => Ok (mkLifeCycle rest (Medium l) (BigData l), mem, s)
  | None => let* (mem, s) := make_bytes 0 initializeBufSize mem in Ok (l, mem, s)
  end.

(** [l.SmallPool.Put(s)]. *)
Definition SmallPool_Put (s : slice) (l : LifeCycleManager) : LifeCycleManager :=
  mkLifeCycle (pool_put s (SmallPool l)) (Medium l) (BigData l).

Definition preLoadPercent : float64 := f64_ratio 2 10.

(** [int(float64(capacity) * preLoadPercent)]; a 32-bit capacity is far from
    the overflow of the conversion, so its result there is arbitrary. *)
Definition preloadSize (capacity : Z) : Z :=
  f64_to_int64 amd64_overflow (f64_mul (f64_of_Z capacity) preLoadPercent).

(** The loop of [Preload], [n] turns; [choices i] is what the [i]-th [Get]
    takes. *)
Fixpoint preload_loop (choices : nat → option nat) (n : nat) (l : LifeCycleManager)
    (mem : memory) : result (LifeCycleManager * memory) :=
  match n with
  | O => Ok (l, mem)
  | S n =>
      let* (l, mem, s) := SmallPool_Get (choices n) l mem in
      preload_loop choices n (SmallPool_Put s l) mem
  end.

Definition Preload (choices : nat → option nat) (capacity : Z) (l : LifeCycleManager)
    (mem : memory) : result (LifeCycleManager * memory) :=
  preload_loop choices (Z.to_nat (preloadSize capacity)) l mem.

Definition Cleanup (clock : nat → Z) (morder : list (Z * Z)) (border : list (Z * BigDataEntry))
    (l : LifeCycleManager) : LifeCycleManager :=
  set_BigData (BigDataPool.cleanup border (BigData l))
    (set_Medium (MediumPool.cleanup clock morder (Medium l)) l).

(** ** Lemmas *)

Lemma make_bytes_ok (len cap : Z) (mem : memory) :
  0 ≤ len ≤ cap →
  make_bytes len cap mem =
    Ok ((alloc (Z.to_nat cap) mem).1, mkSlice (brk mem) len cap).
Proof. intros H. unfold make_bytes. by rewrite decide_True by lia. Qed.

(** [Get] takes an element out of the pool or makes a new one. *)
Lemma SmallPool_Get_cases (choice : option nat) (l : LifeCycleManager) (mem : memory) :
  (∃ (s : slice) (rest : list slice),
     SmallPool_Get choice l mem = Ok (mkLifeCycle rest (Medium l) (BigData l), mem, s) ∧
     SmallPool l ≡ₚ s :: rest) ∨
  SmallPool_Get choice l mem =
    Ok (l, (alloc (Z.to_nat initializeBufSize) mem).1, mkSlice (brk mem) 0 initializeBufSize).
Proof.
  unfold SmallPool_Get. destruct (pool_take choice (SmallPool l)) as [[s rest]|] eqn:E.
  - left. exists s, rest. split; [done|]. by apply pool_take_Some in E.
  - right. by rewrite make_bytes_ok by (unfold initializeBufSize; lia).
Qed.

Lemma preload_loop_first (n : nat) (l : LifeCycleManager) (mem : memory) :
  SmallPool l ≠ [] → preload_loop (λ _, Some 0%nat) n l mem = Ok (l, mem).
Proof.
  revert l. induction n as [|n IH]; intros [sp mp bp] Hne; [done|]. cbn.
  destruct sp as [|s sp]; [done|]. cbn. by apply IH.
Qed.

Lemma preload_loop_bound (choices : nat → option nat) (n : nat) (l : LifeCycleManager)
    (mem : memory) :
  ∃ (l' : LifeCycleManager) (mem' : memory),
    preload_loop choices n l mem = Ok (l', mem') ∧
    Medium l' = Medium l ∧ BigData l' = BigData l ∧
    (length (SmallPool l) ≤ length (SmallPool l') ≤ length (SmallPool l) + n)%nat.
Proof.
  revert l mem. induction n as [|n IH]; intros l mem; cbn -[SmallPool_Get].
  { exists l, mem. split_and!; [done..|lia|lia]. }
  destruct (SmallPool_Get_cases (choices n) l mem) as [(s & rest & -> & Hp)| ->]; cbn -[alloc].
  - destruct (IH (SmallPool_Put s (mkLifeCycle rest (Medium l) (BigData l))) mem)
      as (l' & mem' & -> & Hm & Hb & Hl). cbn in Hl, Hm, Hb.
    apply Permutation_length in Hp. cbn in Hp. exists l', mem'. split_and!; [done..|lia|lia].
  - destruct (IH (SmallPool_Put (mkSlice (brk mem) 0 initializeBufSize) l)
      (alloc (Z.to_nat initializeBufSize) mem).1) as (l' & mem' & -> & Hm & Hb & Hl).
    cbn in Hl, Hm, Hb. exists l', mem'. split_and!; [done..|lia|lia].
Qed.

(** ** Properties *)

(** [Preload] never pre-loads more than one buffer when the pool hands back
    the buffer it was given last, as it does within one goroutine: each turn
    takes out the buffer of the turn before and puts it back.  Whatever the
    pool hands out, [Preload] returns, touches only the small pool and adds at
    most [preloadSize] buffers to it. *)
Theorem Preload_reuses_its_own_buffer (choices : nat → option nat) (capacity : Z)
    (l : LifeCycleManager) (mem : memory) :
  (∃ (l' : LifeCycleManager) (mem' : memory),
     Preload choices capacity l mem = Ok (l', mem') ∧
     Medium l' = Medium l ∧ BigData l' = BigData l ∧
     (length (SmallPool l) ≤ length (SmallPool l')
        ≤ length (SmallPool l) + Z.to_nat (preloadSize capacity))%nat) ∧
  (SmallPool l = [] →
   ∃ (l' : LifeCycleManager) (mem' : memory),
     Preload (λ _, Some 0%nat) capacity l mem = Ok (l', mem') ∧
     (length (SmallPool l') ≤ 1)%nat ∧
     (1 ≤ preloadSize capacity → length (SmallPool l') = 1%nat)).
Proof.
  split; [apply preload_loop_bound|]. intros He. unfold Preload.
  destruct (Z.to_nat (preloadSize capacity)) as [|n] eqn:En.
  { exists l, mem. rewrite He. split; [done|]. split; [cbn; lia|]. intros; lia. }
  cbn -[make_bytes]. unfold SmallPool_Get. rewrite He. cbn -[make_bytes].
  rewrite make_bytes_ok by (unfold initializeBufSize; lia). cbn -[alloc].
  rewrite preload_loop_first by done. eexists _, _. split; [done|]. cbn. rewrite He.
  cbn. split; [lia|done].
Qed.

Lemma Preload_reuses_its_own_buffer_witness :
  preloadSize 1000 = 200 ∧
  ∃ (l' : LifeCycleManager) (mem' : memory),
    Preload (λ _, Some 0%nat) 1000 NewLifeCycleManager empty_mem = Ok (l', mem') ∧
    (length (SmallPool l') ≤ 1)%nat ∧
    (1 ≤ preloadSize 1000 → length (SmallPool l') = 1%nat).
Proof.
  split; [vm_compute; reflexivity|].
  apply (Preload_reuses_its_own_buffer (λ _, Some 0%nat)). reflexivity.
Defined.
