(* ===== verification/DataChunk.v ===== *)
(** * The chunks of [src/core/chunk.go]

    What a read hands to the caller: the data and a function that gives its
    resources back.  A Go closure is an action [A] with its captured variables
    and [run] is what calling it does to the state [S]. *)
From S2P Require Import Prelude.
From S2P Require Import Runtime.

Section chunk.
  Context {A S : Type} (run : A → S → S).

Record DataChunk := mkChunk { data : slice; free : option A }.

Definition Bytes (d : DataChunk) : slice := data d.

Definition Release (d : DataChunk) (s : S) : DataChunk * S :=
  match free d with
  | Some f => (mkChunk (data d) None, run f s)
  | None => (d, s)
  end.

(** [n] calls of [Release] on the same variable. *)
Fixpoint Release_n (n : nat) (d : DataChunk) (s : S) : DataChunk * S :=
  match n with
  | O => (d, s)
  | Datatypes.S n => let (d, s) := Release d s in Release_n n d s
  end.

(** A released chunk has nothing left to free. *)
Lemma Release_n_released (n : nat) (x : slice) (s : S) :
  Release_n n (mkChunk x None) s = (mkChunk x None, s).
Proof. induction n as [|n IH]; [done|]. apply IH. Qed.
End chunk.
Arguments DataChunk A : clear implicits.

(** A chunk gives its resources back exactly once, however often it is
    released, and keeps its data. *)
Theorem Release_once {A S : Type} (run : A → S → S) (n : nat) (d : DataChunk A) (s : S) :
  Release_n run (Datatypes.S n) d s =
    (mkChunk (Bytes d) None, match free d with Some f => run f s | None => s end).
Proof. destruct d as [x [f|]]; cbn; apply Release_n_released. Qed.
