(* ===== verification/DoubleBuffer.v ===== *)
(** * The double buffer of [src/core/double_buffer.go]

    Writers fill an active ring buffer; when it is full or old it is swapped
    for an empty one, numbered and filed in a heap, from which readers take
    the buffers in the order of their numbers.  This file has the state and
    every operation; a method of the type is one call that other goroutines do
    not interrupt, except where it sleeps, and the goroutines it starts run in
    separate steps afterwards, in whatever order a schedule gives.

    The file is written against the interfaces of the heap and of the switching
    strategy.  Logging and the metrics collector, which the code creates and
    never calls, are left out. *)
From S2P Require Import Prelude.
From S2P Require Import Consts.
From S2P Require Import Interfaces.
From S2P Require Import Runtime.
From S2P Require Import SmartBuffer.
From S2P Require Import SwitchStrategy.
From S2P Require Import SwitchConfig.
From S2P Require Import Waiters.
From S2P Require Import MediumPool.
From S2P Require Import BigDataPool.
From S2P Require Import LifeCycle.
From S2P Require Import DataChunk.
Open Scope Z_scope.
Open Scope go_scope.

(** ** Data *)

Definition SmallDataThreshold : Z := 1024.
Definition LargeDataThreshold : Z := 32 * 1024.
Definition MediumDataCacheDuration : Z := 5 * second.
Definition SwitchCheckInterval : Z := 5 * millisecond.

(** The objects pointers refer to: the bytes and the ring buffers, by
    identity.  [next] is the identity of the next buffer made. *)
Record objects := mkObjects {
  mem : memory;
  bufs : gmap nat SmartBuffer;
  next : nat
}.

(** The goroutines [switchChannel] starts, at the statement they are at:
    numbering the buffer, pushing it on the heap, reading its length for the
    call of [notify], and that call. *)
Inductive goroutine :=
  | GNumber (b : nat)
  | GPush (s : Z) (b : nat)
  | GLen (b : nat)
  | GNotify (n : Z).

(** The closures a chunk frees its data with. *)
Inductive free_action :=
  | FreeSmall (s : slice)            (** puts the slice, emptied, in the small pool *)
  | FreeRecycle (ptr n : Z)          (** [d.recycle(ptr, size)] *)
  | FreeZeroCopy (ptr n : Z).        (** [d.pm.BigDataPool.Free(ptr, size)] *)

(** What a call takes from its environment: the choices of the small pool and
    of the buffer pool, and the clock where the code reads it (for a medium
    object, for a switch, for its validity when read). *)
Record oracle := mkOracle {
  small_choice : option nat;
  buffer_choice : option nat;
  now_put : Z;
  now_switch : Z;
  now_read : Z
}.

Section double_buffer.
  Context {H S : Type} `{!PendingQueue H, !SwitchStrategy S}.

Record DoubleBuffer := mkDB {
  active : nat;
  passive : nat;
  currentBuffer : option nat;
  stop_closed : bool;          (** whether [stop] is closed *)
  size : Z;
  count : Z;
  state : Z;
  lastSwitch : Z;              (** milliseconds *)
  pool : list nat;
  sequence : Z;
  currentSequence : Z;
  pendingHeap : H;
  enableMetrics : bool;
  scd : SwitchCondition;       (** shared; its channel is [scNotify] *)
  sc : SwitchConfig;
  sw : S;
  readMode : option Z;         (** [None]: the nil pointer *)
  wm : WaiterManager;
  pm : LifeCycleManager;
  objs : objects;
  goroutines : list goroutine;
  swapper : bool;              (** whether [swapMonitor] runs *)
  recycler : bool              (** whether [asyncRecycleWorker] runs *)
}.

Definition set_active (b : nat) (d : DoubleBuffer) : DoubleBuffer :=
  mkDB b (passive d) (currentBuffer d) (stop_closed d) (size d) (count d) (state d)
    (lastSwitch d) (pool d) (sequence d) (currentSequence d) (pendingHeap d) (enableMetrics d)
    (scd d) (sc d) (sw d) (readMode d) (wm d) (pm d) (objs d) (goroutines d) (swapper d)
    (recycler d).
Definition set_passive (b : nat) (d : DoubleBuffer) : DoubleBuffer :=
  mkDB (active d) b (currentBuffer d) (stop_closed d) (size d) (count d) (state d)
    (lastSwitch d) (pool d) (sequence d) (currentSequence d) (pendingHeap d) (enableMetrics d)
    (scd d) (sc d) (sw d) (readMode d) (wm d) (pm d) (objs d) (goroutines d) (swapper d)
    (recycler d).
Definition set_currentBuffer (b : option nat) (d : DoubleBuffer) : DoubleBuffer :=
  mkDB (active d) (passive d) b (stop_closed d) (size d) (count d) (state d) (lastSwitch d)
    (pool d) (sequence d) (currentSequence d) (pendingHeap d) (enableMetrics d) (scd d) (sc d)
    (sw d) (readMode d) (wm d) (pm d) (objs d) (goroutines d) (swapper d) (recycler d).
Definition set_stop_closed (x : bool) (d : DoubleBuffer) : DoubleBuffer :=
  mkDB (active d) (passive d) (currentBuffer d) x (size d) (count d) (state d) (lastSwitch d)
    (pool d) (sequence d) (currentSequence d) (pendingHeap d) (enableMetrics d) (scd d) (sc d)
    (sw d) (readMode d) (wm d) (pm d) (objs d) (goroutines d) (swapper d) (recycler d).
Definition set_count (z : Z) (d : DoubleBuffer) : DoubleBuffer :=
  mkDB (active d) (passive d) (currentBuffer d) (stop_closed d) (size d) z (state d)
    (lastSwitch d) (pool d) (sequence d) (currentSequence d) (pendingHeap d) (enableMetrics d)
    (scd d) (sc d) (sw d) (readMode d) (wm d) (pm d) (objs d) (goroutines d) (swapper d)
    (recycler d).
Definition set_state (z : Z) (d : DoubleBuffer) : DoubleBuffer :=
  mkDB (active d) (passive d) (currentBuffer d) (stop_closed d) (size d) (count d) z
    (lastSwitch d) (pool d) (sequence d) (currentSequence d) (pendingHeap d) (enableMetrics d)
    (scd d) (sc d) (sw d) (readMode d) (wm d) (pm d) (objs d) (goroutines d) (swapper d)
    (recycler d).
Definition set_lastSwitch (z : Z) (d : DoubleBuffer) : DoubleBuffer :=
  mkDB (active d) (passive d) (currentBuffer d) (stop_closed d) (size d) (count d) (state d) z
    (pool d) (sequence d) (currentSequence d) (pendingHeap d) (enableMetrics d) (scd d) (sc d)
    (sw d) (readMode d) (wm d) (pm d) (objs d) (goroutines d) (swapper d) (recycler d).
Definition set_pool (l : list nat) (d : DoubleBuffer) : DoubleBuffer :=
  mkDB (active d) (passive d) (currentBuffer d) (stop_closed d) (size d) (count d) (state d)
    (lastSwitch d) l (sequence d) (currentSequence d) (pendingHeap d) (enableMetrics d) (scd d)
    (sc d) (sw d) (readMode d) (wm d) (pm d) (objs d) (goroutines d) (swapper d) (recycler d).
Definition set_sequence (z : Z) (d : DoubleBuffer) : DoubleBuffer :=
  mkDB (active d) (passive d) (currentBuffer d) (stop_closed d) (size d) (count d) (state d)
    (lastSwitch d) (pool d) z (currentSequence d) (pendingHeap d) (enableMetrics d) (scd d)
    (sc d) (sw d) (readMode d) (wm d) (pm d) (objs d) (goroutines d) (swapper d) (recycler d).
Definition set_currentSequence (z : Z) (d : DoubleBuffer) : DoubleBuffer :=
  mkDB (active d) (passive d) (currentBuffer d) (stop_closed d) (size d) (count d) (state d)
    (lastSwitch d) (pool d) (sequence d) z (pendingHeap d) (enableMetrics d) (scd d) (sc d)
    (sw d) (readMode d) (wm d) (pm d) (objs d) (goroutines d) (swapper d) (recycler d).
Definition set_pendingHeap (h : H) (d : DoubleBuffer) : DoubleBuffer :=
  mkDB (active d) (passive d) (currentBuffer d) (stop_closed d) (size d) (count d) (state d)
    (lastSwitch d) (pool d) (sequence d) (currentSequence d) h (enableMetrics d) (scd d) (sc d)
    (sw d) (readMode d) (wm d) (pm d) (objs d) (goroutines d) (swapper d) (recycler d).
Definition set_enableMetrics (x : bool) (d : DoubleBuffer) : DoubleBuffer :=
  mkDB (active d) (passive d) (currentBuffer d) (stop_closed d) (size d) (count d) (state d)
    (lastSwitch d) (pool d) (sequence d) (currentSequence d) (pendingHeap d) x (scd d) (sc d)
    (sw d) (readMode d) (wm d) (pm d) (objs d) (goroutines d) (swapper d) (recycler d).
Definition set_scd (c : SwitchCondition) (d : DoubleBuffer) : DoubleBuffer :=
  mkDB (active d) (passive d) (currentBuffer d) (stop_closed d) (size d) (count d) (state d)
    (lastSwitch d) (pool d) (sequence d) (currentSequence d) (pendingHeap d) (enableMetrics d) c
    (sc d) (sw d) (readMode d) (wm d) (pm d) (objs d) (goroutines d) (swapper d) (recycler d).
Definition set_sc (c : SwitchConfig) (d : DoubleBuffer) : DoubleBuffer :=
  mkDB (active d) (passive d) (currentBuffer d) (stop_closed d) (size d) (count d) (state d)
    (lastSwitch d) (pool d) (sequence d) (currentSequence d) (pendingHeap d) (enableMetrics d)
    (scd d) c (sw d) (readMode d) (wm d) (pm d) (objs d) (goroutines d) (swapper d) (recycler d).
Definition set_readMode (m : option Z) (d : DoubleBuffer) : DoubleBuffer :=
  mkDB (active d) (passive d) (currentBuffer d) (stop_closed d) (size d) (count d) (state d)
    (lastSwitch d) (pool d) (sequence d) (currentSequence d) (pendingHeap d) (enableMetrics d)
    (scd d) (sc d) (sw d) m (wm d) (pm d) (objs d) (goroutines d) (swapper d) (recycler d).
Definition set_wm (w : WaiterManager) (d : DoubleBuffer) : DoubleBuffer :=
  mkDB (active d) (passive d) (currentBuffer d) (stop_closed d) (size d) (count d) (state d)
    (lastSwitch d) (pool d) (sequence d) (currentSequence d) (pendingHeap d) (enableMetrics d)
    (scd d) (sc d) (sw d) (readMode d) w (pm d) (objs d) (goroutines d) (swapper d) (recycler d).
Definition set_pm (l : LifeCycleManager) (d : DoubleBuffer) : DoubleBuffer :=
  mkDB (active d) (passive d) (currentBuffer d) (stop_closed d) (size d) (count d) (state d)
    (lastSwitch d) (pool d) (sequence d) (currentSequence d) (pendingHeap d) (enableMetrics d)
    (scd d) (sc d) (sw d) (readMode d) (wm d) l (objs d) (goroutines d) (swapper d) (recycler d).
Definition set_objs (o : objects) (d : DoubleBuffer) : DoubleBuffer :=
  mkDB (active d) (passive d) (currentBuffer d) (stop_closed d) (size d) (count d) (state d)
    (lastSwitch d) (pool d) (sequence d) (currentSequence d) (pendingHeap d) (enableMetrics d)
    (scd d) (sc d) (sw d) (readMode d) (wm d) (pm d) o (goroutines d) (swapper d) (recycler d).
Definition set_goroutines (l : list goroutine) (d : DoubleBuffer) : DoubleBuffer :=
  mkDB (active d) (passive d) (currentBuffer d) (stop_closed d) (size d) (count d) (state d)
    (lastSwitch d) (pool d) (sequence d) (currentSequence d) (pendingHeap d) (enableMetrics d)
    (scd d) (sc d) (sw d) (readMode d) (wm d) (pm d) (objs d) l (swapper d) (recycler d).
Definition set_swapper (x : bool) (d : DoubleBuffer) : DoubleBuffer :=
  mkDB (active d) (passive d) (currentBuffer d) (stop_closed d) (size d) (count d) (state d)
    (lastSwitch d) (pool d) (sequence d) (currentSequence d) (pendingHeap d) (enableMetrics d)
    (scd d) (sc d) (sw d) (readMode d) (wm d) (pm d) (objs d) (goroutines d) x (recycler d).
Definition set_recycler (x : bool) (d : DoubleBuffer) : DoubleBuffer :=
  mkDB (active d) (passive d) (currentBuffer d) (stop_closed d) (size d) (count d) (state d)
    (lastSwitch d) (pool d) (sequence d) (currentSequence d) (pendingHeap d) (enableMetrics d)
    (scd d) (sc d) (sw d) (readMode d) (wm d) (pm d) (objs d) (goroutines d) (swapper d) x.

(** ** Ring buffers and memory as seen through the state *)

(** Dereferencing a pointer to a ring buffer. *)
Definition get_buf (b : nat) (d : DoubleBuffer) : result SmartBuffer :=
  match bufs (objs d) !! b with
  | Some s => Ok s
  | None => Panics NilDereference
  end.

Definition set_buf (b : nat) (s : SmartBuffer) (d : DoubleBuffer) : DoubleBuffer :=
  set_objs (mkObjects (mem (objs d)) (<[b := s]> (bufs (objs d))) (next (objs d))) d.

Definition set_mem (m : memory) (d : DoubleBuffer) : DoubleBuffer :=
  set_objs (mkObjects m (bufs (objs d)) (next (objs d))) d.

(** [component.NewSmartBuffer(size)]. *)
Definition new_buf (d : DoubleBuffer) : result (DoubleBuffer * nat) :=
  let* s := NewSmartBuffer (size d) in
  Ok (set_objs (mkObjects (mem (objs d)) (<[next (objs d) := s]> (bufs (objs d)))
                  (Datatypes.S (next (objs d)))) d, next (objs d)).

(** [d.pool.Get()]. *)
Definition pool_Get (choice : option nat) (d : DoubleBuffer) : result (DoubleBuffer * nat) :=
  match pool_take choice (pool d) with
  | Some (b, rest) => Ok (set_pool rest d, b)
  | None => new_buf d
  end.

Definition pool_Put (b : nat) (d : DoubleBuffer) : DoubleBuffer :=
  set_pool (pool_put b (pool d)) d.

(** [buf, _ := d.pm.SmallPool.Get().([]byte); if int32(cap(buf)) < size { buf =
    make([]byte, 0, size) }; buf = buf[:size]; copy(buf, src)]. *)
Definition small_copy (o : oracle) (n : Z) (src : slice) (d : DoubleBuffer) :
    result (DoubleBuffer * slice) :=
  let* (l, m, buf) := SmallPool_Get (small_choice o) (pm d) (mem (objs d)) in
  let* (m, buf) := if decide (int32 (scap buf) < n) then make_bytes 0 n m else Ok (m, buf) in
  let* buf := reslice buf n in
  let* m := copy buf src m in
  Ok (set_mem m (set_pm l d), buf).

(** ** Construction *)

(** The options of [NewDoubleBuffer]; [WithMetrics] is the only one. *)
Definition WithMetrics (collector : Z) (d : DoubleBuffer) : DoubleBuffer + error :=
  if CollectorType_Validate collector then inl (set_enableMetrics true d)
  else inr (ErrorsNew "invalid metrics collector").

Fixpoint apply_options (opts : list Z) (d : DoubleBuffer) : DoubleBuffer + error :=
  match opts with
  | [] => inl d
  | c :: opts =>
      match WithMetrics c d with
      | inl d => apply_options opts d
      | inr err => inr err
      end
  end.

(** [mem0] is the memory the program runs in and [now] the time of the call.
    The buffers of the struct literal are replaced by two from the pool. *)
Definition NewDoubleBuffer (n : Z) (cond : SwitchCondition) (opts : list Z) (strategy : S)
    (now : Z) (mem0 : memory) : result (DoubleBuffer + error) :=
  let* h := pq_new in
  let* active0 := NewSmartBuffer n in
  let* passive0 := NewSmartBuffer n in
  let d := mkDB 0 1 None false n 0 WritingState (now `div` millisecond) [] 0 1 h false cond
    (GetConfig cond) strategy None newWaiterManager NewLifeCycleManager
    (mkObjects mem0 (<[1%nat := passive0]> {[ 0%nat := active0 ]}) 2) [] false false in
  match apply_options opts d with
  | inr err => Ok (inr err)
  | inl d =>
      let* (d, a) := pool_Get None d in
      let d := set_active a d in
      let* (d, p) := pool_Get None d in
      Ok (inl (set_recycler true (set_swapper true (set_passive p d))))
  end.

(** ** Switching *)

(** The [select] on [scNotify] and the strategy's decision. *)
Definition needSwitch (now : Z) (d : DoubleBuffer) : DoubleBuffer * bool :=
  let currentCount := count d in
  let elapsed := since now (lastSwitch d * millisecond) in
  let (cond, conf) := poll (sc d) (scd d) in
  let d := set_sc conf (set_scd cond d) in
  (d, SwitchStrategy.needSwitch (sw d) currentCount (size d) elapsed (TimeThreshold (sc d))).

Definition swapChannels (newBuf : nat) (d : DoubleBuffer) : DoubleBuffer * nat :=
  let oldActive := active d in
  (set_passive newBuf (set_active (passive d) d), oldActive).

Definition switchChannel (o : oracle) (d : DoubleBuffer) : result DoubleBuffer :=
  if decide (state d ≠ WritingState) then Ok d
  else
    let d := set_state SwitchingState d in
    let* a := get_buf (active d) d in
    let d := set_buf (active d) (SetState ReadOnly a) d in
    let* (d, newBuf) := pool_Get (buffer_choice o) d in
    let (d, b) := swapChannels newBuf d in
    let d := set_count 0 d in
    let d := set_lastSwitch (now_switch o `div` millisecond) d in
    let d := set_goroutines (goroutines d ++ [GNumber b]) d in
    Ok (set_state WritingState d).

(** ** Writing *)

(** The first [switch] of [Write]: where the data is kept. *)
Definition classify (o : oracle) (p : slice) (d : DoubleBuffer) :
    result (DoubleBuffer * BufferItem) :=
  let item := mkItem (sptr p) (int32 (slen p)) in
  if decide (Size item < SmallDataThreshold) then
    let* (d, buf) := small_copy o (Size item) p d in
    let* ptr := addr_of_first buf in
    Ok (d, mkItem ptr (Size item))
  else if decide (LargeDataThreshold < Size item) then
    Ok (set_pm (set_BigData (BigDataPool.Put (Ptr item) (Size item) (BigData (pm d))) (pm d)) d,
        item)
  else
    Ok (set_pm (set_Medium (MediumPool.Put (Ptr item) (now_put o) (Medium (pm d))) (pm d)) d,
        item).

(** [err := d.active.Write(bufferItem); if err == nil { d.count.Add(1) }]. *)
Definition write_active (item : BufferItem) (d : DoubleBuffer) :
    result (DoubleBuffer * option error) :=
  let* a := get_buf (active d) d in
  let* (a, err) := SmartBuffer.Write item a in
  let d := set_buf (active d) a d in
  match err with
  | None => Ok (set_count (int32 (count d + 1)) d, None)
  | Some err => Ok (d, Some err)
  end.

Definition slow_path (o : oracle) (item : BufferItem) (d : DoubleBuffer) :
    result (DoubleBuffer * option error) :=
  let* a := get_buf (active d) d in
  let* d := if decide (GetState a = ReadOnly) then switchChannel o d else Ok d in
  write_active item d.

Definition Write (o : oracle) (p : slice) (d : DoubleBuffer) :
    result (DoubleBuffer * option error) :=
  if decide (state d = ClosedState) then Ok (d, Some ErrBufferClose)
  else
    let* (d, item) := classify o p d in
    if decide (state d = WritingState) then
      let* (d, err) := write_active item d in
      match err with
      | None => Ok (d, None)
      | Some _ => slow_path o item d
      end
    else slow_path o item d.

(** ** The goroutines *)

(** The next statement of goroutine [i]; [range] is the order in which
    [notify] visits the waiters.  A goroutine that ends is removed. *)
Definition run_goroutine (range : gmap Z nat → list (Z * nat)) (i : nat) (d : DoubleBuffer) :
    result DoubleBuffer :=
  match goroutines d !! i with
  | None => Ok d
  | Some (GNumber b) =>
      let s := int64 (sequence d + 1) in
      Ok (set_goroutines (<[i := GPush s b]> (goroutines d)) (set_sequence s d))
  | Some (GPush s b) =>
      let* h := pq_push (s, b) (pendingHeap d) in
      Ok (set_goroutines (<[i := GLen b]> (goroutines d)) (set_pendingHeap h d))
  | Some (GLen b) =>
      let* s := get_buf b d in
      Ok (set_goroutines (<[i := GNotify (SmartBuffer.Len s)]> (goroutines d)) d)
  | Some (GNotify n) =>
      let* w := Waiters.notify range n (wm d) in
      Ok (set_goroutines (delete i (goroutines d)) (set_wm w d))
  end.

(** Steps of goroutines, in the order of a schedule. *)
Fixpoint run_schedule (range : gmap Z nat → list (Z * nat)) (sched : list nat) (d : DoubleBuffer) :
    result DoubleBuffer :=
  match sched with
  | [] => Ok d
  | i :: sched => let* d := run_goroutine range i d in run_schedule range sched d
  end.

(** One tick of [swapMonitor] and of [asyncRecycleWorker], and their ends. *)
Definition swapMonitor_tick (o : oracle) (d : DoubleBuffer) : result DoubleBuffer :=
  if swapper d then
    let (d, yes) := needSwitch (now_switch o) d in
    if yes then switchChannel o d else Ok d
  else Ok d.

Definition swapMonitor_stop (d : DoubleBuffer) : DoubleBuffer :=
  if stop_closed d then set_swapper false d else d.

Definition asyncRecycleWorker_tick (clock : nat → Z) (morder : list (Z * Z))
    (border : list (Z * BigDataEntry)) (d : DoubleBuffer) : DoubleBuffer :=
  if recycler d then set_pm (Cleanup clock morder border (pm d)) d else d.

Definition asyncRecycleWorker_stop (d : DoubleBuffer) : DoubleBuffer :=
  if stop_closed d then set_recycler false d else d.

(** ** Reading *)

Definition RegisterReadMode (m : Z) (d : DoubleBuffer) : DoubleBuffer * option error :=
  if ReadMode_Validate m then (set_readMode (Some m) d, None)
  else (d, Some (ErrorsNew "invalid read mode")).

Definition maxRetires : nat := 3.

(** The loop of [pickBufferFromHeap], [n] turns left; [sleeps] says which
    goroutine steps run during each sleep.  The result is [false] where the
    code returns at once. *)
Fixpoint pick_loop (range : gmap Z nat → list (Z * nat)) (n : nat) (sleeps : list (list nat))
    (d : DoubleBuffer) : result (DoubleBuffer * bool) :=
  match n with
  | O => Ok (d, true)
  | Datatypes.S n =>
      let* (h, x) := pq_pick (pendingHeap d) in
      let d := set_pendingHeap h d in
      match x with
      | None => Ok (d, false)
      | Some (s, b) =>
          if decide (s = currentSequence d) then
            Ok (set_currentSequence (int64 (currentSequence d + 1)) (set_currentBuffer (Some b) d),
                true)
          else
            let* h := pq_push (s, b) (pendingHeap d) in
            let* d := run_schedule range (hd [] sleeps) (set_pendingHeap h d) in
            pick_loop range n (tl sleeps) d
      end
  end.

Definition pickBufferFromHeap (range : gmap Z nat → list (Z * nat)) (sleeps : list (list nat))
    (d : DoubleBuffer) : result (DoubleBuffer * bool) :=
  let* (d, found) := pick_loop range maxRetires sleeps d in
  if found then Ok (d, bool_decide (currentBuffer d ≠ None)) else Ok (d, false).

(** [unsafe.Slice] on a negative length or on nil panics. *)
Definition createByteSliceFromPointer (ptr n : Z) : result slice :=
  if decide (n < 0) then Panics SliceBoundsOutOfRange
  else if decide (ptr = 0) then
    if decide (n = 0) then Ok nil_slice else Panics NilDereference
  else Ok (mkSlice ptr n n).

Definition recycle (ptr n : Z) (d : DoubleBuffer) : DoubleBuffer :=
  if decide (ptr = 0 ∨ n ≤ 0) then d
  else if decide (n < SmallDataThreshold) then d
  else if decide (LargeDataThreshold < n) then
    set_pm (set_BigData (BigDataPool.Release ptr (BigData (pm d))) (pm d)) d
  else set_pm (set_Medium (MediumPool.Release ptr (Medium (pm d))) (pm d)) d.

(** Calling the [free] function of a chunk. *)
Definition run_free (f : free_action) (d : DoubleBuffer) : DoubleBuffer :=
  match f with
  | FreeSmall s => set_pm (SmallPool_Put (mkSlice (sptr s) 0 (scap s)) (pm d)) d
  | FreeRecycle ptr n => recycle ptr n d
  | FreeZeroCopy ptr n =>
      set_pm (set_BigData (BigDataPool.Free ptr n (BigData (pm d))) (pm d)) d
  end.

(** [d.currentBuffer.Pop()]. *)
Definition pop_current (d : DoubleBuffer) : result (DoubleBuffer * (Z * Z)) :=
  match currentBuffer d with
  | None => Panics NilDereference
  | Some b =>
      let* s := get_buf b d in
      let* (s, item) := SmartBuffer.Pop s in
      Ok (set_buf b s d, item)
  end.

(** The part of [safeRead] after the [Pop], which gave [ptr] and [n]. *)
Definition safe_chunk (o : oracle) (ptr n : Z) (d : DoubleBuffer) :
    result (DoubleBuffer * option (DataChunk free_action)) :=
  if decide (n = 0) then Ok (d, None)
  else
    let* res := createByteSliceFromPointer ptr n in
    if decide (n < SmallDataThreshold) then
      let* (d, buf) := small_copy o n res d in
      Ok (d, Some (mkChunk buf (Some (FreeSmall buf))))
    else if decide (LargeDataThreshold < n) then
      Ok (d, Some (mkChunk res (Some (FreeRecycle ptr n))))
    else if MediumPool.IsValid (now_read o) ptr (Medium (pm d)) then
      Ok (d, Some (mkChunk res (Some (FreeRecycle ptr n))))
    else
      let* (m, data) := make_bytes n n (mem (objs d)) in
      let* m := copy data res m in
      Ok (set_mem m d, Some (mkChunk data (Some (FreeRecycle ptr n)))).

Definition safeRead (o : oracle) (d : DoubleBuffer) :
    result (DoubleBuffer * option (DataChunk free_action)) :=
  let* (d, (ptr, n)) := pop_current d in
  safe_chunk o ptr n d.

(** The part of [zeroCopyRead] after the [Pop]. *)
Definition zero_copy_chunk (ptr n : Z) (d : DoubleBuffer) :
    result (DoubleBuffer * option (DataChunk free_action)) :=
  if decide (ptr = 0) then Ok (d, None)
  else
    let* res := createByteSliceFromPointer ptr n in
    let d :=
      if decide (LargeDataThreshold < n) then
        set_pm (set_BigData (BigDataPool.Release ptr (BigData (pm d))) (pm d)) d
      else d in
    Ok (d, Some (mkChunk res (Some (FreeZeroCopy ptr n)))).

Definition zeroCopyRead (d : DoubleBuffer) :
    result (DoubleBuffer * option (DataChunk free_action)) :=
  let* (d, (ptr, n)) := pop_current d in
  zero_copy_chunk ptr n d.

(** [d.currentBuffer == nil || d.currentBuffer.Len() == 0]. *)
Definition current_empty (d : DoubleBuffer) : result bool :=
  match currentBuffer d with
  | None => Ok true
  | Some b => let* s := get_buf b d in Ok (bool_decide (SmartBuffer.Len s = 0))
  end.

(** The used-up current buffer is reset and pooled. *)
Definition discard_current (d : DoubleBuffer) : result DoubleBuffer :=
  match currentBuffer d with
  | None => Ok d
  | Some b =>
      let* s := get_buf b d in
      let d := set_buf b (Reset s) d in
      Ok (pool_Put b (set_currentBuffer None d))
  end.

(** The part of [tryRead] from the read mode on. *)
Definition read_current (o : oracle) (d : DoubleBuffer) :
    result (DoubleBuffer * (DataChunk free_action + error)) :=
  match readMode d with
  | None => Panics NilDereference
  | Some m =>
      if decide (m = SafeRead) then
        let* (d, res) := safeRead o d in
        Ok (d, match res with Some c => inl c | None => inr ErrRead end)
      else if decide (m = ZeroCopyRead) then
        let* (d, res) := zeroCopyRead d in
        Ok (d, match res with Some c => inl c | None => inr ErrRead end)
      else Ok (d, inr ErrReadMode)
  end.

Definition tryRead (range : gmap Z nat → list (Z * nat)) (o : oracle) (sleeps : list (list nat))
    (d : DoubleBuffer) : result (DoubleBuffer * (DataChunk free_action + error)) :=
  let* empty := current_empty d in
  if empty then
    let* d := discard_current d in
    let* (d, picked) := pickBufferFromHeap range sleeps d in
    if picked then read_current o d else Ok (d, inr ErrNoBuffer)
  else read_current o d.

(** [BlockingRead] up to its [select]: a first attempt, during and after which
    other goroutines may run ([between]), and the registration. *)
Definition BlockingRead_begin (range : gmap Z nat → list (Z * nat)) (o : oracle)
    (sleeps : list (list nat)) (between : list nat) (d : DoubleBuffer) :
    result (DoubleBuffer * (DataChunk free_action + Z * nat)) :=
  let* (d, res) := tryRead range o sleeps d in
  match res with
  | inl c => Ok (d, inl c)
  | inr _ =>
      let* d := run_schedule range between d in
      let (w, idch) := Waiters.register (small_choice o) (wm d) in
      Ok (set_wm w d, inr idch)
  end.

(** The cases of the [select]. *)
Inductive wakeup := Notified | CtxDone | Stopped.

(** Whether a case can be taken; a context ends on its own. *)
Definition ready (c : wakeup) (ch : nat) (d : DoubleBuffer) : bool :=
  match c with
  | Notified => bool_decide (Waiters.recv ch (wm d) ≠ None)
  | CtxDone => true
  | Stopped => stop_closed d
  end.

(** The rest of [BlockingRead] when the [select] takes case [c]. *)
Definition BlockingRead_wake (range : gmap Z nat → list (Z * nat)) (o : oracle)
    (sleeps : list (list nat)) (c : wakeup) (id : Z) (ch : nat) (d : DoubleBuffer) :
    result (DoubleBuffer * (DataChunk free_action + error)) :=
  let* (d, res) :=
    match c with
    | Notified =>
        let d := set_wm (default (wm d) (Waiters.recv ch (wm d))) d in
        tryRead range o sleeps d
    | CtxDone => Ok (d, inr CtxErr)
    | Stopped => Ok (d, inr ErrBufferClose)
    end in
  Ok (set_wm (Waiters.unregister id (wm d)) d, res).

(** [RegisterCallback] and [BatchRead] do nothing. *)
Definition RegisterCallback (d : DoubleBuffer) : DoubleBuffer := d.
Definition BatchRead (d : DoubleBuffer) : DoubleBuffer * list slice := (d, []).

(** ** Closing *)

(** The loop of [drainProcessor]; [fuel] bounds its turns. *)
Fixpoint drain_loop (fuel : nat) (d : DoubleBuffer) : result DoubleBuffer :=
  match fuel with
  | O => OutOfFuel
  | Datatypes.S fuel =>
      if decide (0 < pq_len (pendingHeap d))%nat then
        let* (h, x) := pq_pick (pendingHeap d) in
        let d := set_pendingHeap h d in
        match x with
        | None => Panics NilDereference
        | Some (_, b) => drain_loop fuel (pool_Put b d)
        end
      else Ok d
  end.

Definition drainProcessor (d : DoubleBuffer) : result DoubleBuffer :=
  drain_loop (Datatypes.S (pq_len (pendingHeap d))) d.

(** [Close] up to [d.wg.Wait()]; the flag says whether the call goes on. *)
Definition Close_begin (d : DoubleBuffer) : result (DoubleBuffer * bool) :=
  if decide (state d ≠ WritingState) then Ok (d, false)
  else
    let d := set_state ClosedState d in
    if stop_closed d then Panics CloseOfClosedChannel
    else
      let d := set_stop_closed true d in
      Ok (pool_Put (passive d) (pool_Put (active d) d), true).

(** [d.wg.Wait()] returns when both workers have ended. *)
Definition workers_done (d : DoubleBuffer) : bool := negb (swapper d) && negb (recycler d).

(** A whole [Close]: the workers see the closed [stop] channel and end. *)
Definition Close (d : DoubleBuffer) : result DoubleBuffer :=
  let* (d, go_on) := Close_begin d in
  if go_on then drainProcessor (asyncRecycleWorker_stop (swapMonitor_stop d)) else Ok d.
End double_buffer.
Arguments DoubleBuffer H S : clear implicits.
