(* ===== verification/DoubleBufferFlow.v ===== *)
(** * The flow of items through the double buffer

    The invariant that ties the buffers of [DoubleBuffer] together: every ring
    buffer has one owner, the numbered buffers are filed under consecutive
    sequence numbers, and the items on their way to the readers form one
    queue.  Each operation acts on that queue as on a FIFO queue, as long as
    the goroutines of the switches take their numbers in the order they were
    started. *)
From stdpp Require Import functions.
From S2P Require Import Prelude.
From S2P Require Import Consts.
From S2P Require Import Interfaces.
From S2P Require Import Runtime.
From S2P Require Import SmartBuffer.
From S2P Require Import SwitchStrategy.
From S2P Require Import SwitchConfig.
From S2P Require Import Waiters.
From S2P Require Import LifeCycle.
From S2P Require Import DataChunk.
From S2P Require Import DoubleBuffer.
Open Scope Z_scope.
Open Scope go_scope.

(** ** The invariant *)

(** Buffer [b] of the store [bm] holds the items [its]; its indices have not
    left the range of its capacity [sz] since it was last empty and new. *)
Definition stored (sz : Z) (bm : gmap nat SmartBuffer) (b : nat) (s : SmartBuffer) (T : Z)
    (its : list BufferItem) : Prop :=
  bm !! b = Some s ∧ repr s T its ∧ capacity s = sz ∧ -1 ≤ T ∧ T + Z.of_nat (length its) < sz.

(** The buffers waiting to be numbered and the pairs waiting to be pushed. *)
Definition unnumbered (gs : list goroutine) : list nat :=
  omap (λ g, match g with GNumber b => Some b | _ => None end) gs.

Definition pushes (gs : list goroutine) : list (Z * nat) :=
  omap (λ g, match g with GPush s b => Some (s, b) | _ => None end) gs.

Definition owned (a p : nat) (cur : option nat) (pl bs : list nat) (gs : list goroutine) :
    list nat :=
  a :: p :: option_list cur ++ pl ++ bs ++ unnumbered gs.

(** [bs] are the numbered buffers in the order of their numbers and [f] gives
    the items of every buffer. *)
Record parts {H : Type} `{!PendingQueue H, !PendingQueueLaws H} (sz sq cs : Z) (a p : nat)
    (cur : option nat) (pl : list nat) (h : H) (gs : list goroutine) (w : WaiterManager)
    (bm : gmap nat SmartBuffer) (nx : nat) (bs : list nat) (f : nat → list BufferItem) : Prop := {
  fl_size : 0 < sz < 2 ^ 31;
  fl_nodup : NoDup (owned a p cur pl bs gs);
  fl_stored (b : nat) : b ∈ owned a p cur pl bs gs → ∃ (s : SmartBuffer) (T : Z),
    stored sz bm b s T (f b);
  fl_active : ∃ s : SmartBuffer, stored sz bm a s (-1) (f a) ∧
    (SmartBuffer.state s = WriteOnly ∨ SmartBuffer.state s = ReadOnly);
  fl_idle (b : nat) : b ∈ p :: pl → f b = [] ∧
    ∃ s : SmartBuffer, stored sz bm b s (-1) [] ∧ SmartBuffer.state s = WriteOnly;
  fl_next (b : nat) : is_Some (bm !! b) → (b < nx)%nat;
  fl_heap : pq_wf h;
  fl_numbered : pq_contents h ++ pushes gs ≡ₚ zip (seqZ cs (Z.of_nat (length bs))) bs;
  fl_seq : sq = cs + Z.of_nat (length bs) - 1;
  fl_cs : 1 ≤ cs;
  fl_len (b : nat) : GLen b ∈ gs → is_Some (bm !! b);
  fl_wm : Waiters.wf w ∧ closed w = false
}.

Arguments fl_size {H _ _ sz sq cs a p cur pl h gs w bm nx bs f} _.
Arguments fl_nodup {H _ _ sz sq cs a p cur pl h gs w bm nx bs f} _.
Arguments fl_stored {H _ _ sz sq cs a p cur pl h gs w bm nx bs f} _.
Arguments fl_active {H _ _ sz sq cs a p cur pl h gs w bm nx bs f} _.
Arguments fl_idle {H _ _ sz sq cs a p cur pl h gs w bm nx bs f} _.
Arguments fl_next {H _ _ sz sq cs a p cur pl h gs w bm nx bs f} _.
Arguments fl_heap {H _ _ sz sq cs a p cur pl h gs w bm nx bs f} _.
Arguments fl_numbered {H _ _ sz sq cs a p cur pl h gs w bm nx bs f} _.
Arguments fl_seq {H _ _ sz sq cs a p cur pl h gs w bm nx bs f} _.
Arguments fl_cs {H _ _ sz sq cs a p cur pl h gs w bm nx bs f} _.
Arguments fl_len {H _ _ sz sq cs a p cur pl h gs w bm nx bs f} _.
Arguments fl_wm {H _ _ sz sq cs a p cur pl h gs w bm nx bs f} _.

Section flow.
  Context {H S : Type} `{!PendingQueue H, !PendingQueueLaws H, !SwitchStrategy S}.

Definition flow (d : DoubleBuffer H S) (bs : list nat) (f : nat → list BufferItem) : Prop :=
  state d = WritingState ∧
  parts (size d) (sequence d) (currentSequence d) (active d) (passive d) (currentBuffer d)
    (pool d) (pendingHeap d) (goroutines d) (wm d) (bufs (objs d)) (next (objs d)) bs f.

(** The items between the writers and the readers, the oldest first. *)
Definition queued (d : DoubleBuffer H S) (bs : list nat) (f : nat → list BufferItem) :
    list BufferItem :=
  concat (f <$> option_list (currentBuffer d)) ++ concat (f <$> bs) ++
  concat (f <$> unnumbered (goroutines d)) ++ f (active d).

(** ** Lemmas on the parts *)

Lemma stored_insert_ne (sz : Z) (bm : gmap nat SmartBuffer) (b c : nat) (s s' : SmartBuffer)
    (T : Z) (its : list BufferItem) :
  b ≠ c → stored sz bm b s T its → stored sz (<[c := s']> bm) b s T its.
Proof. intros Hne (Hb & Hr). split; [by rewrite lookup_insert_ne|done]. Qed.

Lemma unnumbered_app (gs gs' : list goroutine) :
  unnumbered (gs ++ gs') = unnumbered gs ++ unnumbered gs'.
Proof. apply omap_app. Qed.

Lemma pushes_app (gs gs' : list goroutine) : pushes (gs ++ gs') = pushes gs ++ pushes gs'.
Proof. apply omap_app. Qed.

Lemma fn_insert_cases (f : nat → list BufferItem) (b : nat) (its : list BufferItem) (c : nat) :
  (<[b := its]> f) c = if decide (c = b) then its else f c.
Proof. case_decide; [subst; apply fn_lookup_insert|by apply fn_lookup_insert_ne]. Qed.

Lemma fn_same_cases (f : nat → list BufferItem) (b c : nat) :
  f c = if decide (c = b) then f b else f c.
Proof. case_decide; by subst. Qed.

(** Replacing what one owned buffer holds. *)
Lemma parts_insert (sz sq cs : Z) (a p : nat) (cur : option nat) (pl : list nat) (h : H)
    (gs : list goroutine) (w : WaiterManager) (bm : gmap nat SmartBuffer) (nx : nat) (bs : list nat)
    (f g : nat → list BufferItem) (b : nat) (s : SmartBuffer) (T : Z) (its : list BufferItem) :
  (∀ c : nat, g c = if decide (c = b) then its else f c) →
  parts sz sq cs a p cur pl h gs w bm nx bs f →
  b ∈ owned a p cur pl bs gs → b ∉ p :: pl →
  repr s T its → capacity s = sz → -1 ≤ T → T + Z.of_nat (length its) < sz →
  (b = a → T = -1 ∧ (SmartBuffer.state s = WriteOnly ∨ SmartBuffer.state s = ReadOnly)) →
  parts sz sq cs a p cur pl h gs w (<[b := s]> bm) nx bs g.
Proof.
  intros Hf [Hsz Hnd Hst Hac Hid Hnx Hh Hn Hsq Hcs Hl Hw] Hb Hbid Hr Hc HT Hlen Ha.
  assert (stored sz (<[b := s]> bm) b s T its) as Hsb
    by (split_and!; [apply lookup_insert_eq|done..]).
  constructor; try done.
  - intros c Hc'. rewrite Hf. case_decide as E; [subst c; by exists s, T|].
    destruct (Hst c Hc') as (s' & T' & Hs'). exists s', T'. by apply stored_insert_ne.
  - rewrite Hf. case_decide as E.
    + destruct (Ha (eq_sym E)) as [-> Hstate]. rewrite E. by exists s.
    + destruct Hac as (s' & Hs' & Hstate). exists s'. split; [|done]. by apply stored_insert_ne.
  - intros c Hc'. rewrite Hf. rewrite decide_False by (by intros ->).
    destruct (Hid c Hc') as (Hfc & s' & Hs' & Hstate). split; [done|]. exists s'. split; [|done].
    apply stored_insert_ne; [by intros ->|done].
  - intros c Hc'. destruct (decide (c = b)) as [->|].
    + destruct (Hst b Hb) as (s' & T' & E & _). apply Hnx. by eexists.
    + apply Hnx. by rewrite lookup_insert_ne in Hc'.
  - intros c Hc'. destruct (decide (c = b)) as [->|]; [rewrite lookup_insert_eq; by eexists|].
    rewrite lookup_insert_ne by done. by apply Hl.
Qed.

Lemma stored_room (sz : Z) (bm : gmap nat SmartBuffer) (b : nat) (s : SmartBuffer) (T : Z)
    (its : list BufferItem) (L : Z) :
  0 < sz < 2 ^ 31 → stored sz bm b s T its → -1 ≤ L < sz → aligned (capacity s) L.
Proof.
  intros Hsz (_ & Hr & Hc & _) HL. apply aligned_small; [by apply (repr_cap _ _ _ Hr)|].
  unfold in_signed. lia.
Qed.

(** A write to the active ring: stored while the ring is write-only and has
    room, refused for good otherwise. *)
Lemma ring_write (sz : Z) (bm : gmap nat SmartBuffer) (a : nat) (s : SmartBuffer)
    (its : list BufferItem) (x : BufferItem) :
  0 < sz < 2 ^ 31 → stored sz bm a s (-1) its →
  SmartBuffer.state s = WriteOnly ∨ SmartBuffer.state s = ReadOnly →
  (SmartBuffer.state s = WriteOnly ∧ Z.of_nat (length its) < sz ∧
   SmartBuffer.Write x s = Ok (pushed x (-1 + Z.of_nat (length its)) s, None)) ∨
  ((SmartBuffer.state s = ReadOnly ∨ Z.of_nat (length its) = sz) ∧
   SmartBuffer.Write x s = Ok (SetState ReadOnly s, Some errReadOnly)).
Proof.
  intros Hsz Hs Hstate. pose proof Hs as (_ & Hr & Hc & _ & Hlen).
  pose proof (repr_room _ _ _ Hr) as Hroom. unfold SmartBuffer.Write.
  rewrite decide_False by (destruct Hstate as [->| ->]; done).
  destruct Hstate as [Hst|Hst].
  - destruct (decide (Z.of_nat (length its) < sz)) as [Hlt|Hge].
    + left. split_and!; [done..|]. apply Push_stores; [done|by rewrite Hst|lia|].
      eapply stored_room; [done..|lia].
    + right. split; [right; lia|]. rewrite (Push_full s (-1) its) by (done || lia || by rewrite Hst).
      by rewrite decide_True.
  - right. split; [by left|]. unfold SmartBuffer.Push. rewrite decide_True by done.
    do 2 f_equal. destruct s; cbn in *. by subst.
Qed.

Lemma active_owned (a p : nat) (cur : option nat) (pl bs : list nat) (gs : list goroutine) :
  a ∈ owned a p cur pl bs gs.
Proof. left. Qed.

Lemma NoDup_active (a p : nat) (cur : option nat) (pl bs : list nat) (gs : list goroutine) :
  NoDup (owned a p cur pl bs gs) → a ∉ p :: pl.
Proof.
  unfold owned. intros [Ha _]%NoDup_cons Hin. apply Ha.
  apply elem_of_cons in Hin as [->|Hin]; [left|]. right.
  rewrite !elem_of_app. by right; left.
Qed.

(** Other owners do not see a write to the active ring. *)
Lemma fmap_insert_ne (b : nat) (its : list BufferItem) (f : nat → list BufferItem) (l : list nat) :
  b ∉ l → <[b := its]> f <$> l = f <$> l.
Proof.
  intros Hb. apply list_fmap_ext. intros i c Hc. apply fn_lookup_insert_ne.
  intros ->. apply Hb. by eapply list_elem_of_lookup_2.
Qed.

Lemma queued_write (it : BufferItem) (d d' : DoubleBuffer H S) (bs : list nat)
    (f : nat → list BufferItem) :
  flow d bs f → currentBuffer d' = currentBuffer d → goroutines d' = goroutines d →
  active d' = active d →
  queued d' bs (<[active d := f (active d) ++ [it]]> f) = queued d bs f ++ [it].
Proof.
  intros [_ Hp] Ec Eg Ea. pose proof (fl_nodup Hp) as Hnd.
  unfold owned in Hnd. apply NoDup_cons in Hnd as [Ha _]. unfold queued. rewrite Ec, Eg, Ea.
  rewrite elem_of_cons, !elem_of_app in Ha.
  rewrite fn_lookup_insert, !fmap_insert_ne by tauto. by rewrite !app_assoc.
Qed.

Lemma write_active_ok (it : BufferItem) (d : DoubleBuffer H S) (bs : list nat)
    (f : nat → list BufferItem) :
  flow d bs f →
  ∃ s : SmartBuffer, bufs (objs d) !! active d = Some s ∧
  ((SmartBuffer.state s = WriteOnly ∧ Z.of_nat (length (f (active d))) < size d ∧
    ∃ s' : SmartBuffer,
      let d' := set_count (int32 (count d + 1)) (set_buf (active d) s' d) in
      write_active it d = Ok (d', None) ∧
      flow d' bs (<[active d := f (active d) ++ [it]]> f) ∧
      queued d' bs (<[active d := f (active d) ++ [it]]> f) = queued d bs f ++ [it]) ∨
   ((SmartBuffer.state s = ReadOnly ∨ Z.of_nat (length (f (active d))) = size d) ∧
    let d' := set_buf (active d) (SetState ReadOnly s) d in
    write_active it d = Ok (d', Some errReadOnly) ∧ flow d' bs f ∧ queued d' bs f = queued d bs f)).
Proof.
  intros Hf. pose proof Hf as [Hst Hp]. destruct (fl_active Hp) as (s & Hs & Hstate).
  pose proof (fl_size Hp) as Hsz.
  pose proof (NoDup_active _ _ _ _ _ _ (fl_nodup Hp)) as Hna.
  exists s. split; [by apply Hs|]. unfold write_active, get_buf.
  pose proof Hs as (E & Hr & Hc & _ & Hlen).
  destruct (ring_write _ _ _ _ _ it Hsz Hs Hstate) as [(Hw & Hlt & Ew)|(Hfull & Ew)]; [left|right].
  - split; [done|]. split; [done|]. eexists. rewrite E. cbn [rbind]. rewrite Ew. cbn [rbind].
    split; [done|]. split; [|by rewrite queued_write].
    split; [done|]. eapply parts_insert; [apply fn_insert_cases|done|apply active_owned|done|apply pushed_repr; [done|lia]| |lia| |].
    + done.
    + rewrite length_app. cbn. lia.
    + intros _. split; [done|]. by left.
  - split; [done|]. rewrite E. cbn [rbind]. rewrite Ew. cbn [rbind]. split; [done|]. split; [|done].
    split; [done|].
    eapply parts_insert; [apply fn_same_cases|done|apply active_owned|done|by apply SetState_repr|done|lia|done|].
    intros _. split; [done|]. by right.
Qed.

(** ** Switching *)

Lemma pool_Get_cases (choice : option nat) (d : DoubleBuffer H S) :
  0 < size d < 2 ^ 31 →
  (∃ (b : nat) (rest : list nat),
     pool_Get choice d = Ok (set_pool rest d, b) ∧ pool d ≡ₚ b :: rest) ∨
  (∃ s : SmartBuffer,
     pool_Get choice d =
       Ok (set_objs (mkObjects (mem (objs d)) (<[next (objs d) := s]> (bufs (objs d)))
             (Datatypes.S (next (objs d)))) d, next (objs d)) ∧
     repr s (-1) [] ∧ capacity s = size d ∧ SmartBuffer.state s = WriteOnly).
Proof.
  intros Hsz. unfold pool_Get. destruct (pool_take choice (pool d)) as [[b rest]|] eqn:E.
  - left. exists b, rest. split; [done|]. by apply pool_take_Some in E.
  - right. unfold new_buf. destruct (NewSmartBuffer_repr (size d) Hsz) as (s & -> & ? & _ & ? & ? & _).
    by exists s.
Qed.

(** A new buffer is not owned by anyone. *)
Lemma parts_fresh (sz sq cs : Z) (a p : nat) (cur : option nat) (pl : list nat) (h : H)
    (gs : list goroutine) (w : WaiterManager) (bm : gmap nat SmartBuffer) (nx : nat) (bs : list nat)
    (f : nat → list BufferItem) :
  parts sz sq cs a p cur pl h gs w bm nx bs f → nx ∉ owned a p cur pl bs gs.
Proof.
  intros Hp Hin. destruct (fl_stored Hp nx Hin) as (s & T & E & _).
  assert (nx < nx)%nat; [|lia]. apply (fl_next Hp). by eexists.
Qed.

(** A new buffer joins the pool. *)
Lemma parts_add_idle (sz sq cs : Z) (a p : nat) (cur : option nat) (pl : list nat) (h : H)
    (gs : list goroutine) (w : WaiterManager) (bm : gmap nat SmartBuffer) (nx : nat) (bs : list nat)
    (f : nat → list BufferItem) (s : SmartBuffer) :
  parts sz sq cs a p cur pl h gs w bm nx bs f →
  repr s (-1) [] → capacity s = sz → SmartBuffer.state s = WriteOnly →
  parts sz sq cs a p cur (nx :: pl) h gs w (<[nx := s]> bm) (Datatypes.S nx) bs (<[nx := []]> f).
Proof.
  intros Hp Hr Hc Hstate. pose proof (parts_fresh _ _ _ _ _ _ _ _ _ _ _ _ _ _ Hp) as Hnew.
  destruct Hp as [Hsz Hnd Hst Hac Hid Hnx Hh Hn Hsq Hcs Hl Hw].
  assert (owned a p cur (nx :: pl) bs gs ≡ₚ nx :: owned a p cur pl bs gs) as Ho
    by (unfold owned; solve_Permutation).
  assert (stored sz (<[nx := s]> bm) nx s (-1) []) as Hsn
    by (split_and!; [apply lookup_insert_eq|done..|cbn; lia]).
  assert (∀ c : nat, c ∈ owned a p cur pl bs gs → c ≠ nx) as Hne by (by intros c Hc' ->).
  constructor; try done.
  - rewrite Ho. by apply NoDup_cons.
  - intros c. rewrite Ho, elem_of_cons, fn_insert_cases. intros [->|Hc'].
    + rewrite decide_True by done. by exists s, (-1).
    + rewrite decide_False by (by apply Hne). destruct (Hst c Hc') as (s' & T' & Hs').
      exists s', T'. apply stored_insert_ne; [by apply Hne|done].
  - assert (a ≠ nx) by (apply Hne, active_owned). rewrite fn_insert_cases, decide_False by done.
    destruct Hac as (s' & Hs' & ?). exists s'. split; [by apply stored_insert_ne|done].
  - intros c Hc'. rewrite fn_insert_cases. case_decide as E.
    + subst c. split; [done|]. by exists s.
    + assert (c ∈ p :: pl) as Hin by (rewrite !elem_of_cons in *; tauto).
      destruct (Hid c Hin) as (? & s' & Hs' & ?). split; [done|]. exists s'.
      split; [by apply stored_insert_ne|done].
  - intros c Hc'. destruct (decide (c = nx)) as [->|]; [lia|].
    rewrite lookup_insert_ne in Hc' by done. apply Hnx in Hc'. lia.
  - intros c Hc'. destruct (decide (c = nx)) as [->|]; [rewrite lookup_insert_eq; by eexists|].
    rewrite lookup_insert_ne by done. by apply Hl.
Qed.

(** The swap: the passive buffer becomes the active one, a pooled one the
    passive one, and the old active one waits to be numbered. *)
Lemma parts_swap (sz sq cs : Z) (a p b : nat) (cur : option nat) (pl rest : list nat) (h : H)
    (gs : list goroutine) (w : WaiterManager) (bm : gmap nat SmartBuffer) (nx : nat) (bs : list nat)
    (f : nat → list BufferItem) :
  parts sz sq cs a p cur pl h gs w bm nx bs f → pl ≡ₚ b :: rest →
  parts sz sq cs p b cur rest h (gs ++ [GNumber a]) w bm nx bs f.
Proof.
  intros [Hsz Hnd Hst Hac Hid Hnx Hh Hn Hsq Hcs Hl Hw] Hpl.
  assert (owned p b cur rest bs (gs ++ [GNumber a]) ≡ₚ owned a p cur pl bs gs) as Ho.
  { unfold owned. rewrite unnumbered_app, Hpl. cbn. solve_Permutation. }
  constructor; try done.
  - by rewrite Ho.
  - intros c. rewrite Ho. apply Hst.
  - destruct (Hid p) as (-> & s & Hs & Hstate); [left|]. exists s. split; [done|by left].
  - intros c Hc. apply Hid. right. rewrite elem_of_cons in Hc. rewrite Hpl. by apply elem_of_cons.
  - rewrite pushes_app. cbn. by rewrite app_nil_r.
  - intros c Hc. apply Hl. apply elem_of_app in Hc as [?|Hc]; [done|].
    by apply list_elem_of_singleton in Hc.
Qed.

Lemma switchChannel_ok (o : oracle) (d : DoubleBuffer H S) (bs : list nat)
    (f : nat → list BufferItem) :
  flow d bs f →
  ∃ (d' : DoubleBuffer H S) (f' : nat → list BufferItem),
    switchChannel o d = Ok d' ∧ flow d' bs f' ∧ queued d' bs f' = queued d bs f ∧
    f' (active d') = [] ∧ active d' = passive d ∧ size d' = size d ∧ sequence d' = sequence d ∧
    currentSequence d' = currentSequence d ∧
    unnumbered (goroutines d') = unnumbered (goroutines d) ++ [active d] ∧
    pm d' = pm d ∧ mem (objs d') = mem (objs d) ∧ readMode d' = readMode d ∧ wm d' = wm d ∧
    ∃ s : SmartBuffer, bufs (objs d') !! active d' = Some s ∧ SmartBuffer.state s = WriteOnly.
Proof.
  intros [Hst Hp]. pose proof (fl_size Hp) as Hsz.
  pose proof (NoDup_active _ _ _ _ _ _ (fl_nodup Hp)) as Hna.
  destruct (fl_active Hp) as (s & (E & Hr & Hc & _ & Hlen) & _).
  assert (parts (size d) (sequence d) (currentSequence d) (active d) (passive d) (currentBuffer d)
    (pool d) (pendingHeap d) (goroutines d) (wm d) (<[active d := SetState ReadOnly s]> (bufs (objs d)))
    (next (objs d)) bs f) as Hp1.
  { eapply parts_insert; [apply fn_same_cases|done|apply active_owned|done|by apply SetState_repr|
      done|lia|done|]. intros _. split; [done|by right]. }
  unfold switchChannel. rewrite decide_False by tauto. unfold get_buf. cbn -[pool_Get].
  rewrite E. cbn -[pool_Get].
  match goal with |- context [pool_Get _ ?x] => set (d1 := x) end.
  destruct (pool_Get_cases (buffer_choice o) d1 Hsz) as [(b & rest & -> & Hpl)|(s1 & -> & Hr1 & Hc1 & Hs1)];
    cbn in *.
  - pose proof (parts_swap _ _ _ _ _ b _ _ rest _ _ _ _ _ _ _ Hp1 Hpl) as Hp2.
    eexists _, f. split; [done|]. split; [by split|]. cbn.
    destruct (fl_idle Hp1 (passive d)) as (Ef & s2 & (E2 & _) & Hs2); [left|].
    rewrite unnumbered_app. split_and!; try done; [|by exists s2].
    unfold queued. cbn. rewrite unnumbered_app, fmap_app, concat_app. cbn.
    by rewrite Ef, !app_nil_r.
  - pose proof (parts_add_idle _ _ _ _ _ _ _ _ _ _ _ _ _ _ s1 Hp1 Hr1 Hc1 Hs1) as Hp2.
    pose proof (parts_swap _ _ _ _ _ (next (objs d)) _ _ (pool d) _ _ _ _ _ _ _ Hp2 (Permutation_refl _)) as Hp3.
    pose proof (parts_fresh _ _ _ _ _ _ _ _ _ _ _ _ _ _ Hp1) as Hnew.
    unfold owned in Hnew. rewrite !elem_of_cons, !elem_of_app in Hnew.
    assert (passive d ≠ next (objs d)) as Hpn by (intros e; apply Hnew; right; left; by rewrite e).
    assert (active d ≠ next (objs d)) as Han by (intros e; apply Hnew; left; by rewrite e).
    destruct (fl_idle Hp1 (passive d)) as (Ef & s2 & (E2 & _) & Hs2); [left|].
    eexists _, _. split; [done|]. split; [by split|]. cbn.
    rewrite unnumbered_app. rewrite fn_insert_cases, decide_False, Ef by done.
    split_and!; try done.
    + unfold queued. cbn. rewrite unnumbered_app, fmap_app, concat_app. cbn.
      rewrite !fmap_insert_ne by tauto.
      rewrite !fn_insert_cases, !decide_False by done.
      by rewrite Ef, !app_nil_r.
    + exists s2. split; [|done]. by rewrite lookup_insert_ne.
Qed.

(** ** Writing *)

(** Two states that differ in nothing the flow depends on. *)
Definition same_core (d d' : DoubleBuffer H S) : Prop :=
  size d' = size d ∧ state d' = state d ∧ sequence d' = sequence d ∧
  currentSequence d' = currentSequence d ∧ active d' = active d ∧ passive d' = passive d ∧
  currentBuffer d' = currentBuffer d ∧ pool d' = pool d ∧ pendingHeap d' = pendingHeap d ∧
  goroutines d' = goroutines d ∧ wm d' = wm d ∧ bufs (objs d') = bufs (objs d) ∧
  next (objs d') = next (objs d) ∧ readMode d' = readMode d ∧ stop_closed d' = stop_closed d.

Lemma flow_same (d d' : DoubleBuffer H S) (bs : list nat) (f : nat → list BufferItem) :
  same_core d d' → flow d bs f → flow d' bs f ∧ queued d' bs f = queued d bs f.
Proof.
  intros (E1 & E2 & E3 & E4 & E5 & E6 & E7 & E8 & E9 & E10 & E11 & E12 & E13 & _) Hf.
  unfold flow, queued. by rewrite E1, E2, E3, E4, E5, E6, E7, E8, E9, E10, E11, E12, E13.
Qed.

Lemma small_copy_same (o : oracle) (n : Z) (src buf : slice) (d d' : DoubleBuffer H S) :
  small_copy o n src d = Ok (d', buf) → same_core d d'.
Proof.
  unfold small_copy. intros (([l m] & b) & _ & E)%rbind_ok.
  apply rbind_ok in E as ((m' & b') & _ & E). apply rbind_ok in E as (b2 & _ & E).
  apply rbind_ok in E as (m2 & _ & E). by injection E as <- _.
Qed.

Lemma classify_same (o : oracle) (p : slice) (d d' : DoubleBuffer H S) (it : BufferItem) :
  classify o p d = Ok (d', it) → same_core d d'.
Proof.
  unfold classify. case_decide; [|case_decide].
  - intros ((d1 & buf) & E & E2)%rbind_ok. apply small_copy_same in E.
    apply rbind_ok in E2 as (ptr & _ & E2). by injection E2 as <- _.
  - by intros [= <- _].
  - by intros [= <- _].
Qed.

(** How many buffers were handed over for reading so far. *)
Definition issued (d : DoubleBuffer H S) : Z :=
  sequence d + Z.of_nat (length (unnumbered (goroutines d))).

Lemma Write_ok (o : oracle) (p : slice) (d d1 : DoubleBuffer H S) (it : BufferItem)
    (bs : list nat) (f : nat → list BufferItem) :
  flow d bs f → classify o p d = Ok (d1, it) →
  ∃ (d' : DoubleBuffer H S) (f' : nat → list BufferItem),
    Write o p d = Ok (d', None) ∧ flow d' bs f' ∧ queued d' bs f' = queued d bs f ++ [it] ∧
    pm d' = pm d1 ∧ mem (objs d') = mem (objs d1) ∧ readMode d' = readMode d ∧ wm d' = wm d ∧
    issued d ≤ issued d' ≤ issued d + 1.
Proof.
  intros Hf Hcl. pose proof (classify_same _ _ _ _ _ Hcl) as Hsame.
  destruct (flow_same _ _ _ _ Hsame Hf) as [Hf1 <-]. pose proof Hf1 as [Hst1 Hp1].
  pose proof (fl_size Hp1) as Hsz.
  destruct Hsame as (_ & Hst & Esq & _ & _ & _ & _ & _ & _ & Egs & Ewm & _ & _ & Erm & _).
  assert (issued d = issued d1) as -> by (unfold issued; by rewrite Esq, Egs).
  rewrite <- Ewm, <- Erm.
  unfold Write. rewrite decide_False by (rewrite <- Hst, Hst1; done).
  rewrite Hcl. cbn [rbind]. rewrite decide_True by done.
  destruct (write_active_ok it d1 bs f Hf1) as (s & Es & [(_ & _ & s' & E & Hf2 & Hq)|(_ & E & Hf2 & Hq)]).
  - rewrite E. cbn [rbind]. eexists _, _. split; [done|]. split; [exact Hf2|].
    split; [exact Hq|]. unfold issued. cbn -[unnumbered]. split_and!; (done || lia).
  - rewrite E. cbn [rbind]. set (d2 := set_buf _ _ d1) in *.
    unfold slow_path, get_buf.
    assert (bufs (objs d2) !! active d2 = Some (SetState ReadOnly s)) as ->
      by (cbn; by rewrite lookup_insert_eq).
    cbn [rbind]. rewrite decide_True by done.
    destruct (switchChannel_ok o d2 bs f Hf2) as (d3 & f3 & -> & Hf3 & Hq3 & Hempty & _ & Hsz3 &
      Hsq3 & _ & Hun & Hpm & Hmem & Hrm & Hwm & s3 & Es3 & Hs3).
    cbn [rbind].
    destruct (write_active_ok it d3 bs f3 Hf3)
      as (s4 & Es4 & [(_ & _ & s' & E4 & Hf4 & Hq4)|([Hro|Hfull] & _)]).
    + rewrite E4. eexists _, _. split; [done|]. split; [exact Hf4|].
      split; [by rewrite Hq4, Hq3|]. unfold issued. cbn -[d2 unnumbered].
      rewrite Hsq3, Hun, length_app. cbn -[unnumbered]. split_and!; (done || lia).
    + rewrite Es3 in Es4. simplify_eq. by rewrite Hs3 in Hro.
    + rewrite Hempty in Hfull. destruct Hf3 as [_ Hp3].
      pose proof (fl_size Hp3). cbn in Hfull. lia.
Qed.

(** ** The goroutines of a switch *)

(** Goroutine [i] may run: it does not overtake another one to its number. *)
Definition in_order (i : nat) (d : DoubleBuffer H S) : Prop :=
  match goroutines d !! i with
  | Some (GNumber _) => unnumbered (take i (goroutines d)) = []
  | _ => True
  end.

Lemma zip_seqZ_snoc (cs : Z) (bs : list nat) (b : nat) :
  zip (seqZ cs (Z.of_nat (length (bs ++ [b])))) (bs ++ [b]) =
    zip (seqZ cs (Z.of_nat (length bs))) bs ++ [(cs + Z.of_nat (length bs), b)].
Proof.
  rewrite length_app, Nat2Z.inj_add. cbn [length]. rewrite seqZ_app by lia.
  rewrite zip_with_app by (rewrite length_seqZ; lia). done.
Qed.

Lemma zip_seqZ_cons (cs : Z) (bs : list nat) (b : nat) :
  zip (seqZ cs (Z.of_nat (length (b :: bs)))) (b :: bs) =
    (cs, b) :: zip (seqZ (cs + 1) (Z.of_nat (length bs))) bs.
Proof.
  cbn [length]. rewrite seqZ_cons by lia. cbn. do 3 f_equal; lia.
Qed.

Lemma elem_of_zip_seqZ (cs s : Z) (bs : list nat) (b : nat) :
  (s, b) ∈ zip (seqZ cs (Z.of_nat (length bs))) bs → cs ≤ s ∧ bs !! Z.to_nat (s - cs) = Some b.
Proof.
  intros [i Hi]%list_elem_of_lookup. rewrite lookup_zip_with_Some in Hi.
  destruct Hi as (s' & b' & [= <- <-] & Hs & Hb). apply lookup_seqZ in Hs as [-> _].
  split; [lia|]. by replace (Z.to_nat (cs + Z.of_nat i - cs)) with i by lia.
Qed.

(** Goroutines that do not number a buffer, the heap and the waiters. *)
Lemma parts_goroutines (sz sq cs : Z) (a p : nat) (cur : option nat) (pl : list nat) (h h' : H)
    (gs gs' : list goroutine) (w w' : WaiterManager) (bm : gmap nat SmartBuffer) (nx : nat)
    (bs : list nat) (f : nat → list BufferItem) :
  parts sz sq cs a p cur pl h gs w bm nx bs f →
  unnumbered gs' = unnumbered gs → pq_wf h' →
  pq_contents h' ++ pushes gs' ≡ₚ pq_contents h ++ pushes gs →
  (∀ b : nat, GLen b ∈ gs' → GLen b ∈ gs ∨ b ∈ bs) → (Waiters.wf w' ∧ closed w' = false) →
  parts sz sq cs a p cur pl h' gs' w' bm nx bs f.
Proof.
  intros [Hsz Hnd Hst Hac Hid Hnx Hh Hn Hsq Hcs Hl Hw] Hun Hwf Hc Hlen Hw'.
  unfold owned in *. constructor; unfold owned; rewrite ?Hun; try done.
  - by rewrite Hc.
  - intros b [Hb|Hb]%Hlen; [by apply Hl|].
    destruct (Hst b) as (s & T & E & _); [|by eexists].
    rewrite !elem_of_cons, !elem_of_app. tauto.
Qed.

(** The first unnumbered buffer gets the next number. *)
Lemma parts_number (sz sq cs : Z) (a p b : nat) (cur : option nat) (pl : list nat) (h : H)
    (l1 l2 : list goroutine) (w : WaiterManager) (bm : gmap nat SmartBuffer) (nx : nat)
    (bs : list nat) (f : nat → list BufferItem) :
  parts sz sq cs a p cur pl h (l1 ++ GNumber b :: l2) w bm nx bs f → unnumbered l1 = [] →
  parts sz (sq + 1) cs a p cur pl h (l1 ++ GPush (sq + 1) b :: l2) w bm nx (bs ++ [b]) f.
Proof.
  intros [Hsz Hnd Hst Hac Hid Hnx Hh Hn Hsq Hcs Hl Hw] Hl1.
  assert (owned a p cur pl (bs ++ [b]) (l1 ++ GPush (sq + 1) b :: l2) =
    owned a p cur pl bs (l1 ++ GNumber b :: l2)) as Ho.
  { unfold owned. rewrite !unnumbered_app, Hl1. cbn. by rewrite <- app_assoc. }
  constructor; rewrite ?Ho; try done.
  - rewrite zip_seqZ_snoc, <- Hn, !pushes_app. cbn.
    replace (cs + Z.of_nat (length bs)) with (sq + 1) by lia. solve_Permutation.
  - rewrite length_app. cbn. lia.
  - intros c Hc. apply Hl. rewrite elem_of_app, elem_of_cons in *.
    destruct Hc as [?|[?|?]]; [by left|done|right; by right].
Qed.

(** A goroutine moved on and the items stayed where they were. *)
Definition carried (d d' : DoubleBuffer H S) (bs bs' : list nat) (f : nat → list BufferItem) : Prop :=
  flow d' bs' f ∧ queued d' bs' f = queued d bs f ∧ issued d' = issued d ∧
  currentBuffer d' = currentBuffer d ∧ currentSequence d' = currentSequence d ∧
  pm d' = pm d ∧ mem (objs d') = mem (objs d) ∧ readMode d' = readMode d.

Lemma run_GNumber_ok (range : gmap Z nat → list (Z * nat)) (i b : nat) (d : DoubleBuffer H S)
    (bs : list nat) (f : nat → list BufferItem) :
  flow d bs f → goroutines d !! i = Some (GNumber b) → in_order i d → issued d < 2 ^ 63 →
  ∃ d' : DoubleBuffer H S, run_goroutine range i d = Ok d' ∧ carried d d' bs (bs ++ [b]) f.
Proof.
  intros [Hst Hp] E Hio Hb. unfold run_goroutine, in_order in *. rewrite E in *.
  pose proof (take_drop_middle _ _ _ E) as Egs.
  assert (i < length (goroutines d))%nat as Hi by (by apply lookup_lt_Some in E).
  set (l1 := take i (goroutines d)) in *. set (l2 := drop (Datatypes.S i) (goroutines d)) in *.
  pose proof Hp as Hp'. rewrite <- Egs in Hp'.
  assert (sequence d < issued d) as Hlt.
  { unfold issued. rewrite <- Egs, unnumbered_app, Hio.
    change (unnumbered (GNumber b :: l2)) with (b :: unnumbered l2). cbn [length app]. lia. }
  pose proof (fl_seq Hp). pose proof (fl_cs Hp).
  rewrite signed_id by (unfold in_signed; lia).
  eexists. split; [done|]. rewrite insert_take_drop by done. fold l1 l2.
  split; [split; [done|]; cbn; by apply parts_number|]. split; [|split_and!; try done].
  - unfold queued. cbn -[unnumbered]. rewrite <- Egs, !unnumbered_app, Hio.
    change (unnumbered (GNumber b :: l2)) with (b :: unnumbered l2).
    change (unnumbered (GPush (sequence d + 1) b :: l2)) with (unnumbered l2).
    rewrite fmap_app, concat_app. cbn -[unnumbered]. by rewrite app_nil_r, <- !app_assoc.
  - unfold issued. cbn -[unnumbered]. rewrite <- Egs, !unnumbered_app, Hio. cbn -[unnumbered].
    change (unnumbered (GNumber b :: l2)) with (b :: unnumbered l2).
    change (unnumbered (GPush (sequence d + 1) b :: l2)) with (unnumbered l2). cbn [length]. lia.
Qed.

Lemma run_GPush_ok (range : gmap Z nat → list (Z * nat)) (i b : nat) (s : Z) (d : DoubleBuffer H S)
    (bs : list nat) (f : nat → list BufferItem) :
  flow d bs f → goroutines d !! i = Some (GPush s b) →
  ∃ d' : DoubleBuffer H S, run_goroutine range i d = Ok d' ∧ carried d d' bs bs f.
Proof.
  intros [Hst Hp] E. unfold run_goroutine. rewrite E.
  pose proof (take_drop_middle _ _ _ E) as Egs.
  assert (i < length (goroutines d))%nat as Hi by (by apply lookup_lt_Some in E).
  set (l1 := take i (goroutines d)) in *. set (l2 := drop (Datatypes.S i) (goroutines d)) in *.
  destruct (pq_push_ok (pendingHeap d) (s, b) (fl_heap Hp)) as (h' & -> & Hwf' & Hc').
  cbn [rbind]. eexists. split; [done|]. rewrite insert_take_drop by done. fold l1 l2.
  assert (unnumbered (l1 ++ GLen b :: l2) = unnumbered (goroutines d)) as Hun
    by (by rewrite <- Egs, !unnumbered_app).
  split; [split; [done|]; cbn|unfold queued, issued; cbn -[unnumbered]; by rewrite Hun].
  eapply parts_goroutines; [done|done|done| | |by apply (fl_wm Hp)].
  - rewrite Hc', <- Egs, !pushes_app. cbn. solve_Permutation.
  - intros c Hc. rewrite <- Egs. rewrite elem_of_app, elem_of_cons in *.
    destruct Hc as [?|[[= ->]|?]]; [left; by left| |left; right; by right].
    right. assert ((s, b) ∈ zip (seqZ (currentSequence d) (Z.of_nat (length bs))) bs) as Hin.
    { rewrite <- (fl_numbered Hp), <- Egs, pushes_app. cbn.
      rewrite !elem_of_app, elem_of_cons. by right; right; left. }
    apply elem_of_zip_seqZ in Hin as [_ Hin]. by eapply list_elem_of_lookup_2.
Qed.

Lemma run_GLen_ok (range : gmap Z nat → list (Z * nat)) (i b : nat) (d : DoubleBuffer H S)
    (bs : list nat) (f : nat → list BufferItem) :
  flow d bs f → goroutines d !! i = Some (GLen b) →
  ∃ d' : DoubleBuffer H S, run_goroutine range i d = Ok d' ∧ carried d d' bs bs f.
Proof.
  intros [Hst Hp] E. unfold run_goroutine. rewrite E.
  pose proof (take_drop_middle _ _ _ E) as Egs.
  assert (i < length (goroutines d))%nat as Hi by (by apply lookup_lt_Some in E).
  set (l1 := take i (goroutines d)) in *. set (l2 := drop (Datatypes.S i) (goroutines d)) in *.
  unfold get_buf. destruct (fl_len Hp b) as [s Es]; [by eapply list_elem_of_lookup_2|].
  rewrite Es. cbn [rbind]. eexists. split; [done|]. rewrite insert_take_drop by done. fold l1 l2.
  assert (unnumbered (l1 ++ GNotify (SmartBuffer.Len s) :: l2) = unnumbered (goroutines d)) as Hun
    by (by rewrite <- Egs, !unnumbered_app).
  split; [split; [done|]; cbn|unfold queued, issued; cbn -[unnumbered]; by rewrite Hun].
  eapply parts_goroutines; [done|done|by apply (fl_heap Hp)| | |by apply (fl_wm Hp)].
  - by rewrite <- Egs, !pushes_app.
  - intros c Hc. rewrite <- Egs. rewrite elem_of_app, elem_of_cons in *.
    destruct Hc as [?|[?|?]]; [left; by left|done|left; right; by right].
Qed.

Lemma run_GNotify_ok (range : gmap Z nat → list (Z * nat)) `{!RangeOrder range} (i : nat) (n : Z)
    (d : DoubleBuffer H S) (bs : list nat) (f : nat → list BufferItem) :
  flow d bs f → goroutines d !! i = Some (GNotify n) →
  ∃ d' : DoubleBuffer H S, run_goroutine range i d = Ok d' ∧ carried d d' bs bs f.
Proof.
  intros [Hst Hp] E. unfold run_goroutine. rewrite E.
  pose proof (take_drop_middle _ _ _ E) as Egs.
  set (l1 := take i (goroutines d)) in *. set (l2 := drop (Datatypes.S i) (goroutines d)) in *.
  destruct (fl_wm Hp) as [Hw Hcl].
  destruct (notify_ok range n (wm d) Hw Hcl) as (w' & woken & -> & Hn). cbn [rbind].
  eexists. split; [done|]. rewrite delete_take_drop. fold l1 l2.
  assert (unnumbered (l1 ++ l2) = unnumbered (goroutines d)) as Hun
    by (by rewrite <- Egs, !unnumbered_app).
  split; [split; [done|]; cbn|unfold queued, issued; cbn -[unnumbered]; by rewrite Hun].
  eapply parts_goroutines; [done|done|by apply (fl_heap Hp)| | |].
  - by rewrite <- Egs, !pushes_app.
  - intros c Hc. left. rewrite <- Egs. rewrite elem_of_app, elem_of_cons in *.
    destruct Hc as [?|?]; [by left|right; by right].
  - split; [by eapply notified_wf|]. destruct Hn as (_ & _ & _ & _ & _ & _ & _ & _ & -> & _). done.
Qed.

Lemma run_goroutine_ok (range : gmap Z nat → list (Z * nat)) `{!RangeOrder range} (i : nat)
    (d : DoubleBuffer H S) (bs : list nat) (f : nat → list BufferItem) :
  flow d bs f → in_order i d → issued d < 2 ^ 63 →
  ∃ (d' : DoubleBuffer H S) (bs' : list nat),
    run_goroutine range i d = Ok d' ∧ carried d d' bs bs' f.
Proof.
  intros Hf Hio Hb. destruct (goroutines d !! i) as [[b|s b|b|n]|] eqn:E.
  - destruct (run_GNumber_ok range i b d bs f Hf E Hio Hb) as (d' & ? & ?); eauto.
  - destruct (run_GPush_ok range i b s d bs f Hf E) as (d' & ? & ?); eauto.
  - destruct (run_GLen_ok range i b d bs f Hf E) as (d' & ? & ?); eauto.
  - destruct (run_GNotify_ok range i n d bs f Hf E) as (d' & ? & ?); eauto.
  - exists d, bs. unfold run_goroutine. rewrite E. done.
Qed.

(** A schedule whose every step is in order. *)
Fixpoint calm (range : gmap Z nat → list (Z * nat)) (sched : list nat) (d : DoubleBuffer H S) :
    Prop :=
  match sched with
  | [] => True
  | i :: sched =>
      in_order i d ∧
      match run_goroutine range i d with
      | Ok d => calm range sched d
      | _ => True
      end
  end.

Lemma run_schedule_ok (range : gmap Z nat → list (Z * nat)) `{!RangeOrder range}
    (sched : list nat) (d : DoubleBuffer H S) (bs : list nat) (f : nat → list BufferItem) :
  flow d bs f → calm range sched d → issued d < 2 ^ 63 →
  ∃ (d' : DoubleBuffer H S) (bs' : list nat),
    run_schedule range sched d = Ok d' ∧ flow d' bs' f ∧ queued d' bs' f = queued d bs f ∧
    issued d' = issued d ∧ currentBuffer d' = currentBuffer d ∧
    currentSequence d' = currentSequence d ∧
    pm d' = pm d ∧ mem (objs d') = mem (objs d) ∧ readMode d' = readMode d.
Proof.
  revert d bs. induction sched as [|i sched IH]; intros d bs Hf Hc Hb; [by exists d, bs|].
  destruct Hc as [Hio Hc]. cbn [run_schedule].
  destruct (run_goroutine_ok range i d bs f Hf Hio Hb)
    as (d1 & bs1 & E & Hf1 & <- & Hi & <- & <- & <- & <- & <-). rewrite E in *. cbn [rbind].
  rewrite <- Hi. apply IH; [done|done|lia].
Qed.

(** ** Picking the next buffer *)

(** The schedules of the sleeps of [pick_loop] are calm. *)
Fixpoint calm_pick (range : gmap Z nat → list (Z * nat)) (n : nat) (sleeps : list (list nat))
    (d : DoubleBuffer H S) : Prop :=
  match n with
  | O => True
  | Datatypes.S n =>
      match pq_pick (pendingHeap d) with
      | Ok (h, Some (s, b)) =>
          if decide (s = currentSequence d) then True
          else
            match pq_push (s, b) h with
            | Ok h =>
                let d := set_pendingHeap h d in
                calm range (hd [] sleeps) d ∧
                match run_schedule range (hd [] sleeps) d with
                | Ok d => calm_pick range n (tl sleeps) d
                | _ => True
                end
            | _ => True
            end
      | _ => True
      end
  end.

(** The first numbered buffer becomes the current one. *)
Lemma parts_pick (sz sq cs : Z) (a p b : nat) (pl : list nat) (h h' : H) (gs : list goroutine)
    (w : WaiterManager) (bm : gmap nat SmartBuffer) (nx : nat) (bs : list nat)
    (f : nat → list BufferItem) :
  parts sz sq cs a p None pl h gs w bm nx bs f → pq_wf h' →
  pq_contents h ≡ₚ (cs, b) :: pq_contents h' →
  ∃ bs' : list nat, bs = b :: bs' ∧ parts sz sq (cs + 1) a p (Some b) pl h' gs w bm nx bs' f.
Proof.
  intros [Hsz Hnd Hst Hac Hid Hnx Hh Hn Hsq Hcs Hl Hw] Hwf Hc.
  rewrite Hc in Hn. assert ((cs, b) ∈ zip (seqZ cs (Z.of_nat (length bs))) bs) as Hin
    by (rewrite <- Hn; left).
  apply elem_of_zip_seqZ in Hin as [_ Hin]. rewrite Z.sub_diag in Hin.
  destruct bs as [|b' bs]; [done|]. cbn in Hin. injection Hin as ->. exists bs. split; [done|].
  rewrite zip_seqZ_cons in Hn. cbn in Hn. apply Permutation_cons_inv in Hn.
  assert (owned a p (Some b) pl bs gs ≡ₚ owned a p None pl (b :: bs) gs) as Ho
    by (unfold owned; cbn; solve_Permutation).
  constructor; try done.
  - by rewrite Ho.
  - intros c. rewrite Ho. apply Hst.
  - cbn [length] in Hsq. lia.
  - lia.
Qed.

Lemma pick_loop_ok (range : gmap Z nat → list (Z * nat)) `{!RangeOrder range} (n : nat)
    (sleeps : list (list nat)) (d : DoubleBuffer H S) (bs : list nat) (f : nat → list BufferItem) :
  flow d bs f → currentBuffer d = None → calm_pick range n sleeps d → issued d < 2 ^ 63 - 1 →
  ∃ (d' : DoubleBuffer H S) (bs' : list nat) (found : bool),
    pick_loop range n sleeps d = Ok (d', found) ∧ flow d' bs' f ∧
    queued d' bs' f = queued d bs f ∧ issued d' = issued d ∧
    pm d' = pm d ∧ mem (objs d') = mem (objs d) ∧ readMode d' = readMode d.
Proof.
  revert sleeps d bs. induction n as [|n IH]; intros sleeps d bs Hf Hcur Hc Hb;
    [by exists d, bs, true|].
  pose proof Hf as [Hst Hp]. pose proof (fl_heap Hp) as Hwf.
  cbn [pick_loop]. cbn [calm_pick] in Hc.
  destruct (decide (pq_contents (pendingHeap d) = [])) as [He|Hne].
  { rewrite (pq_pick_none _ Hwf He). cbn [rbind]. exists (set_pendingHeap (pendingHeap d) d), bs, false.
    split; [done|]. split; [done|]. done. }
  destruct (pq_pick_some _ Hwf Hne) as (h' & [s b] & Ep & Hwf' & Hcont & _).
  rewrite Ep in *. cbn [rbind] in *. case_decide as Hs.
  - rewrite decide_True by done. rewrite Hcur in Hp.
    rewrite Hs in Hcont. change (currentSequence (set_pendingHeap h' d)) with (currentSequence d) in Hcont.
    destruct (parts_pick _ _ _ _ _ b _ _ h' _ _ _ _ _ _ Hp Hwf' Hcont) as (bs' & -> & Hp').
    pose proof (fl_seq Hp') as Hsq.
    pose proof (fl_cs Hp) as Hcs.
    assert (int64 (currentSequence (set_pendingHeap h' d) + 1) = currentSequence d + 1) as ->.
    { cbn. apply signed_id; [lia|]. unfold issued in Hb. unfold in_signed. lia. }
    eexists _, bs', true. split; [done|]. split; [by split|].
    split; [|split_and!; done]. unfold queued. cbn -[unnumbered]. rewrite Hcur. cbn -[unnumbered].
    by rewrite app_nil_r, <- app_assoc.
  - rewrite decide_False by done.
    destruct (pq_push_ok h' (s, b) Hwf') as (h2 & E2 & Hwf2 & Hc2).
    change (pendingHeap (set_pendingHeap h' d)) with h'. rewrite E2 in *. cbn [rbind].
    destruct Hc as [Hcalm Hc]. set (d1 := set_pendingHeap h2 (set_pendingHeap h' d)) in *.
    assert (flow d1 bs f) as Hf1.
    { split; [done|]. eapply parts_goroutines; [exact Hp|done|done| |by left|].
      - cbn -[pushes]. by rewrite Hc2, Hcont.
      - by apply (fl_wm Hp). }
    change (set_pendingHeap h2 d) with d1 in *.
    destruct (run_schedule_ok range (hd [] sleeps) d1 bs f Hf1 Hcalm) as
      (d2 & bs2 & E & Hf2 & Hq2 & Hi2 & Hcur2 & _ & Hpm & Hmem & Hrm).
    { change (issued d1) with (issued d). lia. }
    rewrite E in *. cbn [rbind].
    destruct (IH (tl sleeps) d2 bs2 Hf2) as (d3 & bs3 & found & E3 & Hf3 & Hq3 & Hi3 & H3).
    { by rewrite Hcur2. }
    { done. }
    { by rewrite Hi2. }
    exists d3, bs3, found. split; [exact E3|]. split; [exact Hf3|]. rewrite Hq3, Hq2, Hi3, Hi2.
    split; [done|]. split; [done|]. rewrite Hpm, Hmem, Hrm in H3. exact H3.
Qed.

(** ** Reading *)

(** The used-up current buffer goes back to the pool. *)
Lemma parts_discard (sz sq cs : Z) (a p b : nat) (pl : list nat) (h : H) (gs : list goroutine)
    (w : WaiterManager) (bm : gmap nat SmartBuffer) (nx : nat) (bs : list nat)
    (f : nat → list BufferItem) (s : SmartBuffer) :
  parts sz sq cs a p (Some b) pl h gs w bm nx bs f → bm !! b = Some s → f b = [] →
  parts sz sq cs a p None (b :: pl) h gs w (<[b := Reset s]> bm) nx bs f.
Proof.
  intros Hp Es Eb.
  assert (b ∈ owned a p (Some b) pl bs gs) as Hb by (unfold owned; cbn; right; right; left).
  destruct Hp as [Hsz Hnd Hst Hac Hid Hnx Hh Hn Hsq Hcs Hl Hw].
  destruct (Hst b Hb) as (s' & T & E & Hr & Hc & HT & HL). rewrite Es in E. simplify_eq.
  assert (owned a p None (b :: pl) bs gs ≡ₚ owned a p (Some b) pl bs gs) as Ho by done.
  assert (stored (capacity s') (<[b := Reset s']> bm) b (Reset s') (-1) []) as Hsb.
  { split_and!; [apply lookup_insert_eq|by eapply Reset_repr|done|done|cbn; lia]. }
  assert (b ≠ a ∧ b ∉ p :: pl) as [Hba Hbi].
  { unfold owned in Hnd. cbn in Hnd. rewrite !NoDup_cons, !elem_of_cons, !elem_of_app in Hnd.
    rewrite elem_of_cons. split; intros Hx; naive_solver. }
  constructor; try done.
  - intros c. rewrite Ho. intros Hc'. destruct (decide (c = b)) as [->|Hne].
    + rewrite Eb. by exists (Reset s'), (-1).
    + destruct (Hst c Hc') as (s2 & T2 & H2). exists s2, T2. by apply stored_insert_ne.
  - destruct Hac as (s2 & H2 & ?). exists s2. split; [by apply stored_insert_ne|done].
  - intros c Hc'. destruct (decide (c = b)) as [->|Hne].
    + split; [done|]. exists (Reset s'). by split.
    + destruct (Hid c) as (? & s2 & H2 & ?); [rewrite !elem_of_cons in *; tauto|].
      split; [done|]. exists s2. split; [by apply stored_insert_ne|done].
  - intros c Hc'. apply Hnx. destruct (decide (c = b)) as [->|]; [by eexists|].
    by rewrite lookup_insert_ne in Hc'.
  - intros c Hc'. destruct (decide (c = b)) as [->|]; [rewrite lookup_insert_eq; by eexists|].
    rewrite lookup_insert_ne by done. by apply Hl.
Qed.

(** The current buffer, if any. *)
Lemma current_stored (d : DoubleBuffer H S) (bs : list nat) (f : nat → list BufferItem) (b : nat) :
  flow d bs f → currentBuffer d = Some b →
  ∃ (s : SmartBuffer) (T : Z), stored (size d) (bufs (objs d)) b s T (f b) ∧
    b ≠ active d ∧ b ∉ passive d :: pool d ∧
    b ∈ owned (active d) (passive d) (currentBuffer d) (pool d) bs (goroutines d).
Proof.
  intros [_ Hp] Ec.
  assert (b ∈ owned (active d) (passive d) (currentBuffer d) (pool d) bs (goroutines d)) as Hb
    by (unfold owned; rewrite Ec; cbn; right; right; left).
  destruct (fl_stored Hp b Hb) as (s & T & Hs). exists s, T.
  pose proof (fl_nodup Hp) as Hnd. unfold owned in Hnd. rewrite Ec in Hnd.
  cbn in Hnd. rewrite !NoDup_cons, !elem_of_cons, !elem_of_app in Hnd.
  rewrite elem_of_cons. split; [done|]. split; [naive_solver|]. split; [naive_solver|done].
Qed.

(** [tryRead] up to the read itself. *)
Lemma tryRead_picks (range : gmap Z nat → list (Z * nat)) `{!RangeOrder range} (o : oracle)
    (sleeps : list (list nat)) (d : DoubleBuffer H S) (bs : list nat) (f : nat → list BufferItem) :
  flow d bs f → issued d < 2 ^ 63 - 1 →
  (∀ d1 : DoubleBuffer H S, discard_current d = Ok d1 → calm_pick range maxRetires sleeps d1) →
  ∃ (d1 : DoubleBuffer H S) (bs1 : list nat),
    flow d1 bs1 f ∧ queued d1 bs1 f = queued d bs f ∧ issued d1 = issued d ∧
    pm d1 = pm d ∧ mem (objs d1) = mem (objs d) ∧ readMode d1 = readMode d ∧
    (tryRead range o sleeps d = Ok (d1, inr ErrNoBuffer) ∨
     tryRead range o sleeps d = read_current o d1 ∧ currentBuffer d1 ≠ None).
Proof.
  intros Hf Hb Hcalm. unfold tryRead, current_empty.
  assert (∀ d0 : DoubleBuffer H S, flow d0 bs f → currentBuffer d0 = None →
    queued d0 bs f = queued d bs f → issued d0 = issued d → pm d0 = pm d →
    mem (objs d0) = mem (objs d) → readMode d0 = readMode d → calm_pick range maxRetires sleeps d0 →
    ∃ (d1 : DoubleBuffer H S) (bs1 : list nat),
      flow d1 bs1 f ∧ queued d1 bs1 f = queued d bs f ∧ issued d1 = issued d ∧
      pm d1 = pm d ∧ mem (objs d1) = mem (objs d) ∧ readMode d1 = readMode d ∧
      ((let* (d, picked) := pickBufferFromHeap range sleeps d0 in
        if picked then read_current o d else Ok (d, inr ErrNoBuffer)) = Ok (d1, inr ErrNoBuffer) ∨
       (let* (d, picked) := pickBufferFromHeap range sleeps d0 in
        if picked then read_current o d else Ok (d, inr ErrNoBuffer)) = read_current o d1 ∧
       currentBuffer d1 ≠ None)) as Hpick.
  { intros d0 Hf0 Hc0 Hq0 Hi0 Hpm0 Hmem0 Hrm0 Hcalm0.
    destruct (pick_loop_ok range maxRetires sleeps d0 bs f Hf0 Hc0 Hcalm0) as
      (d1 & bs1 & found & E & Hf1 & Hq1 & Hi1 & Hpm1 & Hmem1 & Hrm1); [lia|].
    exists d1, bs1. rewrite Hq1, Hi1, Hpm1, Hmem1, Hrm1. split_and!; try done.
    unfold pickBufferFromHeap. rewrite E. cbn [rbind]. destruct found; cbn [rbind]; [|by left].
    destruct (currentBuffer d1); cbn; [by right|by left]. }
  destruct (currentBuffer d) as [b|] eqn:Ec.
  - destruct (current_stored d bs f b Hf Ec) as (s & T & (Es & Hr & _) & _).
    unfold get_buf. rewrite Es. cbn [rbind]. case_bool_decide as Hlen.
    + unfold discard_current in *. rewrite Ec in *. unfold get_buf in *. rewrite Es in *.
      cbn [rbind] in *. apply Hpick; try done.
      * destruct Hf as [Hst Hp]. split; [done|]. cbn. rewrite Ec in Hp.
        apply parts_discard; [done|done|]. pose proof (repr_count _ _ _ Hr) as Hcnt.
        unfold SmartBuffer.Len in Hlen. apply nil_length_inv. lia.
      * unfold queued. cbn -[unnumbered]. rewrite Ec. cbn -[unnumbered].
        assert (f b = []) as ->; [|done]. pose proof (repr_count _ _ _ Hr) as Hcnt.
        unfold SmartBuffer.Len in Hlen. apply nil_length_inv. lia.
      * by apply Hcalm.
    + exists d, bs. rewrite Ec. split_and!; try done. by right.
  - cbn [rbind]. unfold discard_current in *. rewrite Ec in *. cbn [rbind]. apply Hpick; try done.
    by apply Hcalm.
Qed.

(** Taking the oldest item out of the current buffer. *)
Lemma pop_current_ok (d : DoubleBuffer H S) (bs : list nat) (f : nat → list BufferItem) :
  flow d bs f → currentBuffer d ≠ None →
  ∃ (b : nat) (s : SmartBuffer), currentBuffer d = Some b ∧
  let d' := set_buf b s d in
  ((f b = [] ∧ pop_current d = Ok (d', (0, 0)) ∧ flow d' bs f ∧ queued d' bs f = queued d bs f) ∨
   (∃ (x : BufferItem) (f' : nat → list BufferItem),
      pop_current d = Ok (d', (Ptr x, Size x)) ∧ flow d' bs f' ∧
      queued d bs f = x :: queued d' bs f')).
Proof.
  intros Hf Hc. destruct (currentBuffer d) as [b|] eqn:Ec; [|done].
  destruct (current_stored d bs f b Hf Ec) as (s & T & Hs & Hba & Hbi & Hb).
  pose proof Hs as (Es & Hr & Hcap & HT & HL). pose proof Hf as [Hst Hp].
  pose proof (fl_size Hp) as Hsz.
  unfold pop_current. rewrite Ec. unfold get_buf. rewrite Es. cbn [rbind].
  destruct (f b) as [|x its] eqn:Ef.
  - exists b, s. split; [done|]. left. split; [done|]. rewrite (Pop_empty s T Hr). cbn [rbind].
    split; [done|]. split; [|done]. split; [done|].
    eapply parts_insert; [apply fn_same_cases|exact Hp|done|done|rewrite Ef; done|done|done|rewrite Ef; done|done].
  - exists b, (popped T s). split; [done|]. right. exists x, (<[b := its]> f).
    rewrite (Pop_takes s T x its Hr) by (eapply stored_room; [done..|cbn in HL; lia]).
    cbn [rbind]. split; [done|]. split.
    + split; [done|]. cbn [length] in HL.
      eapply parts_insert; [apply fn_insert_cases|exact Hp|done|done|by eapply popped_repr|done|lia|cbn; lia|done].
    + pose proof (fl_nodup Hp) as Hnd. unfold owned in Hnd.
      rewrite Ec in Hnd. cbn -[unnumbered] in Hnd.
      rewrite !NoDup_cons, !elem_of_app in Hnd. destruct Hnd as (_ & _ & Hn & _).
      unfold queued. cbn -[unnumbered]. rewrite Ec. cbn -[unnumbered].
      rewrite Ef, fn_lookup_insert, fn_lookup_insert_ne by done.
      rewrite !fmap_insert_ne by tauto. done.
Qed.
(** ** Reading when no switch is under way *)

(** Every buffer handed over so far is on the heap. *)
Definition quiet (d : DoubleBuffer H S) : Prop :=
  unnumbered (goroutines d) = [] ∧ pushes (goroutines d) = [].

(** The next buffer is found at the first attempt. *)
Lemma pick_quiet (range : gmap Z nat → list (Z * nat)) (sleeps : list (list nat))
    (d : DoubleBuffer H S) (b : nat) (bs : list nat) (f : nat → list BufferItem) :
  flow d (b :: bs) f → currentBuffer d = None → quiet d → issued d < 2 ^ 63 - 1 →
  ∃ d' : DoubleBuffer H S,
    pick_loop range maxRetires sleeps d = Ok (d', true) ∧ flow d' bs f ∧
    queued d' bs f = queued d (b :: bs) f ∧ currentBuffer d' = Some b ∧
    goroutines d' = goroutines d ∧ active d' = active d ∧ issued d' = issued d ∧
    pm d' = pm d ∧ mem (objs d') = mem (objs d) ∧ readMode d' = readMode d.
Proof.
  intros [Hst Hp] Hcur [Hun Hpu] Hb. rewrite Hcur in Hp.
  pose proof (fl_heap Hp) as Hwf.
  pose proof (fl_numbered Hp) as Hn. rewrite Hpu, app_nil_r in Hn.
  assert ((currentSequence d, b) ∈ pq_contents (pendingHeap d)) as Hin
    by (rewrite Hn, zip_seqZ_cons; left).
  assert (pq_contents (pendingHeap d) ≠ []) as Hne by (intros E; rewrite E in Hin; by apply elem_of_nil in Hin).
  destruct (pq_pick_some _ Hwf Hne) as (h' & [s c] & Ep & Hwf' & Hcont & Hmin).
  assert (s = currentSequence d) as ->.
  { assert ((s, c) ∈ zip (seqZ (currentSequence d) (Z.of_nat (length (b :: bs)))) (b :: bs)) as Hx
      by (rewrite <- Hn, Hcont; left).
    apply elem_of_zip_seqZ in Hx as [? _]. rewrite Hcont in Hin.
    apply elem_of_cons in Hin as [[= <- _]|Hin]; [done|]. specialize (Hmin _ Hin). cbn in Hmin. lia. }
  destruct (parts_pick _ _ _ _ _ c _ _ h' _ _ _ _ _ _ Hp Hwf' Hcont) as (bs' & [= <- <-] & Hp').
  pose proof (fl_seq Hp') as Hsq.
  pose proof (fl_cs Hp) as Hcs.
  change maxRetires with (Datatypes.S 2). cbn [pick_loop]. rewrite Ep. cbn [rbind].
  rewrite decide_True by done.
  assert (int64 (currentSequence (set_pendingHeap h' d) + 1) = currentSequence d + 1) as ->.
  { cbn. apply signed_id; [lia|]. unfold issued in Hb. unfold in_signed. lia. }
  eexists. split; [done|]. split; [by split|].
  split; [|split_and!; done]. unfold queued. cbn -[unnumbered]. rewrite Hcur. cbn -[unnumbered].
  by rewrite app_nil_r, <- app_assoc.
Qed.

(** What a read does once the current buffer is gone. *)
Definition pick_and_read (range : gmap Z nat → list (Z * nat)) (o : oracle) (d : DoubleBuffer H S) :
    result (DoubleBuffer H S * (DataChunk free_action + error)) :=
  let* (d, picked) := pickBufferFromHeap range [] d in
  if picked then read_current o d else Ok (d, inr ErrNoBuffer).

(** The read of [d1] instead of [d]: the same items, settled as before. *)
Definition settled (d d1 : DoubleBuffer H S) (bs bs1 : list nat) (f : nat → list BufferItem) : Prop :=
  flow d1 bs1 f ∧ queued d1 bs1 f = queued d bs f ∧ quiet d1 ∧ active d1 = active d ∧
  issued d1 = issued d ∧ pm d1 = pm d ∧ mem (objs d1) = mem (objs d) ∧ readMode d1 = readMode d.

Lemma pick_and_read_quiet (range : gmap Z nat → list (Z * nat)) (o : oracle) (d : DoubleBuffer H S)
    (bs : list nat) (f : nat → list BufferItem) :
  flow d bs f → currentBuffer d = None → quiet d → issued d < 2 ^ 63 - 1 →
  ∃ (d1 : DoubleBuffer H S) (bs1 : list nat), settled d d1 bs bs1 f ∧
    ((pick_and_read range o d = Ok (d1, inr ErrNoBuffer) ∧ currentBuffer d1 = None ∧ bs1 = [] ∧ bs = []) ∨
     (∃ b : nat, pick_and_read range o d = read_current o d1 ∧ currentBuffer d1 = Some b ∧ bs = b :: bs1)).
Proof.
  intros Hf Hc Hquiet Hb. unfold pick_and_read, pickBufferFromHeap. destruct bs as [|b bs].
  - exists (set_pendingHeap (pendingHeap d) d), []. split.
    { split_and!; try done; by destruct Hquiet. }
    left. split; [|done]. destruct Hf as [_ Hp]. pose proof (fl_numbered Hp) as Hn.
    cbn in Hn. destruct Hquiet as [_ Hpu]. rewrite Hpu, app_nil_r in Hn.
    apply Permutation_nil_r in Hn. change maxRetires with (Datatypes.S 2). cbn [pick_loop].
    rewrite (pq_pick_none _ (fl_heap Hp) Hn). done.
  - destruct (pick_quiet range [] d b bs f Hf Hc Hquiet) as
      (d1 & E & Hf1 & Hq1 & Hc1 & Hg1 & Ha1 & Hi1 & Hpm1 & Hmem1 & Hrm1); [lia|].
    exists d1, bs. split.
    { split_and!; try done. unfold quiet. by rewrite Hg1. }
    right. exists b. rewrite E. cbn [rbind]. rewrite bool_decide_eq_true_2 by (by rewrite Hc1). done.
Qed.

(** One attempt: nothing is left to pick, or the read is from a buffer that
    has items or was just picked. *)
Lemma tryRead_quiet (range : gmap Z nat → list (Z * nat)) (o : oracle) (d : DoubleBuffer H S)
    (bs : list nat) (f : nat → list BufferItem) :
  flow d bs f → quiet d → issued d < 2 ^ 63 - 1 →
  ∃ (d1 : DoubleBuffer H S) (bs1 : list nat), settled d d1 bs bs1 f ∧
    ((tryRead range o [] d = Ok (d1, inr ErrNoBuffer) ∧ currentBuffer d1 = None ∧ bs1 = [] ∧ bs = []) ∨
     (∃ b : nat, tryRead range o [] d = read_current o d1 ∧ currentBuffer d1 = Some b ∧
        (currentBuffer d = Some b ∧ bs1 = bs ∧ f b ≠ [] ∨ bs = b :: bs1))).
Proof.
  intros Hf Hquiet Hb. unfold tryRead, current_empty. destruct (currentBuffer d) as [b|] eqn:Ec.
  - destruct (current_stored d bs f b Hf Ec) as (s & T & (Es & Hr & _) & _).
    pose proof (repr_count _ _ _ Hr) as Hcnt. unfold SmartBuffer.Len.
    unfold get_buf. rewrite Es. cbn [rbind]. case_bool_decide as Hlen.
    + assert (f b = []) as Hfb by (apply nil_length_inv; lia).
      unfold discard_current. rewrite Ec. unfold get_buf. rewrite Es. cbn [rbind].
      set (d0 := pool_Put b (set_currentBuffer None (set_buf b (Reset s) d))).
      assert (queued d0 bs f = queued d bs f) as Hq0.
      { unfold queued. cbn -[unnumbered]. rewrite Ec. cbn -[unnumbered]. by rewrite Hfb. }
      destruct (pick_and_read_quiet range o d0 bs f) as (d1 & bs1 & (H1 & H2 & H3) & H9); try done.
      * destruct Hf as [Hst Hp]. split; [done|]. cbn. rewrite Ec in Hp.
        by apply parts_discard.
      * exists d1, bs1. split; [split_and!; [done|by rewrite <- Hq0|apply H3..]|].
        destruct H9 as [H9|(c & H9 & H10 & H11)]; [by left|]. right. exists c. split_and!; [done|done|by right].
    + exists d, bs. split; [split_and!; try done; by destruct Hquiet|]. right. exists b.
      split; [done|]. split; [done|]. left. split; [done|]. split; [done|].
      intros E. rewrite E in Hcnt. done.
  - cbn [rbind]. unfold discard_current. rewrite Ec. cbn [rbind].
    destruct (pick_and_read_quiet range o d bs f) as (d1 & bs1 & H1 & H9); try done.
    exists d1, bs1. split; [done|].
    destruct H9 as [H9|(c & H9 & H10 & H11)]; [by left|]. right. exists c. split_and!; [done|done|by right].
Qed.
(** ** A tick of the monitor *)

Lemma swapMonitor_tick_ok (o : oracle) (d : DoubleBuffer H S) (bs : list nat)
    (f : nat → list BufferItem) :
  flow d bs f →
  ∃ (d' : DoubleBuffer H S) (f' : nat → list BufferItem),
    swapMonitor_tick o d = Ok d' ∧ flow d' bs f' ∧ queued d' bs f' = queued d bs f ∧
    pm d' = pm d ∧ mem (objs d') = mem (objs d) ∧ readMode d' = readMode d ∧
    issued d' ≤ issued d + 1.
Proof.
  intros Hf. unfold swapMonitor_tick. destruct (swapper d); [|by exists d, f; split_and!; (done || lia)].
  destruct (needSwitch (now_switch o) d) as [d1 yes] eqn:E.
  assert (same_core d d1 ∧ pm d1 = pm d ∧ mem (objs d1) = mem (objs d)) as (Hsame & Hpm & Hmem).
  { unfold needSwitch in E. destruct (poll _ _) as [cond conf]. by injection E as <- _. }
  destruct (flow_same _ _ _ _ Hsame Hf) as [Hf1 Hq1].
  destruct Hsame as (_ & _ & Esq & _ & _ & _ & _ & _ & _ & Egs & _ & _ & _ & Erm & _).
  assert (issued d1 = issued d) as Hi by (unfold issued; by rewrite Esq, Egs).
  destruct yes; [|exists d1, f; rewrite Hq1, Hpm, Hmem, Erm, Hi; split_and!; (done || lia)].
  destruct (switchChannel_ok o d1 bs f Hf1) as
    (d' & f' & E' & Hf' & Hq & _ & _ & _ & Hsq & _ & Hun & Hpm' & Hmem' & Hrm & _).
  exists d', f'. rewrite Hq, Hq1, Hpm', Hpm, Hmem', Hmem, Hrm, Erm. split_and!; try done.
  rewrite <- Hi. unfold issued. rewrite Hsq, Hun, length_app. cbn [length]. lia.
Qed.
End flow.
