(* ===== verification/DoubleBufferDelivery.v ===== *)
(** * Delivery of small data

    The double buffer together with the memory and its users: small data
    (under 1024 bytes) written in safe-read mode reaches the readers complete,
    unchanged and in order, whatever the writers and readers do with their own
    memory in between. *)
From stdpp Require Import functions.
From S2P Require Import Prelude.
From S2P Require Import Consts.
From S2P Require Import Interfaces.
From S2P Require Import Runtime.
From S2P Require Import SmartBuffer.
From S2P Require Import WrapHeap.
From S2P Require Import SwitchStrategy.
From S2P Require Import SwitchConfig.
From S2P Require Import Waiters.
From S2P Require Import BigDataPool.
From S2P Require Import LifeCycle.
From S2P Require Import DataChunk.
From S2P Require Import DoubleBuffer.
From S2P Require Import DoubleBufferFlow.
Open Scope Z_scope.
Open Scope go_scope.

(** ** Regions of memory *)

(** [n] bytes at [p] and [k] bytes at [q] do not overlap. *)
Definition disjoint_at (p n q k : Z) : Prop := p + n ≤ q ∨ q + k ≤ p.

#[export] Instance disjoint_at_dec (p n q k : Z) : Decision (disjoint_at p n q k).
Proof. unfold disjoint_at. apply _. Defined.

Definition slices_disjoint (s t : slice) : Prop :=
  disjoint_at (sptr s) (scap s) (sptr t) (scap t).

(** Pairwise disjoint slices. *)
Fixpoint separate (l : list slice) : Prop :=
  match l with
  | [] => True
  | s :: l => (∀ t : slice, t ∈ l → slices_disjoint s t) ∧ separate l
  end.

(** The items [its] hold the byte strings [bss]; the slices [free] belong to
    the small pool or to a reader and none of them overlaps an item or another
    slice of the list. *)
Record kept (m : memory) (its : list BufferItem) (bss : list (list byte)) (free : list slice) :
    Prop := {
  k_wf : mem_wf m;
  k_items : Forall2 (λ x bs, 0 < Size x < SmallDataThreshold ∧
    load m (Ptr x) (Z.to_nat (Size x)) = Some bs) its bss;
  k_free (s : slice) : s ∈ free →
    0 < sptr s ∧ 0 ≤ scap s < 2 ^ 31 ∧ sptr s + scap s ≤ brk m;
  k_apart (x : BufferItem) (s : slice) : x ∈ its → s ∈ free →
    disjoint_at (Ptr x) (Size x) (sptr s) (scap s);
  k_sep : separate free
}.

(** ** Worlds *)

(** The buffer, the chunks readers hold, and the histories of both ends. *)
Record world {H S : Type} := mkWorld {
  db : DoubleBuffer H S;
  chunks : list (DataChunk free_action);
  written : list (list byte);
  delivered : list (list byte)
}.
Arguments world H S : clear implicits.

Inductive op :=
  | OWrite (o : oracle) (p : slice)
  | ORead (o : oracle) (sleeps : list (list nat))
  | ORelease (k : nat)
  | OGo (i : nat)
  | OTick (o : oracle)
  | OCleanup (clock : nat → Z) (morder : list (Z * Z)) (border : list (Z * BigDataEntry))
  | OAlloc (n : nat)
  | OStore (p : Z) (l : list byte).

Section delivery.
  Context {H S : Type} `{!PendingQueue H, !SwitchStrategy S}.
  Context (range : gmap Z nat → list (Z * nat)).

Definition set_db (d : DoubleBuffer H S) (w : world H S) : world H S :=
  mkWorld H S d (chunks w) (written w) (delivered w).

Definition memory_of (w : world H S) : memory := mem (objs (db w)).

(** One operation; the histories record the bytes of [p] at an accepted write
    and the bytes of the chunk when it is returned. *)
Definition exec (x : op) (w : world H S) : result (world H S) :=
  match x with
  | OWrite o p =>
      let* (d, err) := Write o p (db w) in
      Ok (mkWorld H S d (chunks w)
            (match err with
             | None => written w ++ [default [] (slice_bytes (memory_of w) p)]
             | Some _ => written w
             end) (delivered w))
  | ORead o sleeps =>
      let* (d, res) := tryRead range o sleeps (db w) in
      match res with
      | inl c =>
          Ok (mkWorld H S d (chunks w ++ [c]) (written w)
                (delivered w ++ [default [] (slice_bytes (mem (objs d)) (Bytes c))]))
      | inr _ => Ok (set_db d w)
      end
  | ORelease k =>
      match chunks w !! k with
      | Some c =>
          Ok (mkWorld H S (Release run_free c (db w)).2 (delete k (chunks w)) (written w)
                (delivered w))
      | None => Ok w
      end
  | OGo i => let* d := run_goroutine range i (db w) in Ok (set_db d w)
  | OTick o => let* d := swapMonitor_tick o (db w) in Ok (set_db d w)
  | OCleanup clock morder border =>
      Ok (set_db (asyncRecycleWorker_tick clock morder border (db w)) w)
  | OAlloc n => Ok (set_db (set_mem (alloc n (memory_of w)).1 (db w)) w)
  | OStore p l => Ok (set_db (set_mem (store p l (memory_of w)) (db w)) w)
  end.

Fixpoint exec_all (xs : list op) (w : world H S) : result (world H S) :=
  match xs with
  | [] => Ok w
  | x :: xs => let* w := exec x w in exec_all xs w
  end.

(** Every slot of every ring buffer. *)
Definition slots (d : DoubleBuffer H S) : list BufferItem :=
  concat (SmartBuffer.buf <$> (map_to_list (bufs (objs d))).*2).

(** What the users are asked for: writes of 1 to 1023 bytes they can read, no
    stores to memory that the library holds, and goroutines that take their
    numbers in order. *)
Definition allowed (x : op) (w : world H S) : Prop :=
  match x with
  | OWrite o p =>
      0 < slen p < SmallDataThreshold ∧ is_Some (slice_bytes (memory_of w) p)
  | ORead o sleeps =>
      match discard_current (db w) with
      | Ok d1 => calm_pick range maxRetires sleeps d1
      | _ => True
      end
  | OGo i => in_order i (db w)
  | OStore p l =>
      0 < p ∧ p + Z.of_nat (length l) ≤ brk (memory_of w) ∧
      Forall (λ x, disjoint_at (Ptr x) (Size x) p (Z.of_nat (length l))) (slots (db w)) ∧
      Forall (λ s, disjoint_at (sptr s) (scap s) p (Z.of_nat (length l))) (SmallPool (pm (db w)))
  | _ => True
  end.

Fixpoint allowed_all (xs : list op) (w : world H S) : Prop :=
  match xs with
  | [] => True
  | x :: xs =>
      allowed x w ∧
      match exec x w with
      | Ok w => allowed_all xs w
      | _ => True
      end
  end.

(** A new double buffer in safe-read mode, before any write. *)
Definition start (d : DoubleBuffer H S) : world H S :=
  mkWorld H S (RegisterReadMode SafeRead d).1 [] [] [].
End delivery.

(** ** Lemmas on memory *)

Lemma slices_disjoint_sym (s t : slice) : slices_disjoint s t → slices_disjoint t s.
Proof. unfold slices_disjoint, disjoint_at. lia. Qed.

Lemma separate_perm (l l' : list slice) : l ≡ₚ l' → separate l → separate l'.
Proof.
  induction 1 as [|s l l' Hp IH|s t l|l1 l2 l3 H1 IH1 H2 IH2]; cbn; [done| | |by auto].
  - intros [Hs Hl]. split; [|by apply IH]. intros u. rewrite <- Hp. apply Hs.
  - intros (Ht & Hs & Hl). split_and!; [|intros; apply Ht; by right|done].
    intros u [->|Hu]%elem_of_cons; [|by apply Hs]. apply slices_disjoint_sym, Ht. left.
Qed.

Lemma kept_perm (m : memory) (its : list BufferItem) (bss : list (list byte)) (l l' : list slice) :
  l ≡ₚ l' → kept m its bss l → kept m its bss l'.
Proof.
  intros Hp [H1 H2 H3 H4 H5]. constructor; try done.
  - intros s. rewrite <- Hp. apply H3.
  - intros x s Hx. rewrite <- Hp. by apply H4.
  - by eapply separate_perm.
Qed.

#[export] Instance kept_Permutation (m : memory) (its : list BufferItem)
    (bss : list (list byte)) : Proper ((≡ₚ) ==> iff) (kept m its bss).
Proof. intros l l' Hp. split; by apply kept_perm. Qed.

Lemma kept_drop (m : memory) (its : list BufferItem) (bss : list (list byte)) (s : slice)
    (l : list slice) :
  kept m its bss (s :: l) → kept m its bss l.
Proof.
  intros [H1 H2 H3 H4 H5]. constructor; try done.
  - intros t Ht. apply H3. by right.
  - intros x t Hx Ht. apply H4; [done|by right].
  - apply H5.
Qed.

(** Only the region of a slice matters, not its length. *)
Lemma kept_region (m : memory) (its : list BufferItem) (bss : list (list byte)) (s t : slice)
    (l : list slice) :
  sptr t = sptr s → scap t = scap s → kept m its bss (s :: l) → kept m its bss (t :: l).
Proof.
  intros Ep Ec [H1 H2 H3 H4 [H5 H6]]. constructor; try done.
  - intros u [->|Hu]%elem_of_cons; [rewrite Ep, Ec; apply H3; left|apply H3; by right].
  - intros x u Hx [->|Hu]%elem_of_cons; [rewrite Ep, Ec; apply H4; [done|left]|apply H4; [done|by right]].
  - split; [|done]. intros u Hu. unfold slices_disjoint. rewrite Ep, Ec. by apply H5.
Qed.

Lemma kept_item_range (m : memory) (its : list BufferItem) (bss : list (list byte))
    (free : list slice) (x : BufferItem) :
  kept m its bss free → x ∈ its → 0 < Ptr x ∧ 0 < Size x ∧ Ptr x + Size x ≤ brk m.
Proof.
  intros [H1 H2 _ _ _] Hx. apply list_elem_of_lookup in Hx as [i Hi].
  destruct (Forall2_lookup_l _ _ _ _ _ H2 Hi) as (bs & _ & Hs & Hl).
  apply load_range in Hl; [|done|lia]. lia.
Qed.

Lemma kept_grow (m : memory) (its : list BufferItem) (bss : list (list byte)) (free : list slice)
    (k : nat) :
  kept m its bss free → kept (alloc k m).1 its bss free.
Proof.
  intros [H1 H2 H3 H4 H5]. constructor; try done.
  - by apply alloc_wf.
  - eapply Forall2_impl; [exact H2|]. intros x bs [Hs Hl]. split; [done|].
    by apply load_alloc.
  - intros s Hs. cbn. specialize (H3 s Hs). lia.
Qed.

(** A new object is a free slice. *)
Lemma kept_alloc (m : memory) (its : list BufferItem) (bss : list (list byte)) (free : list slice)
    (k : nat) (n : Z) :
  Z.of_nat k < 2 ^ 31 → kept m its bss free →
  kept (alloc k m).1 its bss (mkSlice (brk m) n (Z.of_nat k) :: free).
Proof.
  intros Hk Hkept. pose proof (λ x, kept_item_range m its bss free x Hkept) as Hr.
  pose proof (k_free _ _ _ _ Hkept) as H3. pose proof (k_wf _ _ _ _ Hkept) as [Hbrk _].
  destruct (kept_grow _ _ _ _ k Hkept) as [H1 H2 H3' H4 H5]. constructor; try done.
  - intros s [->|Hs]%elem_of_cons; [cbn; lia|by apply H3'].
  - intros x s Hx [->|Hs]%elem_of_cons; [|by apply H4]. cbn. left.
    specialize (Hr x Hx). lia.
  - split; [|done]. intros t Ht. right. cbn. specialize (H3 t Ht). lia.
Qed.

(** Storing into a free slice disturbs nothing. *)
Lemma kept_store (m : memory) (its : list BufferItem) (bss : list (list byte)) (s : slice)
    (l : list slice) (bs : list byte) :
  kept m its bss (s :: l) → Z.of_nat (length bs) ≤ scap s →
  kept (store (sptr s) bs m) its bss (s :: l).
Proof.
  intros [H1 H2 H3 H4 H5] Hl. pose proof (H3 s ltac:(left)) as Hs. constructor; try done.
  - apply store_wf; [done|lia|lia].
  - apply Forall2_same_length_lookup_2; [by eapply Forall2_length|].
    intros i x b Hx Hb. destruct (Forall2_lookup_lr _ _ _ _ _ _ H2 Hx Hb) as [Hsz Hload].
    split; [done|]. apply load_store_disjoint; [|done].
    pose proof (H4 x s (list_elem_of_lookup_2 _ _ _ Hx) ltac:(left)) as [?|?]; lia.
Qed.

(** A free slice that holds [bs] becomes an item. *)
Lemma kept_enqueue (m : memory) (its : list BufferItem) (bss : list (list byte)) (s : slice)
    (l : list slice) (n : Z) (bs : list byte) :
  kept m its bss (s :: l) → 0 < n < SmallDataThreshold → n ≤ scap s →
  load m (sptr s) (Z.to_nat n) = Some bs →
  kept m (its ++ [mkItem (sptr s) n]) (bss ++ [bs]) l.
Proof.
  intros [H1 H2 H3 H4 [H5 H6]] Hn Hc Hl. constructor; try done.
  - apply Forall2_app; [done|]. by constructor.
  - intros t Ht. apply H3. by right.
  - intros x t [Hx|Hx]%elem_of_app Ht; [apply H4; [done|by right]|].
    apply list_elem_of_singleton in Hx as ->. cbn.
    destruct (H5 t Ht) as [?|?]; [left|right]; lia.
Qed.

Lemma kept_dequeue (m : memory) (x : BufferItem) (its : list BufferItem) (bss : list (list byte))
    (l : list slice) :
  kept m (x :: its) bss l →
  ∃ (bs : list byte) (bss' : list (list byte)), bss = bs :: bss' ∧ kept m its bss' l ∧
    0 < Size x < SmallDataThreshold ∧ load m (Ptr x) (Z.to_nat (Size x)) = Some bs.
Proof.
  intros [H1 H2 H3 H4 H5]. inversion H2 as [|? bs ? bss' [Hs Hl] Hr]; subst.
  exists bs, bss'. split; [done|]. split; [|done]. constructor; try done.
  intros y s Hy. apply H4. by right.
Qed.

(** ** The copy into a small buffer *)

Lemma copy_ok (dst src : slice) (m : memory) (bs : list byte) (n : nat) :
  Z.to_nat (Z.min (slen dst) (slen src)) = n → load m (sptr src) n = Some bs →
  copy dst src m = Ok (store (sptr dst) bs m).
Proof. intros E Hl. unfold copy. by rewrite E, Hl. Qed.

Lemma reslice_ok (s : slice) (n : Z) :
  0 ≤ n ≤ scap s → reslice s n = Ok (mkSlice (sptr s) n (scap s)).
Proof. intros Hn. unfold reslice. by rewrite decide_True. Qed.

Section copying.
  Context {H S : Type} `{!PendingQueue H, !SwitchStrategy S}.

(** What the copy leaves behind: the buffer holds the bytes, is a free slice
    apart from all others, and nothing but the small pool and the memory
    changed. *)
Definition copied (n : Z) (bs : list byte) (its : list BufferItem) (bss : list (list byte))
    (out : list slice) (d d' : DoubleBuffer H S) (buf : slice) : Prop :=
  slen buf = n ∧ n ≤ scap buf ∧ 0 < sptr buf ∧
  load (mem (objs d')) (sptr buf) (Z.to_nat n) = Some bs ∧
  kept (mem (objs d')) its bss (buf :: SmallPool (pm d') ++ out).

(** The buffer at hand, large enough or replaced by a new one. *)
Lemma fit_ok (m : memory) (its : list BufferItem) (bss : list (list byte)) (s : slice)
    (l : list slice) (n : Z) (src : Z) (bs : list byte) :
  kept m its bss (s :: l) → 0 < n < SmallDataThreshold →
  load m src (Z.to_nat n) = Some bs →
  ∃ (m' : memory) (s' : slice),
    (if decide (int32 (scap s) < n) then make_bytes 0 n m else Ok (m, s)) = Ok (m', s') ∧
    kept m' its bss (s' :: l) ∧ n ≤ scap s' ∧ load m' src (Z.to_nat n) = Some bs.
Proof.
  intros Hk Hn Hl. pose proof (k_free _ _ _ _ Hk s ltac:(left)) as Hs.
  unfold SmallDataThreshold in Hn.
  rewrite signed_id by (unfold in_signed; lia). case_decide.
  - rewrite make_bytes_ok by lia. eexists _, _. split; [done|].
    replace n with (Z.of_nat (Z.to_nat n)) at 2 3 by lia. split; [|split; [cbn; lia|]].
    + apply kept_alloc; [lia|]. by eapply kept_drop.
    + apply load_alloc; [by apply (k_wf _ _ _ _ Hk)|done].
  - exists m, s. split_and!; [done..|lia|done].
Qed.

Lemma small_copy_ok (o : oracle) (n : Z) (src : slice) (bs : list byte) (its : list BufferItem)
    (bss : list (list byte)) (out : list slice) (d : DoubleBuffer H S) :
  kept (mem (objs d)) its bss (SmallPool (pm d) ++ out) →
  0 < n < SmallDataThreshold → n ≤ slen src →
  load (mem (objs d)) (sptr src) (Z.to_nat n) = Some bs →
  ∃ (d' : DoubleBuffer H S) (buf : slice),
    small_copy o n src d = Ok (d', buf) ∧ copied n bs its bss out d d' buf.
Proof.
  intros Hk Hn Hsrc Hl. unfold small_copy. set (m := mem (objs d)) in *.
  assert (∃ (l : LifeCycleManager) (m1 : memory) (s : slice),
    SmallPool_Get (small_choice o) (pm d) m = Ok (l, m1, s) ∧
    kept m1 its bss (s :: SmallPool l ++ out) ∧ load m1 (sptr src) (Z.to_nat n) = Some bs)
    as (l & m1 & s & E & Hk1 & Hl1).
  { destruct (SmallPool_Get_cases (small_choice o) (pm d) m) as [(s & rest & E & Hp)|E].
    - eexists _, m, s. split; [exact E|]. split; [|done]. cbn.
      eapply kept_perm; [|exact Hk]. by rewrite Hp.
    - eexists _, _, _. split; [exact E|]. split.
      + apply (kept_alloc m its bss _ (Z.to_nat initializeBufSize) 0); [done|done].
      + apply load_alloc; [by apply (k_wf _ _ _ _ Hk)|done]. }
  rewrite E. cbn -[decide make_bytes reslice copy].
  destruct (fit_ok m1 its bss s (SmallPool l ++ out) n (sptr src) bs Hk1 Hn Hl1)
    as (m2 & s2 & E2 & Hk2 & Hc2 & Hl2).
  rewrite E2. cbn -[reslice copy]. rewrite reslice_ok by lia. cbn -[copy].
  assert (length bs = Z.to_nat n) as Hlen by (by apply load_lookup in Hl2 as [? _]).
  rewrite (copy_ok _ _ _ bs (Z.to_nat n)); [|cbn; f_equal; lia|done].
  cbn. eexists _, _. split; [done|]. unfold copied. cbn.
  pose proof (k_free _ _ _ _ Hk2 s2 ltac:(left)) as Hs2.
  split; [done|]. split; [done|]. split; [lia|]. split.
  - rewrite <- Hlen. apply load_store.
  - apply (kept_region _ _ _ s2); [done|done|]. apply kept_store; [done|lia].
Qed.
End copying.

(** ** The invariant of a world *)

Definition held (cs : list (DataChunk free_action)) : list slice := data <$> cs.

Section invariant.
  Context {H S : Type} `{!PendingQueue H, !PendingQueueLaws H, !SwitchStrategy S}.
  Context (range : gmap Z nat → list (Z * nat)) `{!RangeOrder range}.

(** Written is delivered plus what is queued; at most [n] buffers were handed
    over. *)
Definition good (n : Z) (w : world H S) : Prop :=
  ∃ (bs : list nat) (f : nat → list BufferItem) (bss : list (list byte)),
    flow (db w) bs f ∧ readMode (db w) = Some SafeRead ∧ issued (db w) ≤ n ∧
    kept (memory_of w) (queued (db w) bs f) bss (SmallPool (pm (db w)) ++ held (chunks w)) ∧
    (∀ c : DataChunk free_action, c ∈ chunks w → free c = Some (FreeSmall (data c))) ∧
    written w = delivered w ++ bss.

(** A queued item is one of the items of a ring. *)
Lemma queued_stored (d : DoubleBuffer H S) (bs : list nat) (f : nat → list BufferItem)
    (x : BufferItem) :
  flow d bs f → x ∈ queued d bs f →
  ∃ (b : nat) (s : SmartBuffer) (T : Z),
    bufs (objs d) !! b = Some s ∧ repr s T (f b) ∧ x ∈ f b.
Proof.
  intros [_ Hp] Hx.
  assert (∃ b : nat, b ∈ owned (active d) (passive d) (currentBuffer d) (pool d) bs (goroutines d) ∧
    x ∈ f b) as (b & Hb & Hxb).
  { unfold owned, queued in *. rewrite !elem_of_app in Hx.
    setoid_rewrite elem_of_cons. setoid_rewrite elem_of_cons. setoid_rewrite elem_of_app.
    setoid_rewrite elem_of_app. setoid_rewrite elem_of_app.
    destruct Hx as [Hx|[Hx|[Hx|Hx]]]; [| | |exists (active d); tauto];
      apply list_elem_of_concat in Hx as (l & Hl & Hxl);
      apply list_elem_of_fmap in Hl as (b & -> & Hb); exists b; tauto. }
  destruct (fl_stored Hp b Hb) as (s & T & E & Hr & _). by exists b, s, T.
Qed.

Lemma repr_in_buf (s : SmartBuffer) (T : Z) (its : list BufferItem) (x : BufferItem) :
  repr s T its → x ∈ its → x ∈ SmartBuffer.buf s.
Proof.
  intros Hr [i Hi]%list_elem_of_lookup. apply (repr_items _ _ _ Hr) in Hi.
  by eapply list_elem_of_lookup_2.
Qed.

Lemma ring_slots (d : DoubleBuffer H S) (b : nat) (s : SmartBuffer) (x : BufferItem) :
  bufs (objs d) !! b = Some s → x ∈ SmartBuffer.buf s → x ∈ slots d.
Proof.
  intros E Hx. unfold slots. apply list_elem_of_concat. exists (SmartBuffer.buf s). split; [|done].
  apply list_elem_of_fmap. exists s. split; [done|]. apply list_elem_of_fmap.
  exists (b, s). split; [done|]. by apply elem_of_map_to_list.
Qed.

Lemma queued_slots (d : DoubleBuffer H S) (bs : list nat) (f : nat → list BufferItem)
    (x : BufferItem) :
  flow d bs f → x ∈ queued d bs f → x ∈ slots d.
Proof.
  intros Hf Hx. destruct (queued_stored d bs f x Hf Hx) as (b & s & T & E & Hr & Hxb).
  eapply ring_slots; [done|]. by eapply repr_in_buf.
Qed.

Lemma classify_small (o : oracle) (p : slice) (d : DoubleBuffer H S) (its : list BufferItem)
    (bss : list (list byte)) (out : list slice) (bs : list byte) :
  kept (mem (objs d)) its bss (SmallPool (pm d) ++ out) →
  0 < slen p < SmallDataThreshold → slice_bytes (mem (objs d)) p = Some bs →
  ∃ (d' : DoubleBuffer H S) (it : BufferItem),
    classify o p d = Ok (d', it) ∧
    kept (mem (objs d')) (its ++ [it]) (bss ++ [bs]) (SmallPool (pm d') ++ out).
Proof.
  intros Hk Hn Hb. unfold SmallDataThreshold in Hn.
  assert (int32 (slen p) = slen p) as E by (apply signed_id; unfold in_signed; lia).
  destruct (small_copy_ok o (slen p) p bs its bss out d Hk) as (d' & buf & Ec & Hl & Hc & Hp & Hload & Hk');
    [done|lia|done|].
  exists d', (mkItem (sptr buf) (slen p)). unfold classify. cbn -[small_copy decide].
  rewrite !E, decide_True by (unfold SmallDataThreshold; lia). rewrite Ec. cbn.
  unfold addr_of_first. rewrite decide_True by lia. cbn. split; [done|].
  by apply kept_enqueue.
Qed.

(** Reading from the current buffer in safe-read mode; [more] are items that
    are not queued yet. *)
Lemma safe_read_more (o : oracle) (d : DoubleBuffer H S) (bs : list nat) (f : nat → list BufferItem)
    (bss : list (list byte)) (out : list slice) (more : list BufferItem) (moreb : list (list byte)) :
  flow d bs f → currentBuffer d ≠ None → readMode d = Some SafeRead → length more = length moreb →
  kept (mem (objs d)) (queued d bs f ++ more) (bss ++ moreb) (SmallPool (pm d) ++ out) →
  ∃ (d' : DoubleBuffer H S) (f' : nat → list BufferItem),
    flow d' bs f' ∧ issued d' = issued d ∧ readMode d' = readMode d ∧
    goroutines d' = goroutines d ∧ active d' = active d ∧ currentBuffer d' = currentBuffer d ∧
    ((read_current o d = Ok (d', inr ErrRead) ∧ queued d' bs f' = queued d bs f ∧
      (∀ b : nat, currentBuffer d = Some b → f b = []) ∧
      kept (mem (objs d')) (queued d' bs f' ++ more) (bss ++ moreb) (SmallPool (pm d') ++ out)) ∨
     (∃ (c : DataChunk free_action) (x : list byte) (bss' : list (list byte)),
        read_current o d = Ok (d', inl c) ∧ free c = Some (FreeSmall (data c)) ∧
        bss = x :: bss' ∧ slice_bytes (mem (objs d')) (Bytes c) = Some x ∧
        kept (mem (objs d')) (queued d' bs f' ++ more) (bss' ++ moreb)
          (SmallPool (pm d') ++ data c :: out))).
Proof.
  intros Hf Hc Hm Hlen Hk. unfold read_current. rewrite Hm. rewrite decide_True by done. unfold safeRead, safe_chunk.
  destruct (pop_current_ok d bs f Hf Hc) as (b & s & Eb & [(Hfb & E & Hf' & Hq)|(x & f' & E & Hf' & Hq)]).
  - exists (set_buf b s d), f. split; [done|]. do 5 (split; [done|]). left.
    rewrite E. cbn. split; [done|]. split; [exact Hq|].
    split; [by intros c; rewrite Eb; intros [= <-]|]. cbn in Hq. by rewrite Hq.
  - rewrite E. cbn -[decide small_copy createByteSliceFromPointer]. set (d1 := set_buf b s d) in *.
    pose proof (kept_item_range _ _ _ _ x Hk) as Hx. rewrite Hq in Hk, Hx.
    specialize (Hx ltac:(left)). destruct bss as [|y bss'].
    { exfalso. apply k_items, Forall2_length in Hk. rewrite length_app in Hk. cbn in Hk. lia. }
    cbn [app] in Hk.
    destruct (kept_dequeue _ _ _ _ _ Hk) as (y' & bss2 & [= <- <-] & Hk' & Hsz & Hl).
    rewrite decide_False by lia. unfold createByteSliceFromPointer.
    rewrite !decide_False by lia. cbn -[decide small_copy]. rewrite decide_True by lia.
    destruct (small_copy_ok o (Size x) (mkSlice (Ptr x) (Size x) (Size x)) y (queued d1 bs f' ++ more)
      (bss' ++ moreb) out d1 Hk' Hsz) as (d2 & buf & Ec & Hbl & _ & _ & Hload & Hk2); [cbn; lia|done|].
    rewrite Ec. cbn. pose proof (small_copy_same _ _ _ _ _ _ Ec) as Hsame.
    destruct (flow_same _ _ _ _ Hsame Hf') as [Hf2 Hq2].
    destruct Hsame as (_ & _ & Esq & _ & Eac & _ & Ecu & _ & _ & Egs & _ & _ & _ & Erm & _).
    exists d2, f'. split; [exact Hf2|]. split; [unfold issued; by rewrite Esq, Egs|].
    split; [by rewrite Erm|]. rewrite Egs, Eac, Ecu. do 3 (split; [done|]). right. eexists _, y, bss'. split; [done|]. split; [done|]. split; [done|].
    split; [unfold slice_bytes, Bytes; cbn; by rewrite Hbl|].
    rewrite Hq2. cbn. eapply kept_perm; [|exact Hk2]. solve_Permutation.
Qed.

Lemma safe_read_ok (o : oracle) (d : DoubleBuffer H S) (bs : list nat) (f : nat → list BufferItem)
    (bss : list (list byte)) (out : list slice) :
  flow d bs f → currentBuffer d ≠ None → readMode d = Some SafeRead →
  kept (mem (objs d)) (queued d bs f) bss (SmallPool (pm d) ++ out) →
  ∃ (d' : DoubleBuffer H S) (f' : nat → list BufferItem),
    flow d' bs f' ∧ issued d' = issued d ∧ readMode d' = readMode d ∧
    goroutines d' = goroutines d ∧ active d' = active d ∧ currentBuffer d' = currentBuffer d ∧
    ((read_current o d = Ok (d', inr ErrRead) ∧ queued d' bs f' = queued d bs f ∧
      (∀ b : nat, currentBuffer d = Some b → f b = []) ∧
      kept (mem (objs d')) (queued d' bs f') bss (SmallPool (pm d') ++ out)) ∨
     (∃ (c : DataChunk free_action) (x : list byte) (bss' : list (list byte)),
        read_current o d = Ok (d', inl c) ∧ free c = Some (FreeSmall (data c)) ∧
        bss = x :: bss' ∧ slice_bytes (mem (objs d')) (Bytes c) = Some x ∧
        kept (mem (objs d')) (queued d' bs f') bss' (SmallPool (pm d') ++ data c :: out))).
Proof.
  intros Hf Hc Hm Hk. destruct (safe_read_more o d bs f bss out [] []) as (d' & f' & H1); try done.
  { by rewrite !app_nil_r. }
  exists d', f'. rewrite !app_nil_r in H1. do 6 (split; [apply H1|]).
  destruct H1 as (_ & _ & _ & _ & _ & _ & [H1|(c & x & bss' & H1)]); [by left|].
  right. exists c, x, bss'. by rewrite app_nil_r in H1.
Qed.

(** A state with the same flow, memory and small pool is as good. *)
Lemma good_same (n : Z) (w : world H S) (d : DoubleBuffer H S) :
  good n w → same_core (db w) d → mem (objs d) = memory_of w →
  SmallPool (pm d) = SmallPool (pm (db w)) → good n (set_db d w).
Proof.
  intros (bs & f & bss & Hf & Hm & Hi & Hk & Hc & Hw) Hsame Hmem Hpool.
  destruct (flow_same _ _ _ _ Hsame Hf) as [Hf' Hq].
  destruct Hsame as (_ & _ & Esq & _ & _ & _ & _ & _ & _ & Egs & _ & _ & _ & Erm & _).
  exists bs, f, bss. cbn. unfold memory_of in *. cbn. rewrite Hmem, Hpool, Hq, Erm.
  split_and!; try done. unfold issued in *. by rewrite Esq, Egs.
Qed.

Lemma good_weaken (n n' : Z) (w : world H S) : good n w → n ≤ n' → good n' w.
Proof.
  intros (bs & f & bss & Hf & Hm & Hi & Hrest) Hn. exists bs, f, bss.
  split; [done|]. split; [done|]. split; [lia|done].
Qed.

Lemma exec_write (n : Z) (o : oracle) (p : slice) (w : world H S) :
  good n w → allowed range (OWrite o p) w →
  ∃ (d : DoubleBuffer H S) (bs : list byte),
    Write o p (db w) = Ok (d, None) ∧ slice_bytes (memory_of w) p = Some bs ∧
    good (n + 1) (mkWorld H S d (chunks w) (written w ++ [bs]) (delivered w)).
Proof.
  intros (bs & f & bss & Hf & Hm & Hi & Hk & Hc & Hw) [Hn [x Hx]].
  destruct (classify_small o p (db w) _ bss _ x Hk Hn Hx) as (d1 & it & Ecl & Hk1).
  destruct (Write_ok o p (db w) d1 it bs f Hf Ecl)
    as (d' & f' & Ew & Hf' & Hq & Hpm & Hmem & Hrm & _ & His).
  exists d', x. split; [done|]. split; [done|].
  exists bs, f', (bss ++ [x]). unfold memory_of. cbn. rewrite Hpm, Hmem, Hq, Hrm, Hw.
  split_and!; try done; [lia|by rewrite app_assoc].
Qed.

(** A whole read: the next byte string and its chunk, or an error. *)
Lemma tryRead_more (o : oracle) (sleeps : list (list nat)) (d : DoubleBuffer H S) (bs : list nat)
    (f : nat → list BufferItem) (bss : list (list byte)) (cs : list (DataChunk free_action))
    (more : list BufferItem) (moreb : list (list byte)) :
  flow d bs f → readMode d = Some SafeRead → issued d < 2 ^ 63 - 1 → length more = length moreb →
  kept (mem (objs d)) (queued d bs f ++ more) (bss ++ moreb) (SmallPool (pm d) ++ held cs) →
  (∀ d1, discard_current d = Ok d1 → calm_pick range maxRetires sleeps d1) →
  ∃ (d' : DoubleBuffer H S) (bs' : list nat) (f' : nat → list BufferItem)
    (r : DataChunk free_action + error),
    tryRead range o sleeps d = Ok (d', r) ∧ flow d' bs' f' ∧ readMode d' = Some SafeRead ∧
    issued d' = issued d ∧
    match r with
    | inl c => free c = Some (FreeSmall (data c)) ∧
        ∃ (x : list byte) (bss' : list (list byte)), bss = x :: bss' ∧
          slice_bytes (mem (objs d')) (Bytes c) = Some x ∧
          kept (mem (objs d')) (queued d' bs' f' ++ more) (bss' ++ moreb)
            (SmallPool (pm d') ++ held (cs ++ [c]))
    | inr _ => kept (mem (objs d')) (queued d' bs' f' ++ more) (bss ++ moreb)
        (SmallPool (pm d') ++ held cs)
    end.
Proof.
  intros Hf Hm Hi Hlen Hk Hal.
  destruct (tryRead_picks range o sleeps d bs f Hf Hi Hal) as
    (d1 & bs1 & Hf1 & Hq1 & Hi1 & Hpm1 & Hmem1 & Hrm1 & [E|[E Hcur]]).
  - exists d1, bs1, f, (inr ErrNoBuffer). rewrite E, Hpm1, Hmem1, Hrm1, Hq1, Hi1. done.
  - destruct (safe_read_more o d1 bs1 f bss (held cs) more moreb Hf1 Hcur) as
      (d2 & f2 & Hf2 & Hi2 & Hrm2 & _ & _ & _ &
       [(E2 & _ & _ & Hk2)|(c & x & bss' & E2 & Hfree & -> & Hx & Hk2)]).
    + by rewrite Hrm1.
    + done.
    + by rewrite Hmem1, Hq1, Hpm1.
    + exists d2, bs1, f2, (inr ErrRead). rewrite E, E2, Hrm2, Hrm1, Hi2, Hi1. done.
    + exists d2, bs1, f2, (inl c). rewrite E, E2, Hrm2, Hrm1, Hi2, Hi1. do 5 (split; [done|]).
      exists x, bss'. split; [done|]. split; [done|].
      eapply kept_perm; [|exact Hk2]. unfold held. rewrite fmap_app. cbn. solve_Permutation.
Qed.

Lemma exec_read (n : Z) (o : oracle) (sleeps : list (list nat)) (w : world H S) :
  good n w → n < 2 ^ 63 - 1 → allowed range (ORead o sleeps) w →
  ∃ w' : world H S, exec range (ORead o sleeps) w = Ok w' ∧ good n w'.
Proof.
  intros (bs & f & bss & Hf & Hm & Hi & Hk & Hc & Hw) Hn Hal. cbn -[tryRead].
  destruct (tryRead_more o sleeps (db w) bs f bss (chunks w) [] [] Hf Hm) as
    (d' & bs' & f' & [c|err] & E & Hf' & Hm' & Hi' & Hr).
  - lia.
  - done.
  - by rewrite !app_nil_r.
  - intros d1 E. cbn in Hal. by rewrite E in Hal.
  - rewrite E. cbn. eexists. split; [done|]. destruct Hr as (Hfree & x & bss' & -> & Hx & Hk').
    rewrite !app_nil_r in Hk'. exists bs', f', bss'. unfold memory_of. cbn. rewrite Hx, Hw. cbn.
    split_and!; try done; [lia| |by rewrite <- app_assoc].
    intros c' [?|Hc']%elem_of_app; [by apply Hc|]. by apply list_elem_of_singleton in Hc' as ->.
  - rewrite E. cbn. eexists. split; [done|]. rewrite !app_nil_r in Hr.
    exists bs', f', bss. unfold memory_of. cbn. split_and!; (done || lia).
Qed.

(** A released chunk goes to the small pool. *)
Lemma kept_release (m : memory) (its : list BufferItem) (bss : list (list byte)) (l : list slice)
    (cs : list (DataChunk free_action)) (k : nat) (c : DataChunk free_action) (n : Z) :
  cs !! k = Some c → kept m its bss (l ++ held cs) →
  kept m its bss (mkSlice (sptr (data c)) n (scap (data c)) :: l ++ held (delete k cs)).
Proof.
  intros Ec Hk. assert (held cs ≡ₚ data c :: held (delete k cs)) as Hp.
  { unfold held. rewrite (delete_Permutation _ _ _ Ec) at 1. done. }
  rewrite Hp in Hk. apply (kept_region _ _ _ (data c)); [done|done|].
  eapply kept_perm; [|exact Hk]. solve_Permutation.
Qed.

Lemma exec_release (n : Z) (k : nat) (w : world H S) :
  good n w → ∃ w' : world H S, exec range (ORelease k) w = Ok w' ∧ good n w'.
Proof.
  intros Hg. cbn. destruct (chunks w !! k) as [c|] eqn:Ec; [|by exists w].
  destruct Hg as (bs & f & bss & Hf & Hm & Hi & Hk & Hc & Hw).
  unfold Release. rewrite (Hc c) by (by eapply list_elem_of_lookup_2).
  eexists. split; [done|]. exists bs, f, bss. unfold memory_of in *. cbn -[unnumbered].
  split_and!; try done; [by eapply kept_release|].
  intros c' Hc'. apply Hc. rewrite (delete_Permutation _ _ _ Ec). by right.
Qed.

(** A store that overlaps no item. *)
Lemma kept_store_apart (m : memory) (its : list BufferItem) (bss : list (list byte))
    (l : list slice) (p : Z) (bs : list byte) :
  kept m its bss l → 0 < p → p + Z.of_nat (length bs) ≤ brk m →
  (∀ x : BufferItem, x ∈ its → disjoint_at (Ptr x) (Size x) p (Z.of_nat (length bs))) →
  kept (store p bs m) its bss l.
Proof.
  intros [H1 H2 H3 H4 H5] Hp Hb Hits. constructor; try done.
  - by apply store_wf.
  - apply Forall2_same_length_lookup_2; [by eapply Forall2_length|].
    intros i x b Hx Hb'. destruct (Forall2_lookup_lr _ _ _ _ _ _ H2 Hx Hb') as [Hsz Hload].
    split; [done|]. apply load_store_disjoint; [|done].
    destruct (Hits x (list_elem_of_lookup_2 _ _ _ Hx)) as [?|?]; lia.
Qed.

Lemma exec_store (n : Z) (p : Z) (l : list byte) (w : world H S) :
  good n w → allowed range (OStore p l) w → good n (set_db (set_mem (store p l (memory_of w)) (db w)) w).
Proof.
  intros (bs & f & bss & Hf & Hm & Hi & Hk & Hc & Hw) (Hp & Hb & Hsl & _).
  exists bs, f, bss. unfold memory_of in *. cbn -[unnumbered]. split_and!; try done.
  apply kept_store_apart; [done..|]. intros x Hx. rewrite Forall_forall in Hsl.
  apply Hsl. by eapply queued_slots.
Qed.

Lemma exec_tick (n : Z) (o : oracle) (w : world H S) :
  good n w → ∃ w' : world H S, exec range (OTick o) w = Ok w' ∧ good (n + 1) w'.
Proof.
  intros (bs & f & bss & Hf & Hm & Hi & Hk & Hc & Hw). cbn -[swapMonitor_tick].
  destruct (swapMonitor_tick_ok o (db w) bs f Hf) as (d' & f' & E & Hf' & Hq & Hpm & Hmem & Hrm & Hi').
  rewrite E. cbn. eexists. split; [done|]. exists bs, f', bss. unfold memory_of in *. cbn -[unnumbered].
  rewrite Hpm, Hmem, Hrm, Hq. split_and!; (done || lia).
Qed.

Lemma exec_good (n : Z) (x : op) (w : world H S) :
  good n w → n < 2 ^ 63 - 1 → allowed range x w →
  ∃ w' : world H S, exec range x w = Ok w' ∧ good (n + 1) w'.
Proof.
  intros Hg Hn Hal. destruct x as [o p|o sleeps|k|i|o|clock mo bo|k|p l].
  - destruct (exec_write n o p w Hg Hal) as (d & bs & E & Ex & Hg'). cbn -[Write].
    rewrite E. cbn. rewrite Ex. by eexists.
  - destruct (exec_read n o sleeps w Hg Hn Hal) as (w' & E & Hg'). exists w'.
    split; [done|]. eapply good_weaken; [done|lia].
  - destruct (exec_release n k w Hg) as (w' & E & Hg'). exists w'.
    split; [done|]. eapply good_weaken; [done|lia].
  - destruct Hg as (bs & f & bss & Hf & Hm & Hi & Hk & Hc & Hw).
    destruct (run_goroutine_ok range i (db w) bs f Hf Hal) as
      (d' & bs' & E & Hf' & Hq & Hi' & _ & _ & Hpm & Hmem & Hrm); [lia|].
    cbn -[run_goroutine]. rewrite E. cbn. eexists. split; [done|].
    exists bs', f, bss. unfold memory_of in *. cbn. rewrite Hpm, Hmem, Hrm, Hq, Hi'.
    split_and!; (done || lia).
  - by apply exec_tick.
  - cbn. eexists. split; [done|]. eapply good_weaken; [|by instantiate (1 := n); lia].
    apply good_same; [done|..]; unfold asyncRecycleWorker_tick; by destruct (recycler (db w)).
  - cbn. eexists. split; [done|]. eapply good_weaken; [|by instantiate (1 := n); lia].
    destruct Hg as (bs & f & bss & Hf & Hm & Hi & Hk & Hc & Hw). exists bs, f, bss.
    unfold memory_of in *. cbn -[alloc]. split_and!; try done. by apply kept_grow.
  - cbn -[store]. eexists. split; [done|]. eapply good_weaken; [by apply exec_store|lia].
Qed.

Lemma exec_all_good (n : Z) (xs : list op) (w : world H S) :
  good n w → n + Z.of_nat (length xs) < 2 ^ 63 → allowed_all range xs w →
  ∃ w' : world H S, exec_all range xs w = Ok w' ∧ good (n + Z.of_nat (length xs)) w'.
Proof.
  revert n w. induction xs as [|x xs IH]; intros n w Hg Hn Hal.
  { exists w. split; [done|]. eapply good_weaken; [done|lia]. }
  cbn [length] in *. destruct Hal as [Hx Hal].
  destruct (exec_good n x w Hg ltac:(lia) Hx) as (w1 & E & Hg1). cbn [exec_all]. rewrite E in *.
  cbn [rbind]. destruct (IH (n + 1) w1 Hg1) as (w2 & E2 & Hg2); [lia|done|].
  exists w2. split; [done|]. eapply good_weaken; [done|lia].
Qed.
(** ** The initial world *)

Lemma apply_options_same (opts : list Z) (d d' : DoubleBuffer H S) :
  apply_options opts d = inl d' →
  same_core d d' ∧ pm d' = pm d ∧ mem (objs d') = mem (objs d).
Proof.
  revert d. induction opts as [|c opts IH]; intros d; cbn; [by intros [= <-]|].
  unfold WithMetrics. destruct (CollectorType_Validate c); [|done]. intros E.
  destruct (IH _ E) as (? & ? & ?). done.
Qed.

Lemma NewDoubleBuffer_flow (n : Z) (cond : SwitchCondition) (opts : list Z) (s : S) (now : Z)
    (m : memory) (d : DoubleBuffer H S) :
  0 < n < 2 ^ 31 → NewDoubleBuffer n cond opts s now m = Ok (inl d) →
  flow d [] (λ _, []) ∧ queued d [] (λ _, []) = [] ∧ issued d = 0 ∧ mem (objs d) = m ∧
  SmallPool (pm d) = [].
Proof.
  intros Hn. unfold NewDoubleBuffer. destruct pq_new_ok as (h & -> & Hwf & Hc).
  destruct (NewSmartBuffer_repr n Hn) as (s0 & E0 & Hr & _ & Hcap & Hst & _). rewrite E0. cbn -[apply_options].
  destruct (apply_options opts _) as [d0|] eqn:Eo; [|done].
  apply apply_options_same in Eo as ((E1 & E2 & E3 & E4 & E5 & E6 & E7 & E8 & E9 & E10 & E11 & E12 & E13 & _) & Epm & Em).
  cbn in *. unfold new_buf. rewrite E1, E0. cbn. rewrite E1, E0. cbn. rewrite E13, E12. intros [= <-].
  unfold flow, queued, issued. cbn. rewrite E1, E2, E3, E4, E7, E9, E10, E11, Epm, Em. cbn.
  split_and!; try done.
  assert (∀ b : nat, b = 2%nat ∨ b = 3%nat → stored n
    (<[3%nat := s0]> (<[2%nat := s0]> (<[1%nat := s0]> {[0%nat := s0]}))) b s0 (-1) []) as Hs.
  { intros b [->| ->]; (split; [reflexivity|]); (split_and!; [done|done|lia|cbn; lia]). }
  rewrite E8. constructor; unfold owned; cbn; try done.
  - rewrite !NoDup_cons. split_and!; [by intros ?%list_elem_of_singleton|by intros ?%elem_of_nil|apply NoDup_nil_2].
  - intros b Hb. exists s0, (-1). apply Hs. rewrite !elem_of_cons in Hb.
    destruct Hb as [?|[?|?%elem_of_nil]]; [by left|by right|done].
  - exists s0. split; [apply Hs; by left|by left].
  - intros b Hb. split; [done|]. exists s0. split; [|done]. apply Hs. right.
    by apply list_elem_of_singleton in Hb.
  - intros b [x Hx]. rewrite !lookup_insert_Some in Hx. rewrite lookup_singleton_Some in Hx. lia.
  - by rewrite Hc.
  - by intros b ?%elem_of_nil.
  - split; [apply newWaiterManager_wf|done].
Qed.

Lemma start_good (n : Z) (cond : SwitchCondition) (opts : list Z) (s : S) (now : Z)
    (m : memory) (d : DoubleBuffer H S) :
  0 < n < 2 ^ 31 → mem_wf m → NewDoubleBuffer n cond opts s now m = Ok (inl d) →
  good 0 (start d).
Proof.
  intros Hn Hm E. destruct (NewDoubleBuffer_flow n cond opts s now m d Hn E) as (Hf & Hq & Hi & Em & Hp).
  change (start d) with (mkWorld H S (set_readMode (Some SafeRead) d) [] [] []).
  exists [], (λ _, []), []. unfold memory_of. cbn. rewrite Em, Hp.
  change (queued (set_readMode (Some SafeRead) d) [] (λ _, [])) with (queued d [] (λ _, [])).
  rewrite Hq. split; [done|]. split; [done|]. split; [by change (issued d ≤ 0); lia|].
  split; [|split; [by intros c ?%elem_of_nil|done]].
  constructor; try done.
  - by intros s0 ?%elem_of_nil.
  - by intros x s0 ?%elem_of_nil.
Qed.

(** ** Draining *)

(** [k] attempts to read. *)
Definition reads (o : oracle) (k : nat) : list op := replicate k (ORead o []).

(** What one attempt achieves in a quiet world; [k] bounds the attempts left. *)
Lemma drain_step (n : Z) (o : oracle) (w : world H S) (bs : list nat)
    (f : nat → list BufferItem) (bss : list (list byte)) (k : nat) :
  flow (db w) bs f → quiet (db w) → readMode (db w) = Some SafeRead → issued (db w) < 2 ^ 63 - 1 →
  kept (memory_of w) (queued (db w) bs f) bss (SmallPool (pm (db w)) ++ held (chunks w)) →
  written w = delivered w ++ bss →
  (length (queued (db w) bs f) + 2 * length bs +
    (if currentBuffer (db w) is Some _ then 1 else 0) < k)%nat →
  ∃ (w' : world H S) (bs' : list nat) (f' : nat → list BufferItem) (bss' : list (list byte)),
    exec range (ORead o []) w = Ok w' ∧
    flow (db w') bs' f' ∧ quiet (db w') ∧ readMode (db w') = Some SafeRead ∧
    issued (db w') < 2 ^ 63 - 1 ∧
    kept (memory_of w') (queued (db w') bs' f') bss' (SmallPool (pm (db w')) ++ held (chunks w')) ∧
    written w' = written w ∧ written w' = delivered w' ++ bss' ∧
    ((currentBuffer (db w') = None ∧ bs' = []) ∨
     (length (queued (db w') bs' f') + 2 * length bs' +
       (if currentBuffer (db w') is Some _ then 1 else 0) < k - 1)%nat).
Proof.
  intros Hf Hqu Hm Hi Hk Hw Hlt.
  destruct (tryRead_quiet range o (db w) bs f Hf Hqu Hi) as
    (d1 & bs1 & (Hf1 & Hq1 & [Hu1 Hp1] & Ha1 & Hi1 & Hpm1 & Hmem1 & Hrm1) &
     [(E & Hc1 & -> & _)|(b & E & Hc1 & Hcase)]).
  { cbn -[tryRead]. rewrite E. cbn. eexists _, [], f, bss. split; [done|]. unfold memory_of. cbn.
    rewrite Hpm1, Hmem1, Hrm1, Hq1, Hi1. split_and!; try done. by left. }
  destruct (safe_read_ok o d1 bs1 f bss (held (chunks w)) Hf1) as
    (d2 & f2 & Hf2 & Hi2 & Hrm2 & Hg2 & Ha2 & Hcu2 &
     [(E2 & Hq2 & Hemp & Hk2)|(c & x & bss' & E2 & Hfree & -> & Hx & Hk2)]).
  - by rewrite Hc1.
  - by rewrite Hrm1.
  - by rewrite Hmem1, Hq1, Hpm1.
  - cbn -[tryRead]. rewrite E, E2. cbn. eexists _, bs1, f2, bss. split; [done|].
    unfold memory_of, quiet. cbn. rewrite Hg2, Hrm2, Hrm1, Hi2, Hi1, Hcu2, Hc1, Hq2, Hq1.
    split_and!; try done; [by rewrite Hq2, Hq1 in Hk2|]. right.
    destruct Hcase as [(_ & _ & Hne)| ->]; [by specialize (Hemp b Hc1)|]. cbn [length] in Hlt. lia.
  - cbn -[tryRead]. rewrite E, E2. cbn. eexists _, bs1, f2, bss'. split; [done|].
    unfold memory_of, quiet. cbn. rewrite Hg2, Hrm2, Hrm1, Hi2, Hi1, Hcu2, Hc1, Hx, Hw.
    split_and!; try done.
    + unfold held. rewrite fmap_app. cbn. eapply kept_perm; [|exact Hk2]. unfold held. solve_Permutation.
    + by rewrite <- app_assoc.
    + right. pose proof (Forall2_length _ _ _ (k_items _ _ _ _ Hk)) as L1.
      pose proof (Forall2_length _ _ _ (k_items _ _ _ _ Hk2)) as L2. cbn [length] in L1.
      destruct Hcase as [(Hc & -> & _)| ->]; [rewrite Hc in Hlt; lia|]. cbn [length] in Hlt. lia.
Qed.

Lemma exec_all_app (xs ys : list op) (w : world H S) :
  exec_all range (xs ++ ys) w = rbind (exec_all range xs w) (exec_all range ys).
Proof.
  revert w. induction xs as [|x xs IH]; intros w; [done|]. cbn -[exec].
  destruct (exec range x w); cbn -[exec]; [apply IH|done|done].
Qed.

Lemma drain_all (n : Z) (o : oracle) (k : nat) (w : world H S) (bs : list nat)
    (f : nat → list BufferItem) (bss : list (list byte)) :
  flow (db w) bs f → quiet (db w) → readMode (db w) = Some SafeRead → issued (db w) < 2 ^ 63 - 1 →
  kept (memory_of w) (queued (db w) bs f) bss (SmallPool (pm (db w)) ++ held (chunks w)) →
  written w = delivered w ++ bss →
  (length (queued (db w) bs f) + 2 * length bs +
    (if currentBuffer (db w) is Some _ then 1 else 0) < k)%nat →
  ∃ (j : nat) (w' : world H S) (f' : nat → list BufferItem) (bss' : list (list byte)),
    (j ≤ k)%nat ∧ exec_all range (reads o j) w = Ok w' ∧
    flow (db w') [] f' ∧ quiet (db w') ∧ currentBuffer (db w') = None ∧
    kept (memory_of w') (queued (db w') [] f') bss' (SmallPool (pm (db w')) ++ held (chunks w')) ∧
    written w' = written w ∧ written w' = delivered w' ++ bss'.
Proof.
  revert w bs f bss. induction k as [|k IH]; intros w bs f bss Hf Hqu Hm Hi Hk Hw Hlt; [lia|].
  destruct (drain_step n o w bs f bss (Datatypes.S k) Hf Hqu Hm Hi Hk Hw Hlt) as
    (w1 & bs1 & f1 & bss1 & E & Hf1 & Hqu1 & Hm1 & Hi1 & Hk1 & Hww & Hw1 & [[Hc ->]|Hlt1]).
  - exists 1%nat, w1, f1, bss1. split; [lia|]. cbn -[exec]. rewrite E. cbn. done.
  - destruct (IH w1 bs1 f1 bss1) as (j & w2 & f2 & bss2 & Hj & E2 & H2); try done; [lia|].
    exists (Datatypes.S j), w2, f2, bss2. split; [lia|]. cbn -[exec]. rewrite E. cbn -[exec].
    split; [exact E2|]. by rewrite Hww in H2.
Qed.

(** What is left after draining is what the active ring holds. *)
Lemma drained_active (d : DoubleBuffer H S) (f : nat → list BufferItem)
    (bss : list (list byte)) (free : list slice) :
  flow d [] f → quiet d → currentBuffer d = None → kept (mem (objs d)) (queued d [] f) bss free →
  ∃ s : SmartBuffer, bufs (objs d) !! active d = Some s ∧ SmartBuffer.Len s = Z.of_nat (length bss).
Proof.
  intros [_ Hp] [Hu _] Hc Hk. destruct (fl_active Hp) as (s & (E & Hr & _) & _).
  exists s. split; [done|]. unfold SmartBuffer.Len. rewrite (repr_count _ _ _ Hr).
  rewrite <- (Forall2_length _ _ _ (k_items _ _ _ _ Hk)). unfold queued. by rewrite Hc, Hu.
Qed.
End invariant.

(** ** Properties *)

(** C1. Small data is delivered complete, unchanged and in order.  Start a
    double buffer of any positive capacity in safe-read mode and let writers
    write slices of 1 to 1023 bytes, readers read and release chunks, the
    monitor tick, the pools be cleaned, and users allocate and overwrite any
    memory the library does not hold (their own slices included, as soon as
    [Write] has returned), in any order, with the goroutines of the switches
    interleaved in any way in which they take their numbers in the order they
    were started: nothing panics or fails to return, and at every moment the
    byte strings delivered are a prefix of the byte strings written.  This
    holds for every heap that satisfies the priority queue interface, every
    strategy and every behaviour of the pools and of map iteration. *)
Theorem DoubleBuffer_delivers_in_order {H S : Type} `{PendingQueueLaws H, !SwitchStrategy S}
    (range : gmap Z nat → list (Z * nat)) (n : Z) (cond : SwitchCondition) (opts : list Z) (s : S)
    (now : Z) (m : memory) (d : DoubleBuffer H S) (xs : list op)
    (Hrange : RangeOrder range) (Hn : 0 < n < 2 ^ 31) (Hm : mem_wf m)
    (Hd : NewDoubleBuffer n cond opts s now m = Ok (inl d))
    (Hlen : Z.of_nat (length xs) < 2 ^ 63) (Hallowed : allowed_all range xs (start d)) :
  ∃ w : world H S, exec_all range xs (start d) = Ok w ∧
    ∃ rest : list (list byte), written w = delivered w ++ rest.
Proof.
  destruct (exec_all_good range 0 xs (start d)) as (w & E & bs & f & bss & _ & _ & _ & _ & _ & Hw);
    [by eapply start_good|lia|done|].
  exists w. split; [done|]. by exists bss.
Qed.

(** C5. After any run as in the delivery theorem, which has calls of one step
    and none of [Close], a write of 1 to 1023 bytes of mapped memory is accepted:
    it finds room, if need be by switching the channels. *)
Theorem DoubleBuffer_accepts_writes {H S : Type} `{PendingQueueLaws H, !SwitchStrategy S}
    (range : gmap Z nat → list (Z * nat)) (n : Z) (cond : SwitchCondition) (opts : list Z) (s : S)
    (now : Z) (m : memory) (d : DoubleBuffer H S) (xs : list op) (w : world H S)
    (o : oracle) (p : slice)
    (Hrange : RangeOrder range) (Hn : 0 < n < 2 ^ 31) (Hm : mem_wf m)
    (Hd : NewDoubleBuffer n cond opts s now m = Ok (inl d))
    (Hlen : Z.of_nat (length xs) < 2 ^ 63) (Hallowed : allowed_all range xs (start d))
    (Hw : exec_all range xs (start d) = Ok w) (Hp : allowed range (OWrite o p) w) :
  ∃ d' : DoubleBuffer H S, Write o p (db w) = Ok (d', None).
Proof.
  destruct (exec_all_good range 0 xs (start d)) as (w' & E & Hg);
    [by eapply start_good|lia|done|].
  rewrite Hw in E. injection E as <-.
  destruct (exec_write range (0 + Z.of_nat (length xs)) o p w Hg Hp) as (d' & bs & E & _). by exists d'.
Qed.


(** ** A concrete run *)

(** User memory with two slices of two and three bytes. *)
Definition demo_mem : memory :=
  store 8 [xaa; xbb; xcc] (store 5 [x11; x22] (alloc 20 empty_mem).1).
Definition demo_p : slice := mkSlice 5 2 2.
Definition demo_q : slice := mkSlice 8 3 3.

Lemma demo_mem_wf : mem_wf demo_mem.
Proof.
  apply store_wf; [apply store_wf|done|done]; [apply alloc_wf|done|done].
  split; [done|]. intros a [x Hx]. cbn [empty_mem bytes] in Hx. by rewrite lookup_empty in Hx.
Qed.

(** Pools that are used from the front when they are not empty. *)
Definition demo_oracle : oracle := mkOracle (Some 0%nat) (Some 0%nat) 0 0 0.

Definition demo_new : result (DoubleBuffer WrapHeap DefaultStrategy + error) :=
  NewDoubleBuffer 1 (mkCondition (mkConfig 1 80 second 1000) true 1) [PrometheusCollector]
    NewDefaultStrategy 0 demo_mem.

(** The buffer [demo_new] makes. *)
Definition demo : DoubleBuffer WrapHeap DefaultStrategy :=
  Eval vm_compute in
    match demo_new as r
      return (if r is Ok (inl _) then DoubleBuffer WrapHeap DefaultStrategy else unit) with
    | Ok (inl d) => d
    | _ => tt
    end.

Lemma demo_ok : demo_new = Ok (inl demo).
Proof. vm_compute. reflexivity. Qed.

(** Two writes into rings of one item, the first slice overwritten in
    between, the goroutine of the switch, a read and its release. *)
Definition demo_ops : list op :=
  [OWrite demo_oracle demo_p; OStore 5 [x00; x00]; OWrite demo_oracle demo_q; OGo 0; OGo 0; OGo 0;
   OGo 0; ORead demo_oracle []; ORelease 0; OWrite demo_oracle demo_p; OTick demo_oracle].

Lemma demo_allowed : allowed_all map_to_list demo_ops (start demo).
Proof.
  vm_compute. repeat split; try discriminate; try (by eexists); try (by repeat constructor; discriminate).
Qed.

(** The world after [demo_ops]. *)
Definition demo_end : world WrapHeap DefaultStrategy :=
  get_ok (start demo) (exec_all map_to_list demo_ops (start demo)).

Lemma demo_run : exec_all map_to_list demo_ops (start demo) = Ok demo_end.
Proof. apply get_ok_ok. vm_compute. exact I. Qed.

Lemma DoubleBuffer_delivers_in_order_witness :
  written demo_end = [[x11; x22]; [xaa; xbb; xcc]; [x00; x00]] ∧
  delivered demo_end = [[x11; x22]] ∧
  ∃ w : world WrapHeap DefaultStrategy, exec_all map_to_list demo_ops (start demo) = Ok w ∧
    ∃ rest : list (list byte), written w = delivered w ++ rest.
Proof.
  split; [vm_compute; reflexivity|]. split; [vm_compute; reflexivity|].
  eapply (DoubleBuffer_delivers_in_order map_to_list 1 _ _ _ _ demo_mem demo demo_ops).
  - apply map_to_list_RangeOrder.
  - split; reflexivity.
  - apply demo_mem_wf.
  - apply demo_ok.
  - reflexivity.
  - apply demo_allowed.
Defined.

Lemma DoubleBuffer_accepts_writes_witness :
  ∃ d' : DoubleBuffer WrapHeap DefaultStrategy, Write demo_oracle demo_q (db demo_end) = Ok (d', None).
Proof.
  eapply (DoubleBuffer_accepts_writes map_to_list 1 _ _ _ _ demo_mem demo demo_ops demo_end).
  - apply map_to_list_RangeOrder.
  - split; reflexivity.
  - apply demo_mem_wf.
  - apply demo_ok.
  - reflexivity.
  - apply demo_allowed.
  - apply demo_run.
  - split; [split; reflexivity|]. vm_compute. eexists. reflexivity.
Defined.

(** One write is handed over and picked up, the next is still active. *)
Definition drain_ops : list op :=
  [OWrite demo_oracle demo_p; OWrite demo_oracle demo_q; OGo 0; OGo 0; OGo 0; OGo 0].

Definition drain_start : world WrapHeap DefaultStrategy :=
  get_ok (start demo) (exec_all map_to_list drain_ops (start demo)).

