(* ===== verification/DoubleBufferZeroCopy.v ===== *)
(** * Delivery in zero-copy mode

    What a double buffer in zero-copy mode delivers for data of every size:
    small data as the copy [Write] has made, medium and large data as the
    writer's own bytes. *)
From stdpp Require Import functions.
From S2P Require Import Prelude.
From S2P Require Import Consts.
From S2P Require Import Interfaces.
From S2P Require Import Runtime.
From S2P Require Import SmartBuffer.
From S2P Require Import SwitchStrategy.
From S2P Require Import SwitchConfig.
From S2P Require Import Waiters.
From S2P Require Import BigDataPool.
From S2P Require Import LifeCycle.
From S2P Require Import DataChunk.
From S2P Require Import WrapHeap.
From S2P Require Import DoubleBuffer.
From S2P Require Import DoubleBufferFlow.
From S2P Require Import DoubleBufferDelivery.
Open Scope Z_scope.
Open Scope go_scope.

(** What a reader gets for a slice: a copy of the bytes it had, or the slice
    itself. *)
Inductive payload := Copied (bs : list byte) | Shared (s : slice).

(** The payload of the slice [p], seen in the memory [m]. *)
Definition payload_of (m : memory) (p : slice) : payload :=
  if decide (slen p < SmallDataThreshold) then Copied (default [] (slice_bytes m p))
  else Shared (mkSlice (sptr p) (slen p) (slen p)).

(** The buffer, the chunks readers hold, and the histories of both ends. *)
Record zworld {H S : Type} := mkZWorld {
  zdb : DoubleBuffer H S;
  zchunks : list (DataChunk free_action);
  zwritten : list payload;
  zdelivered : list payload
}.
Arguments zworld H S : clear implicits.

Section zero_copy.
  Context {H S : Type} `{!PendingQueue H, !SwitchStrategy S}.
  Context (range : gmap Z nat → list (Z * nat)).

Definition zset_db (d : DoubleBuffer H S) (w : zworld H S) : zworld H S :=
  mkZWorld H S d (zchunks w) (zwritten w) (zdelivered w).

Definition zmemory (w : zworld H S) : memory := mem (objs (zdb w)).

(** One operation; the histories record the payload of an accepted slice at
    the write and of a chunk when it is returned. *)
Definition zexec (x : op) (w : zworld H S) : result (zworld H S) :=
  match x with
  | OWrite o p =>
      let* (d, err) := Write o p (zdb w) in
      Ok (mkZWorld H S d (zchunks w)
            (match err with
             | None => zwritten w ++ [payload_of (zmemory w) p]
             | Some _ => zwritten w
             end) (zdelivered w))
  | ORead o sleeps =>
      let* (d, res) := tryRead range o sleeps (zdb w) in
      match res with
      | inl c =>
          Ok (mkZWorld H S d (zchunks w ++ [c]) (zwritten w)
                (zdelivered w ++ [payload_of (mem (objs d)) (Bytes c)]))
      | inr _ => Ok (zset_db d w)
      end
  | ORelease k =>
      match zchunks w !! k with
      | Some c =>
          Ok (mkZWorld H S (Release run_free c (zdb w)).2 (delete k (zchunks w)) (zwritten w)
                (zdelivered w))
      | None => Ok w
      end
  | OGo i => let* d := run_goroutine range i (zdb w) in Ok (zset_db d w)
  | OTick o => let* d := swapMonitor_tick o (zdb w) in Ok (zset_db d w)
  | OCleanup clock morder border =>
      Ok (zset_db (asyncRecycleWorker_tick clock morder border (zdb w)) w)
  | OAlloc n => Ok (zset_db (set_mem (alloc n (zmemory w)).1 (zdb w)) w)
  | OStore p l => Ok (zset_db (set_mem (store p l (zmemory w)) (zdb w)) w)
  end.

Fixpoint zexec_all (xs : list op) (w : zworld H S) : result (zworld H S) :=
  match xs with
  | [] => Ok w
  | x :: xs => let* w := zexec x w in zexec_all xs w
  end.

(** What the users are asked for: writes of 1 to [2 ^ 31 - 1] bytes that are
    there, no stores to the copies the library holds, and goroutines that take
    their numbers in order. *)
Definition zallowed (x : op) (w : zworld H S) : Prop :=
  match x with
  | OWrite o p =>
      0 < sptr p ∧ 0 < slen p < 2 ^ 31 ∧
      (slen p < SmallDataThreshold → is_Some (slice_bytes (zmemory w) p))
  | ORead o sleeps =>
      match discard_current (zdb w) with
      | Ok d1 => calm_pick range maxRetires sleeps d1
      | _ => True
      end
  | OGo i => in_order i (zdb w)
  | OStore p l =>
      0 < p ∧ p + Z.of_nat (length l) ≤ brk (zmemory w) ∧
      Forall (λ x, Size x < SmallDataThreshold →
        disjoint_at (Ptr x) (Size x) p (Z.of_nat (length l))) (slots (zdb w))
  | _ => True
  end.

Fixpoint zallowed_all (xs : list op) (w : zworld H S) : Prop :=
  match xs with
  | [] => True
  | x :: xs =>
      zallowed x w ∧
      match zexec x w with
      | Ok w => zallowed_all xs w
      | _ => True
      end
  end.

(** A new double buffer in zero-copy mode, before any write. *)
Definition zstart (d : DoubleBuffer H S) : zworld H S :=
  mkZWorld H S (RegisterReadMode ZeroCopyRead d).1 [] [] [].
End zero_copy.

(** ** The invariant *)

Definition small (x : BufferItem) : Prop := Size x < SmallDataThreshold.

#[export] Instance small_dec (x : BufferItem) : Decision (small x).
Proof. unfold small. apply _. Defined.

Definition copies (l : list payload) : list (list byte) :=
  omap (λ x, match x with Copied bs => Some bs | Shared _ => None end) l.

(** The item [x] on its way carries the payload [y]. *)
Definition carries (x : BufferItem) (y : payload) : Prop :=
  match y with
  | Copied bs => small x
  | Shared s => ¬ small x ∧ Size x < 2 ^ 31 ∧ 0 < Ptr x ∧ s = mkSlice (Ptr x) (Size x) (Size x)
  end.

Section invariant.
  Context {H S : Type} `{!PendingQueue H, !PendingQueueLaws H, !SwitchStrategy S}.
  Context (range : gmap Z nat → list (Z * nat)) `{!RangeOrder range}.

(** The queued items carry [pend], and the bytes of the small ones are kept. *)
Definition loaded (m : memory) (its : list BufferItem) (pend : list payload) (free : list slice) :
    Prop :=
  Forall2 carries its pend ∧ kept m (filter small its) (copies pend) free.

Definition zgood (n : Z) (w : zworld H S) : Prop :=
  ∃ (bs : list nat) (f : nat → list BufferItem) (pend : list payload),
    flow (zdb w) bs f ∧ readMode (zdb w) = Some ZeroCopyRead ∧ issued (zdb w) ≤ n ∧
    loaded (zmemory w) (queued (zdb w) bs f) pend (SmallPool (pm (zdb w))) ∧
    (∀ c : DataChunk free_action, c ∈ zchunks w → ∃ ptr k : Z, free c = Some (FreeZeroCopy ptr k)) ∧
    zwritten w = zdelivered w ++ pend.

Lemma classify_loaded (o : oracle) (p : slice) (d : DoubleBuffer H S) (its : list BufferItem)
    (pend : list payload) :
  loaded (mem (objs d)) its pend (SmallPool (pm d)) →
  0 < sptr p → 0 < slen p < 2 ^ 31 →
  (slen p < SmallDataThreshold → is_Some (slice_bytes (mem (objs d)) p)) →
  ∃ (d' : DoubleBuffer H S) (it : BufferItem),
    classify o p d = Ok (d', it) ∧
    loaded (mem (objs d')) (its ++ [it]) (pend ++ [payload_of (mem (objs d)) p]) (SmallPool (pm d')).
Proof.
  intros [Hc Hk] Hptr Hn Hb. unfold payload_of.
  assert (int32 (slen p) = slen p) as E by (apply signed_id; unfold in_signed; lia).
  destruct (decide (slen p < SmallDataThreshold)) as [Hs|Hs].
  - destruct (Hb Hs) as [x Hx]. rewrite Hx. cbn [default].
    rewrite <- (app_nil_r (SmallPool (pm d))) in Hk.
    destruct (classify_small o p d _ _ [] x Hk) as (d' & it & Ecl & Hk'); [lia|done|].
    exists d', it. split; [done|]. rewrite app_nil_r in Hk'.
    assert (small it) as Hit.
    { pose proof (k_items _ _ _ _ Hk') as H2. apply Forall2_app_inv_l in H2 as (l1 & l2 & _ & H2 & _).
      inversion H2 as [|? ? ? ? [Hsz _]]; subst. unfold small. lia. }
    split.
    + apply Forall2_app; [done|]. by constructor.
    + rewrite filter_app, filter_cons_True, filter_nil by done.
      unfold copies in *. rewrite omap_app. exact Hk'.
  - assert (∃ d' : DoubleBuffer H S, classify o p d = Ok (d', mkItem (sptr p) (slen p)) ∧
      mem (objs d') = mem (objs d) ∧ SmallPool (pm d') = SmallPool (pm d)) as (d' & Ecl & Em & Ep).
    { unfold classify. cbn [Size Ptr]. rewrite E, decide_False by done. case_decide; by eexists. }
    exists d', (mkItem (sptr p) (slen p)). split; [done|]. rewrite Em, Ep. split.
    + apply Forall2_app; [done|]. constructor; [|done]. unfold carries, small. cbn.
      split_and!; (done || lia).
    + rewrite filter_app, filter_cons_False, filter_nil, app_nil_r by done.
      unfold copies in *. rewrite omap_app. cbn. by rewrite app_nil_r.
Qed.
(** Reading from the current buffer in zero-copy mode. *)
Lemma zero_copy_read_ok (o : oracle) (d : DoubleBuffer H S) (bs : list nat)
    (f : nat → list BufferItem) (pend : list payload) :
  flow d bs f → currentBuffer d ≠ None → readMode d = Some ZeroCopyRead →
  loaded (mem (objs d)) (queued d bs f) pend (SmallPool (pm d)) →
  ∃ (d' : DoubleBuffer H S) (f' : nat → list BufferItem) (pend' : list payload),
    flow d' bs f' ∧ issued d' = issued d ∧ readMode d' = readMode d ∧
    loaded (mem (objs d')) (queued d' bs f') pend' (SmallPool (pm d')) ∧
    ((read_current o d = Ok (d', inr ErrRead) ∧ pend' = pend) ∨
     (∃ c : DataChunk free_action,
        read_current o d = Ok (d', inl c) ∧ pend = payload_of (mem (objs d')) (Bytes c) :: pend' ∧
        ∃ ptr k : Z, free c = Some (FreeZeroCopy ptr k))).
Proof.
  intros Hf Hc Hm [Hp Hk]. unfold read_current. rewrite Hm.
  rewrite decide_False, decide_True by done. unfold zeroCopyRead, zero_copy_chunk.
  destruct (pop_current_ok d bs f Hf Hc) as (b & s & Eb & [(Hfb & E & Hf' & Hq)|(x & f' & E & Hf' & Hq)]).
  - exists (set_buf b s d), f, pend. rewrite E. cbn. cbn in Hq. rewrite Hq.
    split_and!; try done. by left.
  - rewrite E. cbn -[decide createByteSliceFromPointer]. set (d1 := set_buf b s d) in *.
    rewrite Hq in Hp, Hk. inversion Hp as [|? y ? pend' Hy Hp']; subst pend. clear Hp.
    assert (0 < Ptr x ∧ 0 < Size x ∧ loaded (mem (objs d1)) (queued d1 bs f') pend' (SmallPool (pm d1)) ∧
      payload_of (mem (objs d1)) (mkSlice (Ptr x) (Size x) (Size x)) = y) as (Hptr & Hsz & Hl & Hpay).
    { unfold payload_of. cbn [slen sptr]. destruct y as [bytes|sl]; cbn in Hy.
      - rewrite filter_cons_True in Hk by done. cbn in Hk.
        pose proof (kept_item_range _ _ _ _ x Hk ltac:(left)).
        destruct (kept_dequeue _ _ _ _ _ Hk) as (z & bss' & [= <- <-] & Hk' & _ & Hload).
        split; [lia|]. split; [lia|]. split; [by split|]. rewrite decide_True by done.
        unfold slice_bytes. cbn [sptr slen]. change (mem (objs d1)) with (mem (objs d)). by rewrite Hload.
      - destruct Hy as (Hns & ? & ? & ->). rewrite filter_cons_False in Hk by done.
        unfold small, SmallDataThreshold in Hns. split; [lia|]. split; [lia|]. split; [by split|].
        by rewrite decide_False by (unfold SmallDataThreshold; lia). }
    rewrite decide_False by lia. unfold createByteSliceFromPointer. rewrite !decide_False by lia.
    cbn [rbind]. set (d2 := if decide (LargeDataThreshold < Size x) then _ else d1).
    assert (same_core d1 d2 ∧ mem (objs d2) = mem (objs d1) ∧ SmallPool (pm d2) = SmallPool (pm d1))
      as (Hsame & Hmem & Hpool) by (unfold d2; by case_decide).
    destruct (flow_same _ _ _ _ Hsame Hf') as [Hf2 Hq2].
    destruct Hsame as (_ & _ & Esq & _ & _ & _ & _ & _ & _ & Egs & _ & _ & _ & Erm & _).
    exists d2, f', pend'. rewrite Hmem, Hpool, Hq2, Erm. split; [exact Hf2|].
    split; [unfold issued; by rewrite Esq, Egs|]. split; [done|]. split; [exact Hl|]. right.
    eexists. split; [done|]. cbn [Bytes data free]. rewrite Hpay. split; [done|]. by eexists _, _.
Qed.
Lemma zgood_same (n : Z) (w : zworld H S) (d : DoubleBuffer H S) :
  zgood n w → same_core (zdb w) d → mem (objs d) = zmemory w →
  SmallPool (pm d) = SmallPool (pm (zdb w)) → zgood n (zset_db d w).
Proof.
  intros (bs & f & pend & Hf & Hm & Hi & Hl & Hc & Hw) Hsame Hmem Hpool.
  destruct (flow_same _ _ _ _ Hsame Hf) as [Hf' Hq].
  destruct Hsame as (_ & _ & Esq & _ & _ & _ & _ & _ & _ & Egs & _ & _ & _ & Erm & _).
  exists bs, f, pend. cbn. unfold zmemory in *. cbn. rewrite Hmem, Hpool, Hq, Erm.
  split_and!; try done. unfold issued in *. by rewrite Esq, Egs.
Qed.

Lemma loaded_store (m : memory) (its : list BufferItem) (pend : list payload) (free : list slice)
    (p : Z) (l : list byte) :
  loaded m its pend free → 0 < p → p + Z.of_nat (length l) ≤ brk m →
  (∀ x : BufferItem, x ∈ its → small x → disjoint_at (Ptr x) (Size x) p (Z.of_nat (length l))) →
  loaded (store p l m) its pend free.
Proof.
  intros [Hc [H1 H2 H3 H4 H5]] Hp Hb Hd. split; [done|]. constructor; try done.
  - by apply store_wf.
  - apply Forall2_same_length_lookup_2; [by eapply Forall2_length|].
    intros i x b Hx Hb'. destruct (Forall2_lookup_lr _ _ _ _ _ _ H2 Hx Hb') as [Hsz Hload].
    split; [done|]. apply load_store_disjoint; [|done].
    apply list_elem_of_lookup_2, list_elem_of_filter in Hx as [Hsm Hx].
    destruct (Hd x Hx Hsm) as [?|?]; lia.
Qed.

Lemma zexec_write (n : Z) (o : oracle) (p : slice) (w : zworld H S) :
  zgood n w → zallowed range (OWrite o p) w →
  ∃ d : DoubleBuffer H S, Write o p (zdb w) = Ok (d, None) ∧
    zgood (n + 1) (mkZWorld H S d (zchunks w) (zwritten w ++ [payload_of (zmemory w) p]) (zdelivered w)).
Proof.
  intros (bs & f & pend & Hf & Hm & Hi & Hl & Hc & Hw) (Hptr & Hn & Hx).
  destruct (classify_loaded o p (zdb w) _ pend Hl Hptr Hn Hx) as (d1 & it & Ecl & Hl1).
  destruct (Write_ok o p (zdb w) d1 it bs f Hf Ecl)
    as (d' & f' & Ew & Hf' & Hq & Hpm & Hmem & Hrm & _ & His).
  exists d'. split; [done|]. exists bs, f', (pend ++ [payload_of (zmemory w) p]).
  unfold zmemory. cbn. rewrite Hpm, Hmem, Hq, Hrm, Hw. split_and!; try done; [lia|by rewrite app_assoc].
Qed.

Lemma zexec_read (n : Z) (o : oracle) (sleeps : list (list nat)) (w : zworld H S) :
  zgood n w → n < 2 ^ 63 - 1 → zallowed range (ORead o sleeps) w →
  ∃ w' : zworld H S, zexec range (ORead o sleeps) w = Ok w' ∧ zgood n w'.
Proof.
  intros (bs & f & pend & Hf & Hm & Hi & Hl & Hc & Hw) Hn Hal. cbn -[tryRead].
  destruct (tryRead_picks range o sleeps (zdb w) bs f Hf) as
    (d1 & bs1 & Hf1 & Hq1 & Hi1 & Hpm1 & Hmem1 & Hrm1 & [E|[E Hcur]]);
    [lia|intros d1 E; cbn in Hal; by rewrite E in Hal| |]; rewrite E.
  - cbn. eexists. split; [done|]. exists bs1, f, pend. unfold zmemory. cbn.
    rewrite Hpm1, Hmem1, Hrm1, Hq1, Hi1. done.
  - destruct (zero_copy_read_ok o d1 bs1 f pend Hf1 Hcur) as
      (d2 & f2 & pend2 & Hf2 & Hi2 & Hrm2 & Hl2 & [[E2 <-]|(c & E2 & -> & Hfree)]);
      [by rewrite Hrm1|by rewrite Hmem1, Hq1, Hpm1| |]; rewrite E2; cbn;
      (eexists; split; [done|]); exists bs1, f2, pend2; unfold zmemory; cbn;
      rewrite Hrm2, Hrm1, Hi2, Hi1; split_and!; try done.
    + intros c' [?|Hc']%elem_of_app; [by apply Hc|]. by apply list_elem_of_singleton in Hc' as ->.
    + by rewrite Hw, <- app_assoc.
Qed.

Lemma zexec_good (n : Z) (x : op) (w : zworld H S) :
  zgood n w → n < 2 ^ 63 - 1 → zallowed range x w →
  ∃ w' : zworld H S, zexec range x w = Ok w' ∧ zgood (n + 1) w'.
Proof.
  intros Hg Hn Hal.
  assert (∀ w' : zworld H S, zgood n w' → zgood (n + 1) w') as Hweak.
  { intros w' (bs & f & pend & H1 & H2 & H3 & H4). exists bs, f, pend. split_and!; (done || lia || apply H4). }
  destruct x as [o p|o sleeps|k|i|o|clock mo bo|k|p l].
  - destruct (zexec_write n o p w Hg Hal) as (d & E & Hg'). cbn -[Write]. rewrite E. by eexists.
  - destruct (zexec_read n o sleeps w Hg Hn Hal) as (w' & E & Hg'). exists w'. by split; [|apply Hweak].
  - cbn. destruct (zchunks w !! k) as [c|] eqn:Ec; [|by exists w; split; [|apply Hweak]].
    destruct Hg as (bs & f & pend & Hf & Hm & Hi & Hl & Hc & Hw).
    destruct (Hc c) as (ptr & z & Hfree); [by eapply list_elem_of_lookup_2|].
    unfold Release. rewrite Hfree. eexists. split; [done|]. apply Hweak.
    exists bs, f, pend. unfold zmemory in *. cbn -[unnumbered]. split_and!; try done.
    intros c' Hc'. apply Hc. rewrite (delete_Permutation _ _ _ Ec). by right.
  - destruct Hg as (bs & f & pend & Hf & Hm & Hi & Hl & Hc & Hw).
    destruct (run_goroutine_ok range i (zdb w) bs f Hf Hal) as
      (d' & bs' & E & Hf' & Hq & Hi' & _ & _ & Hpm & Hmem & Hrm); [lia|].
    cbn -[run_goroutine]. rewrite E. cbn. eexists. split; [done|].
    exists bs', f, pend. unfold zmemory in *. cbn. rewrite Hpm, Hmem, Hrm, Hq, Hi'.
    split_and!; (done || lia).
  - destruct Hg as (bs & f & pend & Hf & Hm & Hi & Hl & Hc & Hw). cbn -[swapMonitor_tick].
    destruct (swapMonitor_tick_ok o (zdb w) bs f Hf) as (d' & f' & E & Hf' & Hq & Hpm & Hmem & Hrm & Hi').
    rewrite E. cbn. eexists. split; [done|]. exists bs, f', pend. unfold zmemory in *. cbn -[unnumbered].
    rewrite Hpm, Hmem, Hrm, Hq. split_and!; (done || lia).
  - cbn. eexists. split; [done|]. apply Hweak.
    apply zgood_same; [done|..]; unfold asyncRecycleWorker_tick; by destruct (recycler (zdb w)).
  - cbn. eexists. split; [done|]. apply Hweak.
    destruct Hg as (bs & f & pend & Hf & Hm & Hi & [Hl Hk] & Hc & Hw). exists bs, f, pend.
    unfold zmemory in *. cbn -[alloc]. split_and!; try done. split; [done|]. by apply kept_grow.
  - cbn -[store]. eexists. split; [done|]. apply Hweak.
    destruct Hg as (bs & f & pend & Hf & Hm & Hi & Hl & Hc & Hw), Hal as (Hp & Hb & Hsl).
    exists bs, f, pend. unfold zmemory in *. cbn -[unnumbered store]. split_and!; try done.
    apply loaded_store; [done..|]. intros x Hx Hsm. rewrite Forall_forall in Hsl.
    apply Hsl; [by eapply queued_slots|done].
Qed.

Lemma zexec_all_good (n : Z) (xs : list op) (w : zworld H S) :
  zgood n w → n + Z.of_nat (length xs) < 2 ^ 63 → zallowed_all range xs w →
  ∃ w' : zworld H S, zexec_all range xs w = Ok w' ∧ zgood (n + Z.of_nat (length xs)) w'.
Proof.
  revert n w. induction xs as [|x xs IH]; intros n w Hg Hn Hal.
  { exists w. split; [done|]. by rewrite Z.add_0_r. }
  cbn [length] in *. destruct Hal as [Hx Hal].
  destruct (zexec_good n x w Hg ltac:(lia) Hx) as (w1 & E & Hg1). cbn [zexec_all]. rewrite E in *.
  cbn [rbind]. destruct (IH (n + 1) w1 Hg1) as (w2 & E2 & Hg2); [lia|done|].
  exists w2. split; [done|]. by replace (n + Z.of_nat (Datatypes.S (length xs))) with (n + 1 + Z.of_nat (length xs)) by lia.
Qed.

Lemma zstart_good (n : Z) (cond : SwitchCondition) (opts : list Z) (s : S) (now : Z)
    (m : memory) (d : DoubleBuffer H S) :
  0 < n < 2 ^ 31 → mem_wf m → NewDoubleBuffer n cond opts s now m = Ok (inl d) →
  zgood 0 (zstart d).
Proof.
  intros Hn Hm E. destruct (NewDoubleBuffer_flow n cond opts s now m d Hn E) as (Hf & Hq & Hi & Em & Hp).
  change (zstart d) with (mkZWorld H S (set_readMode (Some ZeroCopyRead) d) [] [] []).
  exists [], (λ _, []), []. unfold zmemory. cbn. rewrite Em, Hp.
  change (queued (set_readMode (Some ZeroCopyRead) d) [] (λ _, [])) with (queued d [] (λ _, [])).
  rewrite Hq. split; [done|]. split; [done|]. split; [by change (issued d ≤ 0); lia|].
  split; [|split; [by intros c ?%elem_of_nil|done]].
  split; [constructor|]. constructor; try done.
  - by intros s0 ?%elem_of_nil.
  - by intros x s0 ?%elem_of_nil.
Qed.
End invariant.

(** ** Properties *)

(** C7. Zero-copy mode delivers data of every size in order: for any run of
    writes of 1 to [2 ^ 31 - 1] bytes, reads, releases, ticks, cleanups and
    memory operations of the users, with the goroutines of the switches taking
    their numbers in the order they were started, nothing panics, every write is accepted, and what the
    readers get is a prefix of what was written: the bytes themselves for
    small data, which the writer may overwrite after [Write], and the writer's
    own slice, at its address and with its length, for all other data. *)
Theorem zero_copy_delivers_in_order {H S : Type} `{PendingQueueLaws H, !SwitchStrategy S}
    (range : gmap Z nat → list (Z * nat)) (n : Z) (cond : SwitchCondition) (opts : list Z) (s : S)
    (now : Z) (m : memory) (d : DoubleBuffer H S) (xs : list op)
    (Hrange : RangeOrder range) (Hn : 0 < n < 2 ^ 31) (Hm : mem_wf m)
    (Hd : NewDoubleBuffer n cond opts s now m = Ok (inl d))
    (Hlen : Z.of_nat (length xs) < 2 ^ 63) (Hallowed : zallowed_all range xs (zstart d)) :
  ∃ w : zworld H S, zexec_all range xs (zstart d) = Ok w ∧
    (∃ rest : list payload, zwritten w = zdelivered w ++ rest) ∧
    ∀ (o : oracle) (p : slice), zallowed range (OWrite o p) w →
      ∃ d' : DoubleBuffer H S, Write o p (zdb w) = Ok (d', None).
Proof.
  destruct (zexec_all_good range 0 xs (zstart d)) as (w & E & Hg); [by eapply zstart_good|lia|done|].
  exists w. split; [done|]. split.
  - destruct Hg as (bs & f & pend & _ & _ & _ & _ & _ & Hw). by exists pend.
  - intros o p Hp. destruct (zexec_write range _ o p w Hg Hp) as (d' & E' & _). by exists d'.
Qed.

(** A slice of 1500 bytes and a small one, in rings of one item. *)
Definition big_p : slice := mkSlice 5 1500 1500.

Definition zops : list op :=
  [OWrite demo_oracle big_p; OWrite demo_oracle demo_q; OStore 5 [x00; x00; x00; x00; x00; x00];
   OGo 0; OGo 0; OGo 0; OGo 0; ORead demo_oracle []; ORelease 0; OWrite demo_oracle demo_p;
   OGo 0; OGo 0; OGo 0; OGo 0; ORead demo_oracle []].

Definition zdemo_end : zworld WrapHeap DefaultStrategy :=
  get_ok (zstart demo) (zexec_all map_to_list zops (zstart demo)).

Lemma zero_copy_delivers_in_order_witness :
  zdelivered zdemo_end = [Shared big_p; Copied [xaa; xbb; xcc]] ∧
  ∃ w : zworld WrapHeap DefaultStrategy, zexec_all map_to_list zops (zstart demo) = Ok w ∧
    ∃ rest : list payload, zwritten w = zdelivered w ++ rest.
Proof.
  split; [vm_compute; reflexivity|].
  destruct (zero_copy_delivers_in_order map_to_list 1 (mkCondition (mkConfig 1 80 second 1000) true 1)
    [PrometheusCollector] NewDefaultStrategy 0 demo_mem demo zops) as (w & E & Hw & _).
  - apply map_to_list_RangeOrder.
  - split; reflexivity.
  - apply demo_mem_wf.
  - apply demo_ok.
  - reflexivity.
  - vm_compute. repeat split; try discriminate; try (by eexists); try (by repeat constructor; discriminate).
  - exact (ex_intro _ w (conj E Hw)).
Defined.
