(* ===== verification/DoubleBufferEdges.v ===== *)
(** * The double buffer at its edges

    Closing, unusual arguments, the kinds of data by size, and the two places
    where the interleaving with the goroutines of a switch matters: numbering
    buffers and waking readers. *)
From S2P Require Import Prelude.
From S2P Require Import Consts.
From S2P Require Import Interfaces.
From S2P Require Import Runtime.
From S2P Require Import SmartBuffer.
From S2P Require Import WrapHeap.
From S2P Require Import SwitchStrategy.
From S2P Require Import SwitchConfig.
From S2P Require Import Waiters.
From S2P Require Import MediumPool.
From S2P Require Import BigDataPool.
From S2P Require Import LifeCycle.
From S2P Require Import DataChunk.
From S2P Require Import DoubleBuffer.
From S2P Require Import DoubleBufferFlow.
From S2P Require Import DoubleBufferDelivery.
Open Scope Z_scope.
Open Scope go_scope.

(** ** Closing *)

(** A call of one of the public methods, or a step of a worker. *)
Inductive call :=
  | CWrite (o : oracle) (p : slice)
  | CTick (o : oracle)
  | CClose.

Section closing.
  Context {H S : Type} `{!PendingQueue H, !PendingQueueLaws H, !SwitchStrategy S}.

Definition run_call (c : call) (d : DoubleBuffer H S) : result (DoubleBuffer H S * option error) :=
  match c with
  | CWrite o p => Write o p d
  | CTick o => rmap (λ d, (d, None)) (swapMonitor_tick o d)
  | CClose => rmap (λ d, (d, None)) (Close d)
  end.

(** What is true of a closed buffer. *)
Definition is_closed (d : DoubleBuffer H S) : Prop :=
  state d = ClosedState ∧ stop_closed d = true ∧ workers_done d = true.

(** The loop takes everything off the heap. *)
Lemma drain_loop_ok (fuel : nat) (d : DoubleBuffer H S) :
  pq_wf (pendingHeap d) → (pq_len (pendingHeap d) < fuel)%nat →
  ∃ (h : H) (l : list nat),
    drain_loop fuel d = Ok (set_pool l (set_pendingHeap h d)) ∧ pq_wf h ∧ pq_contents h = [] ∧
    l ≡ₚ pool d ++ (pq_contents (pendingHeap d)).*2.
Proof.
  revert d. induction fuel as [|fuel IH]; intros d Hwf Hlen; [lia|].
  rewrite pq_len_ok in Hlen by done. cbn [drain_loop]. rewrite pq_len_ok by done.
  destruct (decide (pq_contents (pendingHeap d) = [])) as [He|Hne].
  - rewrite He in *. rewrite decide_False by (cbn; lia).
    exists (pendingHeap d), (pool d). cbn. rewrite app_nil_r. split_and!; try done.
    by destruct d.
  - assert (pq_contents (pendingHeap d) = [] ∨ 0 < length (pq_contents (pendingHeap d)))%nat as [?|Hpos]
      by (destruct (pq_contents (pendingHeap d)); cbn; [by left|right; lia]); [done|].
    rewrite decide_True by done.
    destruct (pq_pick_some _ Hwf Hne) as (h' & [s b] & -> & Hwf' & Hc & _). cbn [rbind].
    rewrite Hc in Hlen. cbn [length] in Hlen.
    destruct (IH (pool_Put b (set_pendingHeap h' d))) as (h & l & E & Hh & Hch & Hl).
    { done. }
    { cbn. rewrite pq_len_ok by done. lia. }
    exists h, l. split; [exact E|]. split; [done|]. split; [done|].
    rewrite Hl. cbn. rewrite Hc. cbn. apply Permutation_middle.
Qed.

Lemma run_call_closed (c : call) (d : DoubleBuffer H S) :
  is_closed d →
  run_call c d = Ok (d, match c with CWrite _ _ => Some ErrBufferClose | _ => None end).
Proof.
  intros (Hst & Hstop & Hw). apply andb_true_iff in Hw as [Hsw _]. apply negb_true_iff in Hsw.
  destruct c as [o p|o|]; cbn.
  - unfold Write. by rewrite decide_True.
  - unfold swapMonitor_tick. by rewrite Hsw.
  - unfold Close, Close_begin. by rewrite decide_True by (by rewrite Hst).
Qed.

(** C18. [Close] ends a running buffer: it returns, both workers have
    ended, the stop channel is closed once, and the heap is emptied into the
    buffer pool together with the active and the passive buffer (whatever
    they still hold is dropped).  Afterwards writes are refused with
    [ErrBufferClose], ticks and further closes change nothing, and a blocked
    reader can leave through the stop channel.  (What is not told to stop goes
    on: readers, and the goroutines of switches made before.) *)
Theorem Close_is_final (d : DoubleBuffer H S) (bs : list nat) (f : nat → list BufferItem)
    (Hf : flow d bs f) (Hstop : stop_closed d = false) :
  ∃ d' : DoubleBuffer H S,
    Close d = Ok d' ∧ is_closed d' ∧ pq_contents (pendingHeap d') = [] ∧
    pool d' ≡ₚ active d :: passive d :: pool d ++ (pq_contents (pendingHeap d)).*2 ∧
    (∀ ch : nat, ready Stopped ch d' = true) ∧
    ∀ c : call, run_call c d' =
      Ok (d', match c with CWrite _ _ => Some ErrBufferClose | _ => None end).
Proof.
  destruct Hf as [Hst Hp]. unfold Close, Close_begin. rewrite decide_False by tauto.
  cbn -[drainProcessor]. rewrite Hstop. cbn -[drainProcessor].
  unfold swapMonitor_stop, asyncRecycleWorker_stop. cbn -[drainProcessor].
  match goal with |- context [drainProcessor ?x] => set (d1 := x) end.
  unfold drainProcessor.
  destruct (drain_loop_ok (Datatypes.S (pq_len (pendingHeap d1))) d1) as (h & l & E & _ & Hc & Hl);
    [by apply (fl_heap Hp)|lia|].
  rewrite E. eexists. split; [done|].
  assert (is_closed (set_pool l (set_pendingHeap h d1))) as Hcl by done.
  split; [done|]. split; [done|]. split; [|split; [done|by intros c; apply run_call_closed]].
  cbn in *. rewrite Hl. apply perm_swap.
Qed.
End closing.

Lemma demo_flow : flow demo [] (λ _, []).
Proof.
  pose proof demo_ok as E. unfold demo_new in E. eapply NewDoubleBuffer_flow; [|exact E].
  split; reflexivity.
Qed.

Lemma Close_is_final_witness :
  ∃ d' : DoubleBuffer WrapHeap DefaultStrategy,
    Close demo = Ok d' ∧ is_closed d' ∧ run_call (CWrite demo_oracle demo_p) d' = Ok (d', Some ErrBufferClose).
Proof.
  pose proof demo_flow as Hf.
  destruct (Close_is_final demo [] (λ _, []) Hf eq_refl) as (d' & E & Hc & _ & _ & _ & Hcall).
  exists d'. split; [exact E|]. split; [exact Hc|]. apply (Hcall (CWrite demo_oracle demo_p)).
Defined.

(** ** Slices [Write] does not expect *)

Section sizes.
  Context {H S : Type} `{!PendingQueue H, !SwitchStrategy S}.

(** Every pooled slice has a capacity a 32-bit integer holds. *)
Definition pool_caps (d : DoubleBuffer H S) : Prop :=
  ∀ s : slice, s ∈ SmallPool (pm d) → 0 ≤ scap s < 2 ^ 31.

Lemma load_zero (m : memory) (p : Z) : load m p 0 = Some [].
Proof. done. Qed.

(** A copy of nothing into a small buffer. *)
Lemma small_copy_zero (o : oracle) (src : slice) (d : DoubleBuffer H S) :
  pool_caps d → 0 ≤ slen src →
  ∃ (d' : DoubleBuffer H S) (buf : slice), small_copy o 0 src d = Ok (d', buf) ∧ slen buf = 0.
Proof.
  intros Hc Hs. unfold small_copy.
  assert (∃ (l : LifeCycleManager) (m : memory) (s : slice),
    SmallPool_Get (small_choice o) (pm d) (mem (objs d)) = Ok (l, m, s) ∧ 0 ≤ scap s < 2 ^ 31)
    as (l & m & s & -> & Hs2).
  { destruct (SmallPool_Get_cases (small_choice o) (pm d) (mem (objs d)))
      as [(s & rest & E & Hp)|E]; (eexists _, _, _; split; [exact E|]).
    - apply Hc. rewrite Hp. left.
    - cbn. unfold initializeBufSize. lia. }
  cbn -[decide make_bytes reslice copy]. rewrite signed_id by (unfold in_signed; lia).
  rewrite decide_False by lia. cbn -[reslice copy]. rewrite reslice_ok by lia. cbn -[copy].
  unfold copy. cbn [slen]. rewrite Z.min_l by lia. cbn. eexists _, _. split; [done|]. done.
Qed.

(** A copy of a negative number of bytes. *)
Lemma small_copy_negative (o : oracle) (n : Z) (src : slice) (d : DoubleBuffer H S) :
  pool_caps d → n < 0 → small_copy o n src d = Panics SliceBoundsOutOfRange.
Proof.
  intros Hc Hn. unfold small_copy.
  assert (∃ (l : LifeCycleManager) (m : memory) (s : slice),
    SmallPool_Get (small_choice o) (pm d) (mem (objs d)) = Ok (l, m, s) ∧ 0 ≤ scap s < 2 ^ 31)
    as (l & m & s & -> & Hs2).
  { destruct (SmallPool_Get_cases (small_choice o) (pm d) (mem (objs d)))
      as [(s & rest & E & Hp)|E]; (eexists _, _, _; split; [exact E|]).
    - apply Hc. rewrite Hp. left.
    - cbn. unfold initializeBufSize. lia. }
  cbn -[decide make_bytes reslice copy]. rewrite signed_id by (unfold in_signed; lia).
  rewrite decide_False by lia. cbn -[reslice copy]. unfold reslice.
  by rewrite decide_False by lia.
Qed.

(** Of the source only its first [n] bytes matter. *)
Lemma small_copy_prefix (o : oracle) (n : Z) (src : slice) (d : DoubleBuffer H S) :
  n ≤ slen src → small_copy o n src d = small_copy o n (mkSlice (sptr src) n (scap src)) d.
Proof.
  intros Hn. unfold small_copy.
  destruct (SmallPool_Get _ _ _) as [[[l m] buf]| |]; [|done..]. cbn -[decide make_bytes reslice copy].
  destruct (if decide _ then _ else _) as [[m' buf']| |]; [|done..]. cbn -[reslice copy].
  unfold reslice. case_decide; [|done]. cbn. unfold copy. cbn [slen sptr]. by rewrite !Z.min_l by lia.
Qed.

(** [Write] takes a slice for its first [int32 (len(p))] bytes. *)
Lemma classify_prefix (o : oracle) (p : slice) (d : DoubleBuffer H S) :
  let n := int32 (slen p) in
  0 < n → 0 ≤ slen p → classify o p d = classify o (mkSlice (sptr p) n (scap p)) d.
Proof.
  intros n Hn Hp. unfold classify. cbn [slen sptr Size Ptr].
  assert (int32 n = n) as -> by (apply signed_id; [lia|apply signed_range; lia]).
  fold n. case_decide; [|done]. rewrite small_copy_prefix; [done|].
  destruct (signed_cong 32 (slen p)) as [k Hk]. fold n in Hk.
  pose proof (signed_range 32 (slen p) ltac:(lia)) as Hr. fold n in Hr. unfold in_signed in Hr. lia.
Qed.

(** C30. For [Write] the length of a slice is its value as a 32-bit integer.
    Where that is zero, as for an empty slice, [Write] to an open buffer panics
    on the address of the first byte of its copy; where it is negative, as for
    2 GiB up to 4 GiB, it panics on the bounds of the copy; and where it is
    positive [Write] does what it does for the slice of that many bytes at the
    same address: a slice of 4 GiB and more, up to 6 GiB, say, is truncated by
    4 GiB without an error. *)
Theorem Write_size_limits (o : oracle) (p : slice) (d : DoubleBuffer H S)
    (Hopen : state d ≠ ClosedState) (Hcaps : pool_caps d) (Hp : 0 ≤ slen p) :
  let n := int32 (slen p) in
  (n = 0 → Write o p d = Panics IndexOutOfRange) ∧
  (n < 0 → Write o p d = Panics SliceBoundsOutOfRange) ∧
  (0 < n → Write o p d = Write o (mkSlice (sptr p) n (scap p)) d) ∧
  (slen p = 0 → n = 0) ∧ (2 ^ 31 ≤ slen p < 2 ^ 32 → n < 0) ∧
  (2 ^ 32 < slen p < 2 ^ 32 + 2 ^ 31 → n = slen p - 2 ^ 32).
Proof.
  intros n. unfold Write, SmallDataThreshold. rewrite decide_False by done. split_and!.
  - intros Hn. unfold classify. fold n. rewrite Hn.
    cbn -[small_copy decide]. rewrite decide_True by done.
    destruct (small_copy_zero o p d Hcaps) as (d' & buf & -> & Hb); [done|]. cbn.
    unfold addr_of_first. by rewrite Hb.
  - intros Hn. unfold classify. fold n.
    cbn -[small_copy decide]. rewrite decide_True by (unfold SmallDataThreshold; lia).
    by rewrite small_copy_negative by done.
  - intros Hn. by rewrite (classify_prefix o p d Hn Hp), decide_False.
  - intros E. unfold n. by rewrite E.
  - intros Hb. unfold n.
    replace (slen p) with ((slen p - 2 ^ 32) + 1 * 2 ^ 32) by lia.
    rewrite signed_add_mult, signed_id by (unfold in_signed; lia). lia.
  - intros Hb. unfold n.
    replace (slen p) with ((slen p - 2 ^ 32) + 1 * 2 ^ 32) at 1 by lia.
    rewrite signed_add_mult. apply signed_id; [lia|unfold in_signed; lia].
Qed.
End sizes.

(** A slice of 4 GiB and two bytes is written as the two bytes. *)
Lemma Write_size_limits_witness :
  Write demo_oracle (mkSlice 5 0 2) demo = Panics IndexOutOfRange ∧
  Write demo_oracle (mkSlice 5 (2 ^ 31) (2 ^ 31)) demo = Panics SliceBoundsOutOfRange ∧
  Write demo_oracle (mkSlice 5 (2 ^ 32 + 2) (2 ^ 32 + 2)) demo =
    Write demo_oracle (mkSlice 5 2 (2 ^ 32 + 2)) demo.
Proof.
  assert (pool_caps demo) as Hc by (intros s Hs; apply elem_of_nil in Hs; destruct Hs).
  split; [|split].
  - destruct (Write_size_limits demo_oracle (mkSlice 5 0 2) demo) as (H0 & _);
      [discriminate|exact Hc|discriminate|]. by apply H0.
  - destruct (Write_size_limits demo_oracle (mkSlice 5 (2 ^ 31) (2 ^ 31)) demo) as (_ & H1 & _);
      [discriminate|exact Hc|discriminate|]. by apply H1.
  - destruct (Write_size_limits demo_oracle (mkSlice 5 (2 ^ 32 + 2) (2 ^ 32 + 2)) demo)
      as (_ & _ & H2 & _); [discriminate|exact Hc|discriminate|]. by apply H2.
Defined.

(** ** A reader without a read mode *)

Section mode.
  Context {H S : Type} `{!PendingQueue H, !PendingQueueLaws H, !SwitchStrategy S}.

(** Reading before [RegisterReadMode] works only as long as there is
    nothing to read: with no switch under way, an attempt finds no buffer, or
    it dereferences the missing read mode and panics, and it does so whenever
    a buffer waits on the heap. *)
Theorem read_without_mode (range : gmap Z nat → list (Z * nat)) (o : oracle) (d : DoubleBuffer H S)
    (bs : list nat) (f : nat → list BufferItem)
    (Hf : flow d bs f) (Hquiet : quiet d) (Hissued : issued d < 2 ^ 63 - 1)
    (Hmode : readMode d = None) :
  ((∃ d' : DoubleBuffer H S, tryRead range o [] d = Ok (d', inr ErrNoBuffer)) ∨
   tryRead range o [] d = Panics NilDereference) ∧
  (pq_contents (pendingHeap d) ≠ [] → tryRead range o [] d = Panics NilDereference).
Proof.
  destruct (tryRead_quiet range o d bs f Hf Hquiet Hissued) as
    (d1 & bs1 & (Hf1 & Hq1 & _ & _ & _ & _ & _ & Hm1) & Hcase).
  assert (read_current o d1 = Panics NilDereference) as Hpanic
    by (unfold read_current; by rewrite Hm1, Hmode).
  destruct Hcase as [(E & _ & _ & ->)|(b & E & _)]; [|by rewrite E, Hpanic; split; [right|]].
  split; [left; by exists d1|]. intros Hne. exfalso. apply Hne. destruct Hf as [_ Hp].
  destruct Hquiet as [_ Hpu]. pose proof (fl_numbered Hp) as Hn.
  rewrite Hpu, app_nil_r in Hn. by apply Permutation_nil_r in Hn.
Qed.
End mode.

(** The state of [drain_start], in which one item was handed over, without its
    read mode. *)
Definition demo_modeless : DoubleBuffer WrapHeap DefaultStrategy :=
  set_readMode None (db drain_start).

Lemma demo_modeless_flow : ∃ (bs : list nat) (f : nat → list BufferItem), flow demo_modeless bs f.
Proof.
  destruct (exec_all_good map_to_list 0 drain_ops (start demo)) as (w & E & bs & f & bss & Hf & _).
  - pose proof demo_ok as E. unfold demo_new in E. eapply start_good; [|apply demo_mem_wf|exact E].
    split; reflexivity.
  - done.
  - vm_compute. repeat split; try discriminate; try (by eexists).
  - exists bs, f. unfold demo_modeless, drain_start. rewrite E. exact Hf.
Qed.

Lemma read_without_mode_witness :
  tryRead map_to_list demo_oracle [] demo_modeless = Panics NilDereference.
Proof.
  destruct demo_modeless_flow as (bs & f & Hf).
  apply (read_without_mode map_to_list demo_oracle demo_modeless bs f Hf).
  - split; vm_compute; reflexivity.
  - vm_compute. reflexivity.
  - vm_compute. reflexivity.
  - vm_compute. discriminate.
Defined.

(** ** The copies and aliases of reads *)

Section sharing.
  Context {H S : Type} `{!PendingQueue H, !SwitchStrategy S}.

(** C27. What a safe read of data above the small size shares with its writer:
    large data, and medium data registered less than two minutes ago, is
    returned as the writer's own bytes, without a copy and without touching
    the memory; medium data whose registration is missing or older is returned
    as a new slice with the same bytes at the time of the read, which overlaps
    no existing object. *)
Theorem safeRead_sharing (o : oracle) (d d1 : DoubleBuffer H S) (ptr n : Z) (bs : list byte)
    (Hpop : pop_current d = Ok (d1, (ptr, n))) (Hptr : 0 < ptr)
    (Hn : SmallDataThreshold ≤ n) (Hwf : mem_wf (mem (objs d1)))
    (Hload : load (mem (objs d1)) ptr (Z.to_nat n) = Some bs) :
  ∃ (d2 : DoubleBuffer H S) (c : DataChunk free_action),
    safeRead o d = Ok (d2, Some c) ∧ slice_bytes (mem (objs d2)) (Bytes c) = Some bs ∧
    free c = Some (FreeRecycle ptr n) ∧
    if decide (LargeDataThreshold < n ∨ IsValid (now_read o) ptr (Medium (pm d1)) = true)
    then Bytes c = mkSlice ptr n n ∧ d2 = d1
    else sptr (Bytes c) = brk (mem (objs d1)) ∧
      ∀ (q : Z) (k : nat) (l : list byte),
        load (mem (objs d1)) q k = Some l → load (mem (objs d2)) q k = Some l.
Proof.
  unfold SmallDataThreshold in Hn. unfold safeRead, safe_chunk. rewrite Hpop.
  cbn -[decide small_copy createByteSliceFromPointer]. rewrite decide_False by lia.
  unfold createByteSliceFromPointer. rewrite !decide_False by lia. cbn -[decide small_copy copy].
  rewrite decide_False by (unfold SmallDataThreshold; lia).
  assert (slice_bytes (mem (objs d1)) (mkSlice ptr n n) = Some bs) as Hb by done.
  destruct (decide (LargeDataThreshold < n)) as [Hl|Hl].
  { eexists _, _. do 3 (split; [done|]). by rewrite decide_True by (by left). }
  destruct (IsValid (now_read o) ptr (Medium (pm d1))) eqn:Hv.
  { eexists _, _. do 3 (split; [done|]). by rewrite decide_True by (by right). }
  rewrite make_bytes_ok by lia. cbn -[alloc copy].
  assert (length bs = Z.to_nat n) as Hlen by (by apply load_lookup in Hload as [? _]).
  rewrite (copy_ok _ _ _ bs (Z.to_nat n)); [|cbn; f_equal; lia|by apply load_alloc].
  cbn -[alloc store]. eexists _, _. split; [done|]. cbn -[alloc store].
  split; [unfold slice_bytes; cbn [sptr slen]; rewrite <- Hlen; apply load_store|].
  split; [done|]. rewrite decide_False by (intros [?|?]; done). split; [done|]. intros q k l Hq.
  destruct k as [|k]; [by apply load_lookup in Hq as [->%nil_length_inv _]|].
  apply load_store_disjoint; [left; cbn [sptr]|by apply load_alloc].
  pose proof (load_range _ _ (Datatypes.S k) _ Hwf ltac:(lia) Hq). lia.
Qed.

(** How an object of the large pool ends depends on the read mode.  In
    zero-copy mode a read and the release of its chunk remove the object and
    take its size off the account, which is back where it was before the
    write; in safe mode they only bring its reference count to zero, so that
    the object and its size stay for the next cleanup. *)
Theorem large_data_release (d d1 : DoubleBuffer H S) (b : BigDataPool) (ptr n : Z) (o : oracle)
    (Hpop : pop_current d = Ok (d1, (ptr, n))) (Hptr : ptr ≠ 0) (Hn : LargeDataThreshold < n)
    (Hnew : BigDataPool.pool b !! ptr = None) (Hsize : in_int64 (currentSize b))
    (Hb : BigData (pm d1) = BigDataPool.Put ptr n b) :
  (∃ (d2 : DoubleBuffer H S) (c : DataChunk free_action),
     zeroCopyRead d = Ok (d2, Some c) ∧ BigData (pm (Release run_free c d2).2) = b) ∧
  (∃ (d2 : DoubleBuffer H S) (c : DataChunk free_action),
     safeRead o d = Ok (d2, Some c) ∧
     BigData (pm (Release run_free c d2).2) =
       mkBigDataPool (<[ptr := mkEntry n ptr 0]> (BigDataPool.pool b))
         (int64 (currentSize b + n)) (maxSize b)).
Proof.
  unfold LargeDataThreshold in Hn. split.
  - unfold zeroCopyRead, zero_copy_chunk. rewrite Hpop. cbn [rbind]. rewrite decide_False by done.
    unfold createByteSliceFromPointer. rewrite !decide_False by (done || lia). cbn [rbind].
    rewrite decide_True by done. eexists _, _. split; [done|]. cbn. rewrite Hb.
    unfold BigDataPool.Release, BigDataPool.Free. cbn. rewrite lookup_insert_eq. cbn.
    rewrite lookup_insert_eq. cbn. rewrite !delete_insert_eq, delete_id by done.
    unfold Z.sub. rewrite signed_idemp_add_l.
    replace (currentSize b + n + - n) with (currentSize b) by lia.
    rewrite signed_id by (lia || done). by destruct b.
  - unfold safeRead, safe_chunk. rewrite Hpop. cbn [rbind]. rewrite decide_False by lia.
    unfold createByteSliceFromPointer. rewrite !decide_False by (done || lia). cbn [rbind].
    rewrite decide_False by (unfold SmallDataThreshold; lia). rewrite decide_True by done.
    eexists _, _. split; [done|]. cbn -[recycle]. unfold recycle.
    rewrite !decide_False by (unfold SmallDataThreshold; lia).
    rewrite decide_True by done. cbn. rewrite Hb. unfold BigDataPool.Release. cbn.
    rewrite lookup_insert_eq. cbn. by rewrite insert_insert_eq.
Qed.
End sharing.

(** A state whose current ring holds one medium item of 1024 zero bytes that
    was never registered. *)
Definition medium_state : DoubleBuffer WrapHeap DefaultStrategy :=
  let ring := mkSB [mkItem 30 1024] 0 (-1) 1 1 ReadOnly false in
  set_mem (store 30 (replicate 1024 x00) (alloc 1100 (mem (objs demo))).1)
    (set_buf 9 ring (set_currentBuffer (Some 9%nat) demo)).

Lemma safeRead_sharing_witness :
  ∃ (d2 : DoubleBuffer WrapHeap DefaultStrategy) (c : DataChunk free_action),
    safeRead demo_oracle medium_state = Ok (d2, Some c) ∧
    slice_bytes (mem (objs d2)) (Bytes c) = Some (replicate 1024 x00).
Proof.
  destruct (safeRead_sharing demo_oracle medium_state
    (set_buf 9 (mkSB [zeroItem] 0 0 0 1 ReadOnly false) medium_state) 30 1024 (replicate 1024 x00))
    as (d2 & c & E & Hb & _).
  - reflexivity.
  - lia.
  - unfold SmallDataThreshold. lia.
  - apply store_wf; [apply alloc_wf, demo_mem_wf|lia|vm_compute; discriminate].
  - apply (load_store _ 30 (replicate 1024 x00)).
  - exists d2, c. split; [exact E|exact Hb].
Defined.

(** A state whose current ring holds one large item. *)
Definition large_state : DoubleBuffer WrapHeap DefaultStrategy :=
  let ring := mkSB [mkItem 30 40000] 0 (-1) 1 1 ReadOnly false in
  set_pm (set_BigData (BigDataPool.Put 30 40000 (NewBigDataPool 0)) NewLifeCycleManager)
    (set_buf 9 ring (set_currentBuffer (Some 9%nat) demo)).

Lemma large_data_release_witness :
  ∃ (d2 : DoubleBuffer WrapHeap DefaultStrategy) (c : DataChunk free_action),
    zeroCopyRead large_state = Ok (d2, Some c) ∧
    BigData (pm (Release run_free c d2).2) = NewBigDataPool 0.
Proof.
  apply (large_data_release large_state
    (set_buf 9 (mkSB [zeroItem] 0 0 0 1 ReadOnly false) large_state) (NewBigDataPool 0) 30 40000
    demo_oracle).
  - reflexivity.
  - discriminate.
  - reflexivity.
  - reflexivity.
  - split; [discriminate|reflexivity].
  - reflexivity.
Defined.

(** ** Interleavings with the goroutines of a switch *)

(** Three slices of one byte. *)
Definition trio_mem : memory := store 5 [x01; x02; x03] (alloc 20 empty_mem).1.

Definition trio_new : result (DoubleBuffer WrapHeap DefaultStrategy + error) :=
  NewDoubleBuffer 1 (mkCondition (mkConfig 1 80 second 1000) true 1) [] NewDefaultStrategy 0 trio_mem.

Definition trio : world WrapHeap DefaultStrategy :=
  get_ok (start demo) (rmap (λ r, match r with inl d => start d | inr _ => start demo end) trio_new).

Definition trio_write (i : Z) : op := OWrite demo_oracle (mkSlice (5 + i) 1 1).

(** The order is lost when the goroutines of two switches take their
    numbers in the opposite order, which nothing prevents, because a buffer
    is numbered in the goroutine and not where it is switched: three writes
    into rings of one item, of which the second goroutine runs before the
    first one, are delivered out of order. *)
Theorem overtaking_breaks_order :
  ∃ w : world WrapHeap DefaultStrategy,
    exec_all map_to_list
      [trio_write 0; trio_write 1; trio_write 2; OGo 1; OGo 0; OGo 0; OGo 1;
       ORead demo_oracle []; ORead demo_oracle []] trio = Ok w ∧
    written w = [[x01]; [x02]; [x03]] ∧ delivered w = [[x02]; [x01]].
Proof.
  eexists. split; [apply (get_ok_ok trio); vm_compute; exact I|].
  split; vm_compute; reflexivity.
Qed.

Lemma get_ok_pair {A B : Type} (d : A * B) (r : result (A * B)) (b : B) :
  match r with Ok (_, b') => b' = b | _ => False end → r = Ok ((get_ok d r).1, b).
Proof. destruct r as [[a b']| |]; [by intros ->|done|done]. Qed.

(** The state after two writes: the first item is in the hands of a goroutine
    that has not run yet. *)
Definition duo : world WrapHeap DefaultStrategy :=
  get_ok trio (exec_all map_to_list [trio_write 0; trio_write 1] trio).

(** A reader can miss its wake-up: [BlockingRead] looks for data first and
    registers afterwards, and when the goroutine of a switch runs to its end
    in between, it notifies nobody.  The reader then waits with no
    notification under way, although an attempt to read would succeed. *)
Theorem BlockingRead_misses_wakeup :
  ∃ (d : DoubleBuffer WrapHeap DefaultStrategy) (id : Z) (ch : nat),
    BlockingRead_begin map_to_list demo_oracle [] [0; 0; 0; 0]%nat (db duo) = Ok (d, inr (id, ch)) ∧
    goroutines d = [] ∧ ready Notified ch d = false ∧ ready Stopped ch d = false ∧
    ∃ (d' : DoubleBuffer WrapHeap DefaultStrategy) (c : DataChunk free_action),
      tryRead map_to_list demo_oracle [] d = Ok (d', inl c) ∧
      slice_bytes (mem (objs d')) (Bytes c) = Some [x01].
Proof.
  set (start_read := BlockingRead_begin map_to_list demo_oracle [] [0; 0; 0; 0]%nat (db duo)).
  exists (get_ok (db duo, inr (0, 0%nat)) start_read).1, 1, 0%nat. split.
  { apply get_ok_pair. vm_compute. reflexivity. }
  do 3 (split; [vm_compute; reflexivity|]).
  eexists _, (mkChunk _ _). split.
  { apply (get_ok_pair (db duo, inr ErrRead)). vm_compute. reflexivity. }
  vm_compute. reflexivity.
Qed.
