(* ===== verification/DoubleBufferConc.v ===== *)
(** * Interleavings inside the double buffer

    [Write] and [switchChannel] of [src/core/double_buffer.go] one shared
    access at a time, for any number of writers, the monitor, the goroutines
    of the switches and a reader.  The two locks are modelled; a call of a
    pool, of the heap or of a reader is one step.  A [Write] that runs alone
    is the [Write] of [DoubleBuffer]. *)
From S2P Require Import Prelude.
From S2P Require Import Consts.
From S2P Require Import Interfaces.
From S2P Require Import Runtime.
From S2P Require Import SmartBuffer.
From S2P Require Import SmartBufferConc.
From S2P Require Import SwitchStrategy.
From S2P Require Import SwitchConfig.
From S2P Require Import WrapHeap.
From S2P Require Import DataChunk.
From S2P Require Import DoubleBuffer.
From S2P Require Import DoubleBufferDelivery.
Open Scope Z_scope.
Open Scope go_scope.

(** ** Program counters *)

(** Where a goroutine is inside [switchChannel]: [old] and [newBuf] are the
    ring taken out and the one put in. *)
Inductive switch_pc :=
  | SwCas                            (** the compare-and-swap of the state *)
  | SwLock
  | SwReadOnly                       (** [d.active.SetState(ts.ReadOnly)] *)
  | SwGet
  | SwOld (newBuf : nat)             (** [swapChannels]: reads [d.active] *)
  | SwActive (old newBuf : nat)      (** writes [d.active] *)
  | SwPassive (old newBuf : nat)     (** writes [d.passive] *)
  | SwCount (old : nat)
  | SwLast (old : nat)
  | SwGo (old : nat)                 (** starts the goroutine *)
  | SwState                          (** the deferred store of the state *)
  | SwUnlock.

(** Where a writer is inside [Write]. *)
Inductive writer_pc :=
  | WIdle
  | WStart (p : slice)                          (** loads [d.state] *)
  | WClassify (p : slice)
  | WFast (item : BufferItem)                   (** loads [d.state] again *)
  | WFastActive (item : BufferItem)             (** loads [d.active] *)
  | WFastClosed (item : BufferItem) (b : nat)   (** [SmartBuffer.Write]: the ring's state *)
  | WFastPush (item : BufferItem) (b : nat) (pc : push_pc)
  | WFastCount
  | WLock (item : BufferItem)
  | WSlowActive (item : BufferItem)
  | WSlowState (item : BufferItem) (b : nat)
  | WSwitch (item : BufferItem) (pc : switch_pc)
  | WSlowWrite (item : BufferItem)              (** loads [d.active] *)
  | WSlowClosed (item : BufferItem) (b : nat)
  | WSlowPush (item : BufferItem) (b : nat) (pc : push_pc)
  | WSlowCount
  | WUnlock (err : option error).

(** A writer: where it is and what its calls have returned. *)
Record writer := mkWriter { wpc : writer_pc; returned : list (option error) }.

(** [swapMonitor]: between two ticks, or inside [switchChannel]. *)
Inductive monitor_pc := MIdle | MSwitch (pc : switch_pc).

(** Who holds a lock. *)
Inductive agent := AWriter (i : nat) | AMonitor.

#[export] Instance switch_pc_eq_dec : EqDecision switch_pc.
Proof. solve_decision. Defined.

#[export] Instance agent_eq_dec : EqDecision agent.
Proof. solve_decision. Defined.

Section conc.
  Context {H S : Type} `{!PendingQueue H, !SwitchStrategy S}.
  Context (range : gmap Z nat → list (Z * nat)).

Record system := mkSystem {
  db : DoubleBuffer H S;
  writeLock : option agent;
  switchLock : option agent;
  writers : list writer;
  monitor : monitor_pc;
  reads : list (DataChunk free_action + error)   (** what the reader got *)
}.

(** ** The steps of [switchChannel] *)

(** One access: the goroutine goes on, or the call returns ([None]).  A
    goroutine that waits for the lock stays where it is. *)
Definition switch_step (o : oracle) (a : agent) (pc : switch_pc) (lock : option agent)
    (d : DoubleBuffer H S) : result (DoubleBuffer H S * option agent * option switch_pc) :=
  match pc with
  | SwCas =>
      if decide (state d ≠ WritingState) then Ok (d, lock, None)
      else Ok (set_state SwitchingState d, lock, Some SwLock)
  | SwLock =>
      match lock with
      | None => Ok (d, Some a, Some SwReadOnly)
      | Some _ => Ok (d, lock, Some SwLock)
      end
  | SwReadOnly =>
      let* s := get_buf (active d) d in
      Ok (DoubleBuffer.set_buf (active d) (SetState ReadOnly s) d, lock, Some SwGet)
  | SwGet =>
      let* (d, newBuf) := pool_Get (buffer_choice o) d in
      Ok (d, lock, Some (SwOld newBuf))
  | SwOld newBuf => Ok (d, lock, Some (SwActive (active d) newBuf))
  | SwActive old newBuf => Ok (set_active (passive d) d, lock, Some (SwPassive old newBuf))
  | SwPassive old newBuf => Ok (set_passive newBuf d, lock, Some (SwCount old))
  | SwCount old => Ok (set_count 0 d, lock, Some (SwLast old))
  | SwLast old => Ok (set_lastSwitch (now_switch o `div` millisecond) d, lock, Some (SwGo old))
  | SwGo old => Ok (set_goroutines (goroutines d ++ [GNumber old]) d, lock, Some SwState)
  | SwState => Ok (set_state WritingState d, lock, Some SwUnlock)
  | SwUnlock => Ok (d, None, None)
  end.

(** ** The steps of [Write] *)

(** One access of [Push] on the ring [b]. *)
Definition ring_step (item : BufferItem) (b : nat) (pc : push_pc) (d : DoubleBuffer H S) :
    result (DoubleBuffer H S * (push_pc + option error)) :=
  let* s := get_buf b d in
  let* (s, next) := push_step item pc s in
  Ok (DoubleBuffer.set_buf b s d, next).

(** The new system when writer [i] moves to [pc]; a call that returns leaves
    it idle. *)
Definition goto (i : nat) (pc : writer_pc) (d : DoubleBuffer H S) (sys : system) : system :=
  mkSystem d (writeLock sys) (switchLock sys)
    (alter (λ w, mkWriter pc (returned w)) i (writers sys)) (monitor sys) (reads sys).

Definition return_ (i : nat) (err : option error) (d : DoubleBuffer H S) (sys : system) : system :=
  mkSystem d (writeLock sys) (switchLock sys)
    (alter (λ w, mkWriter WIdle (returned w ++ [err])) i (writers sys)) (monitor sys) (reads sys).

Definition set_writeLock (l : option agent) (sys : system) : system :=
  mkSystem (db sys) l (switchLock sys) (writers sys) (monitor sys) (reads sys).
Definition set_switchLock (l : option agent) (sys : system) : system :=
  mkSystem (db sys) (writeLock sys) l (writers sys) (monitor sys) (reads sys).

Definition writer_step (o : oracle) (i : nat) (pc : writer_pc) (sys : system) : result system :=
  let d := db sys in
  match pc with
  | WIdle => Ok sys
  | WStart p =>
      if decide (state d = ClosedState) then Ok (return_ i (Some ErrBufferClose) d sys)
      else Ok (goto i (WClassify p) d sys)
  | WClassify p =>
      let* (d, item) := classify o p d in
      Ok (goto i (WFast item) d sys)
  | WFast item =>
      if decide (state d = WritingState) then Ok (goto i (WFastActive item) d sys)
      else Ok (goto i (WLock item) d sys)
  | WFastActive item => Ok (goto i (WFastClosed item (active d)) d sys)
  | WFastClosed item b =>
      let* s := get_buf b d in
      if decide (SmartBuffer.state s = ClosedState) then Ok (goto i (WLock item) d sys)
      else Ok (goto i (WFastPush item b PushState) d sys)
  | WFastPush item b pc =>
      let* (d, next) := ring_step item b pc d in
      match next with
      | inl pc => Ok (goto i (WFastPush item b pc) d sys)
      | inr None => Ok (goto i WFastCount d sys)
      | inr (Some _) => Ok (goto i (WLock item) d sys)
      end
  | WFastCount => Ok (return_ i None (set_count (int32 (count d + 1)) d) sys)
  | WLock item =>
      match writeLock sys with
      | None => Ok (set_writeLock (Some (AWriter i)) (goto i (WSlowActive item) d sys))
      | Some _ => Ok sys
      end
  | WSlowActive item => Ok (goto i (WSlowState item (active d)) d sys)
  | WSlowState item b =>
      let* s := get_buf b d in
      if decide (GetState s = ReadOnly) then Ok (goto i (WSwitch item SwCas) d sys)
      else Ok (goto i (WSlowWrite item) d sys)
  | WSwitch item pc =>
      let* (d, lock, next) := switch_step o (AWriter i) pc (switchLock sys) d in
      let pc := match next with Some pc => WSwitch item pc | None => WSlowWrite item end in
      Ok (set_switchLock lock (goto i pc d sys))
  | WSlowWrite item => Ok (goto i (WSlowClosed item (active d)) d sys)
  | WSlowClosed item b =>
      let* s := get_buf b d in
      if decide (SmartBuffer.state s = ClosedState) then
        Ok (goto i (WUnlock (Some ErrBufferClose)) d sys)
      else Ok (goto i (WSlowPush item b PushState) d sys)
  | WSlowPush item b pc =>
      let* (d, next) := ring_step item b pc d in
      match next with
      | inl pc => Ok (goto i (WSlowPush item b pc) d sys)
      | inr None => Ok (goto i WSlowCount d sys)
      | inr (Some err) => Ok (goto i (WUnlock (Some err)) d sys)
      end
  | WSlowCount => Ok (goto i (WUnlock None) (set_count (int32 (count d + 1)) d) sys)
  | WUnlock err => Ok (set_writeLock None (return_ i err d sys))
  end.

(** ** Events *)

Inductive event :=
  | EvCall (i : nat) (p : slice)          (** writer [i] calls [Write] *)
  | EvWriter (o : oracle) (i : nat)       (** the next access of writer [i] *)
  | EvMonitor (o : oracle)                (** a tick, or the next access of its switch *)
  | EvGo (i : nat)                        (** the next statement of a goroutine *)
  | EvRead (o : oracle) (sleeps : list (list nat))   (** a [tryRead] of the reader *)
  | EvRelease (f : free_action).          (** a chunk is released *)

Definition set_monitor (pc : monitor_pc) (d : DoubleBuffer H S) (sys : system) : system :=
  mkSystem d (writeLock sys) (switchLock sys) (writers sys) pc (reads sys).

Definition set_db (d : DoubleBuffer H S) (sys : system) : system :=
  mkSystem d (writeLock sys) (switchLock sys) (writers sys) (monitor sys) (reads sys).

Definition monitor_step (o : oracle) (sys : system) : result system :=
  match monitor sys with
  | MIdle =>
      if swapper (db sys) then
        let (d, yes) := needSwitch (now_switch o) (db sys) in
        Ok (set_monitor (if yes then MSwitch SwCas else MIdle) d sys)
      else Ok sys
  | MSwitch pc =>
      let* (d, lock, next) := switch_step o AMonitor pc (switchLock sys) (db sys) in
      Ok (set_switchLock lock
            (set_monitor (match next with Some pc => MSwitch pc | None => MIdle end) d sys))
  end.

Definition step (ev : event) (sys : system) : result system :=
  match ev with
  | EvCall i p =>
      match writers sys !! i with
      | Some w => match wpc w with WIdle => Ok (goto i (WStart p) (db sys) sys) | _ => Ok sys end
      | None => Ok sys
      end
  | EvWriter o i =>
      match writers sys !! i with
      | Some w => writer_step o i (wpc w) sys
      | None => Ok sys
      end
  | EvMonitor o => monitor_step o sys
  | EvGo i => let* d := run_goroutine range i (db sys) in Ok (set_db d sys)
  | EvRead o sleeps =>
      let* (d, r) := tryRead range o sleeps (db sys) in
      Ok (mkSystem d (writeLock sys) (switchLock sys) (writers sys) (monitor sys) (reads sys ++ [r]))
  | EvRelease f => Ok (set_db (run_free f (db sys)) sys)
  end.

Fixpoint run (evs : list event) (sys : system) : result system :=
  match evs with
  | [] => Ok sys
  | ev :: evs =>
      let* sys := step ev sys in
      run evs sys
  end.

(** [n] idle writers around a double buffer. *)
Definition start (n : nat) (d : DoubleBuffer H S) : system :=
  mkSystem d None None (replicate n (mkWriter WIdle [])) MIdle [].

(** ** A writer that runs alone *)

Lemma list_alter_lookup {A : Type} (f : A → A) (l : list A) (k : nat) (x : A) :
  l !! k = Some x → alter f k l = <[k := f x]> l.
Proof. intros E. rewrite list_insert_alter. apply list_alter_ext; [|done]. congruence. Qed.

(** [n] accesses of writer [i]. *)
Definition steps (n : nat) (o : oracle) (i : nat) (sys : system) : result system :=
  run (replicate n (EvWriter o i)) sys.

(** Within [k] accesses of writer [i] the outcome is [r]. *)
Definition leads (k : nat) (o : oracle) (i : nat) (sys : system) (r : result system) : Prop :=
  ∃ n : nat, (n ≤ k)%nat ∧ steps n o i sys = r.

Lemma run_app (evs evs' : list event) (sys : system) :
  run (evs ++ evs') sys = rbind (run evs sys) (run evs').
Proof.
  revert sys. induction evs as [|ev evs IH]; intros sys; [done|]. cbn.
  destruct (step ev sys); cbn; [apply IH|done..].
Qed.

Lemma leads_refl (k : nat) (o : oracle) (i : nat) (sys : system) : leads k o i sys (Ok sys).
Proof. exists 0%nat. split; [lia|done]. Qed.

(** One access, then what follows when it does not panic. *)
Lemma leads_step {A : Type} (k : nat) (o : oracle) (i : nat) (sys : system) (r : result A)
    (next : A → system) (K : A → result system) :
  step (EvWriter o i) sys = rmap next r →
  (∀ a : A, r = Ok a → leads k o i (next a) (K a)) →
  leads (Datatypes.S k) o i sys (rbind r K).
Proof.
  intros E Hk. unfold leads, steps. destruct r as [a|p|].
  - destruct (Hk a eq_refl) as (n & Hn & Er). exists (Datatypes.S n). split; [lia|].
    cbn [replicate run]. by rewrite E.
  - exists 1%nat. split; [lia|]. cbn [replicate run]. by rewrite E.
  - exists 1%nat. split; [lia|]. cbn [replicate run]. by rewrite E.
Qed.

(** One access that does not panic. *)
Lemma leads_next (k : nat) (o : oracle) (i : nat) (sys sys' : system) (r : result system) :
  step (EvWriter o i) sys = Ok sys' → leads k o i sys' r → leads (Datatypes.S k) o i sys r.
Proof.
  intros E Hr. apply (leads_step k o i sys (Ok sys') id (λ _, r)); [done|].
  by intros ? [= <-].
Qed.

(** Several accesses, then what follows. *)
Lemma leads_bind {A : Type} (k k' : nat) (o : oracle) (i : nat) (sys : system) (r : result A)
    (f : A → system) (K : A → result system) :
  leads k o i sys (rmap f r) → (∀ a : A, r = Ok a → leads k' o i (f a) (K a)) →
  leads (k + k') o i sys (rbind r K).
Proof.
  intros (n & Hn & E) Hk. unfold leads, steps in *. destruct r as [a|p|]; cbn in E |- *.
  - destruct (Hk a eq_refl) as (n' & Hn' & E'). exists (n + n')%nat. split; [lia|].
    by rewrite replicate_add, run_app, E.
  - exists n. split; [lia|done].
  - exists n. split; [lia|done].
Qed.

Lemma leads_le (k k' : nat) (o : oracle) (i : nat) (sys : system) (r : result system) :
  leads k o i sys r → (k ≤ k')%nat → leads k' o i sys r.
Proof. intros (n & ? & ?) ?. exists n. split; [lia|done]. Qed.

Section alone.
  Context (o : oracle) (i : nat) (rs : list (option error)) (ws : list writer)
    (mon : monitor_pc) (rd : list (DataChunk free_action + error)).
  Context (Hi : (i < length ws)%nat).

(** Writer [i] is at [pc]; the other goroutines do not move. *)
Definition at_pc (pc : writer_pc) (d : DoubleBuffer H S) (wl sl : option agent) : system :=
  mkSystem d wl sl (<[i := mkWriter pc rs]> ws) mon rd.

Definition at_end (d : DoubleBuffer H S) (err : option error) (wl sl : option agent) : system :=
  mkSystem d wl sl (<[i := mkWriter WIdle (rs ++ [err])]> ws) mon rd.

Lemma alter_at (f : writer → writer) (w : writer) : alter f i (<[i := w]> ws) = <[i := f w]> ws.
Proof. by rewrite !list_insert_alter, list_alter_alter_eq. Qed.

Lemma step_at (pc : writer_pc) (d : DoubleBuffer H S) (wl sl : option agent) :
  step (EvWriter o i) (at_pc pc d wl sl) = writer_step o i pc (at_pc pc d wl sl).
Proof. cbn. by rewrite list_lookup_insert_eq by done. Qed.

Lemma goto_at (pc pc' : writer_pc) (d d' : DoubleBuffer H S) (wl sl : option agent) :
  goto i pc' d' (at_pc pc d wl sl) = at_pc pc' d' wl sl.
Proof. unfold goto, at_pc. cbn. by rewrite alter_at. Qed.

Lemma return_at (pc : writer_pc) (err : option error) (d d' : DoubleBuffer H S)
    (wl sl : option agent) :
  return_ i err d' (at_pc pc d wl sl) = at_end d' err wl sl.
Proof. unfold return_, at_pc. cbn. by rewrite alter_at. Qed.
Lemma set_buf_twice (b : nat) (s s' : SmartBuffer) (d : DoubleBuffer H S) :
  DoubleBuffer.set_buf b s' (DoubleBuffer.set_buf b s d) = DoubleBuffer.set_buf b s' d.
Proof. unfold DoubleBuffer.set_buf, set_objs. cbn. by rewrite insert_insert_eq. Qed.

Lemma get_buf_set (b : nat) (s : SmartBuffer) (d : DoubleBuffer H S) :
  get_buf b (DoubleBuffer.set_buf b s d) = Ok s.
Proof. unfold get_buf. cbn. by rewrite lookup_insert_eq. Qed.

(** The accesses of a push; [C] says where in [Write] it is and [after] where
    [Write] goes on. *)
Lemma leads_push (n : nat) (C : push_pc → writer_pc) (after : option error → writer_pc)
    (item : BufferItem) (b : nat) (pc : push_pc) (d : DoubleBuffer H S) (s : SmartBuffer)
    (wl sl : option agent) :
  (∀ (pc : push_pc) (sys : system), writer_step o i (C pc) sys =
     let* (d, next) := ring_step item b pc (db sys) in
     Ok (goto i (match next with inl pc => C pc | inr r => after r end) d sys)) →
  get_buf b d = Ok s → push_alone n item pc s ≠ OutOfFuel →
  leads n o i (at_pc (C pc) d wl sl)
    (let* (s', r) := push_alone n item pc s in
     Ok (at_pc (after r) (DoubleBuffer.set_buf b s' d) wl sl)).
Proof.
  intros HC. revert pc d s. induction n as [|n IH]; intros pc d s Hs Hfuel; [done|].
  cbn [push_alone] in *.
  rewrite rbind_assoc.
  apply (leads_step _ _ _ _ _ (λ '(s', next),
    at_pc (match next with inl pc => C pc | inr r => after r end) (DoubleBuffer.set_buf b s' d) wl sl)).
  - rewrite step_at, HC. unfold ring_step. cbn [db at_pc]. rewrite Hs. cbn [rbind].
    destruct (push_step item pc s) as [[s' next]|p|]; cbn [rbind rmap]; [|done..].
    by rewrite goto_at.
  - intros [s' [pc'|r]] E; rewrite E in Hfuel; cbn [rbind] in *; [|apply leads_refl].
    pose proof (IH pc' (DoubleBuffer.set_buf b s' d) s' (get_buf_set _ _ _) Hfuel) as Hl.
    destruct (push_alone n item pc' s') as [[s'' r]|p|]; cbn [rbind] in *; [|done..].
    by rewrite set_buf_twice in Hl.
Qed.

(** Where [Write] is after an access of [switchChannel]. *)
Definition after_switch (item : BufferItem) (wl : option agent)
    (x : DoubleBuffer H S * option agent * option switch_pc) : system :=
  let '(d, sl, next) := x in
  at_pc match next with Some pc => WSwitch item pc | None => WSlowWrite item end d wl sl.

Lemma leads_switch_step {A : Type} (k : nat) (item : BufferItem) (pc : switch_pc)
    (d : DoubleBuffer H S) (wl sl : option agent) (r : result A)
    (f : A → DoubleBuffer H S * option agent * option switch_pc) (K : A → result system) :
  switch_step o (AWriter i) pc sl d = rmap f r →
  (∀ a : A, r = Ok a → leads k o i (after_switch item wl (f a)) (K a)) →
  leads (Datatypes.S k) o i (at_pc (WSwitch item pc) d wl sl) (rbind r K).
Proof.
  intros E. apply leads_step. rewrite step_at. cbn [writer_step db switchLock at_pc]. rewrite E.
  destruct r as [a|p|]; cbn [rbind rmap]; [|done..].
  destruct (f a) as [[d' sl'] next]. by rewrite goto_at.
Qed.

Lemma leads_switch_next (k : nat) (item : BufferItem) (pc : switch_pc) (d : DoubleBuffer H S)
    (wl sl : option agent) (x : DoubleBuffer H S * option agent * option switch_pc)
    (r : result system) :
  switch_step o (AWriter i) pc sl d = Ok x → leads k o i (after_switch item wl x) r →
  leads (Datatypes.S k) o i (at_pc (WSwitch item pc) d wl sl) r.
Proof.
  intros E Hr. apply (leads_switch_step k item pc d wl sl (Ok x) id (λ _, r)); [done|].
  by intros ? [= <-].
Qed.

(** The accesses of [switchChannel]. *)
Lemma leads_switch (item : BufferItem) (d : DoubleBuffer H S) (wl : option agent) :
  leads 12 o i (at_pc (WSwitch item SwCas) d wl None)
    (let* d' := switchChannel o d in Ok (at_pc (WSlowWrite item) d' wl None)).
Proof.
  unfold switchChannel. case_decide as Hst.
  { eapply leads_switch_next; [cbn [switch_step]; by rewrite decide_True|apply leads_refl]. }
  eapply leads_switch_next; [cbn [switch_step]; by rewrite decide_False by (intros Hne; by apply Hne)|].
  eapply leads_switch_next; [done|]. cbn [after_switch].
  set (d1 := set_state SwitchingState d).
  rewrite rbind_assoc. eapply (leads_switch_step _ _ _ _ _ _ (get_buf (active d1) d1)); [done|].
  intros s Hs. set (d2 := DoubleBuffer.set_buf _ _ d1).
  rewrite rbind_assoc. apply (leads_switch_step _ _ _ _ _ _ (pool_Get (buffer_choice o) d2)
    (λ '(d, newBuf), (d, Some (AWriter i), Some (SwOld newBuf)))).
  { cbn [switch_step]. fold d2. by destruct (pool_Get (buffer_choice o) d2) as [[? ?]| |]. }
  intros [d3 newBuf] _. cbn [after_switch].
  do 8 (eapply leads_switch_next; [done|]; cbn [after_switch]). apply leads_refl.
Qed.

(** One access of [Write] itself. *)
Lemma leads_write_step {A : Type} (k : nat) (pc : writer_pc) (d : DoubleBuffer H S)
    (wl sl : option agent) (r : result A) (next : A → system) (K : A → result system) :
  writer_step o i pc (at_pc pc d wl sl) = rmap next r →
  (∀ a : A, r = Ok a → leads k o i (next a) (K a)) →
  leads (Datatypes.S k) o i (at_pc pc d wl sl) (rbind r K).
Proof. intros E. apply leads_step. by rewrite step_at. Qed.

Lemma leads_write_next (k : nat) (pc : writer_pc) (d : DoubleBuffer H S) (wl sl : option agent)
    (sys' : system) (r : result system) :
  writer_step o i pc (at_pc pc d wl sl) = Ok sys' → leads k o i sys' r →
  leads (Datatypes.S k) o i (at_pc pc d wl sl) r.
Proof. intros E. apply leads_next. by rewrite step_at. Qed.

(** A write to the ring the field [active] refers to. *)
Definition ring_write (item : BufferItem) (d : DoubleBuffer H S) :
    result (DoubleBuffer H S * option error) :=
  let* s := get_buf (active d) d in
  let* (s, err) := SmartBuffer.Write item s in
  Ok (DoubleBuffer.set_buf (active d) s d, err).

Lemma write_active_ring (item : BufferItem) (d : DoubleBuffer H S) :
  write_active item d =
    let* (d, err) := ring_write item d in
    Ok (match err with None => set_count (int32 (count d + 1)) d | Some _ => d end, err).
Proof.
  unfold write_active, ring_write. rewrite rbind_assoc.
  destruct (get_buf (active d) d) as [s| |]; cbn [rbind]; [|done..].
  by destruct (SmartBuffer.Write item s) as [[s' [err|]]| |].
Qed.

Lemma set_buf_same (b : nat) (s : SmartBuffer) (d : DoubleBuffer H S) :
  get_buf b d = Ok s → DoubleBuffer.set_buf b s d = d.
Proof.
  unfold get_buf. destruct (bufs (objs d) !! b) as [s'|] eqn:E; [|done]. intros [= ->].
  unfold DoubleBuffer.set_buf. rewrite insert_id by done.
  replace (mkObjects _ _ _) with (objs d) by (by destruct (objs d)). by destruct d.
Qed.

(** The accesses of a write to the active ring; [CA], [CC] and [CP] say where
    in [Write] it is and [after] where [Write] goes on. *)
Lemma leads_ring_write (CA : writer_pc) (CC : nat → writer_pc) (CP : nat → push_pc → writer_pc)
    (after : option error → writer_pc) (item : BufferItem) (d : DoubleBuffer H S)
    (wl sl : option agent) :
  (∀ sys : system, writer_step o i CA sys = Ok (goto i (CC (active (db sys))) (db sys) sys)) →
  (∀ (b : nat) (sys : system), writer_step o i (CC b) sys =
     let* s := get_buf b (db sys) in
     Ok (goto i (if decide (SmartBuffer.state s = ClosedState) then after (Some ErrBufferClose)
                 else CP b PushState) (db sys) sys)) →
  (∀ (b : nat) (pc : push_pc) (sys : system), writer_step o i (CP b pc) sys =
     let* (d, next) := ring_step item b pc (db sys) in
     Ok (goto i (match next with inl pc => CP b pc | inr r => after r end) d sys)) →
  leads 12 o i (at_pc CA d wl sl)
    (let* (d', err) := ring_write item d in Ok (at_pc (after err) d' wl sl)).
Proof.
  intros HA HC HP. eapply leads_write_next; [by rewrite HA, goto_at|]. cbn [db at_pc].
  unfold ring_write. rewrite rbind_assoc.
  apply (leads_write_step _ _ _ _ _ _ (λ s, at_pc (if decide (SmartBuffer.state s = ClosedState)
    then after (Some ErrBufferClose) else CP (active d) PushState) d wl sl)).
  { rewrite HC. cbn [db at_pc]. destruct (get_buf (active d) d); cbn; [by rewrite goto_at|done..]. }
  intros s Hs. unfold SmartBuffer.Write. case_decide.
  { cbn [rbind]. rewrite set_buf_same by done. apply leads_refl. }
  rewrite <- push_alone_Push, rbind_assoc. cbn beta.
  eapply eq_ind; [apply (leads_push call_fuel (CP (active d)) after item (active d)); [done..|]|].
  - rewrite push_alone_Push. apply Push_returns.
  - by destruct (push_alone call_fuel item PushState s) as [[? ?]| |].
Qed.

(** The fast path. *)
Lemma leads_fast (item : BufferItem) (d : DoubleBuffer H S) (sl : option agent) :
  leads 13 o i (at_pc (WFastActive item) d None sl)
    (let* (d', err) := write_active item d in
     Ok match err with None => at_end d' None None sl | Some _ => at_pc (WLock item) d' None sl end).
Proof.
  rewrite write_active_ring, rbind_assoc.
  apply (leads_bind 12 1 _ _ _ _ (λ '(d', err),
    at_pc match err with None => WFastCount | Some _ => WLock item end d' None sl)).
  - eapply eq_ind; [apply (leads_ring_write (WFastActive item) (WFastClosed item) (WFastPush item)
      (λ err, match err with None => WFastCount | Some _ => WLock item end) item)|].
    + done.
    + intros b sys. cbn. destruct (get_buf b (db sys)); cbn; [by case_decide|done..].
    + intros b pc sys. cbn. by destruct (ring_step item b pc (db sys)) as [[? [?|[?|]]]| |].
    + by destruct (ring_write item d) as [[? ?]| |].
  - intros [d' [err|]] _; cbn [rbind]; [apply leads_refl|].
    eapply leads_write_next; [done|]. rewrite return_at. apply leads_refl.
Qed.

(** The slow path, from the lock on. *)
Lemma leads_slow (item : BufferItem) (d : DoubleBuffer H S) :
  leads 29 o i (at_pc (WLock item) d None None)
    (rmap (λ '(d', err), at_end d' err None None) (slow_path o item d)).
Proof.
  eapply leads_write_next; [done|]. rewrite goto_at.
  change (set_writeLock (Some (AWriter i)) (at_pc (WSlowActive item) d None None)) with
    (at_pc (WSlowActive item) d (Some (AWriter i)) None).
  eapply leads_write_next; [done|]. rewrite goto_at. cbn [db at_pc].
  unfold slow_path, rmap. rewrite rbind_assoc.
  apply (leads_write_step _ _ _ _ _ _ (λ s, at_pc (if decide (GetState s = ReadOnly)
    then WSwitch item SwCas else WSlowWrite item) d (Some (AWriter i)) None)).
  { cbn. destruct (get_buf (active d) d); cbn; [|done..]. case_decide; by rewrite goto_at. }
  intros s _. rewrite rbind_assoc.
  apply (leads_bind 12 14 _ _ _ _ (λ d', at_pc (WSlowWrite item) d' (Some (AWriter i)) None)).
  { case_decide; [apply leads_switch|apply leads_refl]. }
  intros d' _. rewrite write_active_ring, rbind_assoc.
  apply (leads_bind 12 2 _ _ _ _ (λ '(d', err),
    at_pc match err with None => WSlowCount | Some _ => WUnlock err end d' (Some (AWriter i)) None)).
  - eapply eq_ind; [apply (leads_ring_write (WSlowWrite item) (WSlowClosed item) (WSlowPush item)
      (λ err, match err with None => WSlowCount | Some _ => WUnlock err end) item)|].
    + done.
    + intros b sys. cbn. destruct (get_buf b (db sys)); cbn; [by case_decide|done..].
    + intros b pc sys. cbn. by destruct (ring_step item b pc (db sys)) as [[? [?|[?|]]]| |].
    + by destruct (ring_write item d') as [[? ?]| |].
  - intros [d2 [err|]] _; cbn [rbind].
    + eapply leads_write_next; [done|]. rewrite return_at. apply leads_refl.
    + eapply leads_write_next; [done|]. rewrite goto_at.
      eapply leads_write_next; [done|]. rewrite return_at. apply leads_refl.
Qed.

Lemma leads_Write (p : slice) (d : DoubleBuffer H S) :
  leads 45 o i (at_pc (WStart p) d None None)
    (rmap (λ '(d', err), at_end d' err None None) (Write o p d)).
Proof.
  unfold Write. case_decide as Hst.
  { eapply leads_write_next; [cbn; by rewrite decide_True|]. rewrite return_at. apply leads_refl. }
  eapply leads_write_next; [cbn; by rewrite decide_False|]. rewrite goto_at.
  unfold rmap. rewrite rbind_assoc. cbn [db at_pc].
  apply (leads_write_step _ _ _ _ _ _ (λ '(d', item), at_pc (WFast item) d' None None)).
  { cbn. destruct (classify o p d) as [[? ?]| |]; cbn; [by rewrite goto_at|done..]. }
  intros [d1 item] _. case_decide as Hst1.
  - eapply leads_write_next; [cbn; by rewrite decide_True|]. rewrite goto_at, rbind_assoc.
    apply (leads_bind 13 29 _ _ _ _ (λ '(d', err),
      match err with None => at_end d' None None None | Some _ => at_pc (WLock item) d' None None end)).
    + eapply eq_ind; [apply leads_fast|]. by destruct (write_active item d1) as [[? [?|]]| |].
    + intros [d2 [err|]] _; cbn [rbind]; [apply leads_slow|apply leads_refl].
  - eapply leads_write_next; [cbn; by rewrite decide_False|]. rewrite goto_at.
    eapply leads_le; [apply leads_slow|lia].
Qed.
End alone.

(** C12. A [Write] that no other goroutine interrupts is the [Write] of the
    sequential model: when no lock is held, within 45 accesses of its own an
    idle writer has run to the end of its call, with the double buffer, the
    error and the panics of the one-step definition, and holds no lock. *)
Theorem uninterrupted_Write (o : oracle) (i : nat) (p : slice) (rs : list (option error))
    (sys : system) (Hidle : writers sys !! i = Some (mkWriter WIdle rs))
    (Hfree : writeLock sys = None ∧ switchLock sys = None) :
  ∃ n : nat, (n ≤ 45)%nat ∧
    run (EvCall i p :: replicate n (EvWriter o i)) sys =
      rmap (λ '(d, err), return_ i err d sys) (Write o p (db sys)).
Proof.
  destruct sys as [d wl sl ws mon rd]; cbn in Hidle, Hfree |- *. destruct Hfree as [-> ->].
  rewrite Hidle. cbn [rbind wpc]. pose proof (lookup_lt_Some _ _ _ Hidle) as Hi.
  destruct (leads_Write o i rs ws mon rd Hi p d) as (n & Hn & E). exists n. split; [done|].
  unfold goto. cbn. rewrite (list_alter_lookup _ _ _ _ Hidle). cbn.
  unfold steps, at_pc in E. rewrite E.
  destruct (Write o p d) as [[d' err]| |]; cbn; [|done..]. unfold at_end, return_. cbn.
  by rewrite (list_alter_lookup _ _ _ _ Hidle).
Qed.
End conc.
Arguments system H S : clear implicits.

(** Two writers around the double buffer of [demo]. *)
Lemma uninterrupted_Write_witness :
  ∃ n : nat, (n ≤ 45)%nat ∧
    run map_to_list (EvCall 1 demo_p :: replicate n (EvWriter demo_oracle 1)) (start 2 demo) =
      rmap (λ '(d, err), return_ 1 err d (start 2 demo)) (Write demo_oracle demo_p demo).
Proof.
  apply (uninterrupted_Write map_to_list demo_oracle 1 demo_p [] (start 2 demo)).
  - reflexivity.
  - split; reflexivity.
Defined.
