(* ===== verification/DoubleBufferSafety.v ===== *)
(** * Safety of the interleaved double buffer

    What holds at every moment of every run of [DoubleBufferConc]: switches
    exclude each other, a lock is released by the goroutine that holds it, and
    every ring has one owner.  What does not hold: a writer keeps its
    reference to a ring across a switch, and a writer that meets a switch can
    be refused. *)
From S2P Require Import Prelude.
From S2P Require Import Consts.
From S2P Require Import Interfaces.
From S2P Require Import Runtime.
From S2P Require Import SmartBuffer.
From S2P Require Import SmartBufferConc.
From S2P Require Import SwitchStrategy.
From S2P Require Import SwitchConfig.
From S2P Require Import Waiters.
From S2P Require Import LifeCycle.
From S2P Require Import DataChunk.
From S2P Require Import WrapHeap.
From S2P Require Import DoubleBuffer.
From S2P Require Import DoubleBufferFlow.
From S2P Require Import DoubleBufferDelivery.
From S2P Require Import DoubleBufferConc.
Open Scope Z_scope.
Open Scope go_scope.

(** ** The invariant *)

(** Between the compare-and-swap of the state and its reset. *)
Definition critical (pc : switch_pc) : bool :=
  match pc with SwCas | SwUnlock => false | _ => true end.

(** Between the locking and the unlocking of [switchLock]. *)
Definition locked (pc : switch_pc) : bool :=
  match pc with SwCas | SwLock => false | _ => true end.

Definition switching (pc : writer_pc) : option switch_pc :=
  match pc with WSwitch _ pc => Some pc | _ => None end.

(** Between the locking and the unlocking of [writeLock]. *)
Definition slow (pc : writer_pc) : bool :=
  match pc with
  | WSlowActive _ | WSlowState _ _ | WSwitch _ _ | WSlowWrite _ | WSlowClosed _ _
  | WSlowPush _ _ _ | WSlowCount | WUnlock _ => true
  | _ => false
  end.

Section safety.
  Context {H S : Type} `{!PendingQueue H, !PendingQueueLaws H, !SwitchStrategy S}.
  Context (range : gmap Z nat → list (Z * nat)).

(** The rings on their way to the readers and back. *)
Definition reader_rings (d : DoubleBuffer H S) : list nat :=
  option_list (currentBuffer d) ++ pool d ++ (pq_contents (pendingHeap d)).*2 ++
  unnumbered (goroutines d) ++ (pushes (goroutines d)).*2.

(** The rings of the writers' side: the two fields, and the local variables of
    the switch in progress; while it exchanges the fields both refer to one
    ring. *)
Definition writer_rings (d : DoubleBuffer H S) (pc : option switch_pc) : list nat :=
  active d ::
  match pc with
  | Some (SwPassive old newBuf) => [old; newBuf]
  | Some (SwOld newBuf) | Some (SwActive _ newBuf) => [passive d; newBuf]
  | Some (SwCount old) | Some (SwLast old) | Some (SwGo old) => [passive d; old]
  | _ => [passive d]
  end.

Record one_owner (d : DoubleBuffer H S) (pc : option switch_pc) : Prop := {
  ow_nodup : NoDup (writer_rings d pc ++ reader_rings d);
  ow_exist (b : nat) : b ∈ writer_rings d pc ++ reader_rings d → b ∈ dom (bufs (objs d));
  ow_next (b : nat) : b ∈ dom (bufs (objs d)) → (b < next (objs d))%nat;
  ow_heap : pq_wf (pendingHeap d);
  ow_old (old newBuf : nat) : pc = Some (SwActive old newBuf) → old = active d
}.

(** Where a goroutine is inside [switchChannel], if it is. *)
Definition pc_of (sys : system H S) (a : agent) : option switch_pc :=
  match a with
  | AMonitor => match monitor sys with MIdle => None | MSwitch pc => Some pc end
  | AWriter i => w ← writers sys !! i; switching (wpc w)
  end.

Definition slow_of (sys : system H S) (a : agent) : bool :=
  match a with
  | AMonitor => false
  | AWriter i => match writers sys !! i with Some w => slow (wpc w) | None => false end
  end.

(** [idle] is the state between the switches, which is [WritingState] until the
    buffer is closed, and [stop] says whether the stop channel is closed. *)
Context (idle : Z) (stop : bool).

(** [sw] is the switch in progress: who runs it and where it is. *)
Record exclusive (sys : system H S) (sw : option (agent * switch_pc)) : Prop := {
  ex_state : state (db sys) = if sw then SwitchingState else idle;
  ex_idle : idle = WritingState ∨ idle = ClosedState ∧ sw = None;
  ex_stop : stop_closed (db sys) = stop;
  ex_switch (a : agent) (pc : switch_pc) :
    pc_of sys a = Some pc ∧ critical pc = true ↔ sw = Some (a, pc);
  ex_lock (a : agent) :
    switchLock sys = Some a ↔ ∃ pc : switch_pc, pc_of sys a = Some pc ∧ locked pc = true;
  ex_write (a : agent) : writeLock sys = Some a ↔ slow_of sys a = true;
  ex_heap : pq_wf (pendingHeap (db sys));
  ex_rings : idle = WritingState → one_owner (db sys) (snd <$> sw)
}.

(** ** Operations that rearrange the readers' rings *)

Record rearranged (d d' : DoubleBuffer H S) : Prop := {
  re_active : active d' = active d;
  re_passive : passive d' = passive d;
  re_state : state d' = state d;
  re_stop : stop_closed d' = stop_closed d;
  re_dom : dom (bufs (objs d')) = dom (bufs (objs d));
  re_next : next (objs d') = next (objs d);
  re_heap : pq_wf (pendingHeap d) → pq_wf (pendingHeap d');
  re_rings : pq_wf (pendingHeap d) → reader_rings d' ≡ₚ reader_rings d
}.

#[export] Instance rearranged_preorder : PreOrder rearranged.
Proof.
  split; [by constructor|]. intros d1 d2 d3 [] []. constructor; [congruence..|by auto|].
  intros Hwf. etrans; [|by auto]. by auto.
Qed.

Lemma rearranged_rings (d d' : DoubleBuffer H S) (pc : option switch_pc) :
  rearranged d d' → one_owner d pc → one_owner d' pc.
Proof.
  intros [Ea Ep _ _ Ed En Eh Er] [Hnd Hex Hnx Hh Hold].
  assert (writer_rings d' pc ++ reader_rings d' ≡ₚ writer_rings d pc ++ reader_rings d) as E.
  { unfold writer_rings. rewrite Ea, Ep. by rewrite Er. }
  constructor.
  - by rewrite E.
  - intros b. rewrite E, Ed. apply Hex.
  - intros b. rewrite Ed, En. apply Hnx.
  - by apply Eh.
  - intros old nb Hpc. rewrite Ea. by eapply Hold.
Qed.

Lemma dom_set_buf (b : nat) (s s' : SmartBuffer) (d : DoubleBuffer H S) :
  get_buf b d = Ok s → dom (<[b := s']> (bufs (objs d))) = dom (bufs (objs d)).
Proof.
  unfold get_buf. destruct (bufs (objs d) !! b) eqn:E; [|done]. intros _.
  rewrite dom_insert_L. apply elem_of_dom_2 in E. set_solver.
Qed.

Lemma rearranged_set_buf (b : nat) (s s' : SmartBuffer) (d : DoubleBuffer H S) :
  get_buf b d = Ok s → rearranged d (DoubleBuffer.set_buf b s' d).
Proof. intros E. constructor; try done. cbn. by eapply dom_set_buf. Qed.

Lemma rearranged_same (d d' : DoubleBuffer H S) : same_core d d' → rearranged d d'.
Proof.
  intros (? & Es & _ & _ & Ea & Ep & Ec & El & Eh & Eg & _ & Eb & En & _ & ?).
  constructor; rewrite ?Eh, ?Eb; try done. intros _. unfold reader_rings. by rewrite Ec, El, Eh, Eg.
Qed.

Lemma run_goroutine_rearranged (i : nat) (d d' : DoubleBuffer H S) :
  run_goroutine range i d = Ok d' → rearranged d d'.
Proof.
  unfold run_goroutine. destruct (goroutines d !! i) as [g|] eqn:Eg; [|by intros [= <-]].
  assert (∀ g', <[i := g']> (goroutines d) ≡ₚ g' :: delete i (goroutines d)) as Hins.
  { intros g'. rewrite insert_take_drop by (by eapply lookup_lt_Some).
    by rewrite delete_take_drop, Permutation_middle. }
  pose proof (delete_Permutation _ _ _ Eg) as Hdel.
  assert (∀ g', unnumbered (<[i := g']> (goroutines d)) ≡ₚ
    unnumbered [g'] ++ unnumbered (delete i (goroutines d))) as Hun.
  { intros g'. rewrite <- unnumbered_app. unfold unnumbered. by rewrite Hins. }
  assert (∀ g', pushes (<[i := g']> (goroutines d)) ≡ₚ
    pushes [g'] ++ pushes (delete i (goroutines d))) as Hpu.
  { intros g'. rewrite <- pushes_app. unfold pushes. by rewrite Hins. }
  assert (unnumbered (goroutines d) ≡ₚ unnumbered [g] ++ unnumbered (delete i (goroutines d))) as Hun0
    by (rewrite <- unnumbered_app; unfold unnumbered; by rewrite Hdel at 1).
  assert (pushes (goroutines d) ≡ₚ pushes [g] ++ pushes (delete i (goroutines d))) as Hpu0
    by (rewrite <- pushes_app; unfold pushes; by rewrite Hdel at 1).
  destruct g as [b|s b|b|n].
  - intros [= <-]. constructor; try done. intros _. unfold reader_rings. cbn -[unnumbered pushes].
    rewrite Hun, Hpu, Hun0, Hpu0. cbn. solve_Permutation.
  - destruct (pq_push (s, b) (pendingHeap d)) as [h|p|] eqn:E; [|done..]. intros [= <-].
    constructor; try done.
    + intros Hwf. destruct (pq_push_ok _ (s, b) Hwf) as (h' & E' & ? & _). cbn. congruence.
    + intros Hwf. destruct (pq_push_ok _ (s, b) Hwf) as (h' & E' & _ & Hp).
      replace h' with h in Hp by congruence.
      unfold reader_rings. cbn -[unnumbered pushes]. rewrite Hun, Hpu, Hun0, Hpu0, Hp. cbn.
      solve_Permutation.
  - destruct (get_buf b d) as [s|p|]; [|done..]. intros [= <-]. constructor; try done. intros _.
    unfold reader_rings. cbn -[unnumbered pushes]. by rewrite Hun, Hpu, Hun0, Hpu0.
  - destruct (Waiters.notify range n (wm d)) as [w|p|]; [|done..]. intros [= <-].
    constructor; try done. intros _. unfold reader_rings. cbn -[unnumbered pushes].
    by rewrite Hun0, Hpu0.
Qed.

Lemma run_schedule_rearranged (sched : list nat) (d d' : DoubleBuffer H S) :
  run_schedule range sched d = Ok d' → rearranged d d'.
Proof.
  revert d. induction sched as [|i sched IH]; intros d; cbn; [by intros [= <-]|].
  intros (d1 & E1%run_goroutine_rearranged & E)%rbind_ok. etrans; [done|by apply IH].
Qed.
Lemma run_schedule_current (sched : list nat) (d d' : DoubleBuffer H S) :
  run_schedule range sched d = Ok d' → currentBuffer d' = currentBuffer d.
Proof.
  revert d. induction sched as [|i sched IH]; intros d; cbn; [by intros [= <-]|].
  intros (d1 & E1 & E)%rbind_ok. apply IH in E as ->. revert E1. unfold run_goroutine.
  destruct (goroutines d !! i) as [[b|s b|b|n]|]; [by intros [= <-]| | | |by intros [= <-]];
    by intros (? & _ & [= <-])%rbind_ok.
Qed.

Lemma pick_loop_rearranged (n : nat) (sleeps : list (list nat)) (d d' : DoubleBuffer H S) (x : bool) :
  pq_wf (pendingHeap d) → currentBuffer d = None → pick_loop range n sleeps d = Ok (d', x) →
  rearranged d d'.
Proof.
  revert sleeps d. induction n as [|n IH]; intros sleeps d Hwf Hcur; cbn [pick_loop];
    [by intros [= <- _]|].
  destruct (decide (pq_contents (pendingHeap d) = [])) as [Hc|Hc].
  { rewrite pq_pick_none by done. intros [= <- _]. by apply rearranged_same. }
  destruct (pq_pick_some _ Hwf Hc) as (h & [s b] & E & Hwf1 & Hp & _). rewrite E. cbn [rbind].
  case_decide as Hs.
  - intros [= <- _]. constructor; try done. intros _. unfold reader_rings. cbn.
    rewrite Hcur, Hp. cbn. solve_Permutation.
  - cbn [pendingHeap set_pendingHeap]. destruct (pq_push_ok h (s, b) Hwf1) as (h' & -> & Hwf2 & Hp2).
    cbn [rbind].
    assert (rearranged d (set_pendingHeap h' (set_pendingHeap h d))) as Hd.
    { constructor; try done. intros _. unfold reader_rings. cbn. by rewrite Hp2, Hp. }
    intros (d2 & E2 & E3)%rbind_ok.
    pose proof (run_schedule_rearranged _ _ _ E2) as Hd2.
    etrans; [exact Hd|]. etrans; [exact Hd2|]. apply (IH _ _) in E3; [done|by apply Hd2|].
    rewrite (run_schedule_current _ _ _ E2). done.
Qed.

Lemma small_copy_rearranged (o : oracle) (n : Z) (src buf : slice) (d d' : DoubleBuffer H S) :
  small_copy o n src d = Ok (d', buf) → rearranged d d'.
Proof. intros E%small_copy_same. by apply rearranged_same. Qed.

Lemma pop_current_rearranged (d d' : DoubleBuffer H S) (x : Z * Z) :
  pop_current d = Ok (d', x) → rearranged d d'.
Proof.
  unfold pop_current. destruct (currentBuffer d) as [b|]; [|done].
  intros (s & Es & ((s' & y) & _ & E)%rbind_ok)%rbind_ok. injection E as <- _.
  by eapply rearranged_set_buf.
Qed.

Lemma safeRead_rearranged (o : oracle) (d d' : DoubleBuffer H S) (r : option (DataChunk free_action)) :
  safeRead o d = Ok (d', r) → rearranged d d'.
Proof.
  intros ((d1 & (ptr & n)) & E%pop_current_rearranged & E1)%rbind_ok. etrans; [exact E|]. unfold safe_chunk in E1.
  case_decide; [by injection E1 as <- _|]. apply rbind_ok in E1 as (res & _ & E1). case_decide.
  { apply rbind_ok in E1 as ((d2 & buf) & E2%small_copy_rearranged & E1). by injection E1 as <- _. }
  case_decide; [by injection E1 as <- _|]. destruct (MediumPool.IsValid _ _ _).
  { by injection E1 as <- _. }
  apply rbind_ok in E1 as ((m & l) & _ & E1). apply rbind_ok in E1 as (m2 & _ & E1).
  injection E1 as <- _. by apply rearranged_same.
Qed.

Lemma zeroCopyRead_rearranged (d d' : DoubleBuffer H S) (r : option (DataChunk free_action)) :
  zeroCopyRead d = Ok (d', r) → rearranged d d'.
Proof.
  intros ((d1 & (ptr & n)) & E%pop_current_rearranged & E1)%rbind_ok. etrans; [exact E|]. unfold zero_copy_chunk in E1.
  case_decide; [by injection E1 as <- _|]. apply rbind_ok in E1 as (res & _ & E1).
  injection E1 as <- _. apply rearranged_same. by case_decide.
Qed.

Lemma read_current_rearranged (o : oracle) (d d' : DoubleBuffer H S)
    (r : DataChunk free_action + error) :
  read_current o d = Ok (d', r) → rearranged d d'.
Proof.
  unfold read_current. destruct (readMode d); [|done]. case_decide; [|case_decide].
  - intros ((d1 & x) & E%safeRead_rearranged & E1)%rbind_ok. by injection E1 as <- _.
  - intros ((d1 & x) & E%zeroCopyRead_rearranged & E1)%rbind_ok. by injection E1 as <- _.
  - by intros [= <- _].
Qed.

Lemma discard_current_rearranged (d d' : DoubleBuffer H S) :
  discard_current d = Ok d' → rearranged d d' ∧ currentBuffer d' = None.
Proof.
  unfold discard_current. destruct (currentBuffer d) as [b|] eqn:Ec; [|by intros [= <-]].
  intros (s & Es & [= <-])%rbind_ok. split; [|done].
  etrans; [by eapply (rearranged_set_buf _ _ (Reset s))|]. constructor; try done.
  intros _. unfold reader_rings. cbn. by rewrite Ec.
Qed.

Lemma tryRead_rearranged (o : oracle) (sleeps : list (list nat)) (d d' : DoubleBuffer H S)
    (r : DataChunk free_action + error) :
  pq_wf (pendingHeap d) → tryRead range o sleeps d = Ok (d', r) → rearranged d d'.
Proof.
  intros Hwf ([|] & _ & E)%rbind_ok; [|by eapply read_current_rearranged].
  apply rbind_ok in E as (d1 & [E1 Hc]%discard_current_rearranged & E).
  apply rbind_ok in E as ((d2 & picked) & E2 & E). etrans; [exact E1|].
  apply rbind_ok in E2 as ((d3 & found) & E3%pick_loop_rearranged & E2); [|by apply E1|done].
  assert (d2 = d3) as -> by (destruct found; by injection E2 as <- _).
  etrans; [exact E3|]. destruct picked; [by eapply read_current_rearranged|by injection E as <- _].
Qed.

Lemma run_free_rearranged (f : free_action) (d : DoubleBuffer H S) : rearranged d (run_free f d).
Proof.
  apply rearranged_same. destruct f as [s|ptr n|ptr n]; [done| |done]. cbn. unfold recycle.
  by repeat case_decide.
Qed.
(** ** A switch *)

(** The rings before and after a step that moves no ring in or out. *)
Lemma one_owner_perm (d d' : DoubleBuffer H S) (pc pc' : option switch_pc) :
  one_owner d pc →
  writer_rings d' pc' ++ reader_rings d' ≡ₚ writer_rings d pc ++ reader_rings d →
  dom (bufs (objs d')) = dom (bufs (objs d)) → next (objs d') = next (objs d) →
  pendingHeap d' = pendingHeap d →
  (∀ old newBuf : nat, pc' = Some (SwActive old newBuf) → old = active d') →
  one_owner d' pc'.
Proof.
  intros [Hnd Hex Hnx Hh _] E Ed En Eh Hold. constructor.
  - by rewrite E.
  - intros b. rewrite E, Ed. apply Hex.
  - intros b. rewrite Ed, En. apply Hnx.
  - by rewrite Eh.
  - exact Hold.
Qed.

Lemma pool_Get_one_owner (choice : option nat) (d d' : DoubleBuffer H S) (b : nat) :
  one_owner d (Some SwGet) → pool_Get choice d = Ok (d', b) →
  one_owner d' (Some (SwOld b)) ∧ state d' = state d.
Proof.
  unfold pool_Get. intros Ho.
  destruct (pool_take choice (pool d)) as [[b' rest]|] eqn:E.
  - intros [= <- <-]. apply pool_take_Some in E. split; [|done].
    eapply one_owner_perm; [exact Ho| |done..]. unfold reader_rings. cbn. rewrite E.
    cbn. solve_Permutation.
  - intros (s & _ & [= <- <-])%rbind_ok. split; [|done]. destruct Ho as [Hnd Hex Hnx Hh _].
    assert (next (objs d) ∉ writer_rings d (Some SwGet) ++ reader_rings d) as Hfresh.
    { intros Hb%Hex%Hnx. lia. }
    assert (∀ d1 : DoubleBuffer H S, writer_rings d (Some (SwOld (next (objs d)))) ++ reader_rings d
      ≡ₚ next (objs d) :: writer_rings d (Some SwGet) ++ reader_rings d) as E1
      by (intros _; cbn; solve_Permutation).
    constructor; cbn [objs bufs next mem set_objs].
    + change (NoDup (writer_rings d (Some (SwOld (next (objs d)))) ++ reader_rings d)).
      rewrite (E1 d). by constructor.
    + intros b. change (b ∈ writer_rings d (Some (SwOld (next (objs d)))) ++ reader_rings d →
        b ∈ dom (<[next (objs d) := s]> (bufs (objs d)))).
      rewrite (E1 d), dom_insert_L, elem_of_cons. intros [->|Hb%Hex]; set_solver.
    + intros b. rewrite dom_insert_L. intros [->%elem_of_singleton|Hb%Hnx]%elem_of_union; lia.
    + done.
    + done.
Qed.

Lemma switch_step_one_owner (o : oracle) (a : agent) (pc : switch_pc) (l l' : option agent)
    (d d' : DoubleBuffer H S) (next : option switch_pc) :
  critical pc = true → one_owner d (Some pc) → switch_step o a pc l d = Ok (d', l', next) →
  one_owner d' next ∧ (pc ≠ SwState → state d' = state d).
Proof.
  intros Hc Ho. destruct pc as [| | | |nb|old nb|old nb|old|old|old| |]; try done; cbn [switch_step].
  - destruct l; intros [= <- _ <-]; (split; [|done]); [done|].
    eapply one_owner_perm; by try exact Ho.
  - intros (s & Es & [= <- _ <-])%rbind_ok. split; [|done].
    eapply rearranged_rings; [by eapply rearranged_set_buf|].
    eapply one_owner_perm; by try exact Ho.
  - intros ((d1 & b) & E & [= <- _ <-])%rbind_ok.
    destruct (pool_Get_one_owner _ _ _ _ Ho E). by split.
  - intros [= <- _ <-]. split; [|done]. eapply one_owner_perm; try exact Ho; try done.
    by intros ?? [= <- _].
  - intros [= <- _ <-]. split; [|done]. eapply one_owner_perm; try exact Ho; try done.
    rewrite (ow_old _ _ Ho old nb eq_refl). cbn. unfold reader_rings. cbn. solve_Permutation.
  - intros [= <- _ <-]. split; [|done]. eapply one_owner_perm; try exact Ho; try done.
    cbn. unfold reader_rings. cbn. solve_Permutation.
  - intros [= <- _ <-]. split; [|done]. eapply one_owner_perm; by try exact Ho.
  - intros [= <- _ <-]. split; [|done]. eapply one_owner_perm; by try exact Ho.
  - intros [= <- _ <-]. split; [|done]. eapply one_owner_perm; try exact Ho; try done.
    unfold reader_rings. cbn -[unnumbered pushes]. rewrite unnumbered_app, pushes_app.
    change (pushes [GNumber old]) with (@nil (Z * nat)). rewrite app_nil_r.
    change (unnumbered [GNumber old]) with [old]. solve_Permutation.
  - intros [= <- _ <-]. split; [|done]. eapply one_owner_perm; by try exact Ho.
Qed.
(** ** The steps of the system *)

(** What [exclusive] observes of a system. *)
Lemma exclusive_ext (sys sys' : system H S) (sw : option (agent * switch_pc)) :
  exclusive sys sw → rearranged (db sys) (db sys') → switchLock sys' = switchLock sys →
  writeLock sys' = writeLock sys →
  (∀ a : agent, slow_of sys' a = slow_of sys a) →
  (∀ (a : agent) (pc : switch_pc), pc ≠ SwCas → pc_of sys' a = Some pc ↔ pc_of sys a = Some pc) →
  exclusive sys' sw.
Proof.
  intros [Hst Hid Hstop Hsw Hl Hw Hh Ho] Hr El Ew Es Ep. constructor.
  - rewrite (re_state _ _ Hr). apply Hst.
  - exact Hid.
  - by rewrite (re_stop _ _ Hr).
  - intros a pc. rewrite <- Hsw. destruct (decide (pc = SwCas)) as [->|Hne].
    + split; by intros [_ ?].
    + by rewrite Ep.
  - intros a. rewrite El, Hl. split; intros (pc & Hpc & Hlk); exists pc; (split; [|done]);
      apply Ep in Hpc || apply Ep; try done; by intros ->.
  - intros a. by rewrite Ew, Hw, Es.
  - by apply (re_heap _ _ Hr).
  - intros Hi. by eapply rearranged_rings; [|apply Ho].
Qed.

Lemma pc_of_alter (i j : nat) (f : writer → writer) (ws : list writer) :
  alter f i ws !! j = if decide (i = j) then f <$> ws !! j else ws !! j.
Proof. rewrite list_lookup_alter. case_decide; by subst. Qed.

(** A writer moves outside [switchChannel], or enters it. *)
Lemma exclusive_move (i : nat) (w : writer) (pc : writer_pc) (rs : list (option error))
    (d : DoubleBuffer H S) (sys : system H S) (sw : option (agent * switch_pc)) :
  exclusive sys sw → writers sys !! i = Some w → switching (wpc w) = None →
  (switching pc = None ∨ switching pc = Some SwCas) → slow pc = slow (wpc w) →
  rearranged (db sys) d →
  exclusive (mkSystem d (writeLock sys) (switchLock sys) (<[i := mkWriter pc rs]> (writers sys))
    (monitor sys) (reads sys)) sw.
Proof.
  intros Hex Hi Hs Hpc Hslow Hr. eapply exclusive_ext; [exact Hex|exact Hr|done..| |].
  - intros [j|]; [|done]. cbn. destruct (decide (j = i)) as [->|].
    + rewrite list_lookup_insert_eq, Hi by (by eapply lookup_lt_Some). done.
    + by rewrite list_lookup_insert_ne.
  - intros [j|] pc' Hne; [|done]. cbn. destruct (decide (j = i)) as [->|].
    + rewrite list_lookup_insert_eq, Hi by (by eapply lookup_lt_Some). cbn. rewrite Hs.
      split; [|done]. destruct Hpc as [-> | ->]; [done|congruence].
    + by rewrite list_lookup_insert_ne.
Qed.

(** [writeLock] is taken or released by writer [i]. *)
Lemma exclusive_writeLock (i : nat) (w : writer) (pc : writer_pc) (rs : list (option error))
    (d : DoubleBuffer H S) (l : option agent) (sys : system H S) (sw : option (agent * switch_pc)) :
  exclusive sys sw → writers sys !! i = Some w → switching (wpc w) = None → switching pc = None →
  (if slow pc then writeLock sys = None ∧ l = Some (AWriter i)
   else slow (wpc w) = true ∧ l = None) →
  rearranged (db sys) d →
  exclusive (mkSystem d l (switchLock sys) (<[i := mkWriter pc rs]> (writers sys))
    (monitor sys) (reads sys)) sw.
Proof.
  intros [Hst Hid Hstop Hsw Hl Hw Hh Ho] Hi Hs Hpc Hslow Hr.
  assert (∀ a, pc_of (mkSystem d l (switchLock sys) (<[i := mkWriter pc rs]> (writers sys))
    (monitor sys) (reads sys)) a = pc_of sys a) as Ep.
  { intros [j|]; [|done]. cbn. destruct (decide (j = i)) as [->|].
    - rewrite list_lookup_insert_eq, Hi by (by eapply lookup_lt_Some). cbn. congruence.
    - by rewrite list_lookup_insert_ne. }
  constructor.
  - cbn. by rewrite (re_state _ _ Hr).
  - exact Hid.
  - cbn. by rewrite (re_stop _ _ Hr).
  - intros a pc'. rewrite Ep. apply Hsw.
  - intros a. setoid_rewrite Ep. apply Hl.
  - intros [j|]; cbn [writeLock slow_of writers].
    + destruct (decide (j = i)) as [->|Hne].
      * rewrite list_lookup_insert_eq by (by eapply lookup_lt_Some). cbn.
        destruct (slow pc); destruct Hslow as [? ->]; [done|]. split; congruence.
      * rewrite list_lookup_insert_ne by done. pose proof (Hw (AWriter j)) as Hj. cbn in Hj.
        destruct (slow pc); destruct Hslow as [Hlock ->].
        -- rewrite <- Hj, Hlock. split; congruence.
        -- rewrite <- Hj. specialize (Hw (AWriter i)). cbn in Hw. rewrite Hi in Hw.
           apply Hw in Hlock. rewrite Hlock. split; congruence.
    + specialize (Hw AMonitor). cbn in Hw. destruct (slow pc); destruct Hslow as [? ->]; split; congruence.
  - by apply (re_heap _ _ Hr).
  - intros Hw'. by eapply rearranged_rings; [|apply Ho].
Qed.
Definition is_critical (pc : option switch_pc) : bool :=
  match pc with Some pc => critical pc | None => false end.
Definition is_locked (pc : option switch_pc) : bool :=
  match pc with Some pc => locked pc | None => false end.

Lemma switch_step_lock (o : oracle) (a : agent) (pc : switch_pc) (l l' : option agent)
    (d d' : DoubleBuffer H S) (next : option switch_pc) :
  switch_step o a pc l d = Ok (d', l', next) →
  (l' = l ∧ is_locked next = locked pc) ∨
  (l = None ∧ l' = Some a ∧ locked pc = false ∧ is_locked next = true) ∨
  (l' = None ∧ locked pc = true ∧ is_locked next = false).
Proof.
  destruct pc; cbn [switch_step].
  - case_decide; intros [= <- <- <-]; by left.
  - destruct l; intros [= <- <- <-]; [by left|by right; left].
  - intros (s & _ & [= <- <- <-])%rbind_ok. by left.
  - intros ((d1 & b) & _ & [= <- <- <-])%rbind_ok. by left.
  - intros [= <- <- <-]; by left.
  - intros [= <- <- <-]; by left.
  - intros [= <- <- <-]; by left.
  - intros [= <- <- <-]; by left.
  - intros [= <- <- <-]; by left.
  - intros [= <- <- <-]; by left.
  - intros [= <- <- <-]; by left.
  - intros [= <- <- <-]; by right; right.
Qed.

Lemma switch_step_critical (o : oracle) (a : agent) (pc : switch_pc) (l l' : option agent)
    (d d' : DoubleBuffer H S) (next : option switch_pc) :
  critical pc = true → switch_step o a pc l d = Ok (d', l', next) →
  if is_critical next then pc ≠ SwState else state d' = WritingState ∧ next = Some SwUnlock.
Proof.
  intros Hc. destruct pc; try done; cbn [switch_step].
  - destruct l; by intros [= <- <- <-].
  - by intros (s & _ & [= <- <- <-])%rbind_ok.
  - by intros ((d1 & b) & _ & [= <- <- <-])%rbind_ok.
  - by intros [= <- <- <-].
  - by intros [= <- <- <-].
  - by intros [= <- <- <-].
  - by intros [= <- <- <-].
  - by intros [= <- <- <-].
  - by intros [= <- <- <-].
  - by intros [= <- <- <-].
Qed.

Lemma switch_step_rest (o : oracle) (a : agent) (pc : switch_pc) (l l' : option agent)
    (d d' : DoubleBuffer H S) (next : option switch_pc) :
  switch_step o a pc l d = Ok (d', l', next) →
  stop_closed d' = stop_closed d ∧ pendingHeap d' = pendingHeap d.
Proof.
  destruct pc; cbn [switch_step]; try (by intros [= <- <- <-]).
  - case_decide; by intros [= <- <- <-].
  - destruct l; by intros [= <- <- <-].
  - by intros (s & _ & [= <- <- <-])%rbind_ok.
  - intros ((d1 & b) & E & [= <- <- <-])%rbind_ok. revert E. unfold pool_Get.
    destruct (pool_take _ _) as [[b' rest]|]; [by intros [= <- <-]|].
    by intros (s & _ & [= <- <-])%rbind_ok.
Qed.

(** Agent [a] makes an access of [switchChannel]; [next] is where it is
    afterwards. *)
Lemma exclusive_switch (o : oracle) (a : agent) (pc : switch_pc) (d : DoubleBuffer H S)
    (l : option agent) (next : option switch_pc) (sys sys' : system H S)
    (sw : option (agent * switch_pc)) :
  exclusive sys sw → pc_of sys a = Some pc →
  switch_step o a pc (switchLock sys) (db sys) = Ok (d, l, next) →
  db sys' = d → switchLock sys' = l → writeLock sys' = writeLock sys →
  (∀ b : agent, slow_of sys' b = slow_of sys b) →
  pc_of sys' a = next → (∀ b : agent, b ≠ a → pc_of sys' b = pc_of sys b) →
  ∃ sw' : option (agent * switch_pc), exclusive sys' sw'.
Proof.
  intros [Hst Hid Hstop Hsw Hl Hw Hh Ho] Ha E Ed El Ew Es Ea Eb.
  assert (stop_closed (db sys') = stop ∧ pq_wf (pendingHeap (db sys'))) as [Hstop' Hh'].
  { rewrite Ed. destruct (switch_step_rest _ _ _ _ _ _ _ _ E) as [-> ->]. done. }
  assert (∀ b : agent, switchLock sys' = Some b ↔
    ∃ pc' : switch_pc, pc_of sys' b = Some pc' ∧ locked pc' = true) as Hl'.
  { assert (∀ b s, (∃ pc' : switch_pc, pc_of s b = Some pc' ∧ locked pc' = true) ↔
      is_locked (pc_of s b) = true) as Hlk.
    { intros b s. destruct (pc_of s b) as [x|]; cbn; [split; [by intros (? & [= ->] & ?)|by exists x]|].
      split; [by intros (? & ? & _)|done]. }
    intros b. rewrite Hlk, El. pose proof (Hl a) as Hla. pose proof (Hl b) as Hlb.
    rewrite Hlk in Hla, Hlb. rewrite Ha in Hla. cbn in Hla.
    apply switch_step_lock in E. destruct (decide (b = a)) as [->|Hb].
    - rewrite Ea. destruct E as [[-> ->]|[(E & -> & _ & ->)|(-> & _ & ->)]]; done.
    - rewrite Eb by done. destruct E as [[-> _]|[(E & -> & _)|(-> & E & _)]].
      + done.
      + rewrite <- Hlb, E. split; congruence.
      + apply Hla in E. rewrite <- Hlb, E. split; congruence. }
  assert (∀ b, writeLock sys' = Some b ↔ slow_of sys' b = true) as Hw'
    by (intros b; by rewrite Ew, Es).
  destruct (critical pc) eqn:Hc.
  - assert (sw = Some (a, pc)) as -> by (by apply Hsw).
    assert (idle = WritingState) as Hwriting by (by destruct Hid as [?|[_ ?]]).
    specialize (Ho Hwriting). cbn [fmap option_map snd] in Ho.
    destruct (switch_step_one_owner _ _ _ _ _ _ _ _ Hc Ho E) as [Ho' Hst'].
    assert (∀ b p, b ≠ a → pc_of sys' b = Some p → critical p = true → False) as Hother.
    { intros b p Hb. rewrite Eb by done. intros Hp Hcp.
      assert (Some (a, pc) = Some (b, p)) by (by apply Hsw). congruence. }
    pose proof (switch_step_critical _ _ _ _ _ _ _ _ Hc E) as Hn.
    destruct next as [pc'|]; [cbn in Hn; destruct (critical pc') eqn:Hc'|by destruct Hn].
    + exists (Some (a, pc')). constructor; try done; [by rewrite Ed, Hst'|by left| |by rewrite Ed].
      intros b p. split; [|by intros [= <- <-]]. intros [Hp Hcp].
      destruct (decide (b = a)) as [->|Hb]; [congruence|by destruct (Hother b p)].
    + destruct Hn as [Hst2 [= ->]]. exists None. constructor; try done.
      * by rewrite Ed, Hst2.
      * by left.
      * intros b p. split; [|done]. intros [Hp Hcp].
        destruct (decide (b = a)) as [->|Hb]; [|by destruct (Hother b p)].
        rewrite Ea in Hp. injection Hp as <-. done.
      * intros _. rewrite Ed. destruct Ho'. by constructor.
  - assert (∀ b p, b ≠ a ∨ is_critical next = false →
      pc_of sys' b = Some p ∧ critical p = true ↔ sw = Some (b, p)) as Hsame.
    { intros b p Hb. rewrite <- Hsw. destruct (decide (b = a)) as [->|Hne]; [|by rewrite Eb].
      destruct Hb as [?|Hb]; [done|]. rewrite Ha, Ea.
      split; [intros [-> ?]; cbn in Hb; congruence|intros [[= <-] ?]; congruence]. }
    destruct pc; try done; cbn [switch_step] in E.
    + case_decide as Hd; injection E as <- <- <-.
      * exists sw. constructor; try done; [by rewrite Ed|intros; apply Hsame; by right|by rewrite Ed].
      * destruct sw as [[a' pc']|]; [by rewrite Hst in Hd|].
        assert (idle = WritingState) as Hwriting by (by rewrite <- Hst).
        specialize (Ho Hwriting). exists (Some (a, SwLock)).
        constructor; try done; rewrite ?Ed; [done|by left| |intros _].
        -- intros b p. split; [|by intros [= <- <-]]. intros [Hp Hcp].
           destruct (decide (b = a)) as [->|Hb]; [congruence|].
           rewrite Eb in Hp by done.
           assert (None = Some (b, p)) by (by apply Hsw). done.
        -- eapply one_owner_perm; by try exact Ho.
    + injection E as <- <- <-. exists sw.
      constructor; try done; [by rewrite Ed|intros; apply Hsame; by right|by rewrite Ed].
Qed.
Lemma ring_step_rearranged (item : BufferItem) (b : nat) (pc : push_pc) (d d' : DoubleBuffer H S)
    (next : push_pc + option error) :
  ring_step item b pc d = Ok (d', next) → rearranged d d'.
Proof.
  intros (s & Es & ((s' & n) & _ & E)%rbind_ok)%rbind_ok. injection E as <- _.
  by eapply rearranged_set_buf.
Qed.

Lemma rearranged_count (n : Z) (d : DoubleBuffer H S) : rearranged d (set_count n d).
Proof. by constructor. Qed.

Ltac writer_moves :=
  eexists; eapply exclusive_move; [eassumption|eassumption|done|by (left + right)|done|
    first [reflexivity|eassumption|apply rearranged_count]].

Lemma writer_step_exclusive (o : oracle) (i : nat) (w : writer) (sys sys' : system H S)
    (sw : option (agent * switch_pc)) :
  exclusive sys sw → writers sys !! i = Some w → writer_step o i (wpc w) sys = Ok sys' →
  ∃ sw' : option (agent * switch_pc), exclusive sys' sw'.
Proof.
  intros Hex Hi. destruct w as [pc rs].
  assert (∀ pc' d, goto i pc' d sys = mkSystem d (writeLock sys) (switchLock sys)
    (<[i := mkWriter pc' rs]> (writers sys)) (monitor sys) (reads sys)) as Hgoto
    by (intros pc' d; unfold goto; by rewrite (list_alter_lookup _ _ _ _ Hi)).
  assert (∀ err d, return_ i err d sys = mkSystem d (writeLock sys) (switchLock sys)
    (<[i := mkWriter WIdle (rs ++ [err])]> (writers sys)) (monitor sys) (reads sys)) as Hreturn
    by (intros err d; unfold return_; by rewrite (list_alter_lookup _ _ _ _ Hi)).
  destruct pc; cbn [writer_step wpc]; rewrite ?Hreturn.
  - intros [= <-]. by exists sw.
  - case_decide; rewrite ?Hgoto; intros [= <-]; writer_moves.
  - intros ((d & it) & Hd%classify_same%rearranged_same & [= <-])%rbind_ok. rewrite Hgoto. writer_moves.
  - case_decide; rewrite ?Hgoto; intros [= <-]; writer_moves.
  - rewrite ?Hgoto; intros [= <-]; writer_moves.
  - intros (s & _ & E)%rbind_ok. revert E. case_decide; rewrite ?Hgoto; intros [= <-]; writer_moves.
  - intros ((d & next) & Hd%ring_step_rearranged & E)%rbind_ok. revert E.
    destruct next as [?|[?|]]; rewrite ?Hgoto; intros [= <-]; writer_moves.
  - intros [= <-]. writer_moves.
  - destruct (writeLock sys) as [a|] eqn:Elock; intros [= <-]; [by exists sw|].
    exists sw. rewrite Hgoto.
    by apply (exclusive_writeLock i _ (WSlowActive item) rs (db sys) (Some (AWriter i)) sys sw Hex Hi).
  - rewrite ?Hgoto; intros [= <-]; writer_moves.
  - intros (s & _ & E)%rbind_ok. revert E. case_decide; rewrite ?Hgoto; intros [= <-]; writer_moves.
  - intros (((d & l) & next) & E & [= <-])%rbind_ok. rewrite Hgoto.
    pose proof (lookup_lt_Some _ _ _ Hi) as Hlt.
    eapply exclusive_switch; [exact Hex| |exact E|try done..]; cbn.
    + by rewrite Hi.
    + intros [j|]; [|done]. cbn. destruct (decide (j = i)) as [->|].
      * rewrite list_lookup_insert_eq, Hi by done. by destruct next.
      * by rewrite list_lookup_insert_ne.
    + rewrite list_lookup_insert_eq by done. by destruct next.
    + intros [j|] Hj; [|done]. cbn. rewrite list_lookup_insert_ne; [done|]. congruence.
  - rewrite ?Hgoto; intros [= <-]; writer_moves.
  - intros (s & _ & E)%rbind_ok. revert E. case_decide; rewrite ?Hgoto; intros [= <-]; writer_moves.
  - intros ((d & next) & Hd%ring_step_rearranged & E)%rbind_ok. revert E.
    destruct next as [?|[?|]]; rewrite ?Hgoto; intros [= <-]; writer_moves.
  - rewrite ?Hgoto; intros [= <-]; writer_moves.
  - intros [= <-]. exists sw.
    by apply (exclusive_writeLock i _ WIdle (rs ++ [err]) (db sys) None sys sw Hex Hi).
Qed.

(** Another goroutine rearranges the readers' rings. *)
Lemma exclusive_db (d : DoubleBuffer H S) (r : list (DataChunk free_action + error))
    (sys : system H S) (sw : option (agent * switch_pc)) :
  exclusive sys sw → rearranged (db sys) d →
  exclusive (mkSystem d (writeLock sys) (switchLock sys) (writers sys) (monitor sys) r) sw.
Proof. intros Hex Hr. by eapply exclusive_ext. Qed.

Lemma monitor_step_exclusive (o : oracle) (sys sys' : system H S)
    (sw : option (agent * switch_pc)) :
  exclusive sys sw → monitor_step o sys = Ok sys' →
  ∃ sw' : option (agent * switch_pc), exclusive sys' sw'.
Proof.
  intros Hex. unfold monitor_step. destruct (monitor sys) as [|pc] eqn:Em.
  - destruct (swapper (db sys)); [|intros [= <-]; by exists sw].
    unfold needSwitch. destruct (poll _ _) as [cond conf].
    intros [= <-]. exists sw. eapply exclusive_ext; [exact Hex|by constructor|done..|].
    intros [j|] pc Hne; [done|]. cbn. rewrite Em. split; [|done].
    destruct (SwitchStrategy.needSwitch _ _ _ _ _); [|done]. by intros [= <-].
  - intros (((d & l) & next) & E & [= <-])%rbind_ok.
    eapply (exclusive_switch o AMonitor pc); [exact Hex|cbn; by rewrite Em|exact E|try done..].
    + cbn. by destruct next.
    + by intros [j|] Hj.
Qed.

Lemma step_exclusive (ev : event) (sys sys' : system H S) (sw : option (agent * switch_pc)) :
  exclusive sys sw → step range ev sys = Ok sys' →
  ∃ sw' : option (agent * switch_pc), exclusive sys' sw'.
Proof.
  intros Hex. destruct ev as [i p|o i|o|i|o sleeps|f]; cbn [step].
  - destruct (writers sys !! i) as [w|] eqn:Hi; [|intros [= <-]; by exists sw].
    destruct w as [pc rs]. cbn [wpc].
    destruct pc; intros [= <-]; try by exists sw. unfold goto.
    rewrite (list_alter_lookup _ _ _ _ Hi). cbn [returned]. writer_moves.
  - destruct (writers sys !! i) as [w|] eqn:Hi; [|intros [= <-]; by exists sw].
    by eapply writer_step_exclusive.
  - by eapply monitor_step_exclusive.
  - intros (d & E%run_goroutine_rearranged & [= <-])%rbind_ok. exists sw. by apply exclusive_db.
  - intros ((d & r) & E%tryRead_rearranged & [= <-])%rbind_ok; [|apply Hex].
    exists sw. by apply exclusive_db.
  - intros [= <-]. exists sw. apply exclusive_db; [done|]. apply run_free_rearranged.
Qed.

Lemma run_exclusive (evs : list event) (sys sys' : system H S) (sw : option (agent * switch_pc)) :
  exclusive sys sw → run range evs sys = Ok sys' →
  ∃ sw' : option (agent * switch_pc), exclusive sys' sw'.
Proof.
  revert sys sw. induction evs as [|ev evs IH]; intros sys sw Hex; cbn; [intros [= <-]; by exists sw|].
  intros (s1 & E1 & E)%rbind_ok. destruct (step_exclusive _ _ _ _ Hex E1) as [sw1 Hex1].
  by eapply IH.
Qed.
End safety.

Lemma start_exclusive {H S : Type} `{PendingQueueLaws H, !SwitchStrategy S} (n : nat)
    (d : DoubleBuffer H S) (bs : list nat) (f : nat → list BufferItem) :
  flow d bs f → exclusive WritingState (stop_closed d) (start n d) None.
Proof.
  intros [Hst Hp].
  assert (∀ i, pc_of (start n d) (AWriter i) = None) as Hpc.
  { intros i. cbn. destruct (replicate n (mkWriter WIdle []) !! i) as [w|] eqn:Hi; [|done].
    apply lookup_replicate in Hi as [-> _]. done. }
  assert (∀ i, slow_of (start n d) (AWriter i) = false) as Hslow.
  { intros i. cbn. destruct (replicate n (mkWriter WIdle []) !! i) as [w|] eqn:Hi; [|done].
    apply lookup_replicate in Hi as [-> _]. done. }
  assert (writer_rings d None ++ reader_rings d ≡ₚ
    owned (active d) (passive d) (currentBuffer d) (pool d) bs (goroutines d)) as E.
  { unfold reader_rings, owned. cbn [writer_rings app].
    assert (bs ≡ₚ (pq_contents (pendingHeap d)).*2 ++ (pushes (goroutines d)).*2) as ->; [|solve_Permutation].
    rewrite <- fmap_app, (fl_numbered Hp). rewrite snd_zip; [done|]. rewrite length_seqZ. lia. }
  constructor.
  - exact Hst.
  - by left.
  - done.
  - intros [i|] pc; [rewrite Hpc|]; by split; [intros [? _]|].
  - intros [i|]; (split; [done|]); intros (pc & Hc & _); [by rewrite Hpc in Hc|done].
  - intros [i|]; [rewrite Hslow|]; done.
  - apply (fl_heap Hp).
  - intros _. constructor.
    + cbn [fmap option_map snd]. rewrite E. apply (fl_nodup Hp).
    + intros b. change (snd <$> None) with (@None switch_pc). rewrite E. intros Hb.
      destruct (fl_stored Hp b Hb) as (s & T & Hs & _). by apply elem_of_dom_2 in Hs.
    + intros b Hb. apply (fl_next Hp). by apply elem_of_dom.
    + apply (fl_heap Hp).
    + done.
Qed.

(** C8. Whatever the interleaving of any number of writers, the monitor, the
    goroutines of the switches and a reader, access by access: at most one
    goroutine at a time is between the start and the end of a switch, and the
    state says so exactly then; a lock is held by the goroutine that is
    between its locking and its unlocking and by no other; and every ring has
    one owner: the two fields, a switch in progress, the reader, the pool, the
    heap or a goroutine, so that the reader never drains a ring the fields of
    the writers refer to. *)
Theorem switches_are_exclusive {H S : Type} `{PendingQueueLaws H, !SwitchStrategy S}
    (range : gmap Z nat → list (Z * nat)) (cap : Z) (cond : SwitchCondition) (opts : list Z)
    (strategy : S) (now : Z) (m : memory) (d : DoubleBuffer H S) (mode : option Z) (n : nat)
    (evs : list event) (sys : system H S)
    (Hcap : 0 < cap < 2 ^ 31) (Hnew : NewDoubleBuffer cap cond opts strategy now m = Ok (inl d))
    (Hrun : run range evs (start n (set_readMode mode d)) = Ok sys) :
  ∃ sw : option (agent * switch_pc), exclusive WritingState (stop_closed d) sys sw.
Proof.
  destruct (NewDoubleBuffer_flow cap cond opts strategy now m d Hcap Hnew) as (Hf & _).
  eapply run_exclusive; [|exact Hrun]. by apply (start_exclusive n (set_readMode mode d) [] (λ _, [])).
Qed.

(** ** A concrete run *)

(** A new double buffer with rings of four items. *)
Definition wide_new : result (DoubleBuffer WrapHeap DefaultStrategy + error) :=
  NewDoubleBuffer 4 (mkCondition (mkConfig 4 80 second 1000) true 1) [] NewDefaultStrategy 0 demo_mem.

Definition wide : DoubleBuffer WrapHeap DefaultStrategy :=
  get_ok demo (rmap (λ r, match r with inl d => d | inr _ => demo end) wide_new).

(** The time, in seconds. *)
Definition at_time (t : Z) : oracle := mkOracle (Some 0%nat) (Some 0%nat) 0 (t * second) 0.

Definition wide_start : system WrapHeap DefaultStrategy :=
  start 1 (set_readMode (Some SafeRead) wide).

(** The monitor finds the buffer old and gets as far as marking the active
    ring read-only; a writer makes a whole call; the monitor finishes. *)
Definition meets_switch : list event :=
  replicate 4 (EvMonitor (at_time 2)) ++ EvCall 0 demo_p :: replicate 12 (EvWriter (at_time 2) 0).

Definition meets_switch_end : system WrapHeap DefaultStrategy :=
  get_ok wide_start (run map_to_list meets_switch wide_start).

Lemma wide_ok : wide_new = Ok (inl wide).
Proof. vm_compute. reflexivity. Qed.

Lemma meets_switch_run : run map_to_list meets_switch wide_start = Ok meets_switch_end.
Proof. apply get_ok_ok. vm_compute. exact I. Qed.

Lemma switches_are_exclusive_witness :
  ∃ sw : option (agent * switch_pc), exclusive WritingState false meets_switch_end sw.
Proof.
  apply (switches_are_exclusive map_to_list 4 (mkCondition (mkConfig 4 80 second 1000) true 1) []
    NewDefaultStrategy 0 demo_mem wide (Some SafeRead) 1 meets_switch meets_switch_end).
  - lia.
  - exact wide_ok.
  - exact meets_switch_run.
Defined.

(** ** Waiting for a lock *)

(** Whether the next access of [a] is the locking of a mutex that is taken. *)
Definition waits {H S : Type} (sys : system H S) (a : agent) : bool :=
  match a with
  | AMonitor =>
      match monitor sys with MSwitch SwLock => bool_decide (switchLock sys ≠ None) | _ => false end
  | AWriter i =>
      match wpc <$> writers sys !! i with
      | Some (WLock _) => bool_decide (writeLock sys ≠ None)
      | Some (WSwitch _ SwLock) => bool_decide (switchLock sys ≠ None)
      | _ => false
      end
  end.

(** C17. No deadlock: whenever a writer or the monitor waits for one of the two
    mutexes, a goroutine that holds one of them is not waiting itself. *)
Theorem no_deadlock {H S : Type} `{PendingQueueLaws H, !SwitchStrategy S}
    (range : gmap Z nat → list (Z * nat)) (cap : Z) (cond : SwitchCondition) (opts : list Z)
    (strategy : S) (now : Z) (m : memory) (d : DoubleBuffer H S) (mode : option Z) (n : nat)
    (evs : list event) (sys : system H S) (a : agent)
    (Hcap : 0 < cap < 2 ^ 31) (Hnew : NewDoubleBuffer cap cond opts strategy now m = Ok (inl d))
    (Hrun : run range evs (start n (set_readMode mode d)) = Ok sys) (Ha : waits sys a = true) :
  ∃ b : agent, (writeLock sys = Some b ∨ switchLock sys = Some b) ∧ waits sys b = false.
Proof.
  destruct (NewDoubleBuffer_flow cap cond opts strategy now m d Hcap Hnew) as (Hf & _).
  destruct (run_exclusive range _ _ evs _ sys None (start_exclusive n (set_readMode mode d) [] (λ _, []) Hf) Hrun)
    as (sw & [_ _ _ _ Hl Hw _ _]).
  assert (∀ b, switchLock sys = Some b → waits sys b = false) as Hswitch.
  { intros b (pc & Hpc & Hlk)%Hl. destruct b as [i|]; cbn in *.
    - destruct (writers sys !! i) as [[wp rs]|]; [|done]. cbn in *.
      destruct wp; try done. injection Hpc as ->. by destruct pc.
    - destruct (monitor sys) as [|pc']; [done|]. injection Hpc as ->. by destruct pc. }
  destruct (switchLock sys) as [b|] eqn:El; [exists b; split; [by right|by apply Hswitch]|].
  destruct (writeLock sys) as [b|] eqn:Ew.
  - exists b. split; [by left|]. pose proof (proj1 (Hw b) eq_refl) as Hb.
    destruct b as [i|]; cbn in *; rewrite ?El, ?Ew; [|done].
    destruct (writers sys !! i) as [[wp rs]|]; [|done]. cbn in *. by destruct wp as [| | | | | | | | | | |? []| | | | |].
  - exfalso. destruct a as [i|]; cbn in Ha; rewrite ?El, ?Ew in Ha.
    + by destruct (wpc <$> writers sys !! i) as [[| | | | | | | | | | |? []| | | | |]|].
    + by destruct (monitor sys) as [|[]].
Qed.

(** A writer waits for another one, which met a switch of the monitor. *)
Definition queues_up : list event :=
  replicate 4 (EvMonitor (at_time 2)) ++ [EvCall 0 demo_p; EvCall 1 demo_q] ++
  replicate 4 (EvWriter (at_time 2) 0) ++ replicate 4 (EvWriter (at_time 2) 1).

Definition queues_up_end : system WrapHeap DefaultStrategy :=
  get_ok wide_start (run map_to_list queues_up (start 2 (set_readMode (Some SafeRead) wide))).

Lemma no_deadlock_witness :
  ∃ b : agent, (writeLock queues_up_end = Some b ∨ switchLock queues_up_end = Some b) ∧
    waits queues_up_end b = false.
Proof.
  apply (no_deadlock map_to_list 4 (mkCondition (mkConfig 4 80 second 1000) true 1) []
    NewDefaultStrategy 0 demo_mem wide (Some SafeRead) 2 queues_up queues_up_end (AWriter 1)).
  - lia.
  - exact wide_ok.
  - apply get_ok_ok. vm_compute. exact I.
  - vm_compute. reflexivity.
Defined.

(** ** Two runs *)

(** C24. A writer can be refused while there is room: between the marking of
    the active ring and the exchange of the fields, a whole call runs into its
    slow path, finds a switch under way, which it cannot join, and returns the
    error of a full buffer, although the active ring of four items is empty. *)
Theorem switch_refuses_writer :
  run map_to_list meets_switch wide_start = Ok meets_switch_end ∧
  returned <$> writers meets_switch_end = [[Some errReadOnly]] ∧
  wpc <$> writers meets_switch_end = [WIdle] ∧
  ∃ s : SmartBuffer,
    get_buf (active (db meets_switch_end)) (db meets_switch_end) = Ok s ∧
    SmartBuffer.count s = 0 ∧ capacity s = 4.
Proof.
  split; [exact meets_switch_run|]. split; [vm_compute; reflexivity|].
  split; [vm_compute; reflexivity|].
  exists (mkSB (replicate 4 zeroItem) (-1) (-1) 0 4 ReadOnly false).
  split_and!; vm_compute; reflexivity.
Qed.

(** A switch by the monitor and the goroutines it starts. *)
Definition hand_over (o : oracle) : list event :=
  replicate 13 (EvMonitor o) ++ replicate 4 (EvGo 0).

Definition read_twice : list event := replicate 2 (EvRead (at_time 0) []).

(** The writer loads the reference to the active ring and stops; the ring is
    handed over, found empty and pooled by the reader; the writer ends its
    call and makes another one; the rings are handed over again. *)
Definition stale_writer (o : oracle) : list event :=
  EvCall 0 demo_p :: replicate 4 (EvWriter (at_time 0) 0) ++
  hand_over (at_time 2) ++ read_twice ++
  replicate 10 (EvWriter (at_time 2) 0) ++
  EvCall 0 demo_q :: replicate 14 (EvWriter (at_time 2) 0) ++
  hand_over o ++ read_twice.

(** The bytes the reader got. *)
Definition read_bytes (sys : system WrapHeap DefaultStrategy) : list (option (list byte)) :=
  omap (λ r, match r with
             | inl c => Some (slice_bytes (mem (objs (db sys))) (Bytes c))
             | inr _ => None
             end) (reads sys).

(** The pool is found empty at the last switch, as after a garbage
    collection. *)
Definition stale_end : system WrapHeap DefaultStrategy :=
  get_ok wide_start (run map_to_list (stale_writer (mkOracle (Some 0%nat) None 0 (4 * second) 0)) wide_start).

(** The pooled ring is used again, and handed over two switches later. *)
Definition reused_end : system WrapHeap DefaultStrategy :=
  get_ok wide_start (run map_to_list (stale_writer (at_time 4) ++
    hand_over (at_time 6) ++ read_twice ++ hand_over (at_time 8) ++ read_twice) wide_start).

(** C22. A single writer can lose an item or see its items overtaken, because it
    keeps the reference to a ring it has loaded: both writes return without
    an error, the first into a ring that was handed over, emptied and pooled
    meanwhile.  When the pool drops its rings, the first item is in a pooled
    ring that no one reads; when the ring is used again, the second item is
    delivered before the first. *)
Theorem stale_reference_loses_item :
  (run map_to_list (stale_writer (mkOracle (Some 0%nat) None 0 (4 * second) 0)) wide_start = Ok stale_end ∧
   returned <$> writers stale_end = [[None; None]] ∧
   read_bytes stale_end = [Some [xaa; xbb; xcc]] ∧
   2%nat ∈ pool (db stale_end) ∧
   ∃ s : SmartBuffer, get_buf 2 (db stale_end) = Ok s ∧ SmartBuffer.count s = 1) ∧
  (run map_to_list (stale_writer (at_time 4) ++
     hand_over (at_time 6) ++ read_twice ++ hand_over (at_time 8) ++ read_twice) wide_start = Ok reused_end ∧
   returned <$> writers reused_end = [[None; None]] ∧
   read_bytes reused_end = [Some [xaa; xbb; xcc]; Some [x11; x22]]).
Proof.
  split; (split; [apply get_ok_ok; vm_compute; exact I|]);
    (split; [vm_compute; reflexivity|]); [|vm_compute; reflexivity].
  split; [vm_compute; reflexivity|].
  split; [apply list_elem_of_lookup; exists 1%nat; vm_compute; reflexivity|].
  exists (mkSB [zeroItem; zeroItem; zeroItem; mkItem 22 2] 0 (-1) 1 4 WriteOnly false).
  split; vm_compute; reflexivity.
Qed.
