(* ===== verification/DoubleBufferView.v ===== *)
(** * The double buffer between the accesses

    A state of [DoubleBufferConc] in which a [Push] and a switch are half done,
    seen as a state of [DoubleBuffer] in which neither is: the push has not
    begun, and the switch has happened exactly when the fields have been
    exchanged.  The goroutines of the switches and the reader cannot tell the
    two apart: what they do commutes with the view. *)
From S2P Require Import Prelude.
From S2P Require Import Consts.
From S2P Require Import Interfaces.
From S2P Require Import Runtime.
From S2P Require Import SmartBuffer.
From S2P Require Import SwitchStrategy.
From S2P Require Import SwitchConfig.
From S2P Require Import Waiters.
From S2P Require Import LifeCycle.
From S2P Require Import DataChunk.
From S2P Require Import DoubleBuffer.
From S2P Require Import DoubleBufferFlow.
From S2P Require Import DoubleBufferConc.
From S2P Require Import DoubleBufferSafety.
Open Scope Z_scope.
Open Scope go_scope.

Section view.
  Context {H S : Type} `{!PendingQueue H, !SwitchStrategy S}.

(** ** The view *)

(** What the fields will be when the switch at [pc] has ended. *)
Definition view_passive (pc : option switch_pc) (d : DoubleBuffer H S) : nat :=
  match pc with Some (SwPassive _ newBuf) => newBuf | _ => passive d end.

(** Before the exchange a new ring counts as pooled. *)
Definition view_pool (pc : option switch_pc) (d : DoubleBuffer H S) : list nat :=
  pool d ++ match pc with Some (SwOld newBuf) | Some (SwActive _ newBuf) => [newBuf] | _ => [] end.

(** After it the goroutine counts as started. *)
Definition view_goroutines (pc : option switch_pc) (d : DoubleBuffer H S) : list goroutine :=
  goroutines d ++
  match pc with
  | Some (SwPassive old _) | Some (SwCount old) | Some (SwLast old) | Some (SwGo old) => [GNumber old]
  | _ => []
  end.

(** [s0] is the active ring without the push that is under way. *)
Definition view (s0 : SmartBuffer) (pc : option switch_pc) (d : DoubleBuffer H S) : DoubleBuffer H S :=
  mkDB (active d) (view_passive pc d) (currentBuffer d) (stop_closed d) (size d) (count d)
    WritingState (lastSwitch d) (view_pool pc d) (sequence d) (currentSequence d) (pendingHeap d)
    (enableMetrics d) (scd d) (sc d) (sw d) (readMode d) (wm d) (pm d)
    (mkObjects (mem (objs d)) (<[active d := s0]> (bufs (objs d))) (next (objs d)))
    (view_goroutines pc d) (swapper d) (recycler d).

(** ** Calls that commute with a view *)

Definition vmap {A : Type} (V : DoubleBuffer H S → DoubleBuffer H S)
    (r : result (DoubleBuffer H S * A)) : result (DoubleBuffer H S * A) :=
  rmap (λ x, (V x.1, x.2)) r.

Lemma vmap_bind {A B : Type} (V : DoubleBuffer H S → DoubleBuffer H S)
    (r r' : result (DoubleBuffer H S * A)) (k k' : DoubleBuffer H S * A → result (DoubleBuffer H S * B)) :
  r' = vmap V r → (∀ (d : DoubleBuffer H S) (a : A), r = Ok (d, a) → k' (V d, a) = vmap V (k (d, a))) →
  rbind r' k' = vmap V (rbind r k).
Proof. intros -> Hk. destruct r as [[d a]| |]; cbn; [by apply Hk|done..]. Qed.

Lemma rmap_bind {B : Type} (V : DoubleBuffer H S → DoubleBuffer H S) (r r' : result (DoubleBuffer H S))
    (k k' : DoubleBuffer H S → result (DoubleBuffer H S * B)) :
  r' = rmap V r → (∀ d : DoubleBuffer H S, r = Ok d → k' (V d) = vmap V (k d)) →
  rbind r' k' = vmap V (rbind r k).
Proof. intros -> Hk. destruct r as [d| |]; cbn; [by apply Hk|done..]. Qed.

(** The part of the environment that is the same on both sides. *)
Lemma same_bind {A B : Type} (V : DoubleBuffer H S → DoubleBuffer H S) (r : result A)
    (k k' : A → result (DoubleBuffer H S * B)) :
  (∀ a : A, r = Ok a → k' a = vmap V (k a)) → rbind r k' = vmap V (rbind r k).
Proof. intros Hk. destruct r as [a| |]; cbn; [by apply Hk|done..]. Qed.

Section commute.
  Context (range : gmap Z nat → list (Z * nat)) (s0 : SmartBuffer) (pc : option switch_pc).
  Notation V := (view s0 pc).

(** The active ring holds as many items on both sides. *)
Definition same_len (d : DoubleBuffer H S) : Prop :=
  ∃ s : SmartBuffer, bufs (objs d) !! active d = Some s ∧ SmartBuffer.count s = SmartBuffer.count s0.

Lemma get_buf_view (b : nat) (d : DoubleBuffer H S) : b ≠ active d → get_buf b (V d) = get_buf b d.
Proof. intros Hb. unfold get_buf. cbn. by rewrite lookup_insert_ne. Qed.

Lemma len_view (b : nat) (d : DoubleBuffer H S) :
  same_len d → rmap SmartBuffer.Len (get_buf b (V d)) = rmap SmartBuffer.Len (get_buf b d).
Proof.
  intros (s & Es & Hs). destruct (decide (b = active d)) as [->|Hb]; [|by rewrite get_buf_view].
  unfold get_buf, SmartBuffer.Len. cbn. rewrite lookup_insert_eq, Es. cbn. by rewrite Hs.
Qed.

Lemma set_buf_view (b : nat) (s : SmartBuffer) (d : DoubleBuffer H S) :
  b ≠ active d → DoubleBuffer.set_buf b s (V d) = V (DoubleBuffer.set_buf b s d).
Proof. intros Hb. unfold DoubleBuffer.set_buf, view. cbn. by rewrite insert_insert_ne by done. Qed.

Lemma delete_app_l {A : Type} (l1 l2 : list A) (i : nat) :
  (i < length l1)%nat → delete i (l1 ++ l2) = delete i l1 ++ l2.
Proof.
  intros Hi. rewrite !delete_take_drop, take_app_le, drop_app_le by lia. by rewrite app_assoc.
Qed.

(** The view of goroutine [i] taking a step. *)
Lemma run_goroutine_view (i : nat) (d : DoubleBuffer H S) :
  (i < length (goroutines d))%nat → same_len d →
  run_goroutine range i (V d) = rmap V (run_goroutine range i d).
Proof.
  intros Hi Hl. unfold run_goroutine.
  change (goroutines (V d)) with (view_goroutines pc d). unfold view_goroutines at 1.
  rewrite lookup_app_l by done.
  destruct (lookup_lt_is_Some_2 _ _ Hi) as [g ->]. destruct g as [b|s b|b|n].
  - cbn. unfold view_goroutines. rewrite insert_app_l by done. done.
  - cbn. destruct (pq_push (s, b) (pendingHeap d)); cbn; [|done..].
    unfold view_goroutines. rewrite insert_app_l by done. done.
  - pose proof (len_view b d Hl) as E. destruct (get_buf b (V d)), (get_buf b d); try done; cbn in E |- *.
    + injection E as ->. unfold view_goroutines. rewrite insert_app_l by done. done.
    + by injection E as ->.
  - cbn. destruct (Waiters.notify range n (wm d)); cbn; [|done..].
    unfold view_goroutines. rewrite delete_app_l by done. done.
Qed.

Lemma run_goroutine_rings (i : nat) (d d' : DoubleBuffer H S) :
  run_goroutine range i d = Ok d' → objs d' = objs d ∧ active d' = active d.
Proof.
  unfold run_goroutine. destruct (goroutines d !! i) as [[b|s b|b|n]|];
    [by intros [= <-]| | | |by intros [= <-]]; by intros (? & _ & [= <-])%rbind_ok.
Qed.

Lemma same_len_eq (d d' : DoubleBuffer H S) :
  objs d' = objs d → active d' = active d → same_len d → same_len d'.
Proof. unfold same_len. by intros -> ->. Qed.

Lemma in_order_view (i : nat) (d : DoubleBuffer H S) :
  (i < length (goroutines d))%nat → in_order i (V d) ↔ in_order i d.
Proof.
  intros Hi. unfold in_order. cbn. unfold view_goroutines. rewrite lookup_app_l by done.
  by rewrite take_app_le by lia.
Qed.

(** A schedule on the other side: the steps of goroutines that do not exist
    are left out. *)
Lemma run_schedule_view (sched : list nat) (d : DoubleBuffer H S) :
  same_len d →
  ∃ sched' : list nat, run_schedule range sched' (V d) = rmap V (run_schedule range sched d) ∧
    (calm range sched d → calm range sched' (V d)).
Proof.
  revert d. induction sched as [|i sched IH]; intros d Hl; [by exists []|].
  destruct (decide (i < length (goroutines d))%nat) as [Hi|Hi].
  - pose proof (run_goroutine_view i d Hi Hl) as E.
    destruct (run_goroutine range i d) as [d1| |] eqn:E1; cbn in E.
    + destruct (run_goroutine_rings _ _ _ E1) as [Eo Ea].
      destruct (IH d1 (same_len_eq _ _ Eo Ea Hl)) as (sched' & E2 & Hc).
      exists (i :: sched'). cbn. rewrite E, E1. split; [exact E2|].
      intros [Hio Hcalm]. split; [by apply in_order_view|by apply Hc].
    + exists [i]. cbn. rewrite E, E1. split; [done|]. intros [Hio _]. split; [by apply in_order_view|done].
    + exists [i]. cbn. rewrite E, E1. split; [done|]. intros [Hio _]. split; [by apply in_order_view|done].
  - assert (run_goroutine range i d = Ok d) as E
      by (unfold run_goroutine; by rewrite lookup_ge_None_2 by lia).
    destruct (IH d Hl) as (sched' & E2 & Hc). exists sched'. cbn. rewrite E. split; [exact E2|].
    intros [_ Hcalm]. by apply Hc.
Qed.

Lemma run_schedule_rings (sched : list nat) (d d' : DoubleBuffer H S) :
  run_schedule range sched d = Ok d' → objs d' = objs d ∧ active d' = active d.
Proof.
  revert d. induction sched as [|i sched IH]; intros d; cbn; [by intros [= <-]|].
  intros (d1 & [<- <-]%run_goroutine_rings & E)%rbind_ok. by apply IH.
Qed.

Lemma pick_loop_view (n : nat) (sleeps : list (list nat)) (d : DoubleBuffer H S) :
  same_len d →
  ∃ sleeps' : list (list nat), pick_loop range n sleeps' (V d) = vmap V (pick_loop range n sleeps d) ∧
    (calm_pick range n sleeps d → calm_pick range n sleeps' (V d)).
Proof.
  revert sleeps d. induction n as [|n IH]; intros sleeps d Hl; [by exists []|].
  cbn [pick_loop calm_pick]. change (pendingHeap (V d)) with (pendingHeap d).
  destruct (pq_pick (pendingHeap d)) as [[h [[s b]|]]|p|]; cbn [rbind]; try by exists [].
  change (currentSequence (set_pendingHeap h (V d))) with (currentSequence d).
  change (currentSequence (V d)) with (currentSequence d).
  change (currentSequence (set_pendingHeap h d)) with (currentSequence d).
  change (pendingHeap (set_pendingHeap h (V d))) with h.
  change (pendingHeap (set_pendingHeap h d)) with h.
  case_decide as Hs; [by exists []|].
  destruct (pq_push (s, b) h) as [h'|p|]; cbn [rbind]; [|by exists []..].
  change (set_pendingHeap h' (set_pendingHeap h (V d))) with (V (set_pendingHeap h' d)).
  change (set_pendingHeap h' (set_pendingHeap h d)) with (set_pendingHeap h' d).
  change (set_pendingHeap h' (V d)) with (V (set_pendingHeap h' d)).
  destruct (run_schedule_view (hd [] sleeps) (set_pendingHeap h' d)) as (sched & E & Hc); [done|].
  destruct (run_schedule range (hd [] sleeps) (set_pendingHeap h' d)) as [d1| |] eqn:E1; cbn in E.
  - destruct (run_schedule_rings _ _ _ E1) as [Eo Ea].
    destruct (IH (tl sleeps) d1) as (sleeps' & E2 & Hc2); [by eapply same_len_eq; [..|exact Hl]|].
    exists (sched :: sleeps'). cbn [hd tl]. rewrite E. cbn [rbind]. split; [exact E2|].
    intros [H1 H2]. split; [by apply Hc|by apply Hc2].
  - exists [sched]. cbn [hd tl]. rewrite E. cbn. split; [done|]. intros [H1 H2]. split; [by apply Hc|done].
  - exists [sched]. cbn [hd tl]. rewrite E. cbn. split; [done|]. intros [H1 H2]. split; [by apply Hc|done].
Qed.

(** ** Reading *)

(** The reader is not at the active ring. *)
Definition apart (d : DoubleBuffer H S) : Prop := currentBuffer d ≠ Some (active d).

Lemma small_copy_view (o : oracle) (n : Z) (src : slice) (d : DoubleBuffer H S) :
  small_copy o n src (V d) = vmap V (small_copy o n src d).
Proof.
  unfold small_copy. cbn [pm objs mem view].
  apply same_bind. intros [[l m] buf] _. apply same_bind. intros [m' buf'] _.
  apply same_bind. intros buf2 _. apply same_bind. intros m2 _. done.
Qed.

Lemma pop_current_view (d : DoubleBuffer H S) :
  apart d → pop_current (V d) = vmap V (pop_current d).
Proof.
  unfold pop_current, apart. change (currentBuffer (V d)) with (currentBuffer d).
  destruct (currentBuffer d) as [b|]; [|done]. intros Hb.
  assert (b ≠ active d) as Hne by congruence. rewrite get_buf_view by done.
  apply same_bind. intros s _. apply same_bind. intros [s' x] _.
  rewrite set_buf_view by done. done.
Qed.

Lemma safeRead_view (o : oracle) (d : DoubleBuffer H S) :
  apart d → safeRead o (V d) = vmap V (safeRead o d).
Proof.
  intros Ha. unfold safeRead, safe_chunk. apply vmap_bind; [by apply pop_current_view|]. intros d1 [ptr n] _.
  case_decide; [done|]. apply same_bind. intros res _. case_decide.
  { apply vmap_bind; [apply small_copy_view|]. by intros d2 buf _. }
  case_decide; [done|]. change (pm (V d1)) with (pm d1). destruct (MediumPool.IsValid _ _ _); [done|].
  change (mem (objs (V d1))) with (mem (objs d1)).
  apply same_bind. intros [m buf] _. by apply same_bind.
Qed.

Lemma zeroCopyRead_view (d : DoubleBuffer H S) :
  apart d → zeroCopyRead (V d) = vmap V (zeroCopyRead d).
Proof.
  intros Ha. unfold zeroCopyRead, zero_copy_chunk. apply vmap_bind; [by apply pop_current_view|]. intros d1 [ptr n] _.
  case_decide; [done|]. apply same_bind. intros res _. by case_decide.
Qed.

Lemma read_current_view (o : oracle) (d : DoubleBuffer H S) :
  apart d → read_current o (V d) = vmap V (read_current o d).
Proof.
  intros Ha. unfold read_current. change (readMode (V d)) with (readMode d).
  destruct (readMode d); [|done]. case_decide.
  { apply vmap_bind; [by apply safeRead_view|]. done. }
  case_decide; [|done]. apply vmap_bind; [by apply zeroCopyRead_view|]. done.
Qed.

Lemma discard_current_view (d : DoubleBuffer H S) :
  apart d → discard_current (V d) = rmap V (discard_current d).
Proof.
  unfold discard_current, apart. change (currentBuffer (V d)) with (currentBuffer d).
  destruct (currentBuffer d) as [b|]; [|done]. intros Hb.
  assert (b ≠ active d) as Hne by congruence. rewrite get_buf_view by done.
  destruct (get_buf b d); cbn -[DoubleBuffer.set_buf]; [|done..].
  rewrite set_buf_view by done. done.
Qed.

Lemma current_empty_view (d : DoubleBuffer H S) :
  apart d → current_empty (V d) = current_empty d.
Proof.
  unfold current_empty, apart. change (currentBuffer (V d)) with (currentBuffer d).
  destruct (currentBuffer d) as [b|]; [|done]. intros Hb. by rewrite get_buf_view by congruence.
Qed.

(** The active ring is not touched. *)
Definition untouched (d d' : DoubleBuffer H S) : Prop :=
  active d' = active d ∧ bufs (objs d') !! active d = bufs (objs d) !! active d.

Lemma untouched_same (d d' : DoubleBuffer H S) : same_core d d' → untouched d d'.
Proof. intros (_ & _ & _ & _ & Ea & _ & _ & _ & _ & _ & _ & Eb & _). split; [done|by rewrite Eb]. Qed.

Lemma untouched_trans (d d1 d2 : DoubleBuffer H S) : untouched d d1 → untouched d1 d2 → untouched d d2.
Proof. intros [E1 E2] [E3 E4]. rewrite E1 in *. split; congruence. Qed.

Lemma pop_current_untouched (d d' : DoubleBuffer H S) (x : Z * Z) :
  apart d → pop_current d = Ok (d', x) → untouched d d'.
Proof.
  unfold pop_current, apart. destruct (currentBuffer d) as [b|]; [|done]. intros Hb.
  intros (s & _ & ((s' & y) & _ & E)%rbind_ok)%rbind_ok. injection E as <- _.
  split; [done|]. cbn. apply lookup_insert_ne. congruence.
Qed.

Lemma safeRead_untouched (o : oracle) (d d' : DoubleBuffer H S) (r : option (DataChunk free_action)) :
  apart d → safeRead o d = Ok (d', r) → untouched d d'.
Proof.
  intros Ha ((d1 & (ptr & n)) & E%pop_current_untouched & E1)%rbind_ok; [|done].
  eapply untouched_trans; [exact E|]. unfold safe_chunk in E1.
  case_decide; [by injection E1 as <- _|]. apply rbind_ok in E1 as (res & _ & E1). case_decide.
  { apply rbind_ok in E1 as ((d2 & buf) & E2%small_copy_same%untouched_same & E1). by injection E1 as <- _. }
  case_decide; [by injection E1 as <- _|]. destruct (MediumPool.IsValid _ _ _).
  { by injection E1 as <- _. }
  apply rbind_ok in E1 as ((m & l) & _ & E1). apply rbind_ok in E1 as (m2 & _ & E1).
  by injection E1 as <- _.
Qed.

Lemma zeroCopyRead_untouched (d d' : DoubleBuffer H S) (r : option (DataChunk free_action)) :
  apart d → zeroCopyRead d = Ok (d', r) → untouched d d'.
Proof.
  intros Ha ((d1 & (ptr & n)) & E%pop_current_untouched & E1)%rbind_ok; [|done].
  eapply untouched_trans; [exact E|]. unfold zero_copy_chunk in E1.
  case_decide; [by injection E1 as <- _|]. apply rbind_ok in E1 as (res & _ & E1).
  injection E1 as <- _. by case_decide.
Qed.

Lemma read_current_untouched (o : oracle) (d d' : DoubleBuffer H S)
    (r : DataChunk free_action + error) :
  apart d → read_current o d = Ok (d', r) → untouched d d'.
Proof.
  intros Ha. unfold read_current. destruct (readMode d); [|done]. case_decide; [|case_decide].
  - intros ((d1 & x) & E%safeRead_untouched & E1)%rbind_ok; [|done]. by injection E1 as <- _.
  - intros ((d1 & x) & E%zeroCopyRead_untouched & E1)%rbind_ok; [|done]. by injection E1 as <- _.
  - by intros [= <- _].
Qed.

Lemma pick_loop_rings (n : nat) (sleeps : list (list nat)) (d d' : DoubleBuffer H S) (x : bool) :
  pick_loop range n sleeps d = Ok (d', x) → objs d' = objs d ∧ active d' = active d.
Proof.
  revert sleeps d. induction n as [|n IH]; intros sleeps d; cbn [pick_loop]; [by intros [= <- _]|].
  intros ((h & [[s b]|]) & _ & E)%rbind_ok; [|by injection E as <- _].
  case_decide; [by injection E as <- _|].
  apply rbind_ok in E as (h' & _ & E). apply rbind_ok in E as (d1 & [Eo Ea]%run_schedule_rings & E).
  destruct (IH _ _ E) as [-> ->]. by rewrite Eo, Ea.
Qed.
End commute.
End view.

Section tryRead.
  Context {H S : Type} `{!PendingQueue H, !PendingQueueLaws H, !SwitchStrategy S}.
  Context (range : gmap Z nat → list (Z * nat)) (s0 : SmartBuffer) (pc : option switch_pc).
  Notation V := (view s0 pc).

Lemma apart_reader_rings (d : DoubleBuffer H S) : active d ∉ reader_rings d → apart d.
Proof.
  unfold reader_rings, apart. rewrite !elem_of_app. intros Hn E. apply Hn. left. rewrite E. by left.
Qed.

Lemma rearranged_apart (d d' : DoubleBuffer H S) :
  rearranged d d' → pq_wf (pendingHeap d) → active d ∉ reader_rings d → active d' ∉ reader_rings d'.
Proof. intros [Ea _ _ _ _ _ _ Er] Hwf. by rewrite Ea, Er. Qed.

Lemma discard_untouched (d d' : DoubleBuffer H S) :
  apart d → discard_current d = Ok d' → untouched d d'.
Proof.
  unfold discard_current, apart. destruct (currentBuffer d) as [b|]; [|by intros _ [= <-]]. intros Hb.
  intros (s & _ & [= <-])%rbind_ok. split; [done|]. cbn. apply lookup_insert_ne. congruence.
Qed.

Lemma pickBufferFromHeap_view (sleeps : list (list nat)) (d : DoubleBuffer H S) :
  same_len s0 d →
  ∃ sleeps' : list (list nat),
    pickBufferFromHeap range sleeps' (V d) = vmap V (pickBufferFromHeap range sleeps d) ∧
    (calm_pick range maxRetires sleeps d → calm_pick range maxRetires sleeps' (V d)).
Proof.
  intros Hl. destruct (pick_loop_view range s0 pc maxRetires sleeps d Hl) as (sleeps' & E & Hc).
  exists sleeps'. split; [|done]. unfold pickBufferFromHeap. apply vmap_bind; [exact E|].
  intros d1 [|] _; done.
Qed.

(** A read, seen through the view, is a read. *)
Lemma tryRead_view (o : oracle) (sleeps : list (list nat)) (d : DoubleBuffer H S) :
  pq_wf (pendingHeap d) → active d ∉ reader_rings d → same_len s0 d →
  ∃ sleeps' : list (list nat), tryRead range o sleeps' (V d) = vmap V (tryRead range o sleeps d) ∧
    ((∀ d1, discard_current d = Ok d1 → calm_pick range maxRetires sleeps d1) →
      ∀ d1, discard_current (V d) = Ok d1 → calm_pick range maxRetires sleeps' d1) ∧
    ∀ d' r, tryRead range o sleeps d = Ok (d', r) → untouched d d'.
Proof.
  intros Hwf Hn Hl. pose proof (apart_reader_rings _ Hn) as Ha. unfold tryRead.
  rewrite current_empty_view, discard_current_view by done.
  destruct (discard_current d) as [d1| |] eqn:E1; cbn [rmap rbind].
  - destruct (discard_current_rearranged _ _ E1) as [Hd1 Hc1].
    pose proof (discard_untouched _ _ Ha E1) as [Ea1 Eb1].
    destruct (pickBufferFromHeap_view sleeps d1) as (sleeps' & E & Hc).
    { destruct Hl as (s & ? & ?). exists s. by rewrite Ea1, Eb1. }
    exists sleeps'. split; [|split; [intros Hcalm d2 [= <-]; by apply Hc, Hcalm|]].
    + apply same_bind. intros [|] _; [|by apply read_current_view].
      apply vmap_bind; [exact E|]. intros d2 [|] E2; [|done]. apply read_current_view.
      unfold pickBufferFromHeap in E2. apply rbind_ok in E2 as ((d3 & found) & E3 & E2).
      assert (d2 = d3) as -> by (destruct found; by injection E2 as <- _).
      apply apart_reader_rings.
      eapply (rearranged_apart d); [|done|done]. etrans; [exact Hd1|].
      eapply pick_loop_rearranged; [by apply Hd1|done|exact E3].
    + intros d' r. intros ([|] & _ & E')%rbind_ok; [|by eapply read_current_untouched].
      apply rbind_ok in E' as ((d2 & picked) & E2 & E').
      apply rbind_ok in E2 as ((d3 & found) & E3 & E2).
      assert (d2 = d3) as -> by (destruct found; by injection E2 as <- _).
      destruct (pick_loop_rings _ _ _ _ _ _ E3) as [Eo Ea].
      assert (untouched d d3) as Hd3 by (unfold untouched; by rewrite Eo, Ea).
      destruct picked; [|by injection E' as <- _]. eapply untouched_trans; [exact Hd3|].
      eapply read_current_untouched; [|exact E']. apply apart_reader_rings.
      eapply (rearranged_apart d); [|done|done]. etrans; [exact Hd1|].
      eapply pick_loop_rearranged; [by apply Hd1|done|exact E3].
  - exists []. split; [|split; [done|]].
    + apply same_bind. intros [|] _; [done|by apply read_current_view].
    + intros d' r ([|] & _ & E')%rbind_ok; [done|by eapply read_current_untouched].
  - exists []. split; [|split; [done|]].
    + apply same_bind. intros [|] _; [done|by apply read_current_view].
    + intros d' r ([|] & _ & E')%rbind_ok; [done|by eapply read_current_untouched].
Qed.
End tryRead.

(** ** Switches *)

(** The part of a switch the view depends on. *)
Definition critical_pc (pc : option switch_pc) : option switch_pc :=
  pc ← pc; if critical pc then Some pc else None.

Lemma parts_pool_perm {H : Type} `{!PendingQueue H, !PendingQueueLaws H} (sz sq cs : Z) (a p : nat)
    (cur : option nat) (pl pl' : list nat) (h : H) (gs : list goroutine) (w : WaiterManager)
    (bm : gmap nat SmartBuffer) (nx : nat) (bs : list nat) (f : nat → list BufferItem) :
  pl ≡ₚ pl' → parts sz sq cs a p cur pl h gs w bm nx bs f → parts sz sq cs a p cur pl' h gs w bm nx bs f.
Proof.
  intros Hpl [Hsz Hnd Hst Hac Hid Hnx Hh Hn Hsq Hcs Hl Hw].
  assert (owned a p cur pl' bs gs ≡ₚ owned a p cur pl bs gs) as Ho by (unfold owned; by rewrite Hpl).
  constructor; try done.
  - by rewrite Ho.
  - intros b. rewrite Ho. apply Hst.
  - intros b. rewrite <- Hpl. apply Hid.
Qed.

Section switches.
  Context {H S : Type} `{!PendingQueue H, !PendingQueueLaws H, !SwitchStrategy S}.

(** What a step of a switch leaves alone. *)
Definition same_side (d d' : DoubleBuffer H S) : Prop :=
  pm d' = pm d ∧ mem (objs d') = mem (objs d) ∧ readMode d' = readMode d.

(** A step of a switch does nothing to the view but for three: the ring is
    marked, a new ring is pooled, the rings are exchanged.  The exchange needs
    a ring no push is under way on. *)
Definition switched (pc : switch_pc) (s0 s : SmartBuffer) (d : DoubleBuffer H S)
    (s0' s' : SmartBuffer) (d' : DoubleBuffer H S) : Prop :=
  match pc with
  | SwActive _ _ => s0' = s'
  | SwReadOnly => active d' = active d ∧ s0' = SetState ReadOnly s0 ∧ s' = SetState ReadOnly s
  | _ => active d' = active d ∧ s0' = s0 ∧ s' = s
  end.

Definition switch_view (pc : switch_pc) (next : option switch_pc) (bs : list nat)
    (f : nat → list BufferItem) (s0 s : SmartBuffer) (d d' : DoubleBuffer H S) : Prop :=
  ∃ (s0' s' : SmartBuffer) (f' : nat → list BufferItem),
    bufs (objs d') !! active d' = Some s' ∧
    flow (view s0' (critical_pc next) d') bs f' ∧
    queued (view s0' (critical_pc next) d') bs f' = queued (view s0 (Some pc) d) bs f ∧
    issued (view s0' (critical_pc next) d') ≤ issued (view s0 (Some pc) d) + 1 ∧
    same_side d d' ∧ switched pc s0 s d s0' s' d'.

(** The steps the view does not see. *)
Lemma switch_view_same (pc : switch_pc) (next : option switch_pc) (bs : list nat)
    (f : nat → list BufferItem) (s0 s : SmartBuffer) (d d' : DoubleBuffer H S) :
  bufs (objs d') !! active d' = Some s → flow (view s0 (Some pc) d) bs f →
  same_core (view s0 (Some pc) d) (view s0 (critical_pc next) d') → same_side d d' →
  switched pc s0 s d s0 s d' → switch_view pc next bs f s0 s d d'.
Proof.
  intros Hs Hf Hsame Hside Hsw. destruct (flow_same _ _ _ _ Hsame Hf) as [Hf' Hq].
  exists s0, s, f. split_and!; try done.
  destruct Hsame as (_ & _ & Esq & _ & _ & _ & _ & _ & _ & Egs & _). unfold issued.
  rewrite Esq, Egs. lia.
Qed.

(** The active ring as the view has it. *)
Lemma view_active (pc : option switch_pc) (s0 : SmartBuffer) (d : DoubleBuffer H S) (bs : list nat)
    (f : nat → list BufferItem) :
  flow (view s0 pc d) bs f →
  repr s0 (-1) (f (active d)) ∧ capacity s0 = size d ∧
  (SmartBuffer.state s0 = WriteOnly ∨ SmartBuffer.state s0 = ReadOnly).
Proof.
  intros [_ Hp]. destruct (fl_active Hp) as (s1 & (E & Hr & Hc & _) & Hst).
  cbn in E. rewrite lookup_insert_eq in E. by injection E as <-.
Qed.

(** The view with another active ring. *)
Lemma view_insert (pc : option switch_pc) (s0 s1 : SmartBuffer) (d : DoubleBuffer H S) (bs : list nat)
    (f g : nat → list BufferItem) (its : list BufferItem) :
  flow (view s0 pc d) bs f → (∀ c : nat, g c = if decide (c = active d) then its else f c) →
  repr s1 (-1) its → capacity s1 = size d → Z.of_nat (length its) ≤ size d →
  SmartBuffer.state s1 = WriteOnly ∨ SmartBuffer.state s1 = ReadOnly →
  flow (view s1 pc d) bs g.
Proof.
  intros [_ Hp] Hg Hr Hc Hlen Hst. split; [done|]. cbn in Hp |- *.
  eapply (parts_insert _ _ _ _ _ _ _ _ _ _ _ _ _ f g (active d) s1) in Hp;
    [|exact Hg|apply active_owned|by eapply NoDup_active, (fl_nodup Hp)|exact Hr|done|done|lia|done].
  by rewrite insert_insert_eq in Hp.
Qed.

Lemma view_mark (pc : option switch_pc) (s0 : SmartBuffer) (d : DoubleBuffer H S) (bs : list nat)
    (f : nat → list BufferItem) :
  flow (view s0 pc d) bs f → flow (view (SetState ReadOnly s0) pc d) bs f.
Proof.
  intros Hf. destruct (view_active _ _ _ _ _ Hf) as (Hr & Hc & _).
  eapply view_insert; [exact Hf|apply fn_same_cases|by apply SetState_repr|done| |by right].
  rewrite <- Hc. apply (repr_room _ _ _ Hr).
Qed.

(** What the active ring really holds does not matter. *)
Lemma view_set_buf (pc : option switch_pc) (s0 s : SmartBuffer) (d : DoubleBuffer H S) :
  view s0 pc (set_buf (active d) s d) = view s0 pc d.
Proof. unfold view, set_buf. cbn. by rewrite insert_insert_eq. Qed.

Lemma switch_ReadOnly (s0 s : SmartBuffer) (d : DoubleBuffer H S) (bs : list nat)
    (f : nat → list BufferItem) :
  flow (view s0 (Some SwReadOnly) d) bs f → bufs (objs d) !! active d = Some s →
  switch_view SwReadOnly (Some SwGet) bs f s0 s d (set_buf (active d) (SetState ReadOnly s) d).
Proof.
  intros Hf Hs. exists (SetState ReadOnly s0), (SetState ReadOnly s), f.
  cbn [objs bufs set_buf set_objs active]. split; [by rewrite lookup_insert_eq|].
  change (critical_pc (Some SwGet)) with (Some SwGet). rewrite view_set_buf.
  split; [by apply (view_mark (Some SwGet))|split_and!; try done; by apply Z.le_succ_diag_r].
Qed.

(** The new ring counts as pooled until the exchange. *)
Lemma switch_Get (choice : option nat) (s0 s : SmartBuffer) (d : DoubleBuffer H S) (bs : list nat)
    (f : nat → list BufferItem) :
  flow (view s0 (Some SwGet) d) bs f → bufs (objs d) !! active d = Some s →
  ∃ (d' : DoubleBuffer H S) (newBuf : nat), pool_Get choice d = Ok (d', newBuf) ∧
    switch_view SwGet (Some (SwOld newBuf)) bs f s0 s d d'.
Proof.
  intros [_ Hp] Hs. pose proof (fl_size Hp) as Hsz. cbn in Hp. unfold view_pool in Hp.
  rewrite app_nil_r in Hp.
  destruct (pool_Get_cases choice d Hsz) as [(b & rest & -> & Hpl)|(s1 & -> & Hr1 & Hc1 & Hs1)].
  - eexists _, b. split; [done|]. exists s0, s, f. split; [done|].
    split; [|split_and!; try done; by apply Z.le_succ_diag_r]. split; [done|].
    eapply parts_pool_perm; [|exact Hp]. cbn. rewrite Hpl. by rewrite Permutation_app_comm.
  - eexists _, (next (objs d)). split; [done|].
    pose proof (parts_add_idle _ _ _ _ _ _ _ _ _ _ _ _ _ _ s1 Hp Hr1 Hc1 Hs1) as Hp2.
    pose proof (parts_fresh _ _ _ _ _ _ _ _ _ _ _ _ _ _ Hp) as Hnew.
    unfold owned in Hnew. rewrite !elem_of_cons, !elem_of_app in Hnew.
    assert (active d ≠ next (objs d)) as Han by (intros e; apply Hnew; left; by rewrite e).
    exists s0, s, (<[next (objs d) := []]> f). cbn. split; [by rewrite lookup_insert_ne|].
    split; [split; [done|]|].
    + cbn. rewrite insert_insert_ne by done.
      eapply parts_pool_perm; [|exact Hp2]. cbn. by rewrite Permutation_app_comm.
    + split; [|split_and!; try done; by apply Z.le_succ_diag_r].
      unfold queued. cbn -[unnumbered]. rewrite !fmap_insert_ne by tauto.
      by rewrite fn_insert_cases, decide_False by done.
Qed.

(** The exchange: for the view the whole switch happens here. *)
Lemma switch_Active (old newBuf : nat) (s : SmartBuffer) (d : DoubleBuffer H S) (bs : list nat)
    (f : nat → list BufferItem) :
  old = active d → flow (view s (Some (SwActive old newBuf)) d) bs f →
  bufs (objs d) !! active d = Some s →
  switch_view (SwActive old newBuf) (Some (SwPassive old newBuf)) bs f s s d (set_active (passive d) d).
Proof.
  intros -> [_ Hp] Hs. cbn in Hp. rewrite insert_id in Hp by done.
  unfold view_pool, view_goroutines in Hp. rewrite app_nil_r in Hp.
  destruct (fl_idle Hp (passive d)) as (Ef & s2 & (E2 & _) & Hs2); [left|].
  exists s2, s2, f. cbn. split; [done|]. split; [split; [done|]|].
  - cbn. rewrite insert_id by done. unfold view_pool. cbn. rewrite app_nil_r.
    eapply parts_swap; [exact Hp|]. by rewrite Permutation_app_comm.
  - split; [|split; [|done]].
    + unfold queued. cbn -[unnumbered]. unfold view_goroutines.
      rewrite !unnumbered_app, !fmap_app, !concat_app. cbn. by rewrite Ef, !app_nil_r.
    + unfold issued. cbn -[unnumbered]. unfold view_goroutines. rewrite !unnumbered_app, !length_app.
      cbn. lia.
Qed.

(** A step of a switch that has begun does not panic. *)
Lemma switch_step_view (o : oracle) (a : agent) (pc : switch_pc) (l : option agent)
    (s0 s : SmartBuffer) (d : DoubleBuffer H S) (bs : list nat) (f : nat → list BufferItem) :
  critical pc = true → one_owner d (Some pc) → flow (view s0 (Some pc) d) bs f →
  bufs (objs d) !! active d = Some s →
  (match pc with SwActive _ _ => s0 = s | _ => True end) →
  ∃ (d' : DoubleBuffer H S) (l' : option agent) (next : option switch_pc),
    switch_step o a pc l d = Ok (d', l', next) ∧ switch_view pc next bs f s0 s d d'.
Proof.
  intros Hc Ho Hf Hs Hx. destruct pc as [| | | |nb|old nb|old nb|old|old|old| |]; try done; cbn [switch_step].
  - destruct l as [l|]; eexists _, _, _; (split; [done|]); by apply switch_view_same.
  - unfold get_buf. rewrite Hs. cbn [rbind]. eexists _, _, _. split; [done|]. by apply switch_ReadOnly.
  - destruct (switch_Get (buffer_choice o) s0 s d bs f Hf Hs) as (d' & nb & -> & Hv).
    cbn [rbind]. by eexists _, _, _.
  - eexists _, _, _. split; [done|]. by apply switch_view_same.
  - subst s0. eexists _, _, _. split; [done|]. apply switch_Active; [|done..].
    by apply (ow_old _ _ Ho old nb).
  - eexists _, _, _. split; [done|]. by apply switch_view_same.
  - eexists _, _, _. split; [done|]. by apply switch_view_same.
  - eexists _, _, _. split; [done|]. by apply switch_view_same.
  - eexists _, _, _. split; [done|]. apply switch_view_same; try done.
    unfold same_core. cbn. unfold view_pool, view_goroutines. cbn. rewrite !app_nil_r. by split_and!.
  - eexists _, _, _. split; [done|]. by apply switch_view_same.
Qed.
End switches.
