(* ===== verification/DoubleBufferTurns.v ===== *)
(** * Writers that take turns

    The interleavings of [DoubleBufferConc] with the histories of both ends:
    any number of writers of which one at a time is inside [Write], the
    monitor, the goroutines of the switches and a reader, access by access,
    and users who release chunks and use the memory.  As long as no switch
    exchanges the rings while a writer refers to one, every accepted write is
    delivered, unchanged and in order. *)
From stdpp Require Import functions.
From S2P Require Import Prelude.
From S2P Require Import Consts.
From S2P Require Import Interfaces.
From S2P Require Import Runtime.
From S2P Require Import SmartBuffer.
From S2P Require Import SmartBufferConc.
From S2P Require Import SwitchStrategy.
From S2P Require Import SwitchConfig.
From S2P Require Import Waiters.
From S2P Require Import LifeCycle.
From S2P Require Import BigDataPool.
From S2P Require Import DataChunk.
From S2P Require Import WrapHeap.
From S2P Require Import DoubleBuffer.
From S2P Require Import DoubleBufferFlow.
From S2P Require Import DoubleBufferDelivery.
From S2P Require Import DoubleBufferConc.
From S2P Require Import DoubleBufferSafety.
From S2P Require Import DoubleBufferView.
Open Scope Z_scope.
Open Scope go_scope.

(** ** Histories *)

(** The item a writer carries: copied, and not in a ring yet. *)
Definition in_flight (pc : writer_pc) : option BufferItem :=
  match pc with
  | WFast it | WFastActive it | WFastClosed it _ | WFastPush it _ _ | WLock it | WSlowActive it
  | WSlowState it _ | WSwitch it _ | WSlowWrite it | WSlowClosed it _ | WSlowPush it _ _ => Some it
  | _ => None
  end.

(** The ring it has a reference to. *)
Definition refers (pc : writer_pc) : option nat :=
  match pc with
  | WFastClosed _ b | WFastPush _ b _ | WSlowState _ b | WSlowClosed _ b | WSlowPush _ b _ => Some b
  | _ => None
  end.

(** The next access counts the item: the write takes effect. *)
Definition takes_effect (pc : writer_pc) : bool :=
  match pc with WFastPush _ _ PushAdd | WSlowPush _ _ PushAdd => true | _ => false end.

(** The system, the chunks the readers hold, the bytes of the slice that was
    copied last, and the histories of both ends. *)
Record trace {H S : Type} := mkTrace {
  sys : system H S;
  chunks : list (DataChunk free_action);
  copied : list byte;
  written : list (list byte);
  delivered : list (list byte)
}.
Arguments trace H S : clear implicits.

Inductive trace_event :=
  | TRun (ev : event)
  | TRelease (k : nat)
  | TCleanup (clock : nat → Z) (morder : list (Z * Z)) (border : list (Z * BigDataEntry))
  | TAlloc (n : nat)
  | TStore (p : Z) (l : list byte).

(** A read in one step. *)
Definition reads_now (ev : trace_event) : bool := match ev with TRun (EvRead _ _) => true | _ => false end.

Section trace.
  Context {H S : Type} `{!PendingQueue H, !SwitchStrategy S}.
  Context (range : gmap Z nat → list (Z * nat)).

Definition mem_of (t : trace H S) : memory := mem (objs (db (sys t))).

Definition writer_at (i : nat) (s : system H S) : writer_pc := from_option wpc WIdle (writers s !! i).

Definition with_db (d : DoubleBuffer H S) (t : trace H S) : trace H S :=
  mkTrace H S (set_db d (sys t)) (chunks t) (copied t) (written t) (delivered t).

(** What the histories record when the system goes from [sys t] to [s]. *)
Definition record (ev : event) (s : system H S) (t : trace H S) : trace H S :=
  let got := drop (length (reads (sys t))) (reads s) in
  let cs := omap (λ r, match r with inl c => Some c | inr _ => None end) got in
  mkTrace H S s (chunks t ++ cs)
    (match ev with
     | EvWriter _ i =>
         match writer_at i (sys t) with
         | WClassify p => default [] (slice_bytes (mem_of t) p)
         | _ => copied t
         end
     | _ => copied t
     end)
    (match ev with
     | EvWriter _ i => if takes_effect (writer_at i (sys t)) then written t ++ [copied t] else written t
     | _ => written t
     end)
    (delivered t ++ ((λ c, default [] (slice_bytes (mem (objs (db s))) (Bytes c))) <$> cs)).

Definition trace_step (ev : trace_event) (t : trace H S) : result (trace H S) :=
  match ev with
  | TRun ev => let* s := step range ev (sys t) in Ok (record ev s t)
  | TRelease k =>
      match chunks t !! k with
      | Some c =>
          Ok (mkTrace H S (set_db (Release run_free c (db (sys t))).2 (sys t)) (delete k (chunks t))
                (copied t) (written t) (delivered t))
      | None => Ok t
      end
  | TCleanup clock morder border =>
      Ok (with_db (asyncRecycleWorker_tick clock morder border (db (sys t))) t)
  | TAlloc n => Ok (with_db (set_mem (alloc n (mem_of t)).1 (db (sys t))) t)
  | TStore p l => Ok (with_db (set_mem (store p l (mem_of t)) (db (sys t))) t)
  end.

Fixpoint trace_run (evs : list trace_event) (t : trace H S) : result (trace H S) :=
  match evs with
  | [] => Ok t
  | ev :: evs => let* t := trace_step ev t in trace_run evs t
  end.

(** What is asked for: a call begins when no other is under way, and copies 1
    to 1023 bytes the writer can read; the monitor exchanges the rings while
    no writer refers to one; the goroutines take their numbers in order; and
    no one stores to memory the library holds. *)
Definition trace_allowed (ev : trace_event) (t : trace H S) : Prop :=
  match ev with
  | TRun (EvCall _ _) => Forall (λ w, wpc w = WIdle) (writers (sys t))
  | TRun (EvWriter _ i) =>
      match writer_at i (sys t) with
      | WClassify p => 0 < slen p < SmallDataThreshold ∧ is_Some (slice_bytes (mem_of t) p)
      | _ => True
      end
  | TRun (EvMonitor _) =>
      match monitor (sys t) with
      | MSwitch (SwActive _ _) => Forall (λ w, refers (wpc w) = None) (writers (sys t))
      | _ => True
      end
  | TRun (EvGo i) => in_order i (db (sys t))
  | TRun (EvRead _ sleeps) =>
      match discard_current (db (sys t)) with
      | Ok d1 => calm_pick range maxRetires sleeps d1
      | _ => True
      end
  | TRun (EvRelease _) => False
  | TStore p l =>
      0 < p ∧ p + Z.of_nat (length l) ≤ brk (mem_of t) ∧
      Forall (λ x, disjoint_at (Ptr x) (Size x) p (Z.of_nat (length l)))
        (slots (db (sys t)) ++ omap (λ w, in_flight (wpc w)) (writers (sys t))) ∧
      Forall (λ s, disjoint_at (sptr s) (scap s) p (Z.of_nat (length l))) (SmallPool (pm (db (sys t))))
  | _ => True
  end.

Fixpoint trace_allowed_all (evs : list trace_event) (t : trace H S) : Prop :=
  match evs with
  | [] => True
  | ev :: evs =>
      trace_allowed ev t ∧
      match trace_step ev t with
      | Ok t => trace_allowed_all evs t
      | _ => True
      end
  end.

(** [n] writers around a new double buffer in safe-read mode. *)
Definition trace_start (n : nat) (d : DoubleBuffer H S) : trace H S :=
  mkTrace H S (DoubleBufferConc.start n (RegisterReadMode SafeRead d).1) [] [] [] [].
End trace.

(** ** A push that is under way *)

(** The ring [s0] with the claim of [pc] undone. *)
Definition mid_push (item : BufferItem) (pc : push_pc) (s0 s : SmartBuffer) : Prop :=
  let room := SmartBuffer.count s0 < capacity s0 in
  match pc with
  | PushState | PushCount | PushFull => s = s0
  | PushHead => s = s0 ∧ room
  | PushCas h => s = s0 ∧ h = head s0 ∧ room
  | PushScan _ pos | PushStore pos =>
      s = set_head (int32 (head s0 + 1)) s0 ∧ pos = calcPos (capacity s0) (head s0) ∧ room
  | PushAdd =>
      s = SmartBufferConc.set_buf (<[slot (capacity s0) (-1 + SmartBuffer.count s0) := item]> (buf s0))
            (set_head (int32 (head s0 + 1)) s0) ∧ room
  end.

Definition half_pushed (pc : writer_pc) (a : nat) (s0 s : SmartBuffer) : Prop :=
  match pc with
  | WFastClosed _ b | WSlowState _ b | WSlowClosed _ b => b = a ∧ s = s0
  | WFastPush item b pc | WSlowPush item b pc => b = a ∧ mid_push item pc s0 s
  | _ => s = s0
  end.

Lemma mid_push_count (item : BufferItem) (pc : push_pc) (s0 s : SmartBuffer) :
  mid_push item pc s0 s → SmartBuffer.count s = SmartBuffer.count s0.
Proof. destruct pc; cbn; intuition (subst; done). Qed.

Lemma half_pushed_count (pc : writer_pc) (a : nat) (s0 s : SmartBuffer) :
  half_pushed pc a s0 s → SmartBuffer.count s = SmartBuffer.count s0.
Proof.
  destruct pc; cbn; try (by intros ->); try (by intros [_ ->]); by intros [_ ?%mid_push_count].
Qed.

Lemma half_pushed_SetState (st : Z) (pc : writer_pc) (a : nat) (s0 s : SmartBuffer) :
  half_pushed pc a s0 s → half_pushed pc a (SetState st s0) (SetState st s).
Proof.
  assert (∀ item ppc, mid_push item ppc s0 s → mid_push item ppc (SetState st s0) (SetState st s)) as Hm.
  { intros item ppc. destruct ppc; cbn; intuition (subst; done). }
  destruct pc; cbn; try (by intros ->); try (by intros [? ->]); intros [? ?]; auto.
Qed.

(** An access of [Push]: the ring without the push stays what it is, or the
    push is refused and the ring at most marked, or the item is in. *)
Lemma mid_push_step (item : BufferItem) (pc : push_pc) (s0 s : SmartBuffer) (its : list BufferItem) :
  mid_push item pc s0 s → repr s0 (-1) its →
  SmartBuffer.state s0 = WriteOnly ∨ SmartBuffer.state s0 = ReadOnly →
  ∃ (s' : SmartBuffer) (next : push_pc + option error), push_step item pc s = Ok (s', next) ∧
    match next with
    | inl pc' => pc ≠ PushAdd ∧ mid_push item pc' s0 s'
    | inr None => pc = PushAdd ∧ Z.of_nat (length its) < capacity s0 ∧
        s' = pushed item (-1 + Z.of_nat (length its)) s0
    | inr (Some _) => pc ≠ PushAdd ∧ (s' = s0 ∨ s' = SetState ReadOnly s0)
    end.
Proof.
  intros Hm Hr Hst. pose proof Hr as [Hc Hb Ht Hh Hn Hroom Hi].
  assert (aligned (capacity s0) (-1 + Z.of_nat (length its))) as Hal
    by (apply aligned_small; [done|unfold in_signed; lia]).
  assert (calcPos (capacity s0) (head s0) = (-1 + Z.of_nat (length its)) `mod` capacity s0) as Hpos
    by (by rewrite Hh, Hal).
  destruct pc as [| | | |h|n pos|pos|]; cbn [push_step mid_push] in *.
  - subst s. case_decide; eexists _, _; (split; [done|]); (split; [done|]); [by left|done].
  - subst s. case_decide; eexists _, _; (split; [done|]); (split; [done|]); [done|].
    cbn. split; [done|lia].
  - subst s. eexists _, _. split; [done|]. split; [done|]. right.
    destruct Hst as [-> | ->]; [by rewrite decide_True|by rewrite decide_False].
  - destruct Hm as [-> Hlt]. eexists _, _. split; [done|]. by split.
  - destruct Hm as (-> & -> & Hlt). rewrite decide_True by done. eexists _, _. split; [done|]. by split.
  - destruct Hm as (-> & -> & Hlt). destruct n as [|n]; [eexists _, _; split; [done|]; by split|].
    rewrite Hpos. cbn [buf set_head].
    destruct (lookup_lt_is_Some_2 (buf s0) (slot (capacity s0) (-1 + Z.of_nat (length its)))) as [y Hy];
      [apply slot_lt; lia|]. rewrite (index_slot _ _ _ y) by (done || lia). cbn [rbind].
    case_decide; eexists _, _; (split; [done|]); by rewrite <- Hpos.
  - destruct Hm as (-> & -> & Hlt). rewrite Hpos. cbn [buf set_head].
    rewrite set_slot by lia. cbn [rbind]. eexists _, _. split; [done|]. split; [done|]. cbn.
    split; [by rewrite Hn|done].
  - destruct Hm as (-> & Hlt). eexists _, _. split; [done|]. split; [done|]. split; [lia|].
    unfold add_count, pushed. cbn. rewrite Hh, Hn, signed_idemp_add_l.
    by rewrite (signed_id 32 (Z.of_nat _ + 1)) by (unfold in_signed; lia).
Qed.

(** ** The invariant *)

(** Writer [i] is the one whose turn it is. *)
Definition turn (ws : list writer) (i : nat) (w : writer) : Prop :=
  ws !! i = Some w ∧ ∀ (j : nat) (w' : writer), ws !! j = Some w' → j ≠ i → wpc w' = WIdle.

(** The calls that have returned without an error. *)
Definition successes (rs : list (option error)) : nat := length (filter (λ r, r = None) rs).
Definition accepted (ws : list writer) : nat := successes (concat (returned <$> ws)).

(** The write has taken effect and the call has not returned. *)
Definition counted (pc : writer_pc) : nat :=
  match pc with WFastCount | WSlowCount | WUnlock None => 1 | _ => 0 end.

Lemma turn_move (ws : list writer) (i : nat) (w w' : writer) :
  turn ws i w → turn (<[i := w']> ws) i w'.
Proof.
  intros [Hi Hj]. split; [by apply list_lookup_insert_eq; eapply lookup_lt_Some|].
  intros j w2 Hw2 Hne. rewrite list_lookup_insert_ne in Hw2 by done. by eapply Hj.
Qed.

Lemma turn_take (ws : list writer) (i : nat) (w : writer) :
  Forall (λ w, wpc w = WIdle) ws → ws !! i = Some w → turn ws i w.
Proof. intros Hall Hi. split; [done|]. intros j w' Hj _. by eapply (Forall_lookup_1 _ _ _ _ Hall). Qed.

Lemma turn_omap {A : Type} (g : writer_pc → option A) (ws : list writer) (i : nat) (w : writer) (x : A) :
  turn ws i w → g (wpc w) = Some x → x ∈ omap (λ w, g (wpc w)) ws.
Proof.
  intros [Hi _] Hx. apply list_elem_of_omap. exists w. split; [by eapply list_elem_of_lookup_2|done].
Qed.

Lemma successes_app (rs rs' : list (option error)) :
  successes (rs ++ rs') = (successes rs + successes rs')%nat.
Proof. unfold successes. by rewrite filter_app, length_app. Qed.

Lemma successes_one (err : option error) : successes [err] = if err then 0%nat else 1%nat.
Proof. by destruct err. Qed.

Lemma accepted_move (ws : list writer) (i : nat) (w w' : writer) :
  ws !! i = Some w →
  (accepted (<[i := w']> ws) + successes (returned w) = accepted ws + successes (returned w'))%nat.
Proof.
  intros Hi. unfold accepted. rewrite insert_take_drop by (by eapply lookup_lt_Some).
  rewrite <- (take_drop_middle _ _ _ Hi) at 3. rewrite !fmap_app, !fmap_cons, !concat_app.
  cbn [concat]. rewrite !successes_app. lia.
Qed.

Section serial.
  Context {H S : Type} `{!PendingQueue H, !PendingQueueLaws H, !SwitchStrategy S}.
  Context (range : gmap Z nat → list (Z * nat)) `{!RangeOrder range} (stop : bool).

(** The switch in progress, as the view needs it. *)
Notation at_switch sw := (snd <$> sw).

(** [sw] is the switch in progress, [w] the writer whose turn it is, [s] the
    active ring and [s0] the same without the push under way; [bss] are the
    bytes of the items that are queued. *)
Record serial_at (n : Z) (t : trace H S) (sw : option (agent * switch_pc)) (i : nat) (w : writer)
    (s0 s : SmartBuffer) (bs : list nat) (f : nat → list BufferItem) (bss : list (list byte)) : Prop := {
  se_exclusive : exclusive WritingState stop (sys t) sw;
  se_turn : turn (writers (sys t)) i w;
  se_ring : bufs (objs (db (sys t))) !! active (db (sys t)) = Some s;
  se_push : half_pushed (wpc w) (active (db (sys t))) s0 s;
  se_flow : flow (view s0 (at_switch sw) (db (sys t))) bs f;
  se_mode : readMode (db (sys t)) = Some SafeRead;
  se_issued : issued (view s0 (at_switch sw) (db (sys t))) ≤ n;
  se_kept : kept (mem_of t)
    (queued (view s0 (at_switch sw) (db (sys t))) bs f ++ option_list (in_flight (wpc w)))
    (bss ++ (if in_flight (wpc w) then [copied t] else []))
    (SmallPool (pm (db (sys t))) ++ held (chunks t));
  se_chunks (c : DataChunk free_action) : c ∈ chunks t → free c = Some (FreeSmall (data c));
  se_written : written t = delivered t ++ bss;
  se_returned : length (written t) = (accepted (writers (sys t)) + counted (wpc w))%nat
}.

Definition serial (n : Z) (t : trace H S) : Prop :=
  ∃ (sw : option (agent * switch_pc)) (i : nat) (w : writer) (s0 s : SmartBuffer) (bs : list nat)
    (f : nat → list BufferItem) (bss : list (list byte)), serial_at n t sw i w s0 s bs f bss.

Lemma serial_weaken (n n' : Z) (t : trace H S) : serial n t → n ≤ n' → serial n' t.
Proof.
  intros (sw & i & w & s0 & s & bs & f & bss & []) Hn. exists sw, i, w, s0, s, bs, f, bss.
  constructor; try done. lia.
Qed.

(** [exclusive] determines the switch in progress. *)
Lemma exclusive_same (sys1 sys2 : system H S) (sw sw' : option (agent * switch_pc)) :
  exclusive WritingState stop sys1 sw → exclusive WritingState stop sys2 sw' →
  (∀ a : agent, critical_pc (pc_of sys2 a) = critical_pc (pc_of sys1 a)) → sw' = sw.
Proof.
  intros Hs Hs' Hpc.
  assert (∀ (s : system H S) a pc, pc_of s a = Some pc ∧ critical pc = true ↔ critical_pc (pc_of s a) = Some pc) as Hc.
  { intros x a pc. unfold critical_pc. destruct (pc_of x a) as [pc'|]; cbn; [|by split; [intros []|]].
    destruct (critical pc') eqn:E; (split; [intros [[= ->] ?]; congruence|by intros [= <-]]). }
  destruct sw as [[a pc]|], sw' as [[a' pc']|]; try done.
  - pose proof (proj2 (ex_switch _ _ _ _ Hs a pc) eq_refl) as Ha. rewrite Hc, <- Hpc, <- Hc in Ha.
    by apply (ex_switch _ _ _ _ Hs') in Ha.
  - pose proof (proj2 (ex_switch _ _ _ _ Hs a pc) eq_refl) as Ha. rewrite Hc, <- Hpc, <- Hc in Ha.
    by apply (ex_switch _ _ _ _ Hs') in Ha.
  - pose proof (proj2 (ex_switch _ _ _ _ Hs' a' pc') eq_refl) as Ha. rewrite Hc, Hpc, <- Hc in Ha.
    by apply (ex_switch _ _ _ _ Hs) in Ha.
Qed.

Lemma record_quiet (ev : event) (s : system H S) (t : trace H S) :
  reads s = reads (sys t) →
  record ev s t = mkTrace H S s (chunks t) (copied (record ev s t)) (written (record ev s t)) (delivered t).
Proof. intros E. unfold record at 1. rewrite E, drop_all. cbn. by rewrite !app_nil_r. Qed.

(** ** The steps of a writer *)

(** An access of the writer whose turn it is, outside a switch. *)
Lemma serial_move (n n' : Z) (o : oracle) (t : trace H S) (sw : option (agent * switch_pc)) (i : nat)
    (w w' : writer) (s0 s s0' s' : SmartBuffer) (bs bs' : list nat) (f f' : nat → list BufferItem)
    (bss bss' : list (list byte)) (d : DoubleBuffer H S) (wl : option agent) :
  let sys' := mkSystem d wl (switchLock (sys t)) (<[i := w']> (writers (sys t))) (monitor (sys t))
    (reads (sys t)) in
  let t' := record (EvWriter o i) sys' t in
  serial_at n t sw i w s0 s bs f bss →
  critical_pc (switching (wpc w)) = None → critical_pc (switching (wpc w')) = None →
  writer_step o i (wpc w) (sys t) = Ok sys' →
  bufs (objs d) !! active d = Some s' → half_pushed (wpc w') (active d) s0' s' →
  flow (view s0' (at_switch sw) d) bs' f' → readMode d = Some SafeRead →
  issued (view s0' (at_switch sw) d) ≤ n' →
  kept (mem (objs d)) (queued (view s0' (at_switch sw) d) bs' f' ++ option_list (in_flight (wpc w')))
    (bss' ++ (if in_flight (wpc w') then [copied t'] else [])) (SmallPool (pm d) ++ held (chunks t)) →
  written t' = delivered t ++ bss' →
  (length (written t') + counted (wpc w) + successes (returned w) =
    length (written t) + counted (wpc w') + successes (returned w'))%nat →
  ∃ t' : trace H S, trace_step range (TRun (EvWriter o i)) t = Ok t' ∧ serial n' t'.
Proof.
  intros sys' t' [Hex Ht Hring Hpush Hf Hmode Hi Hk Hch Hw Hret] Hc Hc' E Hring' Hpush' Hf' Hmode' Hi' Hk'
    Hw' Hret'.
  pose proof (proj1 Ht) as Hlook.
  assert (step range (EvWriter o i) (sys t) = Ok sys') as Estep by (cbn; by rewrite Hlook).
  exists t'. split; [cbn [trace_step]; by rewrite Estep|].
  destruct (step_exclusive range _ _ _ _ _ _ Hex Estep) as [sw' Hex'].
  assert (sw' = sw) as ->.
  { apply (exclusive_same _ _ _ _ Hex Hex'). intros [j|]; [|done]. cbn -[critical_pc].
    destruct (decide (j = i)) as [->|Hne]; [|by rewrite list_lookup_insert_ne].
    rewrite list_lookup_insert_eq, Hlook by (by eapply lookup_lt_Some). cbn -[critical_pc]. by rewrite Hc, Hc'. }
  subst t'. rewrite record_quiet in * by done.
  exists sw, i, w', s0', s', bs', f', bss'. constructor; try done.
  - by eapply turn_move.
  - cbn [sys writers sys']. pose proof (accepted_move _ _ _ w' Hlook). cbn [written] in *.
    lia.
Qed.

Lemma kept_forget (m : memory) (its : list BufferItem) (bss : list (list byte)) (x : BufferItem)
    (b : list byte) (l : list slice) :
  kept m (its ++ [x]) (bss ++ [b]) l → kept m its bss l.
Proof.
  intros [H1 H2 H3 H4 H5]. constructor; try done.
  - apply Forall2_app_inv in H2 as [? _]; [done|]. apply Forall2_length in H2.
    rewrite !length_app in H2. cbn in H2. lia.
  - intros y s Hy. apply H4. apply elem_of_app. by left.
Qed.

(** An access that leaves the rings and the queue as they are; the writer may
    drop the item it carries. *)
Lemma serial_stay (n : Z) (o : oracle) (t : trace H S) (sw : option (agent * switch_pc)) (i : nat)
    (w w' : writer) (s0 s : SmartBuffer) (bs : list nat) (f : nat → list BufferItem)
    (bss : list (list byte)) (d : DoubleBuffer H S) (wl : option agent) :
  serial_at n t sw i w s0 s bs f bss →
  critical_pc (switching (wpc w)) = None → critical_pc (switching (wpc w')) = None →
  takes_effect (wpc w) = false →
  writer_step o i (wpc w) (sys t) = Ok (mkSystem d wl (switchLock (sys t))
    (<[i := w']> (writers (sys t))) (monitor (sys t)) (reads (sys t))) →
  (∃ c : Z, d = set_count c (db (sys t))) →
  half_pushed (wpc w') (active (db (sys t))) s0 s →
  in_flight (wpc w') = in_flight (wpc w) ∨ in_flight (wpc w') = None →
  (counted (wpc w) + successes (returned w) = counted (wpc w') + successes (returned w'))%nat →
  ∃ t' : trace H S, trace_step range (TRun (EvWriter o i)) t = Ok t' ∧ serial n t'.
Proof.
  intros Hs Hc Hc' Hte E [c ->] Hpush Hfl Hret. pose proof Hs as [Hex Ht Hring _ Hf Hmode Hi Hk Hch Hw _].
  assert (writer_at i (sys t) = wpc w) as Hat by (unfold writer_at; by rewrite (proj1 Ht)).
  eapply (serial_move n n o t sw i w w' s0 s s0 s bs bs f f bss bss (set_count c (db (sys t))) wl Hs Hc Hc' E);
    try done.
  - destruct Hfl as [Hfl|Hfl]; rewrite Hfl.
    + unfold record; cbn [copied]. rewrite Hat.
      by destruct (wpc w).
    + cbn [option_list]. rewrite !app_nil_r. change (mem (objs (set_count c (db (sys t))))) with (mem_of t).
      destruct (in_flight (wpc w)); cbn [option_list] in Hk; [by eapply kept_forget|].
      by rewrite !app_nil_r in Hk.
  - unfold record; cbn [written]. by rewrite Hat, Hte.
  - unfold record; cbn [written]. rewrite Hat, Hte. lia.
Qed.

(** The views of [goto] and [return_]. *)
Lemma goto_eq (i : nat) (w : writer) (pc : writer_pc) (d : DoubleBuffer H S) (x : system H S) :
  writers x !! i = Some w →
  goto i pc d x = mkSystem d (writeLock x) (switchLock x) (<[i := mkWriter pc (returned w)]> (writers x))
    (monitor x) (reads x).
Proof. intros Hi. unfold goto. by rewrite (list_alter_lookup _ _ _ _ Hi). Qed.

Lemma return_eq (i : nat) (w : writer) (err : option error) (d : DoubleBuffer H S) (x : system H S) :
  writers x !! i = Some w →
  return_ i err d x = mkSystem d (writeLock x) (switchLock x)
    (<[i := mkWriter WIdle (returned w ++ [err])]> (writers x)) (monitor x) (reads x).
Proof. intros Hi. unfold return_. by rewrite (list_alter_lookup _ _ _ _ Hi). Qed.

Lemma set_count_id (d : DoubleBuffer H S) : set_count (count d) d = d.
Proof. by destruct d. Qed.

(** An access of a push, on the fast or the slow path: [CP] and [after] are
    where the writer is during it and after it. *)
Lemma serial_push (n : Z) (o : oracle) (t : trace H S) (sw : option (agent * switch_pc)) (i : nat)
    (w : writer) (s0 s : SmartBuffer) (bs : list nat) (f : nat → list BufferItem)
    (bss : list (list byte)) (item : BufferItem) (b : nat) (pc : push_pc)
    (CP : push_pc → writer_pc) (after : option error → writer_pc) :
  serial_at n t sw i w s0 s bs f bss → wpc w = CP pc →
  (∀ pc : push_pc, in_flight (CP pc) = Some item ∧ switching (CP pc) = None ∧ counted (CP pc) = 0%nat ∧
    takes_effect (CP pc) = bool_decide (pc = PushAdd)) →
  (∀ pc a s0 s, half_pushed (CP pc) a s0 s ↔ b = a ∧ mid_push item pc s0 s) →
  (∀ err : option error, switching (after err) = None ∧
    counted (after err) = (if err then 0%nat else 1%nat) ∧
    (in_flight (after err) = None ∨ err ≠ None ∧ in_flight (after err) = Some item)) →
  (∀ err a s0 s, half_pushed (after err) a s0 s ↔ s = s0) →
  writer_step o i (CP pc) (sys t) =
    (let* (d, next) := ring_step item b pc (db (sys t)) in
     Ok (goto i (match next with inl pc => CP pc | inr r => after r end) d (sys t))) →
  ∃ t' : trace H S, trace_step range (TRun (EvWriter o i)) t = Ok t' ∧ serial n t'.
Proof.
  intros Hs Hpc HCP HCPh Haft Hafth E. pose proof Hs as [Hex Ht Hring Hpush Hf Hmode Hi Hk Hch Hw Hret].
  pose proof (proj1 Ht) as Hlook. destruct w as [wp rs]. cbn [wpc] in Hpc. subst wp.
  destruct (HCP pc) as (Hfl & Hsw & Hcn & Hte). cbn [wpc returned] in *.
  assert (writer_at i (sys t) = CP pc) as Hat by (unfold writer_at; by rewrite Hlook).
  apply HCPh in Hpush as [-> Hmid].
  destruct (view_active _ _ _ _ _ Hf) as (Hr & Hc & Hst).
  destruct (mid_push_step item pc s0 s _ Hmid Hr Hst) as (s' & next & Estep & Hnext).
  unfold ring_step, get_buf in E. rewrite Hring in E. cbn [rbind] in E. rewrite Estep in E.
  cbn [rbind] in E. rewrite (goto_eq _ _ _ _ _ Hlook) in E.
  rewrite Hfl in Hk. cbn [option_list] in Hk.
  assert (∀ x, bufs (objs (set_buf (active (db (sys t))) x (db (sys t)))) !!
    active (set_buf (active (db (sys t))) x (db (sys t))) = Some x) as Hput
    by (intros x; cbn; apply lookup_insert_eq).
  assert (critical_pc (switching (CP pc)) = None) as Hcrit by (by rewrite Hsw).
  destruct next as [pc'|[err|]].
  - destruct Hnext as [Hne Hmid']. destruct (HCP pc') as (Hfl' & Hsw' & Hcn' & _).
    eapply (serial_move n n o t sw i _ (mkWriter (CP pc') rs) s0 s s0 s' bs bs f f bss bss _ _ Hs); cbn [wpc returned].
    + exact Hcrit.
    + by rewrite Hsw'.
    + exact E.
    + apply Hput.
    + by apply HCPh.
    + by rewrite view_set_buf.
    + exact Hmode.
    + by rewrite view_set_buf.
    + rewrite view_set_buf, Hfl'. unfold record; cbn [copied]. rewrite Hat.
      destruct (CP pc); try exact Hk. done.
    + unfold record; cbn [written]. by rewrite Hat, Hte, bool_decide_eq_false_2.
    + unfold record; cbn [written]. rewrite Hat, Hte, bool_decide_eq_false_2 by done. lia.
  - destruct Hnext as [Hne Hcase]. destruct (Haft (Some err)) as (Hsw' & Hcn' & Hfl').
    assert (flow (view s' (at_switch sw) (db (sys t))) bs f) as Hf'.
    { destruct Hcase as [-> | ->]; [done|by apply view_mark]. }
    eapply (serial_move n n o t sw i _ (mkWriter (after (Some err)) rs) s0 s s' s' bs bs f f bss bss _ _ Hs); cbn [wpc returned].
    + exact Hcrit.
    + by rewrite Hsw'.
    + exact E.
    + apply Hput.
    + by apply Hafth.
    + by rewrite view_set_buf.
    + exact Hmode.
    + by rewrite view_set_buf.
    + rewrite view_set_buf. unfold record; cbn [copied]. rewrite Hat.
      destruct Hfl' as [Hfl'|[_ Hfl']]; rewrite Hfl'.
      * cbn [option_list]. rewrite !app_nil_r. by eapply kept_forget.
      * by destruct (CP pc).
    + unfold record; cbn [written]. by rewrite Hat, Hte, bool_decide_eq_false_2.
    + unfold record; cbn [written]. rewrite Hat, Hte, bool_decide_eq_false_2 by done. lia.
  - destruct Hnext as (-> & Hlt & ->). destruct (Haft None) as (Hsw' & Hcn' & [Hfl'|[? _]]); [|done].
    set (d := db (sys t)) in *. set (s' := pushed _ _ s0) in *.
    assert (flow (view s' (at_switch sw) d) bs (<[active d := f (active d) ++ [item]]> f)) as Hf'.
    { eapply view_insert; [exact Hf|apply fn_insert_cases|by apply pushed_repr|done| |exact Hst].
      rewrite length_app. cbn. lia. }
    eapply (serial_move n n o t sw i _ (mkWriter (after None) rs) s0 s s' s' bs bs f _ bss (bss ++ [copied t]) _ _ Hs);
      cbn [wpc returned].
    + exact Hcrit.
    + by rewrite Hsw'.
    + exact E.
    + apply Hput.
    + by apply Hafth.
    + rewrite view_set_buf. exact Hf'.
    + exact Hmode.
    + by rewrite view_set_buf.
    + rewrite view_set_buf, Hfl'. cbn [option_list]. rewrite !app_nil_r.
      rewrite (queued_write item (view s0 (at_switch sw) d)) by done. exact Hk.
    + unfold record; cbn [written]. rewrite Hat, Hte, bool_decide_eq_true_2, Hw by done. by rewrite app_assoc.
    + unfold record; cbn [written]. rewrite Hat, Hte, bool_decide_eq_true_2, length_app by done. cbn. lia.
Qed.

(** ** The steps of a switch *)

Lemma half_pushed_none (pc : writer_pc) (a : nat) (s0 s : SmartBuffer) :
  refers pc = None → half_pushed pc a s0 s ↔ s = s0.
Proof. by destruct pc. Qed.

(** The agent at a step of a switch is the one [exclusive] knows. *)
Lemma exclusive_next (x y : system H S) (sw sw' : option (agent * switch_pc)) (a : agent) (pc : switch_pc)
    (next : option switch_pc) :
  exclusive WritingState stop x sw → exclusive WritingState stop y sw' →
  pc_of x a = Some pc → pc_of y a = next → (∀ b : agent, b ≠ a → pc_of y b = pc_of x b) →
  critical pc = true ∨ is_critical next = true → at_switch sw' = critical_pc next.
Proof.
  intros Hx Hy Ha Hn Hb Hc. destruct (critical_pc next) as [p|] eqn:E.
  - unfold critical_pc in E. destruct next as [p'|]; [|done]. cbn in E.
    destruct (critical p') eqn:Ep; [|done]. injection E as ->.
    by rewrite (proj1 (ex_switch _ _ _ _ Hy a p)).
  - assert (is_critical next = false) as En.
    { unfold critical_pc in E. destruct next as [p'|]; [|done]. cbn in *. by destruct (critical p'). }
    destruct Hc as [Hc|Hc]; [|by rewrite En in Hc].
    assert (sw = Some (a, pc)) as -> by (by apply (ex_switch _ _ _ _ Hx)).
    destruct sw' as [[b p]|]; [|done]. exfalso.
    destruct (proj2 (ex_switch _ _ _ _ Hy b p) eq_refl) as [Hp Hcp].
    destruct (decide (b = a)) as [->|Hne].
    + assert (next = Some p) as E2 by congruence. rewrite E2 in En. cbn in En. congruence.
    + rewrite Hb in Hp by done.
      assert (Some (a, pc) = Some (b, p)) by (by apply (ex_switch _ _ _ _ Hx)). congruence.
Qed.

(** What an access of [switchChannel] by agent [a] does to the view. *)
Lemma serial_switch (n : Z) (o : oracle) (t : trace H S) (sw : option (agent * switch_pc)) (i : nat)
    (w : writer) (s0 s : SmartBuffer) (bs : list nat) (f : nat → list BufferItem)
    (bss : list (list byte)) (a : agent) (pc : switch_pc) :
  let d := db (sys t) in
  serial_at n t sw i w s0 s bs f bss → pc_of (sys t) a = Some pc →
  (match pc with SwActive _ _ => s = s0 | _ => True end) →
  ∃ (d' : DoubleBuffer H S) (l : option agent) (next : option switch_pc),
    switch_step o a pc (switchLock (sys t)) d = Ok (d', l, next) ∧
    ∀ (y : system H S) (sw' : option (agent * switch_pc)),
      exclusive WritingState stop y sw' → pc_of y a = next →
      (∀ b : agent, b ≠ a → pc_of y b = pc_of (sys t) b) →
      ∃ (s0' s' : SmartBuffer) (f' : nat → list BufferItem),
        bufs (objs d') !! active d' = Some s' ∧ flow (view s0' (at_switch sw') d') bs f' ∧
        queued (view s0' (at_switch sw') d') bs f' = queued (view s0 (at_switch sw) d) bs f ∧
        issued (view s0' (at_switch sw') d') ≤ n + 1 ∧ same_side d d' ∧ switched pc s0 s d s0' s' d'.
Proof.
  intros d Hs Ha Hx. pose proof Hs as [Hex Ht Hring Hpush Hf Hmode Hi Hk Hch Hw Hret].
  destruct (critical pc) eqn:Hc.
  - assert (sw = Some (a, pc)) as -> by (by apply (ex_switch _ _ _ _ Hex)).
    cbn [snd fmap option_fmap option_map] in *.
    destruct (switch_step_view o a pc (switchLock (sys t)) s0 s d bs f Hc) as
      (d' & l & next & E & s0' & s' & f' & H1 & H2 & H3 & H4 & H5 & H6); try done.
    { by apply (ex_rings _ _ _ _ Hex). }
    { by destruct pc. }
    exists d', l, next. split; [done|]. intros y sw' Hy Hn Hb.
    rewrite (exclusive_next _ _ _ _ _ _ _ Hex Hy Ha Hn Hb) by (by left).
    exists s0', s', f'. split_and!; try done. by etrans; [exact H4|apply Z.add_le_mono_r, Hi].
  - destruct pc; try done; cbn [switch_step].
    + case_decide as Hd.
      * eexists _, _, _. split; [done|]. intros y sw' Hy Hn Hb.
        rewrite (exclusive_same _ _ _ _ Hex Hy).
        -- exists s0, s, f. split_and!; try done. by etrans; [exact Hi|apply Z.le_succ_diag_r].
        -- intros b. destruct (decide (b = a)) as [->|Hne]; [by rewrite Hn, Ha|by rewrite Hb].
      * eexists _, _, _. split; [done|]. intros y sw' Hy Hn Hb.
        rewrite (exclusive_next _ _ _ _ _ _ _ Hex Hy Ha Hn Hb) by (by right).
        assert (sw = None) as ->.
        { destruct sw as [|]; [|done]. pose proof (ex_state _ _ _ _ Hex) as Hst.
          fold d in Hst. by rewrite Hd in Hst. }
        exists s0, s, f. split_and!; try done. by etrans; [exact Hi|apply Z.le_succ_diag_r].
    + eexists _, _, _. split; [done|]. intros y sw' Hy Hn Hb.
      rewrite (exclusive_same _ _ _ _ Hex Hy).
      * exists s0, s, f. split_and!; try done. by etrans; [exact Hi|apply Z.le_succ_diag_r].
      * intros b. destruct (decide (b = a)) as [->|Hne]; [by rewrite Hn, Ha|by rewrite Hb].
Qed.

Lemma switched_half_pushed (pc : switch_pc) (wp : writer_pc) (s0 s s0' s' : SmartBuffer)
    (d d' : DoubleBuffer H S) :
  switched pc s0 s d s0' s' d' → half_pushed wp (active d) s0 s →
  (match pc with SwActive _ _ => refers wp = None | _ => True end) → half_pushed wp (active d') s0' s'.
Proof.
  intros Hsw Hp Hx. destruct pc; cbn in Hsw; try (by destruct Hsw as (-> & -> & ->)).
  - destruct Hsw as (-> & -> & ->). by apply half_pushed_SetState.
  - subst s0'. by apply half_pushed_none.
Qed.

(** An access of [switchChannel] by the writer whose turn it is. *)
Lemma serial_writer_switch (n : Z) (o : oracle) (t : trace H S) (sw : option (agent * switch_pc))
    (i : nat) (w : writer) (s0 s : SmartBuffer) (bs : list nat) (f : nat → list BufferItem)
    (bss : list (list byte)) (item : BufferItem) (pc : switch_pc) :
  serial_at n t sw i w s0 s bs f bss → wpc w = WSwitch item pc →
  ∃ t' : trace H S, trace_step range (TRun (EvWriter o i)) t = Ok t' ∧ serial (n + 1) t'.
Proof.
  intros Hs Hpc. pose proof Hs as [Hex Ht Hring Hpush Hf Hmode Hi Hk Hch Hw Hret].
  pose proof (proj1 Ht) as Hlook. rewrite Hpc in *. cbn [half_pushed in_flight option_list counted] in *.
  assert (pc_of (sys t) (AWriter i) = Some pc) as Ha by (cbn; rewrite Hlook; cbn; by rewrite Hpc).
  destruct (serial_switch n o t sw i w s0 s bs f bss (AWriter i) pc Hs Ha) as (d' & l & next & E & Hnext).
  { by destruct pc. }
  set (pc' := match next with Some pc => WSwitch item pc | None => WSlowWrite item end).
  set (y := set_switchLock l (goto i pc' d' (sys t))).
  assert (step range (EvWriter o i) (sys t) = Ok y) as Estep.
  { cbn [step]. rewrite Hlook, Hpc. cbn [writer_step]. by rewrite E. }
  destruct (step_exclusive range _ _ _ _ _ _ Hex Estep) as [sw' Hex'].
  assert (writers y = <[i := mkWriter pc' (returned w)]> (writers (sys t))) as Hwr
    by (unfold y; by rewrite (goto_eq _ _ _ _ _ Hlook)).
  destruct (Hnext y sw' Hex') as (s0' & s' & f' & H1 & H2 & H3 & H4 & (Epm & Emem & Erm) & H6).
  { unfold pc_of. rewrite Hwr, list_lookup_insert_eq by (by eapply lookup_lt_Some). by destruct next. }
  { intros [j|] Hj; [|done]. unfold pc_of. rewrite Hwr, list_lookup_insert_ne; [done|]. congruence. }
  exists (record (EvWriter o i) y t). split; [cbn [trace_step]; by rewrite Estep|].
  rewrite record_quiet by done.
  assert (writer_at i (sys t) = WSwitch item pc) as Hat by (unfold writer_at; rewrite Hlook; exact Hpc).
  unfold record; cbn [copied written]. rewrite Hat. cbn [takes_effect].
  exists sw', i, (mkWriter pc' (returned w)), s0', s', bs, f', bss.
  assert (in_flight pc' = Some item ∧ counted pc' = 0%nat ∧ refers pc' = None) as (Hfl & Hcn & Hre)
    by (unfold pc'; by destruct next).
  constructor; try done; cbn [sys chunks written delivered wpc]; try (change (db y) with d').
  - rewrite Hwr. by eapply turn_move.
  - apply half_pushed_none; [done|]. symmetry. destruct pc; cbn in H6; destruct_and?; by subst.
  - by rewrite Erm.
  - rewrite Hfl. unfold mem_of in *. cbn [sys option_list copied]. change (db y) with d'.
    by rewrite Emem, Epm, H3.
  - rewrite Hwr, Hcn. pose proof (accepted_move _ _ _ (mkWriter pc' (returned w)) Hlook) as Hacc.
    cbn [returned] in Hacc. lia.
Qed.

Lemma view_same_core (s0 : SmartBuffer) (pc : option switch_pc) (d d' : DoubleBuffer H S) :
  same_core d d' → same_core (view s0 pc d) (view s0 pc d').
Proof.
  intros (E1 & E2 & E3 & E4 & E5 & E6 & E7 & E8 & E9 & E10 & E11 & E12 & E13 & E14 & E15).
  unfold same_core, view, view_passive, view_pool, view_goroutines. cbn.
  rewrite E1, E3, E4, E5, E6, E7, E8, E9, E10, E11, E12, E13, E14, E15. by split_and!.
Qed.

Lemma issued_same (d d' : DoubleBuffer H S) : same_core d d' → issued d' = issued d.
Proof. intros (_ & _ & Esq & _ & _ & _ & _ & _ & _ & Egs & _). unfold issued. by rewrite Esq, Egs. Qed.

(** The copy of the slice. *)
Lemma serial_classify (n : Z) (o : oracle) (t : trace H S) (sw : option (agent * switch_pc)) (i : nat)
    (w : writer) (s0 s : SmartBuffer) (bs : list nat) (f : nat → list BufferItem)
    (bss : list (list byte)) (p : slice) :
  serial_at n t sw i w s0 s bs f bss → wpc w = WClassify p →
  0 < slen p < SmallDataThreshold → is_Some (slice_bytes (mem_of t) p) →
  ∃ t' : trace H S, trace_step range (TRun (EvWriter o i)) t = Ok t' ∧ serial n t'.
Proof.
  intros Hs Hpc Hp [x Hx]. pose proof Hs as [Hex Ht Hring Hpush Hf Hmode Hi Hk Hch Hw Hret].
  pose proof (proj1 Ht) as Hlook. destruct w as [wp rs]. cbn [wpc] in Hpc. subst wp.
  cbn [wpc half_pushed in_flight option_list counted] in *. rewrite !app_nil_r in Hk.
  destruct (classify_small o p (db (sys t)) _ bss _ x Hk Hp Hx) as (d' & it & E & Hk').
  pose proof (classify_same _ _ _ _ _ E) as Hsame.
  pose proof (view_same_core s0 (at_switch sw) _ _ Hsame) as Hvsame.
  destruct (flow_same _ _ _ _ Hvsame Hf) as [Hf' Hq].
  pose proof Hsame as (_ & _ & _ & _ & Ea & _ & _ & _ & _ & _ & _ & Eb & _ & Erm & _).
  eapply (serial_move n n o t sw i _ (mkWriter (WFast it) rs) s0 s s0 s bs bs f f bss bss d' _ Hs);
    try done; cbn [wpc returned].
  - cbn [writer_step]. rewrite E. cbn [rbind]. by rewrite (goto_eq _ _ _ _ _ Hlook).
  - by rewrite Eb, Ea.
  - by rewrite Erm.
  - by rewrite (issued_same _ _ Hvsame).
  - rewrite Hq. cbn [in_flight option_list]. unfold record; cbn [copied].
    assert (writer_at i (sys t) = WClassify p) as -> by (unfold writer_at; by rewrite Hlook).
    rewrite Hx. exact Hk'.
  - unfold record; cbn [written].
    assert (writer_at i (sys t) = WClassify p) as -> by (unfold writer_at; by rewrite Hlook). exact Hw.
  - unfold record; cbn [written].
    assert (writer_at i (sys t) = WClassify p) as -> by (unfold writer_at; by rewrite Hlook). done.
Qed.

(** An access that only moves the writer on. *)
Lemma serial_goto (n : Z) (o : oracle) (t : trace H S) (sw : option (agent * switch_pc)) (i : nat)
    (w : writer) (s0 s : SmartBuffer) (bs : list nat) (f : nat → list BufferItem)
    (bss : list (list byte)) (pc : writer_pc) :
  serial_at n t sw i w s0 s bs f bss →
  writer_step o i (wpc w) (sys t) = Ok (goto i pc (db (sys t)) (sys t)) →
  takes_effect (wpc w) = false → critical_pc (switching (wpc w)) = None →
  critical_pc (switching pc) = None → half_pushed pc (active (db (sys t))) s0 s →
  in_flight pc = in_flight (wpc w) → counted (wpc w) = counted pc →
  ∃ t' : trace H S, trace_step range (TRun (EvWriter o i)) t = Ok t' ∧ serial n t'.
Proof.
  intros Hs E H1 H2 H3 H4 H5 H6. rewrite (goto_eq _ w) in E by apply (se_turn _ _ _ _ _ _ _ _ _ _ Hs).
  eapply (serial_stay n o t sw i w (mkWriter pc (returned w)) s0 s bs f bss (db (sys t)) _ Hs);
    try done; [by exists (count (db (sys t))); rewrite set_count_id|by left|].
  cbn [wpc returned]. by rewrite H6.
Qed.

(** An access that waits, or a writer that is not in a call. *)
Lemma serial_noop (n : Z) (o : oracle) (t : trace H S) (i : nat) :
  serial n t → writer_step o i (writer_at i (sys t)) (sys t) = Ok (sys t) →
  takes_effect (writer_at i (sys t)) = false →
  match writer_at i (sys t) with WClassify _ => False | _ => True end →
  ∃ t' : trace H S, trace_step range (TRun (EvWriter o i)) t = Ok t' ∧ serial n t'.
Proof.
  intros Hs E H1 H2. exists t. split; [|done].
  assert (step range (EvWriter o i) (sys t) = Ok (sys t)) as Es.
  { cbn. unfold writer_at in E. by destruct (writers (sys t) !! i). }
  cbn [trace_step]. rewrite Es. cbn [rbind]. rewrite record_quiet by done.
  unfold record; cbn [copied written]. rewrite H1. destruct t. by destruct (writer_at _ _).
Qed.

(** The writer is before the lock. *)
Definition before_lock (pc : writer_pc) : bool :=
  match pc with
  | WStart _ | WClassify _ | WFast _ | WFastActive _ | WFastClosed _ _ | WFastPush _ _ _ | WFastCount
  | WLock _ => true
  | _ => false
  end.

(** What the invariant says of the double buffer a writer finds. *)
Lemma serial_open (n : Z) (t : trace H S) (sw : option (agent * switch_pc)) (i : nat)
    (w : writer) (s0 s : SmartBuffer) (bs : list nat) (f : nat → list BufferItem)
    (bss : list (list byte)) :
  serial_at n t sw i w s0 s bs f bss →
  state (db (sys t)) ≠ ClosedState ∧ SmartBuffer.state s0 ≠ ClosedState ∧
  get_buf (active (db (sys t))) (db (sys t)) = Ok s.
Proof.
  intros [Hex Ht Hring Hpush Hf Hmode Hi Hk Hch Hw Hret]. split_and!.
  - rewrite (ex_state _ _ _ _ Hex). by destruct sw.
  - destruct (view_active _ _ _ _ _ Hf) as (_ & _ & Hst). by destruct Hst as [-> | ->].
  - unfold get_buf. by rewrite Hring.
Qed.

Lemma serial_fast (n : Z) (o : oracle) (i : nat) (t : trace H S) (sw : option (agent * switch_pc))
    (w : writer) (s0 s : SmartBuffer) (bs : list nat) (f : nat → list BufferItem)
    (bss : list (list byte)) :
  serial_at n t sw i w s0 s bs f bss → trace_allowed range (TRun (EvWriter o i)) t →
  before_lock (wpc w) = true →
  ∃ t' : trace H S, trace_step range (TRun (EvWriter o i)) t = Ok t' ∧ serial n t'.
Proof.
  intros Hs Hal Hfast. destruct (serial_open _ _ _ _ _ _ _ _ _ _ Hs) as (Hopen & Hst & Hget).
  pose proof (se_push _ _ _ _ _ _ _ _ _ _ Hs) as Hpush. pose proof (se_turn _ _ _ _ _ _ _ _ _ _ Hs) as [Hlook _].
  assert (writer_at i (sys t) = wpc w) as Hat by (unfold writer_at; by rewrite Hlook).
  assert (serial n t) as Hser by (by exists sw, i, w, s0, s, bs, f, bss).
  destruct w as [pc rs]. cbn [wpc] in *. destruct pc; try done; cbn [half_pushed] in Hpush.
  - eapply (serial_goto n o t sw i _ s0 s bs f bss (WClassify p) Hs); try done.
    cbn [wpc writer_step]. by rewrite decide_False.
  - eapply serial_classify; [exact Hs|done|..]; cbn [trace_allowed] in Hal; rewrite Hat in Hal; apply Hal.
  - destruct (decide (state (db (sys t)) = WritingState)) as [Hd|Hd].
    + eapply (serial_goto n o t sw i _ s0 s bs f bss (WFastActive item) Hs); try done.
      cbn [wpc writer_step]. by rewrite decide_True.
    + eapply (serial_goto n o t sw i _ s0 s bs f bss (WLock item) Hs); try done.
      cbn [wpc writer_step]. by rewrite decide_False.
  - by eapply (serial_goto n o t sw i _ s0 s bs f bss (WFastClosed item (active (db (sys t)))) Hs).
  - destruct Hpush as [-> ->].
    eapply (serial_goto n o t sw i _ s0 s0 bs f bss (WFastPush item (active (db (sys t))) PushState) Hs); try done.
    cbn [wpc writer_step]. rewrite Hget. cbn [rbind]. by rewrite decide_False.
  - eapply (serial_push n o t sw i _ s0 s bs f bss item b pc (WFastPush item b)
      (λ err, match err with None => WFastCount | Some _ => WLock item end) Hs); try done.
    + intros ppc. split_and!; try done. by destruct ppc.
    + intros [err|]; split_and!; try done; [by right|by left].
    + by intros [err|].
    + cbn [writer_step]. by destruct (ring_step item b pc (db (sys t))) as [[? [?|[?|]]]| |].
  - eapply (serial_stay n o t sw i _ (mkWriter WIdle (rs ++ [None])) s0 s bs f bss
      (set_count (int32 (count (db (sys t)) + 1)) (db (sys t))) (writeLock (sys t)) Hs); try done.
    + cbn [writer_step wpc]. by rewrite (return_eq _ _ _ _ _ Hlook).
    + by eexists.
    + by left.
    + cbn [returned wpc counted]. rewrite successes_app, successes_one. lia.
  - destruct (writeLock (sys t)) as [a|] eqn:El.
    + apply serial_noop; rewrite ?Hat; try done. cbn [writer_step]. by rewrite El.
    + eapply (serial_stay n o t sw i _ (mkWriter (WSlowActive item) rs) s0 s bs f bss
        (db (sys t)) (Some (AWriter i)) Hs); try done; [|by exists (count (db (sys t))); rewrite set_count_id|by left].
      cbn [writer_step wpc]. by rewrite El, (goto_eq _ _ _ _ _ Hlook).
Qed.

Lemma serial_slow (n : Z) (o : oracle) (i : nat) (t : trace H S) (sw : option (agent * switch_pc))
    (w : writer) (s0 s : SmartBuffer) (bs : list nat) (f : nat → list BufferItem)
    (bss : list (list byte)) :
  serial_at n t sw i w s0 s bs f bss → before_lock (wpc w) = false →
  (∀ item pc, wpc w ≠ WSwitch item pc) →
  ∃ t' : trace H S, trace_step range (TRun (EvWriter o i)) t = Ok t' ∧ serial n t'.
Proof.
  intros Hs Hslow Hnsw. destruct (serial_open _ _ _ _ _ _ _ _ _ _ Hs) as (Hopen & Hst & Hget).
  pose proof (se_push _ _ _ _ _ _ _ _ _ _ Hs) as Hpush. pose proof (se_turn _ _ _ _ _ _ _ _ _ _ Hs) as [Hlook _].
  assert (writer_at i (sys t) = wpc w) as Hat by (unfold writer_at; by rewrite Hlook).
  assert (serial n t) as Hser by (by exists sw, i, w, s0, s, bs, f, bss).
  destruct w as [pc rs]. cbn [wpc] in *. destruct pc; try done; cbn [half_pushed] in Hpush.
  - by apply serial_noop; rewrite ?Hat.
  - by eapply (serial_goto n o t sw i _ s0 s bs f bss (WSlowState item (active (db (sys t)))) Hs).
  - destruct Hpush as [-> ->]. destruct (decide (GetState s0 = ReadOnly)) as [Hd|Hd].
    + eapply (serial_goto n o t sw i _ s0 s0 bs f bss (WSwitch item SwCas) Hs); try done.
      cbn [wpc writer_step]. rewrite Hget. cbn [rbind]. by rewrite decide_True.
    + eapply (serial_goto n o t sw i _ s0 s0 bs f bss (WSlowWrite item) Hs); try done.
      cbn [wpc writer_step]. rewrite Hget. cbn [rbind]. by rewrite decide_False.
  - by edestruct Hnsw.
  - by eapply (serial_goto n o t sw i _ s0 s bs f bss (WSlowClosed item (active (db (sys t)))) Hs).
  - destruct Hpush as [-> ->].
    eapply (serial_goto n o t sw i _ s0 s0 bs f bss (WSlowPush item (active (db (sys t))) PushState) Hs); try done.
    cbn [wpc writer_step]. rewrite Hget. cbn [rbind]. by rewrite decide_False.
  - eapply (serial_push n o t sw i _ s0 s bs f bss item b pc (WSlowPush item b)
      (λ err, match err with None => WSlowCount | Some _ => WUnlock err end) Hs); try done.
    + intros ppc. split_and!; try done. by destruct ppc.
    + intros [err|]; split_and!; try done; by left.
    + by intros [err|].
    + cbn [writer_step]. by destruct (ring_step item b pc (db (sys t))) as [[? [?|[?|]]]| |].
  - eapply (serial_stay n o t sw i _ (mkWriter (WUnlock None) rs) s0 s bs f bss
      (set_count (int32 (count (db (sys t)) + 1)) (db (sys t))) (writeLock (sys t)) Hs); try done; [| |by left].
    + cbn [writer_step wpc]. by rewrite (goto_eq _ _ _ _ _ Hlook).
    + by eexists.
  - eapply (serial_stay n o t sw i _ (mkWriter WIdle (rs ++ [err])) s0 s bs f bss
      (db (sys t)) None Hs); try done.
    + cbn [writer_step wpc]. by rewrite (return_eq _ _ _ _ _ Hlook).
    + by exists (count (db (sys t))); rewrite set_count_id.
    + by left.
    + cbn [returned wpc counted]. rewrite successes_app, successes_one. destruct err; lia.
Qed.

(** Every access of a writer. *)
Lemma serial_writer (n : Z) (o : oracle) (i : nat) (t : trace H S) :
  serial n t → trace_allowed range (TRun (EvWriter o i)) t →
  ∃ t' : trace H S, trace_step range (TRun (EvWriter o i)) t = Ok t' ∧ serial (n + 1) t'.
Proof.
  intros Hser Hal.
  assert ((∃ t' : trace H S, trace_step range (TRun (EvWriter o i)) t = Ok t' ∧ serial n t') →
    ∃ t' : trace H S, trace_step range (TRun (EvWriter o i)) t = Ok t' ∧ serial (n + 1) t') as Hweak.
  { intros (t' & ? & ?). exists t'. split; [done|]. eapply serial_weaken; [done|lia]. }
  pose proof Hser as (sw & k & w & s0 & s & bs & f & bss & Hs).
  pose proof (se_turn _ _ _ _ _ _ _ _ _ _ Hs) as Ht.
  destruct (decide (i = k)) as [->|Hne].
  - destruct (wpc w) as [| | | | | | | | | | |item pc| | | | |] eqn:Hpc;
      try (apply Hweak; eapply serial_fast; [exact Hs|done|by rewrite Hpc]);
      try (apply Hweak; eapply serial_slow; [exact Hs|by rewrite Hpc|by rewrite Hpc]).
    by eapply serial_writer_switch.
  - apply Hweak.
    assert (writer_at i (sys t) = WIdle) as Hat.
    { unfold writer_at. destruct (writers (sys t) !! i) eqn:E; [|done]. by eapply (proj2 Ht). }
    by apply serial_noop; rewrite ?Hat.
Qed.

(** ** The other steps *)

(** A step of the environment. *)
Lemma serial_env (n : Z) (t : trace H S) (sw : option (agent * switch_pc)) (i : nat) (w : writer)
    (s0 s : SmartBuffer) (bs bs' : list nat) (f f' : nat → list BufferItem)
    (bss bss' : list (list byte)) (d : DoubleBuffer H S) (cs : list (DataChunk free_action))
    (dl : list (list byte)) (rd : list (DataChunk free_action + error)) :
  serial_at n t sw i w s0 s bs f bss → rearranged (db (sys t)) d →
  bufs (objs d) !! active d = Some s → flow (view s0 (at_switch sw) d) bs' f' →
  readMode d = Some SafeRead → issued (view s0 (at_switch sw) d) ≤ n →
  kept (mem (objs d)) (queued (view s0 (at_switch sw) d) bs' f' ++ option_list (in_flight (wpc w)))
    (bss' ++ (if in_flight (wpc w) then [copied t] else [])) (SmallPool (pm d) ++ held cs) →
  (∀ c : DataChunk free_action, c ∈ cs → free c = Some (FreeSmall (data c))) →
  written t = dl ++ bss' →
  serial n (mkTrace H S (mkSystem d (writeLock (sys t)) (switchLock (sys t)) (writers (sys t))
    (monitor (sys t)) rd) cs (copied t) (written t) dl).
Proof.
  intros [Hex Ht Hring Hpush Hf Hmode Hi Hk Hch Hw Hret] Hr Hring' Hf' Hmode' Hi' Hk' Hch' Hw'.
  exists sw, i, w, s0, s, bs', f', bss'. constructor; try done; cbn [sys db].
  - by apply exclusive_db.
  - by rewrite (re_active _ _ Hr).
Qed.

(** The double buffer changes in nothing the flow depends on. *)
Lemma serial_same (n : Z) (t : trace H S) (d : DoubleBuffer H S) :
  serial n t → same_core (db (sys t)) d → mem (objs d) = mem_of t →
  SmallPool (pm d) = SmallPool (pm (db (sys t))) → serial n (with_db d t).
Proof.
  intros (sw & i & w & s0 & s & bs & f & bss & Hs) Hsame Hm Hp.
  pose proof Hs as [Hex Ht Hring Hpush Hf Hmode Hi Hk Hch Hw Hret].
  pose proof (view_same_core s0 (at_switch sw) _ _ Hsame) as Hv.
  destruct (flow_same _ _ _ _ Hv Hf) as [Hf' Hq].
  pose proof Hsame as (_ & _ & _ & _ & Ea & _ & _ & _ & _ & _ & _ & Eb & _ & Erm & _).
  apply (serial_env n t sw i w s0 s bs bs f f bss bss d _ _ _ Hs); try done.
  - by apply rearranged_same.
  - by rewrite Eb, Ea.
  - by rewrite Erm.
  - by rewrite (issued_same _ _ Hv).
  - by rewrite Hm, Hp, Hq.
Qed.

Lemma serial_call (n : Z) (i : nat) (p : slice) (t : trace H S) :
  serial n t → trace_allowed range (TRun (EvCall i p)) t →
  ∃ t' : trace H S, trace_step range (TRun (EvCall i p)) t = Ok t' ∧ serial n t'.
Proof.
  intros (sw & k & w & s0 & s & bs & f & bss & Hs) Hal. cbn [trace_allowed] in Hal.
  pose proof Hs as [Hex Ht Hring Hpush Hf Hmode Hi Hk Hch Hw Hret].
  assert (wpc w = WIdle) as Hidle by (by eapply (Forall_lookup_1 _ _ _ _ Hal), Ht).
  rewrite Hidle in *. cbn [half_pushed in_flight option_list counted] in *.
  destruct (writers (sys t) !! i) as [[pc rs]|] eqn:Hlook.
  - assert (pc = WIdle) as -> by (by eapply (Forall_lookup_1 _ _ _ _ Hal) in Hlook).
    assert (step range (EvCall i p) (sys t) = Ok (goto i (WStart p) (db (sys t)) (sys t))) as E
      by (cbn; by rewrite Hlook).
    eexists. split; [cbn [trace_step]; by rewrite E|].
    destruct (step_exclusive range _ _ _ _ _ _ Hex E) as [sw' Hex'].
    rewrite (goto_eq _ _ _ _ _ Hlook) in *. rewrite record_quiet by done.
    assert (sw' = sw) as ->.
    { apply (exclusive_same _ _ _ _ Hex Hex'). intros [j|]; [|done]. cbn -[critical_pc].
      destruct (decide (j = i)) as [->|Hne]; [|by rewrite list_lookup_insert_ne].
      by rewrite list_lookup_insert_eq, Hlook by (by eapply lookup_lt_Some). }
    exists sw, i, (mkWriter (WStart p) rs), s0, s, bs, f, bss. constructor; try done.
    + by eapply turn_move, turn_take.
    + cbn [sys writers written]. unfold record; cbn [written].
      pose proof (accepted_move _ _ _ (mkWriter (WStart p) rs) Hlook) as Hacc. cbn in Hacc |- *. lia.
  - exists (record (EvCall i p) (sys t) t).
    split; [cbn [trace_step step]; by rewrite Hlook|].
    rewrite record_quiet by done. unfold record; cbn [copied written]. destruct t.
    exists sw, k, w, s0, s, bs, f, bss. destruct Hs; by constructor.
Qed.

Lemma serial_go (n : Z) (i : nat) (t : trace H S) :
  serial n t → n < 2 ^ 63 → trace_allowed range (TRun (EvGo i)) t →
  ∃ t' : trace H S, trace_step range (TRun (EvGo i)) t = Ok t' ∧ serial n t'.
Proof.
  intros (sw & k & w & s0 & s & bs & f & bss & Hs) Hn Hal. cbn [trace_allowed] in Hal.
  pose proof Hs as [Hex Ht Hring Hpush Hf Hmode Hi Hk Hch Hw Hret].
  assert (∃ (d : DoubleBuffer H S) (bs' : list nat), run_goroutine range i (db (sys t)) = Ok d ∧
    carried (view s0 (at_switch sw) (db (sys t))) (view s0 (at_switch sw) d) bs bs' f) as
    (d & bs' & E & Hf' & Hq & Hi' & _ & _ & Hpm & Hm & Hrm).
  { destruct (decide (i < length (goroutines (db (sys t))))%nat) as [Hlt|Hge].
    - pose proof (run_goroutine_view range s0 (at_switch sw) i _ Hlt) as Ev.
      destruct (run_goroutine_ok range i _ bs f Hf) as (v & bs' & E & Hc).
      { by apply in_order_view. }
      { lia. }
      rewrite Ev in E by (exists s; split; [done|by eapply half_pushed_count]).
      destruct (run_goroutine range i (db (sys t))) as [d| |]; try done. injection E as <-.
      by exists d, bs'.
    - exists (db (sys t)), bs. unfold run_goroutine. by rewrite lookup_ge_None_2 by lia. }
  destruct (run_goroutine_rings range _ _ _ E) as [Eo Ea].
  exists (record (EvGo i) (set_db d (sys t)) t). split; [cbn [trace_step step]; by rewrite E|].
  rewrite record_quiet by done. unfold record; cbn [copied written].
  apply (serial_env n t sw k w s0 s bs bs' f f bss bss d _ _ _ Hs); try done.
  - by eapply run_goroutine_rearranged.
  - by rewrite Eo, Ea.
  - change (readMode (view s0 (at_switch sw) d) = Some SafeRead). by rewrite Hrm.
  - by rewrite Hi'.
  - rewrite Hq, Eo. change (pm d) with (pm (view s0 (at_switch sw) d)). by rewrite Hpm.
Qed.

Lemma serial_monitor (n : Z) (o : oracle) (t : trace H S) :
  serial n t → trace_allowed range (TRun (EvMonitor o)) t →
  ∃ t' : trace H S, trace_step range (TRun (EvMonitor o)) t = Ok t' ∧ serial (n + 1) t'.
Proof.
  intros (sw & i & w & s0 & s & bs & f & bss & Hs) Hal. cbn [trace_allowed] in Hal.
  pose proof Hs as [Hex Ht Hring Hpush Hf Hmode Hi Hk Hch Hw Hret].
  destruct (monitor (sys t)) as [|pc] eqn:Em.
  - set (d := if swapper (db (sys t)) then (needSwitch (now_switch o) (db (sys t))).1 else db (sys t)).
    set (m := if swapper (db (sys t)) then
      if (needSwitch (now_switch o) (db (sys t))).2 then MSwitch SwCas else MIdle else MIdle).
    assert (step range (EvMonitor o) (sys t) = Ok (set_monitor m d (sys t))) as E.
    { cbn [step]. unfold monitor_step, d, m. rewrite Em. destruct (swapper (db (sys t))).
      - by destruct (needSwitch _ _).
      - unfold set_monitor. rewrite <- Em at 1. by destruct (sys t). }
    eexists. split; [cbn [trace_step]; by rewrite E|]. rewrite record_quiet by done.
    destruct (step_exclusive range _ _ _ _ _ _ Hex E) as [sw' Hex'].
    assert (sw' = sw) as ->.
    { apply (exclusive_same _ _ _ _ Hex Hex'). intros [j|]; [done|]. cbn -[critical_pc d].
      rewrite Em. unfold m. by destruct (swapper _); [destruct (needSwitch _ _) as [? []]|]. }
    assert (same_core (db (sys t)) d ∧ pm d = pm (db (sys t)) ∧ mem (objs d) = mem_of t) as (Hsame & Epm & Emm).
    { unfold d, needSwitch. destruct (swapper _); [|done]. by destruct (poll _ _). }
    pose proof (view_same_core s0 (at_switch sw) _ _ Hsame) as Hv.
    destruct (flow_same _ _ _ _ Hv Hf) as [Hf' Hq].
    pose proof Hsame as (_ & _ & _ & _ & Ea & _ & _ & _ & _ & _ & _ & Eb & _ & Erm & _).
    exists sw, i, w, s0, s, bs, f, bss. unfold record; cbn [copied written].
    constructor; try done; unfold mem_of; cbn [sys db set_monitor].
    + by rewrite Eb, Ea.
    + by rewrite Ea.
    + by rewrite Erm.
    + rewrite (issued_same _ _ Hv). lia.
    + by rewrite Emm, Epm, Hq.
  - assert (match pc with SwActive _ _ => refers (wpc w) = None | _ => True end) as Hx.
    { destruct pc; try done. by eapply (Forall_lookup_1 _ _ _ _ Hal), Ht. }
    destruct (serial_switch n o t sw i w s0 s bs f bss AMonitor pc Hs) as (d' & l & next & E & Hnext).
    { cbn. by rewrite Em. }
    { destruct pc; try done. by eapply half_pushed_none. }
    set (y := set_switchLock l (set_monitor (match next with Some pc => MSwitch pc | None => MIdle end) d' (sys t))).
    assert (step range (EvMonitor o) (sys t) = Ok y) as Estep
      by (cbn [step]; unfold monitor_step; rewrite Em, E; done).
    destruct (step_exclusive range _ _ _ _ _ _ Hex Estep) as [sw' Hex'].
    destruct (Hnext y sw' Hex') as (s0' & s' & f' & H1 & H2 & H3 & H4 & (Epm & Emem & Erm) & H6).
    { cbn. by destruct next. }
    { by intros [j|] Hj. }
    exists (record (EvMonitor o) y t). split; [cbn [trace_step]; by rewrite Estep|].
    rewrite record_quiet by done. unfold record; cbn [copied written].
    exists sw', i, w, s0', s', bs, f', bss.
    constructor; try done; unfold mem_of; cbn [sys chunks written delivered copied]; try (change (db y) with d').
    + by eapply switched_half_pushed.
    + by rewrite Erm.
    + by rewrite Emem, Epm, H3.
Qed.

(** A read that ends in [d'] and returns [r]. *)
Lemma serial_returned (n : Z) (o : oracle) (sleeps : list (list nat)) (t : trace H S)
    (sw : option (agent * switch_pc)) (i : nat) (w : writer) (s0 s : SmartBuffer) (bs bs' : list nat)
    (f f' : nat → list BufferItem) (bss : list (list byte)) (d' : DoubleBuffer H S)
    (r : DataChunk free_action + error) :
  let d := db (sys t) in
  serial_at n t sw i w s0 s bs f bss → rearranged d d' → untouched d d' →
  flow (view s0 (at_switch sw) d') bs' f' → readMode d' = Some SafeRead →
  issued (view s0 (at_switch sw) d') = issued (view s0 (at_switch sw) d) →
  match r with
  | inl c => free c = Some (FreeSmall (data c)) ∧
      ∃ (x : list byte) (bss' : list (list byte)), bss = x :: bss' ∧
        slice_bytes (mem (objs d')) (Bytes c) = Some x ∧
        kept (mem (objs d')) (queued (view s0 (at_switch sw) d') bs' f' ++ option_list (in_flight (wpc w)))
          (bss' ++ (if in_flight (wpc w) then [copied t] else [])) (SmallPool (pm d') ++ held (chunks t ++ [c]))
  | inr _ => kept (mem (objs d')) (queued (view s0 (at_switch sw) d') bs' f' ++ option_list (in_flight (wpc w)))
      (bss ++ (if in_flight (wpc w) then [copied t] else [])) (SmallPool (pm d') ++ held (chunks t))
  end →
  serial n (record (EvRead o sleeps) (mkSystem d' (writeLock (sys t)) (switchLock (sys t))
    (writers (sys t)) (monitor (sys t)) (reads (sys t) ++ [r])) t).
Proof.
  intros d Hs Hre [Ea Eb] Hf' Hm' Hi' Hr. pose proof Hs as [Hex Ht Hring Hpush Hf Hmode Hi Hk Hch Hw Hret].
  unfold record. cbn [reads]. rewrite drop_app_length.
  destruct r as [c|err]; cbn [omap list_omap fmap list_fmap].
  - destruct Hr as (Hfree & x & bss' & -> & Hx & Hk').
    apply (serial_env n t sw i w s0 s bs bs' f f' (x :: bss') bss' d' _ _ _ Hs); try done.
    + by rewrite Ea, Eb.
    + by rewrite Hi'.
    + intros c' [?|Hc']%elem_of_app; [by apply Hch|]. by apply list_elem_of_singleton in Hc' as ->.
    + cbn [db]. rewrite Hx, Hw. cbn. by rewrite <- app_assoc.
  - rewrite !app_nil_r.
    apply (serial_env n t sw i w s0 s bs bs' f f' bss bss d' _ _ _ Hs); try done.
    + by rewrite Ea, Eb.
    + by rewrite Hi'.
Qed.

Lemma serial_read (n : Z) (o : oracle) (sleeps : list (list nat)) (t : trace H S) :
  serial n t → n < 2 ^ 63 - 1 → trace_allowed range (TRun (EvRead o sleeps)) t →
  ∃ t' : trace H S, trace_step range (TRun (EvRead o sleeps)) t = Ok t' ∧ serial n t'.
Proof.
  intros (sw & i & w & s0 & s & bs & f & bss & Hs) Hn Hal. cbn [trace_allowed] in Hal.
  pose proof Hs as [Hex Ht Hring Hpush Hf Hmode Hi Hk Hch Hw Hret].
  set (d := db (sys t)) in *.
  assert (pq_wf (pendingHeap d)) as Hwf by apply (ex_heap _ _ _ _ Hex).
  destruct (tryRead_view range s0 (at_switch sw) o sleeps d Hwf) as (sleeps' & Ev & Hcalm & Hun).
  { pose proof (ow_nodup _ _ (ex_rings _ _ _ _ Hex eq_refl)) as Hnd. fold d in Hnd. cbn in Hnd.
    apply NoDup_cons in Hnd as [Hnd _]. rewrite elem_of_app in Hnd. tauto. }
  { exists s. split; [done|by eapply half_pushed_count]. }
  destruct (tryRead_more range o sleeps' (view s0 (at_switch sw) d) bs f bss (chunks t)
    (option_list (in_flight (wpc w))) (if in_flight (wpc w) then [copied t] else []) Hf) as
    (v & bs' & f' & r & E & Hf' & Hm' & Hi' & Hr); try done.
  { lia. }
  { by destruct (in_flight (wpc w)). }
  { apply Hcalm. intros d1 E. by rewrite E in Hal. }
  rewrite Ev in E. destruct (tryRead range o sleeps d) as [[d' r']| |] eqn:E'; try done.
  cbn in E. injection E as <- ->. eexists. split.
  { cbn [trace_step step]. fold d. by rewrite E'. }
  eapply serial_returned; [exact Hs|by eapply tryRead_rearranged|by eapply Hun|done..].
Qed.

Lemma serial_release (n : Z) (k : nat) (t : trace H S) :
  serial n t → ∃ t' : trace H S, trace_step range (TRelease k) t = Ok t' ∧ serial n t'.
Proof.
  intros Hser. cbn [trace_step]. destruct (chunks t !! k) as [c|] eqn:Ec; [|by exists t].
  destruct Hser as (sw & i & w & s0 & s & bs & f & bss & Hs).
  pose proof Hs as [Hex Ht Hring Hpush Hf Hmode Hi Hk Hch Hw Hret].
  unfold Release. rewrite (Hch c) by (by eapply list_elem_of_lookup_2).
  eexists. split; [done|]. cbn [snd].
  apply (serial_env n t sw i w s0 s bs bs f f bss bss _ _ _ _ Hs); try done.
  - by apply kept_release.
  - intros c' Hc'. apply Hch. rewrite (delete_Permutation _ _ _ Ec). by right.
Qed.

Lemma serial_alloc (n : Z) (k : nat) (t : trace H S) :
  serial n t → serial n (with_db (set_mem (alloc k (mem_of t)).1 (db (sys t))) t).
Proof.
  intros (sw & i & w & s0 & s & bs & f & bss & Hs).
  pose proof Hs as [Hex Ht Hring Hpush Hf Hmode Hi Hk Hch Hw Hret].
  apply (serial_env n t sw i w s0 s bs bs f f bss bss _ _ _ _ Hs); try done.
  by apply kept_grow.
Qed.

(** The items without the push are all in the ring as it is. *)
Lemma half_pushed_items (pc : writer_pc) (a : nat) (s0 s : SmartBuffer) (its : list BufferItem)
    (x : BufferItem) :
  half_pushed pc a s0 s → repr s0 (-1) its → x ∈ its → x ∈ SmartBuffer.buf s.
Proof.
  intros Hh Hr Hx.
  assert (∀ item ppc, mid_push item ppc s0 s → x ∈ SmartBuffer.buf s) as Hm.
  { intros item ppc Hm.
    destruct (decide (ppc = PushAdd)) as [->|Hne].
    - destruct Hm as [-> Hlt]. rewrite (repr_count _ _ _ Hr) in *.
      apply (repr_in_buf (pushed item (-1 + Z.of_nat (length its)) s0) (-1) (its ++ [item])).
      + by apply pushed_repr.
      + apply elem_of_app. by left.
    - eapply repr_in_buf in Hr; [|exact Hx]. destruct ppc; cbn in Hm; destruct_and?; by subst. }
  destruct pc; cbn in Hh; try (by subst; eapply repr_in_buf); destruct Hh as [_ Hh];
    try (by subst; eapply repr_in_buf); by eapply Hm.
Qed.

Lemma serial_store (n : Z) (p : Z) (l : list byte) (t : trace H S) :
  serial n t → trace_allowed range (TStore p l) t →
  serial n (with_db (set_mem (store p l (mem_of t)) (db (sys t))) t).
Proof.
  intros (sw & i & w & s0 & s & bs & f & bss & Hs) (Hp & Hb & Hsl & _).
  pose proof Hs as [Hex Ht Hring Hpush Hf Hmode Hi Hk Hch Hw Hret].
  apply (serial_env n t sw i w s0 s bs bs f f bss bss _ _ _ _ Hs); try done.
  change (kept (store p l (mem_of t))
    (queued (view s0 (at_switch sw) (db (sys t))) bs f ++ option_list (in_flight (wpc w)))
    (bss ++ (if in_flight (wpc w) then [copied t] else []))
    (SmallPool (pm (db (sys t))) ++ held (chunks t))).
  apply kept_store_apart; [done..|]. rewrite Forall_forall in Hsl.
  intros x [Hx|Hx]%elem_of_app; apply Hsl, elem_of_app.
  - left. destruct (queued_stored _ _ _ _ Hf Hx) as (b & s1 & T & E & Hr & Hxb). cbn in E.
    destruct (decide (b = active (db (sys t)))) as [->|Hne].
    + eapply ring_slots; [exact Hring|]. eapply half_pushed_items; [done| |done].
      by apply (view_active _ _ _ _ _ Hf).
    + rewrite lookup_insert_ne in E by done. eapply ring_slots; [exact E|]. by eapply repr_in_buf.
  - right. destruct (in_flight (wpc w)) as [y|] eqn:E; [|by apply elem_of_nil in Hx].
    apply list_elem_of_singleton in Hx as ->. by eapply (turn_omap in_flight).
Qed.

(** ** Runs *)

Lemma serial_step (n : Z) (ev : trace_event) (t : trace H S) :
  serial n t → n < 2 ^ 63 - 1 → trace_allowed range ev t →
  ∃ t' : trace H S, trace_step range ev t = Ok t' ∧ serial (n + 1) t'.
Proof.
  intros Hs Hn Hal.
  assert ((∃ t' : trace H S, trace_step range ev t = Ok t' ∧ serial n t') →
    ∃ t' : trace H S, trace_step range ev t = Ok t' ∧ serial (n + 1) t') as Hweak.
  { intros (t' & E & Hs'). exists t'. split; [done|]. eapply serial_weaken; [done|]. apply Z.le_succ_diag_r. }
  destruct ev as [[i p|o i|o|i|o sleeps|k]|k|clock mo bo|k|p l].
  - apply Hweak. by apply serial_call.
  - by apply serial_writer.
  - by apply serial_monitor.
  - apply Hweak. apply serial_go; [done|lia|done].
  - apply Hweak. by apply serial_read.
  - done.
  - apply Hweak. by apply serial_release.
  - apply Hweak. eexists. split; [done|]. apply serial_same; [done|..];
      unfold asyncRecycleWorker_tick; by destruct (recycler _).
  - apply Hweak. eexists. split; [done|]. by apply serial_alloc.
  - apply Hweak. eexists. split; [done|]. by apply serial_store.
Qed.

Lemma serial_run (n : Z) (evs : list trace_event) (t : trace H S) :
  serial n t → n + Z.of_nat (length evs) < 2 ^ 63 → trace_allowed_all range evs t →
  ∃ t' : trace H S, trace_run range evs t = Ok t' ∧ serial (n + Z.of_nat (length evs)) t'.
Proof.
  revert n t. induction evs as [|ev evs IH]; intros n t Hs Hn Hal.
  { exists t. split; [done|]. eapply serial_weaken; [done|lia]. }
  cbn [length] in *. destruct Hal as [Hev Hal].
  destruct (serial_step n ev t Hs ltac:(lia) Hev) as (t1 & E & Hs1). cbn [trace_run]. rewrite E in *.
  cbn [rbind]. destruct (IH (n + 1) t1 Hs1) as (t2 & E2 & Hs2); [lia|done|].
  exists t2. split; [done|]. eapply serial_weaken; [done|lia].
Qed.
End serial.

Lemma trace_start_serial {H S : Type} `{!PendingQueue H, !PendingQueueLaws H, !SwitchStrategy S}
    (k : nat) (n : Z) (cond : SwitchCondition) (opts : list Z) (s : S) (now : Z)
    (m : memory) (d : DoubleBuffer H S) :
  (0 < k)%nat → 0 < n < 2 ^ 31 → mem_wf m → NewDoubleBuffer n cond opts s now m = Ok (inl d) →
  serial (stop_closed d) 0 (trace_start k d).
Proof.
  intros Hk Hn Hm E. destruct (NewDoubleBuffer_flow n cond opts s now m d Hn E) as (Hf & Hq & Hi & Em & Hp).
  change (trace_start k d) with
    (mkTrace H S (DoubleBufferConc.start k (set_readMode (Some SafeRead) d)) [] [] [] []).
  destruct (fl_active (proj2 Hf)) as (s0 & (Ering & _) & _).
  assert (view s0 None (set_readMode (Some SafeRead) d) = set_readMode (Some SafeRead) d) as Hv.
  { pose proof (proj1 Hf) as Est. destruct d, objs. cbn in *. subst.
    unfold view, view_pool, view_goroutines. cbn. by rewrite !app_nil_r, insert_id. }
  exists None, 0%nat, (mkWriter WIdle []), s0, s0, [], (λ _, []), []. constructor; cbn [sys fmap option_fmap option_map].
  - by apply (start_exclusive k (set_readMode (Some SafeRead) d) [] (λ _, [])).
  - destruct k as [|k]; [lia|]. by apply turn_take; [apply Forall_replicate|].
  - done.
  - done.
  - cbn [db DoubleBufferConc.start]. by rewrite Hv.
  - done.
  - cbn [db DoubleBufferConc.start]. rewrite Hv. change (issued d ≤ 0). lia.
  - cbn [db DoubleBufferConc.start]. rewrite Hv. unfold mem_of. cbn. rewrite Em, Hp.
    change (queued (set_readMode (Some SafeRead) d) [] (λ _, [])) with (queued d [] (λ _, [])).
    rewrite Hq. constructor; try done; [by intros s1 ?%elem_of_nil|by intros x s1 ?%elem_of_nil].
  - by intros c ?%elem_of_nil.
  - done.
  - cbn. unfold accepted. clear. induction k; [done|done].
Qed.

(** Delivery holds between the accesses too.  Any number of writers call
    [Write] one at a time, each a sequence of accesses to shared memory, and
    between any two of them the monitor, the goroutines of the switches, a
    reader, the pools and the users take steps in any order.  As long as the
    monitor exchanges the rings while no writer holds a reference to one (and
    the goroutines take their numbers in order, and no one stores to memory
    the library holds), nothing panics, at every moment the byte strings
    delivered are a prefix of the byte strings whose push took effect, and
    whenever no call is under way these are as many as the calls that
    returned nil. *)
Theorem turns_deliver_in_order {H S : Type} `{PendingQueueLaws H, !SwitchStrategy S}
    (range : gmap Z nat → list (Z * nat)) (k : nat) (n : Z) (cond : SwitchCondition)
    (opts : list Z) (s : S) (now : Z) (m : memory) (d : DoubleBuffer H S) (evs : list trace_event)
    (Hrange : RangeOrder range) (Hk : (0 < k)%nat) (Hn : 0 < n < 2 ^ 31) (Hm : mem_wf m)
    (Hd : NewDoubleBuffer n cond opts s now m = Ok (inl d))
    (Hlen : Z.of_nat (length evs) < 2 ^ 63) (Hallowed : trace_allowed_all range evs (trace_start k d)) :
  ∃ t : trace H S, trace_run range evs (trace_start k d) = Ok t ∧
    (∃ rest : list (list byte), written t = delivered t ++ rest) ∧
    (Forall (λ w, wpc w = WIdle) (writers (sys t)) →
     length (written t) = accepted (writers (sys t))).
Proof.
  destruct (serial_run range (stop_closed d) 0 evs (trace_start k d)) as (t & E & Hs);
    [by eapply trace_start_serial|done|done|].
  exists t. split; [done|]. destruct Hs as (sw & i & w & s0 & s1 & bs & f & bss & []).
  split; [by exists bss|]. intros Hidle. rewrite se_returned0.
  replace (wpc w) with WIdle; [cbn; lia|]. symmetry.
  by eapply (Forall_lookup_1 _ _ _ _ Hidle), se_turn0.
Qed.

(** The first writer fills the ring, and its slice is overwritten; the second
    finds the ring full and switches; while it pushes, the goroutine of the
    switch runs, the monitor looks, and a reader takes and releases what the
    first wrote; then the first writes again. *)
Definition turns_evs : list trace_event :=
  TRun (EvCall 0 demo_p) :: replicate 14 (TRun (EvWriter demo_oracle 0)) ++
  TStore 5 [x00; x00] :: TRun (EvCall 1 demo_q) :: replicate 29 (TRun (EvWriter demo_oracle 1)) ++
  replicate 4 (TRun (EvGo 0)) ++ [TRun (EvMonitor demo_oracle); TRun (EvRead demo_oracle []); TRelease 0] ++
  replicate 8 (TRun (EvWriter demo_oracle 1)) ++
  TRun (EvCall 0 demo_p) :: replicate 40 (TRun (EvWriter demo_oracle 0)).

Definition turns_end : trace WrapHeap DefaultStrategy :=
  get_ok (trace_start 2 demo) (trace_run map_to_list turns_evs (trace_start 2 demo)).

Lemma turns_allowed : trace_allowed_all map_to_list turns_evs (trace_start 2 demo).
Proof.
  vm_compute. repeat split; try discriminate; try (by eexists); try (by repeat constructor; discriminate).
Qed.

Lemma turns_deliver_in_order_witness :
  (writers (sys turns_end) = [mkWriter WIdle [None; None]; mkWriter WIdle [None]] ∧
   written turns_end = [[x11; x22]; [xaa; xbb; xcc]; [x00; x00]] ∧
   delivered turns_end = [[x11; x22]]) ∧
  ∃ t : trace WrapHeap DefaultStrategy, trace_run map_to_list turns_evs (trace_start 2 demo) = Ok t ∧
    (∃ rest : list (list byte), written t = delivered t ++ rest) ∧
    (Forall (λ w, wpc w = WIdle) (writers (sys t)) →
     length (written t) = accepted (writers (sys t))).
Proof.
  split; [vm_compute; by split_and!|].
  eapply (turns_deliver_in_order map_to_list 2 1 _ _ _ _ demo_mem demo turns_evs).
  - apply map_to_list_RangeOrder.
  - lia.
  - split; reflexivity.
  - apply demo_mem_wf.
  - apply demo_ok.
  - reflexivity.
  - apply turns_allowed.
Defined.
