(* ===== verification/DoubleBufferMemory.v ===== *)
(** * Memory safety of the interleavings

    What holds in every interleaving of [DoubleBufferTurns.trace_run], also
    when any number of writers are inside [Write] at once, the goroutines of
    the switches take their numbers in any order, and users overwrite memory
    the library holds: nothing panics, and the chunks readers get are made of
    mapped memory.  The data may be wrong there, but no pointer is. *)
From stdpp Require Import functions.
From S2P Require Import Prelude.
From S2P Require Import Consts.
From S2P Require Import Interfaces.
From S2P Require Import Runtime.
From S2P Require Import SmartBuffer.
From S2P Require Import SmartBufferConc.
From S2P Require Import SwitchStrategy.
From S2P Require Import SwitchConfig.
From S2P Require Import Waiters.
From S2P Require Import MediumPool.
From S2P Require Import BigDataPool.
From S2P Require Import LifeCycle.
From S2P Require Import DataChunk.
From S2P Require Import WrapHeap.
From S2P Require Import DoubleBuffer.
From S2P Require Import DoubleBufferFlow.
From S2P Require Import DoubleBufferDelivery.
From S2P Require Import DoubleBufferConc.
From S2P Require Import DoubleBufferTurns.
Open Scope Z_scope.
Open Scope go_scope.

(** ** Mapped memory *)

Definition mapped (m : memory) (p n : Z) : Prop :=
  0 < p ∧ ∀ a : Z, p ≤ a < p + n → is_Some (bytes m !! a).

(** Every address that was mapped is mapped. *)
Definition extends (m m' : memory) : Prop :=
  brk m ≤ brk m' ∧ ∀ a : Z, is_Some (bytes m !! a) → is_Some (bytes m' !! a).

#[export] Instance extends_preorder : PreOrder extends.
Proof. split; [by intros m|]. intros m1 m2 m3 [H1 H2] [H3 H4]. split; [lia|auto]. Qed.

Lemma mapped_extends (m m' : memory) (p n : Z) : extends m m' → mapped m p n → mapped m' p n.
Proof. intros [_ He] [Hp Hm]. split; [done|]. auto. Qed.

Lemma mapped_load (m : memory) (p n : Z) :
  mapped m p n → ∃ l : list byte, load m p (Z.to_nat n) = Some l.
Proof.
  intros [_ Hm]. unfold load. apply (proj2 (mapM_is_Some (λ a, bytes m !! a) _)).
  apply Forall_forall. intros a Ha%elem_of_seqZ. apply Hm. lia.
Qed.

Lemma load_mapped (m : memory) (p n : Z) (l : list byte) :
  mem_wf m → 0 < n → load m p (Z.to_nat n) = Some l → mapped m p n.
Proof.
  intros Hwf Hn Hl. destruct (load_range m p (Z.to_nat n) l Hwf ltac:(lia) Hl) as [Hp _].
  split; [done|]. intros a Ha. apply load_lookup in Hl as [Hlen Hl].
  destruct (lookup_lt_is_Some_2 l (Z.to_nat (a - p))) as [b Hb]; [lia|]. exists b.
  replace a with (p + Z.of_nat (Z.to_nat (a - p))) by lia. by apply Hl.
Qed.

Lemma mapped_below (m : memory) (p n : Z) : mem_wf m → 0 < n → mapped m p n → p + n ≤ brk m.
Proof. intros [_ Hwf] Hn [_ Hm]. specialize (Hm (p + n - 1) ltac:(lia)). apply Hwf in Hm. lia. Qed.

Lemma store_extends (p : Z) (l : list byte) (m : memory) : extends m (store p l m).
Proof.
  split; [done|]. intros a Ha. rewrite lookup_store. case_decide; [|done].
  apply lookup_lt_is_Some_2. lia.
Qed.

Lemma alloc_extends (n : nat) (m : memory) : extends m (alloc n m).1.
Proof.
  rewrite alloc_eq. split; [cbn; lia|]. intros a Ha. by apply (store_extends (brk m) (replicate n x00) m).
Qed.

Lemma mapped_store (p n : Z) (l : list byte) (m : memory) :
  0 < p → n = Z.of_nat (length l) → mapped (store p l m) p n.
Proof.
  intros Hp ->. split; [done|]. intros a Ha. rewrite lookup_store, decide_True by done.
  apply lookup_lt_is_Some_2. lia.
Qed.

(** ** The invariant of the double buffer *)

Section memory.
  Context {H S : Type} `{!PendingQueue H, !PendingQueueLaws H, !SwitchStrategy S}.
  Context (range : gmap Z nat → list (Z * nat)) `{!RangeOrder range}.

(** What is known of the slices given to [Write]: address and length. *)
Context (Named : Z → Z → Prop).

(** An item that carries data; from 1024 bytes on it is the caller's slice. *)
Definition carries (m : memory) (it : BufferItem) : Prop :=
  mapped m (Ptr it) (Size it) ∧ 0 < Size it < 2 ^ 31 ∧
  (SmallDataThreshold ≤ Size it → Named (Ptr it) (Size it)).

Definition ring_safe (sz : Z) (m : memory) (s : SmartBuffer) : Prop :=
  capacity s = sz ∧ Z.of_nat (length (SmartBuffer.buf s)) = sz ∧
  Forall (λ it, it = zeroItem ∨ carries m it) (SmartBuffer.buf s).

(** A slice of the small pool. *)
Definition pooled (m : memory) (s : slice) : Prop :=
  0 < sptr s ∧ 0 ≤ scap s ∧ sptr s + scap s ≤ brk m.

Definition goroutine_rings (g : goroutine) : list nat :=
  match g with GNumber b | GPush _ b | GLen b => [b] | GNotify _ => [] end.

(** Every ring a field or a goroutine refers to. *)
Definition refs (d : DoubleBuffer H S) : list nat :=
  active d :: passive d :: option_list (currentBuffer d) ++ pool d ++
  (pq_contents (pendingHeap d)).*2 ++ (goroutines d ≫= goroutine_rings).

Definition has_ring (d : DoubleBuffer H S) (b : nat) : Prop := is_Some (bufs (objs d) !! b).

Record safe (d : DoubleBuffer H S) : Prop := {
  sf_size : 0 < size d < 2 ^ 31;
  sf_mem : mem_wf (mem (objs d));
  sf_rings : map_Forall (λ _ s, ring_safe (size d) (mem (objs d)) s) (bufs (objs d));
  sf_refs (b : nat) : b ∈ refs d → has_ring d b;
  sf_heap : pq_wf (pendingHeap d);
  sf_wm : Waiters.wf (wm d) ∧ closed (wm d) = false;
  sf_mode : readMode d ≠ None;
  sf_pool : Forall (pooled (mem (objs d))) (SmallPool (pm d))
}.

(** Rings, mapped memory and the capacity are there to stay. *)
Definition grows (d d' : DoubleBuffer H S) : Prop :=
  size d' = size d ∧ extends (mem (objs d)) (mem (objs d')) ∧ ∀ b : nat, has_ring d b → has_ring d' b.

#[export] Instance grows_preorder : PreOrder grows.
Proof.
  split; [by intros d|]. intros d1 d2 d3 (H1 & H2 & H3) (H4 & H5 & H6). split; [congruence|].
  split; [by etrans|auto].
Qed.

Lemma carries_extends (m m' : memory) (it : BufferItem) : extends m m' → carries m it → carries m' it.
Proof. intros He (Hm & Hs & Hn). split; [by eapply mapped_extends|done]. Qed.

Lemma ring_safe_extends (sz : Z) (m m' : memory) (s : SmartBuffer) :
  extends m m' → ring_safe sz m s → ring_safe sz m' s.
Proof.
  intros He (H1 & H2 & H3). split_and!; [done|done|]. eapply Forall_impl; [exact H3|].
  intros it [?|?]; [by left|right; by eapply carries_extends].
Qed.

Lemma pooled_extends (m m' : memory) (s : slice) : extends m m' → pooled m s → pooled m' s.
Proof. intros [Hb _] (H1 & H2 & H3). split_and!; [done|done|lia]. Qed.

(** ** Frames: what a step leaves as it is *)

Lemma safe_objs (d d' : DoubleBuffer H S) :
  safe d → size d' = size d → objs d' = objs d → (∀ b, b ∈ refs d' → has_ring d b) →
  pq_wf (pendingHeap d') → Waiters.wf (wm d') ∧ closed (wm d') = false →
  readMode d' = readMode d → Forall (pooled (mem (objs d))) (SmallPool (pm d')) →
  safe d' ∧ grows d d'.
Proof.
  intros [H1 H2 H3 H4 H5 H6 H7 H8] Hs Ho Hr Hh Hw Hm Hp. unfold grows, has_ring in *.
  rewrite Hs, Ho. split; [|done]. by constructor; unfold has_ring; rewrite ?Hs, ?Ho, ?Hm.
Qed.

Lemma safe_set_mem (m : memory) (d : DoubleBuffer H S) :
  safe d → extends (mem (objs d)) m → mem_wf m → safe (set_mem m d) ∧ grows d (set_mem m d).
Proof.
  intros [H1 H2 H3 H4 H5 H6 H7 H8] He Hm. split; [|by split].
  constructor; try done.
  - intros b s Hb. eapply ring_safe_extends; [done|]. by apply (H3 b).
  - eapply Forall_impl; [exact H8|]. intros s. by apply pooled_extends.
Qed.

Lemma safe_set_buf (b : nat) (s : SmartBuffer) (d : DoubleBuffer H S) :
  safe d → ring_safe (size d) (mem (objs d)) s →
  safe (DoubleBuffer.set_buf b s d) ∧ grows d (DoubleBuffer.set_buf b s d).
Proof.
  intros [H1 H2 H3 H4 H5 H6 H7 H8] Hs.
  assert (∀ b', has_ring d b' → has_ring (DoubleBuffer.set_buf b s d) b') as Hg.
  { intros b' Hb'. apply lookup_insert_is_Some'. by right. }
  split; [|by split]. constructor; try done.
  - by apply map_Forall_insert_2.
  - intros b' Hb'. by apply Hg, H4.
Qed.

Lemma get_safe (b : nat) (d : DoubleBuffer H S) :
  safe d → has_ring d b → ∃ s : SmartBuffer, get_buf b d = Ok s ∧ ring_safe (size d) (mem (objs d)) s.
Proof.
  intros Hs [s E]. exists s. unfold get_buf. rewrite E. split; [done|]. by eapply (sf_rings d Hs).
Qed.

(** ** Rings and slices from the pools *)

Lemma safe_insert (b nx : nat) (s : SmartBuffer) (d : DoubleBuffer H S) :
  safe d → ring_safe (size d) (mem (objs d)) s →
  let d' := set_objs (mkObjects (mem (objs d)) (<[b := s]> (bufs (objs d))) nx) d in
  safe d' ∧ grows d d'.
Proof. intros Hs Hr d'. destruct (safe_set_buf b s d Hs Hr) as [[] ?]. by split. Qed.

Lemma new_ring_safe (sz : Z) (m : memory) :
  0 < sz → ∃ s : SmartBuffer, NewSmartBuffer sz = Ok s ∧ ring_safe sz m s.
Proof.
  intros Hsz. unfold NewSmartBuffer. rewrite decide_True by lia. eexists. split; [done|].
  split_and!; cbn; [done|rewrite length_replicate; lia|]. apply Forall_replicate. by left.
Qed.

Lemma pool_Get_safe (choice : option nat) (d : DoubleBuffer H S) :
  safe d → ∃ (d' : DoubleBuffer H S) (b : nat), pool_Get choice d = Ok (d', b) ∧
    safe d' ∧ grows d d' ∧ has_ring d' b.
Proof.
  intros Hs. unfold pool_Get. destruct (pool_take choice (pool d)) as [[b rest]|] eqn:E.
  - apply pool_take_Some in E. exists (set_pool rest d), b. split; [done|].
    assert (∀ b', b' ∈ refs (set_pool rest d) → b' ∈ refs d) as Hsub.
    { intros b'. unfold refs. cbn. rewrite E. rewrite !elem_of_cons, !elem_of_app, elem_of_cons. tauto. }
    assert (has_ring d b) as Hb.
    { apply (sf_refs d Hs). unfold refs. rewrite E. rewrite !elem_of_cons, !elem_of_app, elem_of_cons. tauto. }
    destruct (safe_objs d (set_pool rest d) Hs) as [? ?]; try done; try apply Hs.
    intros b' Hb'. by apply (sf_refs d Hs), Hsub.
  - destruct (new_ring_safe (size d) (mem (objs d))) as (s & E1 & Hr); [apply Hs|].
    unfold new_buf. rewrite E1. cbn [rbind].
    destruct (safe_insert (next (objs d)) (Datatypes.S (next (objs d))) s d Hs Hr) as [Hs' Hg].
    eexists _, _. split; [done|]. split; [exact Hs'|]. split; [exact Hg|].
    unfold has_ring. cbn. by rewrite lookup_insert_eq.
Qed.

Lemma make_bytes_safe (len cap : Z) (m : memory) :
  mem_wf m → 0 ≤ len ≤ cap → ∃ (m' : memory) (s : slice), make_bytes len cap m = Ok (m', s) ∧
    extends m m' ∧ mem_wf m' ∧ pooled m' s ∧ slen s = len ∧ scap s = cap ∧ mapped m' (sptr s) cap.
Proof.
  intros Hm Hc. unfold make_bytes. rewrite decide_True by lia.
  pose proof (alloc_extends (Z.to_nat cap) m) as He. pose proof (alloc_wf (Z.to_nat cap) m Hm) as Hm'.
  rewrite alloc_eq in *. eexists _, _. split; [done|]. cbn [fst] in *. cbn [sptr slen scap].
  split_and!; try done.
  - pose proof (proj1 Hm). split_and!; cbn; lia.
  - assert (cap = Z.of_nat (length (replicate (Z.to_nat cap) x00))) as El by (rewrite length_replicate; lia).
    exact (mapped_store (brk m) cap _ m (proj1 Hm) El).
Qed.

Lemma SmallPool_Get_safe (choice : option nat) (l : LifeCycleManager) (m : memory) :
  mem_wf m → Forall (pooled m) (SmallPool l) →
  ∃ (l' : LifeCycleManager) (m' : memory) (s : slice), SmallPool_Get choice l m = Ok (l', m', s) ∧
    extends m m' ∧ mem_wf m' ∧ Forall (pooled m') (SmallPool l') ∧ pooled m' s.
Proof.
  intros Hm Hp. unfold SmallPool_Get. destruct (pool_take choice (SmallPool l)) as [[s rest]|] eqn:E.
  - apply pool_take_Some in E. rewrite E in Hp. apply Forall_cons in Hp as [Hs Hr].
    by exists (mkLifeCycle rest (Medium l) (BigData l)), m, s.
  - destruct (make_bytes_safe 0 initializeBufSize m Hm) as (m' & s & -> & He & Hm' & Hs & _); [done|].
    exists l, m', s. cbn. split_and!; try done. eapply Forall_impl; [exact Hp|].
    intros x. by apply pooled_extends.
Qed.

Lemma small_copy_safe (o : oracle) (n : Z) (src : slice) (d : DoubleBuffer H S) :
  safe d → 0 < n < 2 ^ 31 → slen src = n → mapped (mem (objs d)) (sptr src) n →
  ∃ (d' : DoubleBuffer H S) (buf : slice), small_copy o n src d = Ok (d', buf) ∧ safe d' ∧
    grows d d' ∧ pooled (mem (objs d')) buf ∧ slen buf = n ∧ mapped (mem (objs d')) (sptr buf) n.
Proof.
  intros Hs Hn Hl Hsrc. unfold small_copy.
  destruct (SmallPool_Get_safe (small_choice o) (pm d) (mem (objs d))) as
    (l & m1 & b1 & -> & He1 & Hm1 & Hp1 & Hb1); [apply Hs..|]. cbn [rbind].
  assert (∃ (m2 : memory) (b2 : slice),
    (if decide (int32 (scap b1) < n) then make_bytes 0 n m1 else Ok (m1, b1)) = Ok (m2, b2) ∧
    extends m1 m2 ∧ mem_wf m2 ∧ pooled m2 b2 ∧ n ≤ scap b2) as (m2 & b2 & -> & He2 & Hm2 & Hb2 & Hc).
  { case_decide as Hd.
    - destruct (make_bytes_safe 0 n m1 Hm1) as (m2 & b2 & E & ? & ? & ? & _ & Ec & _); [lia|].
      exists m2, b2. split_and!; try done. lia.
    - exists m1, b1. split_and!; try done. destruct Hb1 as (_ & H0 & _). unfold signed in Hd.
      pose proof (Z.mod_le (scap b1 + 2 ^ (32 - 1)) (2 ^ 32)). lia. }
  cbn [rbind]. destruct Hb2 as (Hb & Hc0 & Hbrk). unfold reslice. rewrite decide_True by lia. cbn [rbind].
  unfold copy. cbn [slen sptr]. rewrite Hl, Z.min_id.
  destruct (mapped_load m2 (sptr src) n) as [x Hx].
  { eapply mapped_extends; [|exact Hsrc]. by etrans. }
  rewrite Hx. cbn [rbind]. apply load_lookup in Hx as [Hlen _].
  set (d1 := set_pm l d). set (m3 := store (sptr b2) x m2).
  assert (extends m2 m3) as He3 by apply store_extends.
  assert (extends (mem (objs d)) m3) as He by (etrans; [exact He1|]; by etrans).
  destruct (safe_set_mem m3 d Hs He) as [Hs' Hg].
  { apply store_wf; [done|lia|lia]. }
  eexists _, _. split; [done|]. destruct Hs' as [S1 S2 S3 S4 S5 S6 S7 _]. split.
  { constructor; try done. eapply Forall_impl; [exact Hp1|].
    intros y. apply pooled_extends. by etrans. }
  split; [exact Hg|]. cbn [sptr slen scap]. split; [|split; [done|]].
  - split_and!; cbn; [lia|lia|exact Hbrk].
  - apply (mapped_store (sptr b2) n x m2); lia.
Qed.

(** ** Writing *)

(** A slice a call of [Write] was given. *)
Definition readable (m : memory) (p : slice) : Prop :=
  0 < slen p < 2 ^ 31 ∧ mapped m (sptr p) (slen p) ∧ Named (sptr p) (slen p).

Lemma classify_safe (o : oracle) (p : slice) (d : DoubleBuffer H S) :
  safe d → readable (mem (objs d)) p →
  ∃ (d' : DoubleBuffer H S) (it : BufferItem), classify o p d = Ok (d', it) ∧ safe d' ∧
    grows d d' ∧ carries (mem (objs d')) it.
Proof.
  intros Hs (Hn & Hm & Hnamed). unfold classify. cbn [Ptr Size].
  rewrite (signed_id 32) by (unfold in_signed; lia). case_decide as Hsm.
  - destruct (small_copy_safe o (slen p) p d Hs) as (d' & buf & -> & Hs' & Hg & Hb & Hlen & Hmap); try done.
    cbn [rbind]. unfold addr_of_first. rewrite decide_True by lia. cbn [rbind].
    eexists _, _. split; [done|]. do 2 (split; [done|]). split; [exact Hmap|]. split; [exact Hn|].
    cbn [Size]. intros Hge. exfalso. lia.
  - assert (∀ l, SmallPool l = SmallPool (pm d) → safe (set_pm l d) ∧ grows d (set_pm l d)) as Hpm.
    { intros l Hl. apply safe_objs; try done; [apply Hs..|]. cbn. rewrite Hl. apply Hs. }
    assert (carries (mem (objs d)) (mkItem (sptr p) (slen p))) as Hc by (split; [done|]; split; [done|]; by intros _).
    case_decide; (eexists _, _; split; [done|]); (split; [by apply Hpm|]; split; [by apply Hpm|exact Hc]).
Qed.

Definition push_safe (sz : Z) (pc : push_pc) : Prop :=
  match pc with PushScan _ pos | PushStore pos => 0 ≤ pos < sz | _ => True end.

Lemma calcPos_range (cap idx : Z) : 0 < cap < 2 ^ 31 → 0 ≤ calcPos cap idx < cap.
Proof.
  intros Hc. unfold calcPos. rewrite decide_False by lia. cbn zeta.
  pose proof (Z.rem_bound_abs idx cap ltac:(lia)).
  case_decide as Hneg; apply Z.rem_bound_pos; try lia.
  rewrite signed_id by (unfold in_signed; lia). lia.
Qed.

Lemma index_safe (sz : Z) (m : memory) (s : SmartBuffer) (pos : Z) :
  ring_safe sz m s → 0 ≤ pos < sz →
  ∃ it : BufferItem, indexZ (SmartBuffer.buf s) pos = Ok it ∧ (it = zeroItem ∨ carries m it).
Proof.
  intros (_ & Hl & Hf) Hp. destruct (lookup_lt_is_Some_2 (SmartBuffer.buf s) (Z.to_nat pos)) as [it E]; [lia|].
  exists it. split; [apply indexZ_ok; [lia|done]|]. exact (Forall_lookup_1 _ _ _ _ Hf E).
Qed.

Lemma set_index_safe (sz : Z) (m : memory) (s : SmartBuffer) (pos : Z) (it : BufferItem) :
  ring_safe sz m s → 0 ≤ pos < sz → it = zeroItem ∨ carries m it →
  ∃ b : list BufferItem, set_indexZ (SmartBuffer.buf s) pos it = Ok b ∧
    Z.of_nat (length b) = sz ∧ Forall (λ it, it = zeroItem ∨ carries m it) b.
Proof.
  intros (_ & Hl & Hf) Hp Hit. eexists. split; [by apply set_indexZ_ok; lia|].
  rewrite length_insert. split; [done|]. by apply Forall_insert.
Qed.

Lemma push_step_safe (sz : Z) (m : memory) (it : BufferItem) (pc : push_pc) (s : SmartBuffer) :
  0 < sz < 2 ^ 31 → ring_safe sz m s → carries m it → push_safe sz pc →
  ∃ (s' : SmartBuffer) (next : push_pc + option error), push_step it pc s = Ok (s', next) ∧
    ring_safe sz m s' ∧ match next with inl pc => push_safe sz pc | inr _ => True end.
Proof.
  intros Hsz Hr Hit Hpc. pose proof Hr as (Hcap & _).
  destruct pc as [| | | |h|n pos|pos|]; cbn [push_step].
  - case_decide; by eexists _, _.
  - case_decide; by eexists _, _.
  - by eexists _, _.
  - by eexists _, _.
  - case_decide; eexists _, _; (split; [done|]); (split; [done|]); [|done].
    cbn. rewrite Hcap. by apply calcPos_range.
  - destruct n as [|n]; [by eexists _, _|].
    destruct (index_safe sz m s pos Hr Hpc) as (x & -> & _). cbn [rbind]. case_decide; by eexists _, _.
  - destruct (set_index_safe sz m s pos it Hr Hpc) as (b & -> & Hl & Hf); [by right|]. cbn [rbind].
    eexists _, _. split; [done|]. by split_and!.
  - by eexists _, _.
Qed.

Lemma ring_step_safe (it : BufferItem) (b : nat) (pc : push_pc) (d : DoubleBuffer H S) :
  safe d → has_ring d b → carries (mem (objs d)) it → push_safe (size d) pc →
  ∃ (d' : DoubleBuffer H S) (next : push_pc + option error), ring_step it b pc d = Ok (d', next) ∧
    safe d' ∧ grows d d' ∧ match next with inl pc => push_safe (size d) pc | inr _ => True end.
Proof.
  intros Hs Hb Hit Hpc. destruct (get_safe b d Hs Hb) as (s & E & Hr). unfold ring_step. rewrite E. cbn [rbind].
  destruct (push_step_safe (size d) (mem (objs d)) it pc s) as (s' & next & -> & Hr' & Hn);
    [apply Hs|done..|]. cbn [rbind].
  destruct (safe_set_buf b s' d Hs Hr'). by eexists _, _.
Qed.

(** ** Switching *)

Definition switch_refs (pc : switch_pc) : list nat :=
  match pc with
  | SwOld newBuf => [newBuf]
  | SwActive old newBuf | SwPassive old newBuf => [old; newBuf]
  | SwCount old | SwLast old | SwGo old => [old]
  | _ => []
  end.

Lemma switch_step_safe (o : oracle) (a : agent) (pc : switch_pc) (lock : option agent)
    (d : DoubleBuffer H S) :
  safe d → Forall (has_ring d) (switch_refs pc) →
  ∃ (d' : DoubleBuffer H S) (l : option agent) (next : option switch_pc),
    switch_step o a pc lock d = Ok (d', l, next) ∧ safe d' ∧ grows d d' ∧
    match next with Some pc => Forall (has_ring d') (switch_refs pc) | None => True end.
Proof.
  intros Hs Hpc. pose proof (sf_refs d Hs) as Hrefs.
  assert (∀ d', size d' = size d → objs d' = objs d → pendingHeap d' = pendingHeap d → wm d' = wm d →
    pm d' = pm d → readMode d' = readMode d → (∀ b, b ∈ refs d' → has_ring d b) →
    safe d' ∧ grows d d') as Hframe.
  { intros d' H1 H2 H3 H4 H5 H6 H7. apply safe_objs; try done; rewrite ?H3, ?H4, ?H5; apply Hs. }
  assert (has_ring d (active d)) as Ha by (apply Hrefs; by left).
  assert (has_ring d (passive d)) as Hp by (apply Hrefs; right; by left).
  destruct pc as [| | | |newBuf|old newBuf|old newBuf|old|old|old| |]; cbn [switch_step switch_refs] in *.
  - case_decide; eexists _, _, _; (split; [done|]); [done|].
    by destruct (Hframe (set_state SwitchingState d)).
  - destruct lock; by eexists _, _, _.
  - destruct (get_safe (active d) d Hs Ha) as (s & -> & Hr). cbn [rbind].
    destruct (safe_set_buf (active d) (SetState ReadOnly s) d Hs Hr). eexists _, _, _. split; [done|].
    by split_and!.
  - destruct (pool_Get_safe (buffer_choice o) d Hs) as (d' & b & -> & Hs' & Hg & Hb). cbn [rbind].
    eexists _, _, _. split; [done|]. split_and!; try done; by constructor.
  - eexists _, _, _. split; [done|]. split_and!; try done; by constructor.
  - apply Forall_cons in Hpc as [Ho Hnew].
    destruct (Hframe (set_active (passive d) d)) as [? ?]; try done.
    { intros b Hb. unfold refs in Hb. cbn in Hb. rewrite !elem_of_cons in Hb.
      destruct Hb as [->|[->|Hb]]; [done..|]. apply Hrefs. unfold refs. rewrite !elem_of_cons. tauto. }
    eexists _, _, _. split; [done|]. split_and!; try done; by constructor.
  - apply Forall_cons in Hpc as [Ho Hnew]. rewrite Forall_singleton in Hnew.
    destruct (Hframe (set_passive newBuf d)) as [? ?]; try done.
    { intros b Hb. unfold refs in Hb. cbn in Hb. rewrite !elem_of_cons in Hb.
      destruct Hb as [->|[->|Hb]]; [done..|]. apply Hrefs. unfold refs. rewrite !elem_of_cons. tauto. }
    eexists _, _, _. split; [done|]. split_and!; try done; by constructor.
  - destruct (Hframe (set_count 0 d)) as [? ?]; try done. eexists _, _, _. split; [done|]. by split_and!.
  - destruct (Hframe (set_lastSwitch (now_switch o `div` millisecond) d)) as [? ?]; try done.
    eexists _, _, _. split; [done|]. by split_and!.
  - rewrite Forall_singleton in Hpc.
    destruct (Hframe (set_goroutines (goroutines d ++ [GNumber old]) d)) as [? ?]; try done.
    { intros b Hb. unfold refs in Hb. cbn in Hb. rewrite bind_app in Hb. cbn in Hb.
      rewrite !elem_of_cons, !elem_of_app, list_elem_of_singleton in Hb.
      destruct (decide (b = old)) as [->|]; [done|]. apply Hrefs. unfold refs.
      rewrite !elem_of_cons, !elem_of_app. tauto. }
    eexists _, _, _. split; [done|]. by split_and!.
  - destruct (Hframe (set_state WritingState d)) as [? ?]; try done. eexists _, _, _. split; [done|].
    by split_and!.
  - by eexists _, _, _.
Qed.

(** ** The goroutines *)

Lemma refs_insert (i : nat) (g : goroutine) (gs : list goroutine) (b : nat) :
  b ∈ (<[i := g]> gs ≫= goroutine_rings) → b ∈ goroutine_rings g ∨ b ∈ (gs ≫= goroutine_rings).
Proof.
  rewrite !list_elem_of_bind. intros (g' & Hb & [j Hj]%list_elem_of_lookup).
  destruct (decide (i = j)) as [->|Hne].
  - left. apply list_lookup_insert_Some in Hj as [(_ & -> & _)|[[] _]]; done.
  - right. rewrite list_lookup_insert_ne in Hj by done. exists g'. split; [done|].
    by eapply list_elem_of_lookup_2.
Qed.

Lemma refs_delete (i : nat) (gs : list goroutine) (b : nat) :
  b ∈ (delete i gs ≫= goroutine_rings) → b ∈ (gs ≫= goroutine_rings).
Proof.
  rewrite !list_elem_of_bind. intros (g & Hb & Hg). exists g. split; [done|].
  by eapply list_elem_of_delete_inv.
Qed.

Lemma goroutine_ring_safe (i : nat) (g : goroutine) (d : DoubleBuffer H S) (b : nat) :
  safe d → goroutines d !! i = Some g → b ∈ goroutine_rings g → has_ring d b.
Proof.
  intros Hs Hg Hb. apply (sf_refs d Hs). unfold refs. rewrite !elem_of_cons, !elem_of_app.
  assert (b ∈ (goroutines d ≫= goroutine_rings)); [|tauto].
  apply list_elem_of_bind. exists g. split; [done|]. by eapply list_elem_of_lookup_2.
Qed.

(** Steps that change the heap, the waiters and the goroutines only. *)
Lemma safe_goroutines (d : DoubleBuffer H S) (h : H) (w : WaiterManager) (gs : list goroutine) :
  safe d → pq_wf h → Waiters.wf w ∧ closed w = false →
  (∀ b : nat, b ∈ (pq_contents h).*2 ∨ b ∈ (gs ≫= goroutine_rings) → has_ring d b) →
  let d' := set_goroutines gs (set_wm w (set_pendingHeap h d)) in safe d' ∧ grows d d'.
Proof.
  intros Hs Hh Hw Hr d'. apply safe_objs; try done; [|apply Hs].
  intros b Hb. unfold refs in Hb. cbn in Hb. rewrite !elem_of_cons, !elem_of_app in Hb.
  destruct Hb as [?|[?|[?|[?|Hb]]]]; [| | | |by apply Hr];
    apply (sf_refs d Hs); unfold refs; rewrite !elem_of_cons, !elem_of_app; tauto.
Qed.

Lemma heap_refs (d : DoubleBuffer H S) (b : nat) :
  safe d → b ∈ (pq_contents (pendingHeap d)).*2 → has_ring d b.
Proof.
  intros Hs Hb. apply (sf_refs d Hs). unfold refs. rewrite !elem_of_cons, !elem_of_app. tauto.
Qed.

Lemma go_refs (d : DoubleBuffer H S) (b : nat) :
  safe d → b ∈ (goroutines d ≫= goroutine_rings) → has_ring d b.
Proof.
  intros Hs Hb. apply (sf_refs d Hs). unfold refs. rewrite !elem_of_cons, !elem_of_app. tauto.
Qed.

Lemma run_goroutine_safe (i : nat) (d : DoubleBuffer H S) :
  safe d → ∃ d' : DoubleBuffer H S, run_goroutine range i d = Ok d' ∧ safe d' ∧ grows d d'.
Proof.
  intros Hs. unfold run_goroutine. destruct (goroutines d !! i) as [g|] eqn:Eg; [|by exists d].
  pose proof (goroutine_ring_safe i g d) as Hring.
  pose proof (sf_heap d Hs) as Hh. pose proof (sf_wm d Hs) as Hw.
  destruct g as [b|s b|b|n].
  - eexists. split; [done|].
    destruct (safe_goroutines d (pendingHeap d) (wm d) (<[i := GPush (int64 (sequence d + 1)) b]> (goroutines d)) Hs Hh Hw)
      as [[S1 S2 S3 S4 S5 S6 S7 S8] Hg].
    { intros b' [?|[Hb'|?]%refs_insert]; [by apply heap_refs| |by apply go_refs].
      by apply Hring. }
    split; [by constructor|exact Hg].
  - destruct (pq_push_ok (pendingHeap d) (s, b) Hh) as (h & -> & Hh' & Hp). cbn [rbind].
    eexists. split; [done|].
    apply (safe_goroutines d h (wm d) (<[i := GLen b]> (goroutines d)) Hs Hh' Hw).
    intros b' [Hb'|[Hb'|?]%refs_insert]; [|by apply Hring|by apply go_refs].
    rewrite Hp in Hb'. cbn in Hb'. apply elem_of_cons in Hb' as [->|?]; [|by apply heap_refs].
    apply Hring; [done..|]. by left.
  - destruct (get_safe b d Hs) as (s & -> & _); [apply Hring; [done..|by left]|]. cbn [rbind].
    eexists. split; [done|].
    apply (safe_goroutines d (pendingHeap d) (wm d) (<[i := GNotify (SmartBuffer.Len s)]> (goroutines d)) Hs Hh Hw).
    intros b' [?|[Hb'|?]%refs_insert]; [by apply heap_refs|by apply elem_of_nil in Hb'|by apply go_refs].
  - destruct (notify_ok range n (wm d)) as (w & woken & -> & Hn); [apply Hw..|]. cbn [rbind].
    eexists. split; [done|].
    apply (safe_goroutines d (pendingHeap d) w (delete i (goroutines d)) Hs Hh).
    + split; [eapply notified_wf; [apply Hw|done]|].
      destruct Hn as (_ & _ & _ & _ & _ & _ & _ & _ & -> & _). apply Hw.
    + intros b' [?|?%refs_delete]; [by apply heap_refs|by apply go_refs].
Qed.

Lemma run_schedule_safe (sched : list nat) (d : DoubleBuffer H S) :
  safe d → ∃ d' : DoubleBuffer H S, run_schedule range sched d = Ok d' ∧ safe d' ∧ grows d d'.
Proof.
  revert d. induction sched as [|i sched IH]; intros d Hs; cbn; [by exists d|].
  destruct (run_goroutine_safe i d Hs) as (d1 & -> & Hs1 & Hg1). cbn [rbind].
  destruct (IH d1 Hs1) as (d2 & -> & Hs2 & Hg2). exists d2. split_and!; try done. by etrans.
Qed.

(** ** Reading *)

Definition chunk_safe (m : memory) (c : DataChunk free_action) : Prop :=
  0 < slen (data c) ∧ mapped m (sptr (data c)) (slen (data c)) ∧
  match free c with
  | Some (FreeSmall s) => pooled m s ∧ slen (data c) < SmallDataThreshold
  | Some (FreeRecycle p n) | Some (FreeZeroCopy p n) =>
      slen (data c) = n ∧ (SmallDataThreshold ≤ n → Named p n)
  | None => True
  end.

Lemma chunk_safe_extends (m m' : memory) (c : DataChunk free_action) :
  extends m m' → chunk_safe m c → chunk_safe m' c.
Proof.
  intros He (H1 & H2 & H3). split; [done|]. split; [by eapply mapped_extends|].
  destruct (free c) as [[s| |]|]; try done. destruct H3. split; [by eapply pooled_extends|done].
Qed.

Lemma chunk_safe_gives (m : memory) (c : DataChunk free_action) :
  chunk_safe m c → 0 < slen (data c) ∧ is_Some (slice_bytes m (data c)) ∧
  ∀ p sz : Z, free c = Some (FreeRecycle p sz) ∨ free c = Some (FreeZeroCopy p sz) →
    SmallDataThreshold ≤ sz → slen (data c) = sz ∧ Named p sz.
Proof.
  intros (H1 & H2 & H3). split; [done|]. split; [exact (mapped_load _ _ _ H2)|].
  intros p sz [Hf|Hf] Hsz; rewrite Hf in H3; destruct H3 as [E1 E2]; (split; [done|exact (E2 Hsz)]).
Qed.

Lemma retry_read_safe (sz : Z) (m : memory) (s : SmartBuffer) (pos : Z) (n : nat) (it : BufferItem) :
  ring_safe sz m s → 0 ≤ pos < sz → it = zeroItem ∨ carries m it →
  ∃ it' : BufferItem, retry_read n it (SmartBuffer.buf s) pos = Ok it' ∧ (it' = zeroItem ∨ carries m it').
Proof.
  intros Hr Hp. revert it. induction n as [|n IH]; intros it Hit; cbn; [by exists it|].
  destruct (index_safe sz m s pos Hr Hp) as (x & -> & Hx). cbn [rbind].
  case_decide; [by exists x|by apply IH].
Qed.

Lemma Pop_safe (sz : Z) (m : memory) (s : SmartBuffer) :
  0 < sz < 2 ^ 31 → ring_safe sz m s →
  ∃ (s' : SmartBuffer) (it : BufferItem), SmartBuffer.Pop s = Ok (s', (Ptr it, Size it)) ∧
    ring_safe sz m s' ∧ (it = zeroItem ∨ carries m it).
Proof.
  intros Hsz Hr. unfold SmartBuffer.Pop.
  case_decide; [exists s, zeroItem; split; [done|]; split; [done|by left]|].
  pose proof (calcPos_range sz (tail s) Hsz) as Hp. pose proof Hr as (Hc & _). rewrite Hc. cbn zeta.
  destruct (retry_read_safe sz m s _ maxRetry zeroItem Hr Hp) as (it & -> & Hit); [by left|]. cbn [rbind].
  destruct (set_index_safe sz m s _ zeroItem Hr Hp) as (b & -> & Hl & Hf); [by left|]. cbn [rbind].
  eexists _, it. split; [done|]. by split_and!.
Qed.

Lemma pop_current_safe (d : DoubleBuffer H S) :
  safe d → currentBuffer d ≠ None →
  ∃ (d' : DoubleBuffer H S) (it : BufferItem), pop_current d = Ok (d', (Ptr it, Size it)) ∧
    safe d' ∧ grows d d' ∧ (it = zeroItem ∨ carries (mem (objs d')) it).
Proof.
  intros Hs Hcur. unfold pop_current. destruct (currentBuffer d) as [b|] eqn:Ec; [|done].
  destruct (get_safe b d Hs) as (s & -> & Hr).
  { apply (sf_refs d Hs). unfold refs. rewrite Ec. rewrite !elem_of_cons. right. right. by left. }
  cbn [rbind]. destruct (Pop_safe (size d) (mem (objs d)) s) as (s' & it & -> & Hr' & Hit);
    [apply Hs|done|]. cbn [rbind].
  destruct (safe_set_buf b s' d Hs Hr'). eexists _, it. split; [done|]. done.
Qed.

(** A chunk that shares the memory of an item. *)
Lemma shared_chunk (m : memory) (it : BufferItem) (f : free_action) :
  carries m it → f = FreeRecycle (Ptr it) (Size it) ∨ f = FreeZeroCopy (Ptr it) (Size it) →
  chunk_safe m (mkChunk (mkSlice (Ptr it) (Size it) (Size it)) (Some f)).
Proof. intros (Hm & Hs & Hn) [-> | ->]; (split; [apply Hs|]); by split. Qed.

Lemma createByteSlice_safe (m : memory) (it : BufferItem) :
  carries m it →
  createByteSliceFromPointer (Ptr it) (Size it) = Ok (mkSlice (Ptr it) (Size it) (Size it)).
Proof.
  intros ((Hp & _) & Hs & _). unfold createByteSliceFromPointer. by rewrite !decide_False by lia.
Qed.

(** What a read in one of the modes gives. *)
Definition read_safe (d : DoubleBuffer H S)
    (r : result (DoubleBuffer H S * option (DataChunk free_action))) : Prop :=
  ∃ (d' : DoubleBuffer H S) (x : option (DataChunk free_action)), r = Ok (d', x) ∧ safe d' ∧
    grows d d' ∧ match x with Some c => chunk_safe (mem (objs d')) c | None => True end.

Lemma read_safe_after (d d1 : DoubleBuffer H S)
    (r : result (DoubleBuffer H S * option (DataChunk free_action))) :
  grows d d1 → read_safe d1 r → read_safe d r.
Proof. intros Hg (d2 & x & -> & Hs & Hg2 & Hx). exists d2, x. split_and!; try done. by etrans. Qed.

(** The chunk made of an item that was popped. *)
Lemma safe_chunk_safe (o : oracle) (it : BufferItem) (d1 : DoubleBuffer H S) :
  safe d1 → it = zeroItem ∨ carries (mem (objs d1)) it →
  read_safe d1 (safe_chunk o (Ptr it) (Size it) d1).
Proof.
  intros Hs1 Hit. unfold safe_chunk, read_safe.
  case_decide as H0; [by exists d1, None|]. destruct Hit as [->|Hc]; [done|].
  rewrite (createByteSlice_safe _ _ Hc). cbn [rbind]. pose proof Hc as (Hm & Hsz & Hn).
  case_decide as Hsm.
  { destruct (small_copy_safe o (Size it) (mkSlice (Ptr it) (Size it) (Size it)) d1 Hs1) as
      (d2 & buf & -> & Hs2 & Hg2 & Hb & Hl & Hmap); try done.
    cbn [rbind]. eexists _, _. split; [done|]. split; [done|]. split; [done|].
    split; cbn; [lia|]. split; [by rewrite Hl|]. split; [done|]. lia. }
  case_decide; [|case_match].
  1, 2: eexists _, _; split; [done|]; split; [done|]; split; [done|]; apply shared_chunk; [done|by left].
  destruct (make_bytes_safe (Size it) (Size it) (mem (objs d1))) as
    (m & s & -> & He & Hwf & Hp & Hlen & Hcap & Hmap); [apply Hs1|lia|]. cbn [rbind].
  unfold copy. cbn [sptr slen]. rewrite Hlen, Z.min_id.
  destruct (mapped_load m (Ptr it) (Size it)) as [l Hl]; [by eapply mapped_extends|].
  rewrite Hl. cbn [rbind]. apply load_lookup in Hl as [Hll _].
  assert (extends m (store (sptr s) l m)) as He' by apply store_extends.
  destruct (safe_set_mem (store (sptr s) l m) d1 Hs1) as [Hs2 Hg2]; [by etrans| |].
  { pose proof Hp as (? & ? & ?). apply store_wf; [done|lia|lia]. }
  eexists _, _. split; [done|]. split; [done|]. split; [done|].
  split; cbn; [lia|]. rewrite Hlen. split; [|done]. by eapply mapped_extends.
Qed.

Lemma safeRead_safe (o : oracle) (d : DoubleBuffer H S) :
  safe d → currentBuffer d ≠ None → read_safe d (safeRead o d).
Proof.
  intros Hs Hcur. unfold safeRead.
  destruct (pop_current_safe d Hs Hcur) as (d1 & it & -> & Hs1 & Hg1 & Hit). cbn [rbind].
  by apply (read_safe_after d d1), safe_chunk_safe.
Qed.

Lemma safe_set_pm (l : LifeCycleManager) (d : DoubleBuffer H S) :
  safe d → Forall (pooled (mem (objs d))) (SmallPool l) → safe (set_pm l d) ∧ grows d (set_pm l d).
Proof. intros Hs Hl. apply safe_objs; try done; apply Hs. Qed.

Lemma zero_copy_chunk_safe (it : BufferItem) (d1 : DoubleBuffer H S) :
  safe d1 → it = zeroItem ∨ carries (mem (objs d1)) it →
  read_safe d1 (zero_copy_chunk (Ptr it) (Size it) d1).
Proof.
  intros Hs1 Hit. unfold zero_copy_chunk, read_safe.
  case_decide as H0; [by exists d1, None|]. destruct Hit as [->|Hc]; [done|].
  rewrite (createByteSlice_safe _ _ Hc). cbn [rbind]. eexists _, _. split; [done|].
  assert (chunk_safe (mem (objs d1)) (mkChunk (mkSlice (Ptr it) (Size it) (Size it))
    (Some (FreeZeroCopy (Ptr it) (Size it))))) as Hch by (apply shared_chunk; [done|by right]).
  case_decide; [|done].
  destruct (safe_set_pm (set_BigData (BigDataPool.Release (Ptr it) (BigData (pm d1))) (pm d1)) d1 Hs1);
    [apply Hs1|]. by split_and!.
Qed.

Lemma zeroCopyRead_safe (d : DoubleBuffer H S) :
  safe d → currentBuffer d ≠ None → read_safe d (zeroCopyRead d).
Proof.
  intros Hs Hcur. unfold zeroCopyRead.
  destruct (pop_current_safe d Hs Hcur) as (d1 & it & -> & Hs1 & Hg1 & Hit). cbn [rbind].
  by apply (read_safe_after d d1), zero_copy_chunk_safe.
Qed.

(** What a whole read gives. *)
Definition chunk_or_error (d : DoubleBuffer H S)
    (r : result (DoubleBuffer H S * (DataChunk free_action + error))) : Prop :=
  ∃ (d' : DoubleBuffer H S) (x : DataChunk free_action + error), r = Ok (d', x) ∧ safe d' ∧
    grows d d' ∧ match x with inl c => chunk_safe (mem (objs d')) c | inr _ => True end.

Lemma read_current_safe (o : oracle) (d : DoubleBuffer H S) :
  safe d → currentBuffer d ≠ None → chunk_or_error d (read_current o d).
Proof.
  intros Hs Hcur. unfold read_current, chunk_or_error. pose proof (sf_mode d Hs) as Hm.
  destruct (readMode d) as [m|]; [|done].
  case_decide; [|case_decide; [|by eexists _, _]].
  - destruct (safeRead_safe o d Hs Hcur) as (d' & [c|] & -> & ? & ? & ?); by eexists _, _.
  - destruct (zeroCopyRead_safe d Hs Hcur) as (d' & [c|] & -> & ? & ? & ?); by eexists _, _.
Qed.

Lemma discard_current_safe (d : DoubleBuffer H S) :
  safe d → ∃ d' : DoubleBuffer H S, discard_current d = Ok d' ∧ safe d' ∧ grows d d'.
Proof.
  intros Hs. unfold discard_current. destruct (currentBuffer d) as [b|] eqn:Ec; [|by exists d].
  assert (has_ring d b) as Hb.
  { apply (sf_refs d Hs). unfold refs. rewrite Ec. rewrite !elem_of_cons. right. right. by left. }
  destruct (get_safe b d Hs Hb) as (s & -> & Hr). cbn [rbind].
  destruct (safe_set_buf b (Reset s) d Hs Hr) as [Hs1 Hg1]. set (d1 := DoubleBuffer.set_buf b (Reset s) d) in *.
  eexists. split; [done|].
  destruct (safe_objs d1 (pool_Put b (set_currentBuffer None d1)) Hs1) as [? ?]; try done; try apply Hs1.
  - intros b' Hb'. unfold refs in Hb'. cbn in Hb'. rewrite !elem_of_cons, !elem_of_app in Hb'.
    destruct (decide (b' = b)) as [->|Hne]; [by apply Hg1|].
    apply (sf_refs d1 Hs1). unfold refs. cbn. rewrite Ec. rewrite !elem_of_cons, !elem_of_app. tauto.
Qed.

Lemma pick_loop_safe (n : nat) (sleeps : list (list nat)) (d : DoubleBuffer H S) :
  safe d → ∃ (d' : DoubleBuffer H S) (found : bool),
    pick_loop range n sleeps d = Ok (d', found) ∧ safe d' ∧ grows d d'.
Proof.
  revert sleeps d. induction n as [|n IH]; intros sleeps d Hs; cbn [pick_loop]; [by exists d, true|].
  pose proof (sf_heap d Hs) as Hh.
  destruct (decide (pq_contents (pendingHeap d) = [])) as [He|He].
  { rewrite (pq_pick_none _ Hh He). cbn [rbind]. eexists _, _. split; [done|]. by destruct d. }
  destruct (pq_pick_some _ Hh He) as (h & [s b] & -> & Hh' & Hp & _). cbn [rbind].
  assert (has_ring d b) as Hb by (apply heap_refs; [done|]; rewrite Hp; by left).
  assert (∀ b', b' ∈ (pq_contents h).*2 → has_ring d b') as Hsub.
  { intros b' Hb'. apply heap_refs; [done|]. rewrite Hp. by right. }
  case_decide.
  - eexists _, _. split; [done|]. apply safe_objs; try done; [|apply Hs..].
    intros b' Hb'. unfold refs in Hb'. cbn in Hb'. rewrite !elem_of_cons, !elem_of_app in Hb'.
    destruct (decide (b' = b)) as [->|Hne]; [done|]. destruct (decide (b' ∈ (pq_contents h).*2)); [by apply Hsub|].
    apply (sf_refs d Hs). unfold refs. rewrite !elem_of_cons, !elem_of_app. tauto.
  - cbn [pendingHeap]. destruct (pq_push_ok h (s, b) Hh') as (h2 & E2 & Hh2 & Hp2).
    change (pendingHeap (set_pendingHeap h d)) with h. rewrite E2. cbn [rbind].
    destruct (safe_goroutines d h2 (wm d) (goroutines d) Hs Hh2 (sf_wm d Hs)) as [Hs1 Hg1].
    { intros b' [Hb'|?]; [|by apply go_refs]. rewrite Hp2 in Hb'. cbn in Hb'.
      apply elem_of_cons in Hb' as [->|?]; [done|by apply Hsub]. }
    destruct (run_schedule_safe (hd [] sleeps) _ Hs1) as (d2 & E3 & Hs2 & Hg2).
    change (set_pendingHeap h2 (set_pendingHeap h d)) with
      (set_goroutines (goroutines d) (set_wm (wm d) (set_pendingHeap h2 d))).
    rewrite E3. cbn [rbind]. destruct (IH (tl sleeps) d2 Hs2) as (d3 & found & -> & Hs3 & Hg3).
    exists d3, found. split_and!; try done. by do 2 (etrans; [done|]).
Qed.

Lemma tryRead_safe (o : oracle) (sleeps : list (list nat)) (d : DoubleBuffer H S) :
  safe d → chunk_or_error d (tryRead range o sleeps d).
Proof.
  intros Hs. unfold tryRead.
  assert (∃ e : bool, current_empty d = Ok e ∧ (e = false → currentBuffer d ≠ None)) as (e & -> & He).
  { unfold current_empty. destruct (currentBuffer d) as [b|] eqn:Ec; [|by exists true].
    destruct (get_safe b d Hs) as (s & -> & _); [|by eexists].
    apply (sf_refs d Hs). unfold refs. rewrite Ec. rewrite !elem_of_cons. right. right. by left. }
  cbn [rbind]. destruct e; [|by apply read_current_safe, He].
  destruct (discard_current_safe d Hs) as (d1 & -> & Hs1 & Hg1). cbn [rbind]. unfold pickBufferFromHeap.
  destruct (pick_loop_safe maxRetires sleeps d1 Hs1) as (d2 & found & -> & Hs2 & Hg2). cbn [rbind].
  assert (grows d d2) as Hg by (by etrans).
  destruct found; cbn [rbind]; [|by eexists _, _]. case_bool_decide as Hcur; [|by eexists _, _].
  destruct (read_current_safe o d2 Hs2 Hcur) as (d3 & r & -> & Hs3 & Hg3 & Hr).
  exists d3, r. split_and!; try done. by etrans.
Qed.

(** ** Releasing and cleaning up *)

Lemma run_free_safe (f : free_action) (d : DoubleBuffer H S) :
  safe d → match f with FreeSmall s => pooled (mem (objs d)) s | _ => True end →
  safe (run_free f d) ∧ grows d (run_free f d).
Proof.
  intros Hs Hf. destruct f as [s|p n|p n]; cbn.
  - apply safe_set_pm; [done|]. apply Forall_cons. split; [exact Hf|apply Hs].
  - unfold recycle. repeat case_decide; try done; apply safe_set_pm; (done || apply Hs).
  - apply safe_set_pm; [done|apply Hs].
Qed.

Lemma cleanup_safe (clock : nat → Z) (mo : list (Z * Z)) (bo : list (Z * BigDataEntry))
    (d : DoubleBuffer H S) :
  safe d → safe (asyncRecycleWorker_tick clock mo bo d) ∧ grows d (asyncRecycleWorker_tick clock mo bo d).
Proof.
  intros Hs. unfold asyncRecycleWorker_tick. destruct (recycler d); [|done].
  apply safe_set_pm; [done|apply Hs].
Qed.

(** ** The system *)

(** What a writer holds: a slice, an item, references to rings. *)
Definition writer_safe (d : DoubleBuffer H S) (pc : writer_pc) : Prop :=
  match pc with
  | WStart p | WClassify p => readable (mem (objs d)) p
  | WFast it | WFastActive it | WLock it | WSlowActive it | WSlowWrite it => carries (mem (objs d)) it
  | WFastClosed it b | WSlowState it b | WSlowClosed it b => carries (mem (objs d)) it ∧ has_ring d b
  | WFastPush it b pc | WSlowPush it b pc =>
      carries (mem (objs d)) it ∧ has_ring d b ∧ push_safe (size d) pc
  | WSwitch it pc => carries (mem (objs d)) it ∧ Forall (has_ring d) (switch_refs pc)
  | _ => True
  end.

Definition monitor_safe (d : DoubleBuffer H S) (pc : monitor_pc) : Prop :=
  match pc with MSwitch pc => Forall (has_ring d) (switch_refs pc) | MIdle => True end.

Record sys_safe (x : system H S) : Prop := {
  ss_db : safe (db x);
  ss_writers : Forall (λ w, writer_safe (db x) (wpc w)) (writers x);
  ss_monitor : monitor_safe (db x) (monitor x)
}.

Lemma rings_grow (d d' : DoubleBuffer H S) (l : list nat) :
  grows d d' → Forall (has_ring d) l → Forall (has_ring d') l.
Proof. intros (_ & _ & Hg) Hl. by eapply Forall_impl. Qed.

Lemma writer_safe_grows (d d' : DoubleBuffer H S) (pc : writer_pc) :
  grows d d' → writer_safe d pc → writer_safe d' pc.
Proof.
  intros Hg. pose proof Hg as (Esz & He & Hr).
  assert (∀ p, readable (mem (objs d)) p → readable (mem (objs d')) p) as Hread.
  { intros p (H1 & H2 & H3). split; [done|]. split; [by eapply mapped_extends|done]. }
  assert (∀ it, carries (mem (objs d)) it → carries (mem (objs d')) it) as Hc
    by (intros it; by apply carries_extends).
  destruct pc; cbn; rewrite ?Esz; try done; auto.
  - intros [? ?]; auto.
  - intros (? & ? & ?); auto.
  - intros [? ?]; auto.
  - intros [? ?]. split; [auto|]. by eapply rings_grow.
  - intros [? ?]; auto.
  - intros (? & ? & ?); auto.
Qed.

Lemma monitor_safe_grows (d d' : DoubleBuffer H S) (pc : monitor_pc) :
  grows d d' → monitor_safe d pc → monitor_safe d' pc.
Proof. intros Hg. destruct pc; [done|]. by apply rings_grow. Qed.

Lemma sys_safe_db (d : DoubleBuffer H S) (x : system H S) (wl sl : option agent)
    (ws : list writer) (mp : monitor_pc) (rs : list (DataChunk free_action + error)) :
  sys_safe x → safe d → grows (db x) d →
  (∀ w, w ∈ ws → w ∈ writers x ∨ writer_safe d (wpc w)) → mp = monitor x ∨ monitor_safe d mp →
  sys_safe (mkSystem d wl sl ws mp rs).
Proof.
  intros [H1 H2 H3] Hs Hg Hw Hm. constructor; cbn; [done| |].
  - apply Forall_forall. intros w [Hin|?]%Hw; [|done]. rewrite Forall_forall in H2.
    by eapply writer_safe_grows, H2.
  - destruct Hm as [->|?]; [by eapply monitor_safe_grows|done].
Qed.

(** A writer that moves on or returns. *)
Lemma alter_writers (i : nat) (g : writer → writer) (ws : list writer) (P : writer → Prop) :
  (∀ w, ws !! i = Some w → P (g w)) → ∀ w, w ∈ alter g i ws → w ∈ ws ∨ P w.
Proof.
  intros Hg w [j Hj]%list_elem_of_lookup. destruct (decide (i = j)) as [->|Hne].
  - rewrite list_lookup_alter_eq in Hj. destruct (ws !! j) as [w0|] eqn:E; [|done].
    injection Hj as <-. right. by apply Hg.
  - rewrite list_lookup_alter_ne in Hj by done. left. by eapply list_elem_of_lookup_2.
Qed.

Lemma goto_safe (i : nat) (pc : writer_pc) (d : DoubleBuffer H S) (x : system H S) :
  sys_safe x → safe d → grows (db x) d → writer_safe d pc → sys_safe (goto i pc d x).
Proof.
  intros Hx Hs Hg Hpc. apply (sys_safe_db d x); try done; [|by left].
  by apply (alter_writers i _ _ (λ w, writer_safe d (wpc w))).
Qed.

Lemma return_safe (i : nat) (err : option error) (d : DoubleBuffer H S) (x : system H S) :
  sys_safe x → safe d → grows (db x) d → sys_safe (return_ i err d x).
Proof.
  intros Hx Hs Hg. apply (sys_safe_db d x); try done; [|by left].
  by apply (alter_writers i _ _ (λ w, writer_safe d (wpc w))).
Qed.

Lemma set_writeLock_safe (l : option agent) (x : system H S) : sys_safe x → sys_safe (set_writeLock l x).
Proof. by intros []. Qed.

Lemma set_switchLock_safe (l : option agent) (x : system H S) : sys_safe x → sys_safe (set_switchLock l x).
Proof. by intros []. Qed.

Lemma safe_set_count (c : Z) (d : DoubleBuffer H S) : safe d → safe (set_count c d) ∧ grows d (set_count c d).
Proof. intros Hs. split; [|done]. by destruct Hs. Qed.

(** What a step of the system gives. *)
Definition goes_on (x : system H S) (r : result (system H S)) : Prop :=
  ∃ y : system H S, r = Ok y ∧ sys_safe y ∧ grows (db x) (db y) ∧ reads y = reads x.

Lemma goes_to (i : nat) (pc : writer_pc) (x : system H S) :
  sys_safe x → writer_safe (db x) pc → goes_on x (Ok (goto i pc (db x) x)).
Proof. intros Hx Hpc. eexists. split; [done|]. split; [|done]. apply goto_safe; [done|apply Hx|done..]. Qed.

Lemma writer_step_safe (o : oracle) (i : nat) (pc : writer_pc) (x : system H S) :
  sys_safe x → writer_safe (db x) pc → goes_on x (writer_step o i pc x).
Proof.
  intros Hx Hpc. pose proof (ss_db x Hx) as Hs.
  assert (has_ring (db x) (active (db x))) as Ha by (apply (sf_refs _ Hs); by left).
  destruct pc; cbn [writer_step writer_safe] in *.
  - by exists x.
  - case_decide; [|by apply goes_to]. eexists. split; [done|]. split; [by apply return_safe|done].
  - destruct (classify_safe o p (db x) Hs Hpc) as (d & it & -> & Hs' & Hg & Hc). cbn [rbind].
    eexists. split; [done|]. split; [by apply goto_safe|done].
  - case_decide; by apply goes_to.
  - by apply goes_to.
  - destruct Hpc as [Hit Hb]. destruct (get_safe b (db x) Hs Hb) as (s & -> & Hr). cbn [rbind].
    case_decide; by apply goes_to.
  - destruct Hpc as (Hit & Hb & Hp).
    destruct (ring_step_safe item b pc (db x) Hs Hb Hit Hp) as (d & next & -> & Hs' & Hg & Hn). cbn [rbind].
    assert (sys_safe x → ∀ pc', writer_safe d pc' → goes_on x (Ok (goto i pc' d x))) as Hto.
    { intros _ pc' Hpc'. eexists. split; [done|]. split; [by apply goto_safe|done]. }
    pose proof Hg as (Esz & He & Hrg).
    destruct next as [pc'|[err|]]; apply Hto; try done; cbn; rewrite ?Esz; [|by eapply carries_extends].
    split; [by eapply carries_extends|]. auto.
  - destruct (safe_set_count (int32 (count (db x) + 1)) (db x) Hs). eexists. split; [done|].
    split; [by apply return_safe|done].
  - destruct (writeLock x); [by exists x|]. eexists. split; [done|].
    split; [by apply set_writeLock_safe, goto_safe|done].
  - by apply goes_to.
  - destruct Hpc as [Hit Hb]. destruct (get_safe b (db x) Hs Hb) as (s & -> & Hr). cbn [rbind].
    case_decide; (apply goes_to; [done|]); [by split|done].
  - destruct Hpc as [Hit Hp].
    destruct (switch_step_safe o (AWriter i) pc (switchLock x) (db x) Hs Hp) as
      (d & l & next & -> & Hs' & Hg & Hn). cbn [rbind].
    eexists. split; [done|]. split; [apply set_switchLock_safe, goto_safe; try done|done].
    pose proof Hg as (_ & He & _). destruct next; cbn; [split; [|done]|]; by eapply carries_extends.
  - by apply goes_to.
  - destruct Hpc as [Hit Hb]. destruct (get_safe b (db x) Hs Hb) as (s & -> & Hr). cbn [rbind].
    case_decide; by apply goes_to.
  - destruct Hpc as (Hit & Hb & Hp).
    destruct (ring_step_safe item b pc (db x) Hs Hb Hit Hp) as (d & next & -> & Hs' & Hg & Hn). cbn [rbind].
    pose proof Hg as (Esz & He & Hrg).
    destruct next as [pc'|[err|]]; (eexists; split; [done|]); (split; [apply goto_safe; try done|done]).
    cbn. rewrite Esz. split; [by eapply carries_extends|]. auto.
  - destruct (safe_set_count (int32 (count (db x) + 1)) (db x) Hs). eexists. split; [done|].
    split; [by apply goto_safe|done].
  - eexists. split; [done|]. split; [by apply set_writeLock_safe, return_safe|done].
Qed.

Lemma monitor_step_safe (o : oracle) (x : system H S) : sys_safe x → goes_on x (monitor_step o x).
Proof.
  intros Hx. pose proof (ss_db x Hx) as Hs. unfold monitor_step. destruct (monitor x) as [|pc] eqn:Em.
  - destruct (swapper (db x)); [|by exists x]. unfold needSwitch. destruct (poll _ _) as [cond conf].
    eexists. split; [done|]. split; [|done].
    eapply (sys_safe_db _ x); try done; [destruct Hs; by constructor|by left|right].
    destruct (SwitchStrategy.needSwitch _ _ _ _ _); [by constructor|done].
  - pose proof (ss_monitor x Hx) as Hm. rewrite Em in Hm.
    destruct (switch_step_safe o AMonitor pc (switchLock x) (db x) Hs Hm) as
      (d & l & next & -> & Hs' & Hg & Hn). cbn [rbind].
    eexists. split; [done|]. split; [apply set_switchLock_safe, (sys_safe_db d x); try done|done]; [by left|].
    right. by destruct next.
Qed.

(** ** Traces *)

Record trace_safe (t : trace H S) : Prop := {
  ts_sys : sys_safe (sys t);
  ts_chunks : Forall (chunk_safe (mem_of t)) (chunks t)
}.

(** What is asked for: [Write] is given a slice of 1 byte to 2 GiB of mapped
    memory, and users store to mapped memory. *)
Definition harmless (ev : trace_event) (t : trace H S) : Prop :=
  match ev with
  | TRun (EvCall _ p) => 0 < slen p < 2 ^ 31 ∧ is_Some (slice_bytes (mem_of t) p)
  | TRun (EvRelease _) => False
  | TStore p l => 0 < p ∧ p + Z.of_nat (length l) ≤ brk (mem_of t)
  | _ => True
  end.

Fixpoint harmless_all (evs : list trace_event) (t : trace H S) : Prop :=
  match evs with
  | [] => True
  | ev :: evs =>
      harmless ev t ∧
      match trace_step range ev t with
      | Ok t => harmless_all evs t
      | _ => True
      end
  end.

Lemma chunks_grow (d d' : DoubleBuffer H S) (cs : list (DataChunk free_action)) :
  grows d d' → Forall (chunk_safe (mem (objs d))) cs → Forall (chunk_safe (mem (objs d'))) cs.
Proof.
  intros (_ & He & _) Hcs. eapply Forall_impl; [exact Hcs|]. intros c. by apply chunk_safe_extends.
Qed.

(** A step of the system that reads nothing. *)
Lemma quiet_step_safe (ev : event) (t : trace H S) :
  trace_safe t → goes_on (sys t) (step range ev (sys t)) →
  ∃ t' : trace H S, trace_step range (TRun ev) t = Ok t' ∧ trace_safe t' ∧
    grows (db (sys t)) (db (sys t')).
Proof.
  intros [Hs Hc] (y & E & Hy & Hg & Er). exists (record ev y t). split; [cbn; by rewrite E|].
  split; [|exact Hg]. unfold record. rewrite Er, drop_all. constructor; cbn; [done|]. rewrite app_nil_r.
  by apply (chunks_grow (db (sys t)) (db y)).
Qed.

(** A read has returned. *)
Lemma returned_safe (ev : event) (d : DoubleBuffer H S) (r : DataChunk free_action + error) (t : trace H S) :
  trace_safe t → safe d → grows (db (sys t)) d →
  match r with inl c => chunk_safe (mem (objs d)) c | inr _ => True end →
  let s := sys t in
  trace_safe (record ev (mkSystem d (writeLock s) (switchLock s) (writers s) (monitor s) (reads s ++ [r])) t).
Proof.
  intros [Hs Hc] Hd Hg Hr s. unfold record. cbn [reads]. rewrite drop_app_length.
  constructor; cbn; [eapply (sys_safe_db d (sys t)); try done; by left|].
  apply Forall_app. split; [by eapply (chunks_grow (db (sys t)) d)|].
  destruct r as [c|err]; cbn; [by constructor|done].
Qed.

(** A change of the double buffer by its environment. *)
Lemma env_step_safe (d : DoubleBuffer H S) (cs : list (DataChunk free_action)) (t : trace H S)
    (cp : list byte) (wr dl : list (list byte)) :
  trace_safe t → safe d → grows (db (sys t)) d → Forall (chunk_safe (mem_of t)) cs →
  let t' := mkTrace H S (set_db d (sys t)) cs cp wr dl in
  trace_safe t' ∧ grows (db (sys t)) (db (sys t')).
Proof.
  intros [Hs Hc] Hd Hg Hcs t'. split; [|exact Hg]. constructor; cbn.
  - eapply (sys_safe_db d (sys t)); try done; by left.
  - by eapply (chunks_grow (db (sys t)) d).
Qed.

Lemma trace_step_safe (ev : trace_event) (t : trace H S) :
  trace_safe t → harmless ev t → (∀ i p, ev = TRun (EvCall i p) → Named (sptr p) (slen p)) →
  ∃ t' : trace H S, trace_step range ev t = Ok t' ∧ trace_safe t' ∧ grows (db (sys t)) (db (sys t')).
Proof.
  intros Ht Hh Hnamed. pose proof Ht as [Hs Hc]. pose proof (ss_db _ Hs) as Hd.
  destruct ev as [[i p|o i|o|i|o sleeps|f]|k|clock mo bo|k|p l].
  - apply quiet_step_safe; [done|]. cbn.
    destruct (writers (sys t) !! i) as [[[] ?]|]; cbn; try by exists (sys t).
    apply goes_to; [done|]. destruct Hh as [Hn [l Hl]]. split; [done|]. split; [|by eapply Hnamed].
    eapply load_mapped; [apply Hd|lia|exact Hl].
  - apply quiet_step_safe; [done|]. cbn. destruct (writers (sys t) !! i) as [w|] eqn:E; [|by exists (sys t)].
    apply writer_step_safe; [done|]. exact (Forall_lookup_1 _ _ _ _ (ss_writers _ Hs) E).
  - apply quiet_step_safe; [done|]. by apply monitor_step_safe.
  - apply quiet_step_safe; [done|]. cbn. destruct (run_goroutine_safe i _ Hd) as (d & -> & Hd' & Hg).
    cbn [rbind]. eexists. split; [done|]. split; [|done]. eapply (sys_safe_db d (sys t)); try done; by left.
  - cbn. destruct (tryRead_safe o sleeps _ Hd) as (d & r & -> & Hd' & Hg & Hr). cbn [rbind].
    eexists. split; [done|]. split; [by apply returned_safe|exact Hg].
  - done.
  - cbn. destruct (chunks t !! k) as [c|] eqn:E; [|by exists t]. eexists. split; [done|].
    pose proof (Forall_lookup_1 _ _ _ _ Hc E) as (_ & _ & Hf).
    assert (Forall (chunk_safe (mem_of t)) (delete k (chunks t))) as Hdel by (by apply Forall_delete).
    unfold Release. destruct (free c) as [f|] eqn:Ef; cbn [snd].
    + destruct (run_free_safe f _ Hd) as [? ?]; [|by apply env_step_safe].
      destruct f; [apply Hf|done..].
    + by apply env_step_safe.
  - eexists. split; [done|]. destruct (cleanup_safe clock mo bo _ Hd). by apply env_step_safe.
  - eexists. split; [done|].
    destruct (safe_set_mem (alloc k (mem_of t)).1 _ Hd); [apply alloc_extends|apply alloc_wf, Hd|].
    by apply env_step_safe.
  - eexists. split; [done|]. destruct Hh as [Hp Hl].
    destruct (safe_set_mem (store p l (mem_of t)) _ Hd); [apply store_extends|by apply store_wf; [apply Hd|..]|].
    by apply env_step_safe.
Qed.

Lemma trace_run_safe (evs : list trace_event) (t : trace H S) :
  trace_safe t → harmless_all evs t →
  (∀ i p, TRun (EvCall i p) ∈ evs → Named (sptr p) (slen p)) →
  ∃ t' : trace H S, trace_run range evs t = Ok t' ∧ trace_safe t'.
Proof.
  revert t. induction evs as [|ev evs IH]; intros t Ht Hh Hn; [by exists t|].
  destruct Hh as [Hev Hh]. cbn [trace_run].
  destruct (trace_step_safe ev t Ht Hev) as (t1 & E & Ht1 & _).
  { intros i p ->. apply (Hn i). by left. }
  rewrite E in *. cbn [rbind]. apply IH; [done|done|]. intros i p Hin. apply (Hn i). by right.
Qed.

(** ** The initial state *)

Lemma NewDoubleBuffer_safe (n : Z) (cond : SwitchCondition) (opts : list Z) (s : S) (now mode : Z)
    (m : memory) (d : DoubleBuffer H S) :
  0 < n < 2 ^ 31 → mem_wf m → ReadMode_Validate mode = true →
  NewDoubleBuffer n cond opts s now m = Ok (inl d) → safe (RegisterReadMode mode d).1.
Proof.
  intros Hn Hm Hmode E. destruct (NewDoubleBuffer_flow n cond opts s now m d Hn E) as ([Hst Hf] & _ & _ & Em & Hp).
  unfold RegisterReadMode. rewrite Hmode. cbn [fst].
  assert (size d = n ∧ map_Forall (λ _ s, ring_safe n m s) (bufs (objs d)) ∧
    pool d = [] ∧ currentBuffer d = None ∧ goroutines d = [] ∧ pq_contents (pendingHeap d) = []) as
    (Esz & Hr & Epl & Ecur & Ego & Eh).
  { clear Hst Hf Em Hp. unfold NewDoubleBuffer in E. destruct pq_new_ok as (h & Eh & _ & Hc). rewrite Eh in E.
    cbn [rbind] in E. destruct (new_ring_safe n m) as (s0 & Es & Hs0); [lia|]. rewrite Es in E. cbn [rbind] in E.
    destruct (apply_options opts _) as [d0|] eqn:Eo; [|done].
    apply apply_options_same in Eo as ((E1 & _ & _ & _ & _ & _ & E7 & E8 & E9 & E10 & _ & E12 & E13 & _) & _).
    cbn in *. unfold new_buf in E. rewrite E1, Es in E. cbn in E. rewrite E1, Es in E. cbn in E.
    injection E as <-. cbn. rewrite E1, E7, E8, E9, E10, E12, E13. cbn. split_and!; try done.
    repeat (apply map_Forall_insert_2; [done|]). apply map_Forall_empty. }
  constructor; cbn; rewrite ?Esz, ?Em; try done.
  - intros b Hb. unfold refs in Hb. cbn in Hb. rewrite Epl, Ecur, Ego, Eh in Hb. cbn in Hb.
    destruct (fl_stored Hf b) as (s1 & T & Es & _); [|by exists s1].
    unfold owned. rewrite Epl, Ecur, Ego. cbn. rewrite !elem_of_cons in *. tauto.
  - apply (fl_heap Hf).
  - apply (fl_wm Hf).
  - by rewrite Hp.
Qed.
End memory.

(** [k] writers around a new double buffer whose read mode is [mode]. *)
Definition mode_start {H S : Type} `{!PendingQueue H, !SwitchStrategy S} (mode : Z) (k : nat)
    (d : DoubleBuffer H S) : trace H S :=
  mkTrace H S (DoubleBufferConc.start k (RegisterReadMode mode d).1) [] [] [] [].

(** No interleaving panics, and no chunk dangles.  Any number of writers
    are inside [Write] at once, the monitor switches, the goroutines of the
    switches run in any order, readers read in either mode, chunks are
    released, the pools cleaned, and users allocate and overwrite mapped
    memory, the library's included; one access at a time, in any order.  As
    long as [Write] is given slices of 1 byte to 2 GiB of mapped memory,
    nothing panics, every chunk that was delivered is a non-empty slice of
    mapped memory, and the object of 1024 bytes or more that a chunk gives
    back when it is released is a slice that was given to [Write], of the
    chunk's length. *)
Theorem interleavings_are_memory_safe {H S : Type} `{PendingQueueLaws H, !SwitchStrategy S}
    (range : gmap Z nat → list (Z * nat)) (k : nat) (n : Z) (cond : SwitchCondition)
    (opts : list Z) (s : S) (now mode : Z) (m : memory) (d : DoubleBuffer H S) (evs : list trace_event)
    (Hrange : RangeOrder range) (Hn : 0 < n < 2 ^ 31) (Hm : mem_wf m)
    (Hmode : ReadMode_Validate mode = true) (Hd : NewDoubleBuffer n cond opts s now m = Ok (inl d))
    (Hharmless : harmless_all range evs (mode_start mode k d)) :
  ∃ t : trace H S, trace_run range evs (mode_start mode k d) = Ok t ∧
    ∀ c : DataChunk free_action, c ∈ chunks t →
      0 < slen (data c) ∧ is_Some (slice_bytes (mem_of t) (data c)) ∧
      ∀ p sz : Z, free c = Some (FreeRecycle p sz) ∨ free c = Some (FreeZeroCopy p sz) →
        SmallDataThreshold ≤ sz →
        slen (data c) = sz ∧ ∃ (i : nat) (q : slice), TRun (EvCall i q) ∈ evs ∧ sptr q = p ∧ slen q = sz.
Proof.
  set (Named := λ p sz, ∃ (i : nat) (q : slice), TRun (EvCall i q) ∈ evs ∧ sptr q = p ∧ slen q = sz).
  assert (trace_safe Named (mode_start mode k d)) as Hs.
  { constructor; [|by constructor]. constructor; cbn; [by eapply NewDoubleBuffer_safe| |done].
    by apply Forall_replicate. }
  destruct (trace_run_safe range Named evs _ Hs Hharmless) as (t & E & _ & Hc); [by intros i p Hin; exists i, p|].
  exists t. split; [done|]. intros c Hin. rewrite Forall_forall in Hc. by apply (chunk_safe_gives Named), Hc.
Qed.

(** Memory with a small and a medium slice. *)
Definition crowd_mem : memory := store 5 [x11; x22] (alloc 1200 empty_mem).1.
Definition crowd_p : slice := mkSlice 5 2 2.
Definition crowd_q : slice := mkSlice 50 1100 1100.

Definition crowd_new : result (DoubleBuffer WrapHeap DefaultStrategy + error) :=
  NewDoubleBuffer 1 (mkCondition (mkConfig 1 80 second 1000) true 1) [] NewDefaultStrategy 0 crowd_mem.

Definition crowd : DoubleBuffer WrapHeap DefaultStrategy :=
  match crowd_new with Ok (inl d) => d | _ => demo end.

(** Three writers begin; two of them take accesses in turn, then each runs to
    its end; a user overwrites memory the library holds; the third follows,
    then the goroutines; two chunks are read, one of them is released, and a
    read finds nothing. *)
Definition crowd_evs : list trace_event :=
  let w i := TRun (EvWriter demo_oracle i) in
  TRun (EvCall 0 crowd_p) :: TRun (EvCall 1 crowd_q) :: TRun (EvCall 2 crowd_p) ::
  concat (replicate 8 [w 0%nat; w 1%nat]) ++ replicate 40 (w 0%nat) ++ replicate 40 (w 1%nat) ++
  TStore 1300 [x00; x00; x00] :: replicate 50 (w 2%nat) ++ replicate 9 (TRun (EvGo 0)) ++
  [TRun (EvRead demo_oracle []); TRelease 0; TRun (EvRead demo_oracle []); TRun (EvRead demo_oracle [])].

Lemma crowd_ok : crowd_new = Ok (inl crowd).
Proof. vm_compute. reflexivity. Qed.

Lemma crowd_mem_wf : mem_wf crowd_mem.
Proof.
  apply store_wf; [apply alloc_wf|done|done]. split; [done|]. intros a [x Hx].
  cbn [empty_mem bytes] in Hx. by rewrite lookup_empty in Hx.
Qed.

Lemma crowd_harmless : harmless_all map_to_list crowd_evs (mode_start SafeRead 3 crowd).
Proof. vm_compute. repeat split; try discriminate; by eexists. Qed.

Definition crowd_end : trace WrapHeap DefaultStrategy :=
  get_ok (mode_start SafeRead 3 crowd) (trace_run map_to_list crowd_evs (mode_start SafeRead 3 crowd)).

Lemma interleavings_are_memory_safe_witness :
  chunks crowd_end = [mkChunk crowd_q (Some (FreeRecycle 50 1100))] ∧
  ∃ t : trace WrapHeap DefaultStrategy,
    trace_run map_to_list crowd_evs (mode_start SafeRead 3 crowd) = Ok t ∧
    ∀ c : DataChunk free_action, c ∈ chunks t →
      0 < slen (data c) ∧ is_Some (slice_bytes (mem_of t) (data c)) ∧
      ∀ p sz : Z, free c = Some (FreeRecycle p sz) ∨ free c = Some (FreeZeroCopy p sz) →
        SmallDataThreshold ≤ sz →
        slen (data c) = sz ∧
        ∃ (i : nat) (q : slice), TRun (EvCall i q) ∈ crowd_evs ∧ sptr q = p ∧ slen q = sz.
Proof.
  split; [vm_compute; reflexivity|].
  eapply (interleavings_are_memory_safe map_to_list 3 1 _ _ _ _ _ crowd_mem crowd crowd_evs).
  - apply map_to_list_RangeOrder.
  - split; reflexivity.
  - apply crowd_mem_wf.
  - reflexivity.
  - apply crowd_ok.
  - apply crowd_harmless.
Defined.
