(* ===== verification/DoubleBufferOnce.v ===== *)
(** * Delivery at most once

    In every interleaving of [DoubleBufferTurns.trace_run], whatever else goes
    wrong there: a write is delivered at most once, and a write that is
    refused is not delivered.  An item is in one place at a time: with its
    writer, in one slot of one ring, or with the reader. *)
From S2P Require Import Prelude.
From S2P Require Import Consts.
From S2P Require Import Interfaces.
From S2P Require Import Runtime.
From S2P Require Import SmartBuffer.
From S2P Require Import SmartBufferConc.
From S2P Require Import SwitchStrategy.
From S2P Require Import SwitchConfig.
From S2P Require Import LifeCycle.
From S2P Require Import DataChunk.
From S2P Require Import WrapHeap.
From S2P Require Import DoubleBuffer.
From S2P Require Import DoubleBufferDelivery.
From S2P Require Import DoubleBufferConc.
From S2P Require Import DoubleBufferView.
From S2P Require Import DoubleBufferTurns.
From S2P Require Import DoubleBufferMemory.
Open Scope Z_scope.
Open Scope go_scope.

#[export] Instance free_action_eq_dec : EqDecision free_action.
Proof. solve_decision. Defined.

(** ** Counting *)

Definition weight {A : Type} (P : A → Prop) `{∀ x, Decision (P x)} (l : list A) : nat :=
  length (filter P l).

Section weight.
  Context {A : Type} (P : A → Prop) `{∀ x, Decision (P x)}.

Lemma weight_app (l l' : list A) : weight P (l ++ l') = (weight P l + weight P l')%nat.
Proof. unfold weight. by rewrite filter_app, length_app. Qed.

Lemma weight_nil : weight P [] = 0%nat.
Proof. done. Qed.

Lemma weight_cons (x : A) (l : list A) : weight P (x :: l) = (weight P [x] + weight P l)%nat.
Proof. apply (weight_app [x] l). Qed.

Lemma weight_perm (l l' : list A) : l ≡ₚ l' → weight P l = weight P l'.
Proof. intros E. unfold weight. by rewrite E. Qed.

(** Replacing an element. *)
Lemma weight_insert (l : list A) (i : nat) (x y : A) :
  l !! i = Some x → (weight P (<[i := y]> l) + weight P [x] = weight P l + weight P [y])%nat.
Proof.
  intros Hi. rewrite insert_take_drop by (by eapply lookup_lt_Some).
  rewrite <- (take_drop_middle _ _ _ Hi) at 3. rewrite !weight_app, !(weight_cons _ (drop _ _)). lia.
Qed.

Lemma weight_none (x : A) : ¬ P x → weight P [x] = 0%nat.
Proof. intros Hx. unfold weight. by rewrite filter_cons_False. Qed.

Lemma weight_all (l : list A) : (∀ x, P x) → weight P l = length l.
Proof.
  intros Hall. unfold weight. induction l as [|x l IH]; [done|].
  rewrite filter_cons_True by done. cbn [length]. by rewrite IH.
Qed.

Lemma weight_le_one (x : A) : (weight P [x] ≤ 1)%nat.
Proof. unfold weight. rewrite filter_cons. by case_decide; cbn; lia. Qed.
End weight.

(** The slots of ring [b], without the one a reader is about to clear. *)
Definition visible (hid : option (nat * Z)) (b : nat) (s : SmartBuffer) : list BufferItem :=
  match hid with
  | Some (b', pos) =>
      if decide (b = b') then <[Z.to_nat pos := zeroItem]> (SmartBuffer.buf s) else SmartBuffer.buf s
  | None => SmartBuffer.buf s
  end.

(** The slots of all rings of a store. *)
Definition items (hid : option (nat * Z)) (bm : gmap nat SmartBuffer) : list BufferItem :=
  concat ((λ x, visible hid x.1 x.2) <$> map_to_list bm).

(** ** The slots of the rings *)

Section once.
  Context {H S : Type} `{!PendingQueue H, !SwitchStrategy S}.
  Context (range : gmap Z nat → list (Z * nat)).
  Context (P : BufferItem → Prop) `{∀ x, Decision (P x)} (HP : ¬ P zeroItem).

(** [C] holds of the slices whose items may be counted. *)
Context (C : slice → Prop) `{∀ q, Decision (C q)}.
Context (HC : ∀ (o : oracle) (p : slice) (d d' : DoubleBuffer H S) (it : BufferItem),
  classify o p d = Ok (d', it) → P it → C p).

(** The slot [hid], if there is one, is about to be cleared and not counted. *)
Section hidden.
  Context (hid : option (nat * Z)).

Lemma items_split (bm : gmap nat SmartBuffer) (b : nat) (s : SmartBuffer) :
  bm !! b = Some s →
  weight P (items hid bm) = (weight P (visible hid b s) + weight P (items hid (delete b bm)))%nat.
Proof.
  intros Hb. unfold items. rewrite <- weight_app. apply weight_perm.
  rewrite <- (insert_delete_id bm b s Hb) at 1. rewrite map_to_list_insert by apply lookup_delete_eq. done.
Qed.

Lemma items_insert (bm : gmap nat SmartBuffer) (b : nat) (s s' : SmartBuffer) :
  bm !! b = Some s →
  (weight P (items hid (<[b := s']> bm)) + weight P (visible hid b s) =
   weight P (items hid bm) + weight P (visible hid b s'))%nat.
Proof.
  intros Hb. rewrite (items_split bm b s Hb), (items_split (<[b := s']> bm) b s') by apply lookup_insert_eq.
  rewrite delete_insert_eq. lia.
Qed.

Lemma items_insert_le (bm : gmap nat SmartBuffer) (b : nat) (s : SmartBuffer) :
  (weight P (items hid (<[b := s]> bm)) ≤ weight P (items hid bm) + weight P (visible hid b s))%nat.
Proof.
  destruct (bm !! b) as [s0|] eqn:Hb; [pose proof (items_insert bm b s0 s Hb); lia|].
  rewrite (items_split (<[b := s]> bm) b s) by apply lookup_insert_eq.
  rewrite delete_insert_id by done. lia.
Qed.

(** The items of interest in the rings. *)
Definition stocked (d : DoubleBuffer H S) : nat := weight P (items hid (bufs (objs d))).

Lemma stocked_same (d d' : DoubleBuffer H S) : bufs (objs d') = bufs (objs d) → stocked d' = stocked d.
Proof. unfold stocked. by intros ->. Qed.

Lemma set_buf_stocked (b : nat) (s s' : SmartBuffer) (d : DoubleBuffer H S) :
  get_buf b d = Ok s →
  (stocked (DoubleBuffer.set_buf b s' d) + weight P (visible hid b s) =
   stocked d + weight P (visible hid b s'))%nat.
Proof.
  unfold get_buf. destruct (bufs (objs d) !! b) as [s0|] eqn:E; [|done]. intros [= ->].
  by apply items_insert.
Qed.

(** A ring whose slots stay what they are. *)
Lemma set_buf_stocked_same (b : nat) (s s' : SmartBuffer) (d : DoubleBuffer H S) :
  get_buf b d = Ok s → SmartBuffer.buf s' = SmartBuffer.buf s →
  stocked (DoubleBuffer.set_buf b s' d) = stocked d.
Proof.
  intros E Eb. pose proof (set_buf_stocked b s s' d E) as Hs. unfold visible in Hs. rewrite Eb in Hs. lia.
Qed.

(** The hidden slot counts for nothing. *)
Lemma visible_le (b : nat) (s : SmartBuffer) : (weight P (visible hid b s) ≤ weight P (SmartBuffer.buf s))%nat.
Proof.
  unfold visible. destruct hid as [[b' pos]|]; [|done]. case_decide; [|done].
  destruct (SmartBuffer.buf s !! Z.to_nat pos) as [x|] eqn:Ex.
  - pose proof (weight_insert P _ _ _ zeroItem Ex). rewrite (weight_none P zeroItem HP) in *. lia.
  - by rewrite list_insert_ge by (by apply lookup_ge_None).
Qed.

Lemma visible_store (b q : nat) (s s' : SmartBuffer) (it : BufferItem) :
  SmartBuffer.buf s' = <[q := it]> (SmartBuffer.buf s) → (q < length (SmartBuffer.buf s))%nat →
  (weight P (visible hid b s') ≤ weight P (visible hid b s) + weight P [it])%nat.
Proof.
  intros E Hq. assert (∀ l : list BufferItem, (q < length l)%nat →
    (weight P (<[q := it]> l) ≤ weight P l + weight P [it])%nat) as Hst.
  { intros l [y Hy]%lookup_lt_is_Some_2. pose proof (weight_insert P _ _ _ it Hy). lia. }
  unfold visible. rewrite E. destruct hid as [[b' pos]|]; [|by apply Hst]. case_decide; [|by apply Hst].
  destruct (decide (q = Z.to_nat pos)) as [->|Hne].
  - rewrite list_insert_insert_eq. lia.
  - rewrite list_insert_insert_ne by done. apply Hst. by rewrite length_insert.
Qed.

(** A new ring is empty. *)
Lemma new_ring_weight (n : Z) (s : SmartBuffer) : NewSmartBuffer n = Ok s → weight P (SmartBuffer.buf s) = 0%nat.
Proof.
  unfold NewSmartBuffer. case_decide; [|done]. intros [= <-]. cbn. unfold weight.
  induction (Z.to_nat n) as [|k IH]; [done|]. cbn [replicate]. by rewrite filter_cons_False.
Qed.

Lemma pool_Get_stocked (choice : option nat) (d d' : DoubleBuffer H S) (b : nat) :
  pool_Get choice d = Ok (d', b) → (stocked d' ≤ stocked d)%nat.
Proof.
  unfold pool_Get. destruct (pool_take choice (pool d)) as [[b0 rest]|]; [by intros [= <- <-]|].
  unfold new_buf. intros (s & E & [= <- <-])%rbind_ok. unfold stocked. cbn.
  pose proof (items_insert_le (bufs (objs d)) (next (objs d)) s).
  pose proof (visible_le (next (objs d)) s). rewrite (new_ring_weight _ _ E) in *. lia.
Qed.

Lemma small_copy_bufs (o : oracle) (n : Z) (src buf : slice) (d d' : DoubleBuffer H S) :
  small_copy o n src d = Ok (d', buf) → bufs (objs d') = bufs (objs d).
Proof.
  unfold small_copy. intros ([[l m] b1] & _ & ([m2 b2] & _ & (b3 & _ & (m3 & _ & [= <- <-])%rbind_ok)%rbind_ok)%rbind_ok)%rbind_ok.
  done.
Qed.

Lemma classify_bufs (o : oracle) (p : slice) (d d' : DoubleBuffer H S) (it : BufferItem) :
  classify o p d = Ok (d', it) →
  bufs (objs d') = bufs (objs d) ∧
  (Size it < SmallDataThreshold ∨ it = mkItem (sptr p) (int32 (slen p))).
Proof.
  unfold classify. case_decide as Hs.
  - intros ([d1 buf] & E & (ptr & _ & [= <- <-])%rbind_ok)%rbind_ok.
    split; [by eapply small_copy_bufs|by left].
  - case_decide; intros [= <- <-]; (split; [done|by right]).
Qed.

(** ** The steps of a writer *)

(** The item the writer has yet to store. *)
Definition to_store (pc : writer_pc) : option BufferItem :=
  match pc with WFastPush _ _ PushAdd | WSlowPush _ _ PushAdd => None | _ => in_flight pc end.

(** The item is stored and the call has not returned. *)
Definition past_store (pc : writer_pc) : nat :=
  match pc with WFastPush _ _ PushAdd | WSlowPush _ _ PushAdd => 1 | _ => counted pc end.

(** What an access of [Push] that ended in [next] stored. *)
Definition stores (it : BufferItem) (next : push_pc + option error) : list BufferItem :=
  match next with inl PushAdd => [it] | _ => [] end.

Lemma push_step_weight (it : BufferItem) (b : nat) (pc : push_pc) (s s' : SmartBuffer)
    (next : push_pc + option error) :
  push_step it pc s = Ok (s', next) →
  (weight P (visible hid b s') ≤
    weight P (visible hid b s) + weight P (stores it next))%nat ∧
  (pc = PushAdd ↔ next = inr None).
Proof.
  destruct pc as [| | | |h|n pos|pos|]; cbn [push_step].
  - case_decide; intros [= <- <-]; (split; [apply Nat.le_add_r|by split]).
  - case_decide; intros [= <- <-]; (split; [apply Nat.le_add_r|by split]).
  - intros [= <- <-]. split; [apply Nat.le_add_r|by split].
  - intros [= <- <-]. split; [apply Nat.le_add_r|by split].
  - case_decide; intros [= <- <-]; (split; [apply Nat.le_add_r|by split]).
  - destruct n as [|n]; [intros [= <- <-]; split; [apply Nat.le_add_r|by split]|].
    intros (x & _ & E)%rbind_ok. case_decide; injection E as <- <-; (split; [apply Nat.le_add_r|by split]).
  - unfold set_indexZ. case_decide; [|done]. unfold set_index. case_decide as Hlt; [|done].
    intros [= <- <-]. split; [|by split]. by apply (visible_store b (Z.to_nat pos)).
  - intros [= <- <-]. split; [apply Nat.le_add_r|by split].
Qed.

Lemma ring_step_stocked (it : BufferItem) (b : nat) (pc : push_pc) (d d' : DoubleBuffer H S)
    (next : push_pc + option error) :
  ring_step it b pc d = Ok (d', next) →
  (stocked d' ≤ stocked d + weight P (stores it next))%nat ∧
  (pc = PushAdd ↔ next = inr None).
Proof.
  unfold ring_step. intros (s & E & ([s' nx] & Ep & [= <- <-])%rbind_ok)%rbind_ok.
  apply (push_step_weight it b) in Ep as [Hw Hpc]. split; [|done]. pose proof (set_buf_stocked b s s' d E). lia.
Qed.

Lemma switch_step_stocked (o : oracle) (a : agent) (pc : switch_pc) (lock l : option agent)
    (d d' : DoubleBuffer H S) (next : option switch_pc) :
  switch_step o a pc lock d = Ok (d', l, next) → (stocked d' ≤ stocked d)%nat.
Proof.
  destruct pc; cbn [switch_step]; try (by intros [= <- <- <-]).
  - case_decide; by intros [= <- <- <-].
  - destruct lock; by intros [= <- <- <-].
  - intros (s & E & [= <- <- <-])%rbind_ok. by rewrite (set_buf_stocked_same _ s).
  - intros ([d1 b] & E & [= <- <- <-])%rbind_ok. by eapply pool_Get_stocked.
Qed.

(** What a writer may still store. *)
Definition claim (pc : writer_pc) : nat :=
  match pc with
  | WStart p | WClassify p => weight C [p]
  | _ => weight P (option_list (to_store pc))
  end.

(** Writer [w] becomes [w'], [st] is what it stores. *)
Definition settled (w w' : writer) (st : list BufferItem) : Prop :=
  (length st + past_store (wpc w) + successes (returned w) ≤
    past_store (wpc w') + successes (returned w'))%nat ∧
  (weight P st + claim (wpc w') ≤ claim (wpc w))%nat.

Definition ledger (i : nat) (w : writer) (x y : system H S) : Prop :=
  ∃ (w' : writer) (st : list BufferItem),
    writers y = <[i := w']> (writers x) ∧ reads y = reads x ∧
    (stocked (db y) ≤ stocked (db x) + weight P st)%nat ∧ settled w w' st.

Lemma ledger_goto (i : nat) (w : writer) (pc : writer_pc) (x : system H S) (d : DoubleBuffer H S)
    (wl sl : option agent) (st : list BufferItem) :
  writers x !! i = Some w → (stocked d ≤ stocked (db x) + weight P st)%nat →
  settled w (mkWriter pc (returned w)) st →
  ledger i w x (set_writeLock wl (set_switchLock sl (goto i pc d x))).
Proof.
  intros Hi Hd Hst. rewrite (goto_eq _ _ _ _ _ Hi). by exists (mkWriter pc (returned w)), st.
Qed.

Lemma ledger_return (i : nat) (w : writer) (err : option error) (x : system H S) (d : DoubleBuffer H S)
    (wl : option agent) :
  writers x !! i = Some w → (stocked d ≤ stocked (db x))%nat →
  settled w (mkWriter WIdle (returned w ++ [err])) [] →
  ledger i w x (set_writeLock wl (return_ i err d x)).
Proof.
  intros Hi Hd Hst. rewrite (return_eq _ _ _ _ _ Hi).
  exists (mkWriter WIdle (returned w ++ [err])), [].
  do 2 (split; [done|]). split; [cbn; lia|done].
Qed.

Lemma ledger_same (i : nat) (w : writer) (x : system H S) : writers x !! i = Some w → ledger i w x x.
Proof.
  intros Hi. exists w, []. rewrite list_insert_id by done.
  do 2 (split; [done|]). split; [lia|]. split; cbn; lia.
Qed.

Lemma weight_classify (o : oracle) (p : slice) (d d' : DoubleBuffer H S) (it : BufferItem) :
  classify o p d = Ok (d', it) → (weight P [it] ≤ weight C [p])%nat.
Proof.
  intros E. destruct (decide (P it)) as [Hit|Hit].
  - pose proof (HC _ _ _ _ _ E Hit) as Hp. unfold weight. rewrite !filter_cons_True by done. done.
  - rewrite (weight_none P it Hit). lia.
Qed.

Ltac settle :=
  split; cbn [wpc returned past_store counted claim to_store in_flight option_list option_rect length stores];
  rewrite ?successes_app, ?successes_one, ?weight_nil; lia.

(** A writer that moves on and stores nothing. *)
Lemma ledger_move (i : nat) (w : writer) (pc : writer_pc) (x : system H S) :
  writers x !! i = Some w → settled w (mkWriter pc (returned w)) [] → ledger i w x (goto i pc (db x) x).
Proof.
  intros Hi Hw. apply (ledger_goto i w pc x (db x) (writeLock x) (switchLock x) [] Hi); [lia|done].
Qed.

Lemma writer_step_ledger (o : oracle) (i : nat) (w : writer) (x y : system H S) :
  writers x !! i = Some w → writer_step o i (wpc w) x = Ok y → ledger i w x y.
Proof.
  intros Hi. destruct w as [pc rs]. destruct pc as [|p|p|it|it|it b|it b ppc| |it|it|it b|it spc|it|it b|it b ppc| |err];
    cbn [wpc writer_step].
  - intros [= <-]. by apply ledger_same.
  - case_decide; intros [= <-]; [|(apply ledger_move; [done|settle])].
    apply (ledger_return i _ _ x (db x) (writeLock x)); [done|lia|].
    settle.
  - intros ([d it] & E & [= <-])%rbind_ok. pose proof (classify_bufs _ _ _ _ _ E) as [Eb _].
    apply (ledger_goto i _ (WFast it) x d (writeLock x) (switchLock x) []); [done|rewrite (stocked_same _ _ Eb); lia|].
    pose proof (weight_classify _ _ _ _ _ E). settle.
  - case_decide; intros [= <-]; (apply ledger_move; [done|settle]).
  - intros [= <-]. (apply ledger_move; [done|settle]).
  - intros (s & _ & E)%rbind_ok. case_decide; injection E as <-; (apply ledger_move; [done|settle]).
  - intros ([d next] & E & E2)%rbind_ok. apply ring_step_stocked in E as [Hs Hpc].
    destruct next as [pc'|[err|]].
    + injection E2 as <-.
      apply (ledger_goto i _ _ x d (writeLock x) (switchLock x) (stores it (inl pc')));
        [done|exact Hs|].
      destruct (decide (ppc = PushAdd)) as [Hp|Hp]; [by apply Hpc in Hp|].
      destruct ppc; try done; destruct pc'; settle.
    + injection E2 as <-. apply (ledger_goto i _ _ x d (writeLock x) (switchLock x) []); [done|exact Hs|].
      destruct (decide (ppc = PushAdd)) as [Hp|Hp]; [by apply Hpc in Hp|].
      destruct ppc; try done; settle.
    + injection E2 as <-. apply (ledger_goto i _ _ x d (writeLock x) (switchLock x) []); [done|exact Hs|].
      rewrite (proj2 Hpc eq_refl). settle.
  - intros [= <-]. apply (ledger_return i _ None x _ (writeLock x)); [done|done|].
    settle.
  - destruct (writeLock x) eqn:El; intros [= <-]; [by apply ledger_same|].
    apply (ledger_goto i _ _ x (db x) _ (switchLock x) []); [done|lia|settle].
  - intros [= <-]. (apply ledger_move; [done|settle]).
  - intros (s & _ & E)%rbind_ok. case_decide; injection E as <-; (apply ledger_move; [done|settle]).
  - intros ([[d l] next] & E & [= <-])%rbind_ok. apply switch_step_stocked in E.
    apply (ledger_goto i _ _ x d (writeLock x) l []); [done|lia|]. destruct next; settle.
  - intros [= <-]. (apply ledger_move; [done|settle]).
  - intros (s & _ & E)%rbind_ok. case_decide; injection E as <-; (apply ledger_move; [done|settle]).
  - intros ([d next] & E & E2)%rbind_ok. apply ring_step_stocked in E as [Hs Hpc].
    destruct next as [pc'|[err|]].
    + injection E2 as <-.
      apply (ledger_goto i _ _ x d (writeLock x) (switchLock x) (stores it (inl pc')));
        [done|exact Hs|].
      destruct (decide (ppc = PushAdd)) as [Hp|Hp]; [by apply Hpc in Hp|].
      destruct ppc; try done; destruct pc'; settle.
    + injection E2 as <-. apply (ledger_goto i _ _ x d (writeLock x) (switchLock x) []); [done|exact Hs|].
      destruct (decide (ppc = PushAdd)) as [Hp|Hp]; [by apply Hpc in Hp|].
      destruct ppc; try done; settle.
    + injection E2 as <-. apply (ledger_goto i _ _ x d (writeLock x) (switchLock x) []); [done|exact Hs|].
      rewrite (proj2 Hpc eq_refl). settle.
  - intros [= <-].
    apply (ledger_goto i _ _ x (set_count (int32 (count (db x) + 1)) (db x)) (writeLock x) (switchLock x) []);
      [done|apply Nat.le_add_r|settle].
  - intros [= <-]. apply (ledger_return i _ err x (db x) None); [done|done|].
    destruct err; settle.
Qed.

End hidden.

(** ** The reader *)

(** A chunk made of an item. *)
Definition made_of (it : BufferItem) (c : DataChunk free_action) : Prop :=
  it ≠ zeroItem ∧
  ((∃ s : slice, free c = Some (FreeSmall s)) ∨ free c = Some (FreeRecycle (Ptr it) (Size it)) ∨
   free c = Some (FreeZeroCopy (Ptr it) (Size it))).

Lemma retry_read_slot (n : nat) (it0 it : BufferItem) (b : list BufferItem) (pos : Z) :
  retry_read (Datatypes.S n) it0 b pos = Ok it → indexZ b pos = Ok it.
Proof.
  revert it0. induction n as [|n IH]; intros it0; cbn; intros (x & E & E2)%rbind_ok.
  - rewrite E. by case_decide; injection E2 as <-.
  - case_decide; [by injection E2 as <-|]. by apply (IH x).
Qed.

Lemma Pop_weight (s s' : SmartBuffer) (x : Z * Z) :
  SmartBuffer.Pop s = Ok (s', x) → ∃ it : BufferItem, x = (Ptr it, Size it) ∧
    (weight P (SmartBuffer.buf s') + weight P [it] ≤ weight P (SmartBuffer.buf s))%nat.
Proof.
  unfold SmartBuffer.Pop. case_decide.
  { intros [= <- <-]. exists zeroItem. split; [done|]. rewrite (weight_none P zeroItem HP). lia. }
  intros (it & Er & (b & Eb & [= <- <-])%rbind_ok)%rbind_ok. exists it. split; [done|].
  apply retry_read_slot in Er. cbn [SmartBuffer.buf]. unfold indexZ, index in Er. unfold set_indexZ, set_index in Eb.
  case_decide; [|done]. case_decide; [|done]. injection Eb as <-.
  destruct (SmartBuffer.buf s !! Z.to_nat _) as [x|] eqn:El; [|done]. injection Er as ->.
  pose proof (weight_insert P _ _ _ zeroItem El). rewrite (weight_none P zeroItem HP) in *. lia.
Qed.

Lemma pop_current_stocked (d d' : DoubleBuffer H S) (ptr n : Z) :
  pop_current d = Ok (d', (ptr, n)) → ∃ it : BufferItem, ptr = Ptr it ∧ n = Size it ∧
    (stocked None d' + weight P [it] ≤ stocked None d)%nat.
Proof.
  unfold pop_current. destruct (currentBuffer d) as [b|]; [|done].
  intros (s & E & ([s' x] & Ep & [= <- ->])%rbind_ok)%rbind_ok.
  apply Pop_weight in Ep as (it & [= -> ->] & Hw). exists it. split_and!; [done..|].
  pose proof (set_buf_stocked None b s s' d E) as Hs. cbn [visible] in Hs. lia.
Qed.

(** What a read took, if it made a chunk. *)
Definition took (d d' : DoubleBuffer H S) (x : option (DataChunk free_action)) : Prop :=
  match x with
  | Some c => ∃ it : BufferItem, made_of it c ∧ (stocked None d' + weight P [it] ≤ stocked None d)%nat
  | None => (stocked None d' ≤ stocked None d)%nat
  end.

(** The chunk is made of what [Pop] gave; the rings stay as they are. *)
Definition chunk_made (it : BufferItem) (d d' : DoubleBuffer H S) (x : option (DataChunk free_action)) : Prop :=
  bufs (objs d') = bufs (objs d) ∧ ∀ c : DataChunk free_action, x = Some c → made_of it c.

Lemma nonzero_item (it : BufferItem) : Size it ≠ 0 ∨ Ptr it ≠ 0 → it ≠ zeroItem.
Proof. by intros [Hn|Hn] ->. Qed.

Lemma safe_chunk_made (o : oracle) (it : BufferItem) (d d' : DoubleBuffer H S)
    (x : option (DataChunk free_action)) :
  safe_chunk o (Ptr it) (Size it) d = Ok (d', x) → chunk_made it d d' x.
Proof.
  unfold safe_chunk, chunk_made, made_of. case_decide as H0'; [by intros [= <- <-]|].
  pose proof (nonzero_item it (or_introl H0')). intros (res & _ & E)%rbind_ok. case_decide.
  { apply rbind_ok in E as ([d2 buf] & Ec & E). injection E as <- <-.
    split; [by eapply small_copy_bufs|]. intros c [= <-]. split; [done|]. left. by exists buf. }
  case_decide; [injection E as <- <-; split; [done|]; intros c [= <-]; split; [done|]; right; by left|].
  case_match; [injection E as <- <-; split; [done|]; intros c [= <-]; split; [done|]; right; by left|].
  apply rbind_ok in E as ([m buf] & _ & E). apply rbind_ok in E as (m' & _ & E). injection E as <- <-.
  split; [done|]. intros c [= <-]. split; [done|]. right. by left.
Qed.

Lemma zero_copy_chunk_made (it : BufferItem) (d d' : DoubleBuffer H S) (x : option (DataChunk free_action)) :
  zero_copy_chunk (Ptr it) (Size it) d = Ok (d', x) → chunk_made it d d' x.
Proof.
  unfold zero_copy_chunk, chunk_made, made_of. case_decide as H0'; [by intros [= <- <-]|].
  pose proof (nonzero_item it (or_intror H0')). intros (res & _ & E)%rbind_ok. injection E as <- <-. split; [by case_decide|].
  intros c [= <-]. split; [done|]. right. by right.
Qed.

(** After [Pop], whatever makes the chunk. *)
Lemma popped_took (it : BufferItem) (d d1 d' : DoubleBuffer H S) (x : option (DataChunk free_action)) :
  (stocked None d1 + weight P [it] ≤ stocked None d)%nat → chunk_made it d1 d' x → took d d' x.
Proof.
  intros Hw [Eb Hm]. pose proof (stocked_same None _ _ Eb). destruct x as [c|]; cbn [took]; [|lia].
  exists it. split; [by apply Hm|lia].
Qed.

Lemma safeRead_took (o : oracle) (d d' : DoubleBuffer H S) (x : option (DataChunk free_action)) :
  safeRead o d = Ok (d', x) → took d d' x.
Proof.
  unfold safeRead. intros ([d1 [ptr n]] & Ep & E)%rbind_ok.
  apply pop_current_stocked in Ep as (it & -> & -> & Hw).
  eapply popped_took; [done|]. by eapply safe_chunk_made.
Qed.

Lemma zeroCopyRead_took (d d' : DoubleBuffer H S) (x : option (DataChunk free_action)) :
  zeroCopyRead d = Ok (d', x) → took d d' x.
Proof.
  unfold zeroCopyRead. intros ([d1 [ptr n]] & Ep & E)%rbind_ok.
  apply pop_current_stocked in Ep as (it & -> & -> & Hw).
  eapply popped_took; [done|]. by eapply zero_copy_chunk_made.
Qed.

Definition chunk_of (r : DataChunk free_action + error) : option (DataChunk free_action) :=
  match r with inl c => Some c | inr _ => None end.

Lemma read_current_took (o : oracle) (d d' : DoubleBuffer H S) (r : DataChunk free_action + error) :
  read_current o d = Ok (d', r) → took d d' (chunk_of r).
Proof.
  unfold read_current. destruct (readMode d) as [m|]; [|done].
  case_decide; [|case_decide; [|by intros [= <- <-]; cbn]];
    intros ([d1 x] & E & [= <- <-])%rbind_ok; [apply safeRead_took in E|apply zeroCopyRead_took in E];
    by destruct x.
Qed.

Lemma took_after (d d1 d' : DoubleBuffer H S) (x : option (DataChunk free_action)) :
  (stocked None d1 ≤ stocked None d)%nat → took d1 d' x → took d d' x.
Proof.
  intros Hle. destruct x as [c|]; cbn; [intros (it & Hm & Hw); exists it; split; [done|]|]; lia.
Qed.

Lemma tryRead_took (o : oracle) (sleeps : list (list nat)) (d d' : DoubleBuffer H S)
    (r : DataChunk free_action + error) :
  tryRead range o sleeps d = Ok (d', r) → took d d' (chunk_of r).
Proof.
  unfold tryRead. intros (e & _ & E)%rbind_ok. destruct e; [|by eapply read_current_took].
  apply rbind_ok in E as (d1 & Ed & E).
  assert (stocked None d1 ≤ stocked None d)%nat as Hd1.
  { unfold discard_current in Ed. destruct (currentBuffer d) as [b|]; [|by injection Ed as <-].
    apply rbind_ok in Ed as (s & Es & Ed). injection Ed as <-.
    pose proof (set_buf_stocked None b s (Reset s) d Es) as Hs. cbn [visible Reset SmartBuffer.buf] in Hs.
    change (stocked None (DoubleBuffer.set_buf b (Reset s) d) ≤ stocked None d)%nat. lia. }
  apply rbind_ok in E as ([d2 picked] & Ep & E).
  assert (stocked None d2 = stocked None d1) as Hd2.
  { unfold pickBufferFromHeap in Ep. apply rbind_ok in Ep as ([d3 found] & El & Ep).
    apply pick_loop_rings in El as [Eo _]. apply stocked_same. rewrite <- Eo. by destruct found; injection Ep as <- <-. }
  destruct picked; [|injection E as <- <-; cbn; lia].
  eapply took_after; [|by eapply read_current_took]. lia.
Qed.

(** ** The system *)

(** [R] holds of the chunks that are counted. *)
Context (R : DataChunk free_action → Prop) `{∀ c, Decision (R c)}.
Context (HR : ∀ (it : BufferItem) (c : DataChunk free_action), made_of it c → R c → P it).

(** The chunks the readers got. *)
Definition got (x : system H S) : list (DataChunk free_action) := omap chunk_of (reads x).

Definition sum_over (f : writer → nat) (ws : list writer) : nat := sum_list_with f ws.

Lemma sum_over_insert (f : writer → nat) (ws : list writer) (i : nat) (w w' : writer) :
  ws !! i = Some w → (sum_over f (<[i := w']> ws) + f w = sum_over f ws + f w')%nat.
Proof. apply sum_list_with_insert. Qed.

(** The calls that returned nil and those past the store. *)
Definition served (w : writer) : nat := (past_store (wpc w) + successes (returned w))%nat.

(** What was delivered, what a reader holds and what is stocked was stored by
    a call that counts, and with what the writers hold it is at most what [n]
    calls were given.  The slot [hid] is the one the reader is about to clear. *)
Record balanced (hid : option (nat * Z)) (held : list BufferItem) (n : nat) (x : system H S) : Prop := {
  ba_served : (weight R (got x) + weight P held + stocked hid (db x) ≤ sum_over served (writers x))%nat;
  ba_called : (weight R (got x) + weight P held + stocked hid (db x) +
    sum_over (λ w, claim (wpc w)) (writers x) ≤ n)%nat
}.

Lemma weight_made (it : BufferItem) (c : DataChunk free_action) :
  made_of it c → (weight R [c] ≤ weight P [it])%nat.
Proof.
  intros Hm. destruct (decide (R c)) as [Hr|Hr]; [|rewrite (weight_none R c Hr); lia].
  pose proof (HR it c Hm Hr). unfold weight. by rewrite !filter_cons_True.
Qed.

(** A reader returns [r] in [d]; [it] is what the chunk is made of. *)
Lemma balanced_returns (hid : option (nat * Z)) (held held' : list BufferItem) (n : nat)
    (x : system H S) (d : DoubleBuffer H S) (r : DataChunk free_action + error) :
  balanced hid held n x →
  (weight R (option_list (chunk_of r)) + weight P held' + stocked None d ≤
    weight P held + stocked hid (db x))%nat →
  balanced None held' n (mkSystem d (writeLock x) (switchLock x) (writers x) (monitor x) (reads x ++ [r])).
Proof.
  intros [Hs Hc] Hle.
  assert (weight R (omap chunk_of (reads x ++ [r])) = weight R (got x) + weight R (option_list (chunk_of r)))%nat as E.
  { rewrite omap_app, weight_app. by destruct r. }
  constructor; unfold got; cbn [db reads writers]; lia.
Qed.

Lemma took_weight (d d' : DoubleBuffer H S) (x : option (DataChunk free_action)) :
  took d d' x → (weight R (option_list x) + stocked None d' ≤ stocked None d)%nat.
Proof.
  destruct x as [c|]; cbn [took option_list option_rect]; [|by rewrite weight_nil].
  intros (it & Hm & Hw). pose proof (weight_made it c Hm). lia.
Qed.

(** The slices of the calls. *)
Definition called (evs : list trace_event) : list slice :=
  omap (λ ev, match ev with TRun (EvCall _ q) => Some q | _ => None end) evs.

Section others.
  Context (hid : option (nat * Z)) (held : list BufferItem).

Lemma balanced_weaken (n n' : nat) (x : system H S) : balanced hid held n x → (n ≤ n')%nat → balanced hid held n' x.
Proof. intros [Hb1 Hb2] Hn. constructor; lia. Qed.

Lemma balanced_ledger (n i : nat) (w : writer) (x y : system H S) :
  balanced hid held n x → writers x !! i = Some w → ledger hid i w x y → balanced hid held n y.
Proof.
  intros [Hs Hc] Hi (w' & st & Ew & Er & Hst & Hse & Hcl).
  pose proof (sum_over_insert served _ _ _ w' Hi). pose proof (sum_over_insert (λ w, claim (wpc w)) _ _ _ w' Hi).
  assert (weight P st ≤ length st)%nat by (unfold weight; apply length_filter).
  unfold served, got in *. constructor; unfold got; rewrite Ew, Er; unfold served; lia.
Qed.

Lemma sum_over_served (ws : list writer) :
  sum_over served ws = (accepted ws + sum_over (λ w, past_store (wpc w)) ws)%nat.
Proof.
  induction ws as [|w ws IH]; [done|]. unfold sum_over, accepted in *. cbn [sum_list_with fmap list_fmap concat].
  rewrite IH, successes_app. unfold served. lia.
Qed.

(** A step of the environment. *)
Lemma balanced_env (n : nat) (x y : system H S) :
  balanced hid held n x → writers y = writers x → reads y = reads x →
  (stocked hid (db y) ≤ stocked hid (db x))%nat → balanced hid held n y.
Proof. intros [Hs Hc] Ew Er Hle. unfold got in *. constructor; unfold got; rewrite Ew, Er; lia. Qed.

Lemma balanced_rings (n : nat) (x y : system H S) :
  balanced hid held n x → writers y = writers x → reads y = reads x →
  bufs (objs (db y)) = bufs (objs (db x)) → balanced hid held n y.
Proof. intros Hb Ew Er Eb. apply (balanced_env n x y Hb Ew Er). by rewrite (stocked_same hid _ _ Eb). Qed.

Lemma step_balanced (n : nat) (ev : event) (x y : system H S) :
  (reads_now (TRun ev) = true → hid = None ∧ held = []) →
  balanced hid held n x → step range ev x = Ok y → balanced hid held (n + weight C (called [TRun ev])) y.
Proof.
  intros Hev Hb E. destruct ev as [i p|o i|o|i|o sleeps|f]; cbn [step called omap list_omap] in *.
  - assert (balanced hid held (n + weight C [p]) x) as Hb' by (eapply balanced_weaken; [done|lia]).
    destruct (writers x !! i) as [[pc rs]|] eqn:Hi; [|by injection E as <-]. cbn [wpc] in E.
    destruct pc; injection E as <-; try done.
    rewrite (goto_eq _ _ _ _ _ Hi). destruct Hb as [Hs Hc].
    pose proof (sum_over_insert served _ _ _ (mkWriter (WStart p) rs) Hi) as T1.
    pose proof (sum_over_insert (λ w, claim (wpc w)) _ _ _ (mkWriter (WStart p) rs) Hi) as T2.
    change (served (mkWriter (WStart p) rs)) with (served (mkWriter WIdle rs)) in T1.
    cbn [wpc in_flight claim to_store option_list option_rect] in T2.
    rewrite weight_nil in T2. unfold got in *. constructor; unfold got; cbn [db reads writers returned]; lia.
  - rewrite weight_nil, Nat.add_0_r. destruct (writers x !! i) as [w|] eqn:Hi; [|by injection E as <-].
    eapply balanced_ledger; [done|done|]. by eapply writer_step_ledger.
  - rewrite weight_nil, Nat.add_0_r. unfold monitor_step in E. destruct (monitor x) as [|pc].
    + destruct (swapper (db x)); [|by injection E as <-]. unfold needSwitch in E.
      destruct (poll _ _) as [cond conf]. injection E as <-. by apply (balanced_env n x).
    + apply rbind_ok in E as ([[d l] next] & Es & E). injection E as <-.
      apply (switch_step_stocked hid) in Es. by apply (balanced_env n x).
  - rewrite weight_nil, Nat.add_0_r. apply rbind_ok in E as (d & Eg & E). injection E as <-.
    apply run_goroutine_rings in Eg as [Eo _]. apply (balanced_rings n x); try done. cbn. by rewrite Eo.
  - rewrite weight_nil, Nat.add_0_r. apply rbind_ok in E as ([d r] & Er & E). injection E as <-.
    destruct (Hev eq_refl) as [-> ->]. eapply balanced_returns; [done|].
    apply tryRead_took, took_weight in Er. rewrite weight_nil. lia.
  - rewrite weight_nil, Nat.add_0_r. injection E as <-. apply (balanced_rings n x); try done.
    destruct f as [s|p k|p k]; [done| |done]. cbn.
    unfold recycle. by repeat case_decide.
Qed.

Lemma trace_step_balanced (n : nat) (ev : trace_event) (t t' : trace H S) :
  (reads_now ev = true → hid = None ∧ held = []) →
  balanced hid held n (sys t) → trace_step range ev t = Ok t' →
  balanced hid held (n + weight C (called [ev])) (sys t').
Proof.
  intros Hev Hb E. destruct ev as [ev|k|clock mo bo|k|p l]; cbn [trace_step] in E.
  - apply rbind_ok in E as (y & Ey & E). injection E as <-. by eapply step_balanced.
  - cbn [called omap list_omap]. rewrite weight_nil, Nat.add_0_r.
    destruct (chunks t !! k) as [c|]; [|by injection E as <-]. injection E as <-.
    apply (balanced_rings n (sys t)); try done.
    unfold Release. destruct (free c) as [[s|p m|p m]|]; cbn; try done.
    unfold recycle. by repeat case_decide.
  - cbn [called omap list_omap]. rewrite weight_nil, Nat.add_0_r. injection E as <-.
    apply (balanced_rings n (sys t)); try done.
    cbn. unfold asyncRecycleWorker_tick. by destruct (recycler _).
  - cbn [called omap list_omap]. rewrite weight_nil, Nat.add_0_r. injection E as <-.
    by apply (balanced_env n (sys t)).
  - cbn [called omap list_omap]. rewrite weight_nil, Nat.add_0_r. injection E as <-.
    by apply (balanced_env n (sys t)).
Qed.
End others.

Lemma trace_run_balanced (n : nat) (evs : list trace_event) (t t' : trace H S) :
  balanced None [] n (sys t) → trace_run range evs t = Ok t' →
  balanced None [] (n + weight C (called evs)) (sys t').
Proof.
  revert n t. induction evs as [|ev evs IH]; intros n t Hb; cbn [trace_run].
  { intros [= <-]. eapply balanced_weaken; [done|lia]. }
  intros (t1 & E1 & E)%rbind_ok. apply (trace_step_balanced None [] _ _ _ _ (λ _, conj eq_refl eq_refl) Hb) in E1.
  apply (IH _ _ E1) in E. eapply balanced_weaken; [done|].
  change (called (ev :: evs)) with (omap (λ ev, match ev with TRun (EvCall _ q) => Some q | _ => None end) ([ev] ++ evs)).
  rewrite omap_app, weight_app. unfold called. lia.
Qed.

(** ** The start *)

Lemma RegisterReadMode_bufs (mode : Z) (d : DoubleBuffer H S) :
  bufs (objs (RegisterReadMode mode d).1) = bufs (objs d).
Proof. unfold RegisterReadMode. by case_match. Qed.

Lemma new_buf_stocked (d d' : DoubleBuffer H S) (b : nat) :
  new_buf d = Ok (d', b) → (stocked None d' ≤ stocked None d)%nat.
Proof.
  unfold new_buf. intros (s & E & [= <- <-])%rbind_ok. unfold stocked. cbn.
  pose proof (items_insert_le None (bufs (objs d)) (next (objs d)) s) as Hle. cbn [visible] in Hle.
  rewrite (new_ring_weight _ _ E) in Hle. lia.
Qed.

(** A new double buffer holds nothing. *)
Lemma NewDoubleBuffer_stocked (n : Z) (cond : SwitchCondition) (opts : list Z) (s : S) (now : Z)
    (m : memory) (d : DoubleBuffer H S) :
  NewDoubleBuffer n cond opts s now m = Ok (inl d) → stocked None d = 0%nat.
Proof.
  unfold NewDoubleBuffer. intros (h & _ & (a0 & Ea & (p0 & Ep & E)%rbind_ok)%rbind_ok)%rbind_ok.
  destruct (apply_options opts _) as [d0|] eqn:Eo; [|done].
  apply rbind_ok in E as ([d1 a] & E1 & E). apply rbind_ok in E as ([d2 p] & E2 & E). injection E as <-.
  apply (pool_Get_stocked None) in E1, E2. change (stocked None d2 = 0%nat). change (stocked None d2 ≤ stocked None d1)%nat in E2.
  assert (stocked None d0 = 0%nat) as E0; [|lia].
  apply apply_options_same in Eo as ((_ & _ & _ & _ & _ & _ & _ & _ & _ & _ & _ & Eb & _) & _).
  unfold stocked. rewrite Eb. cbn [objs bufs].
  pose proof (items_insert_le None {[0%nat := a0]} 1 p0) as Hi. unfold items in Hi at 2.
  rewrite map_to_list_singleton in Hi. cbn [fmap list_fmap fst snd visible concat] in Hi.
  rewrite app_nil_r, (new_ring_weight n a0), (new_ring_weight n p0) in Hi by done. apply Nat.le_0_r, Hi.
Qed.

Lemma start_balanced (n : Z) (cond : SwitchCondition) (opts : list Z) (s : S) (now mode : Z)
    (m : memory) (d : DoubleBuffer H S) (k : nat) :
  NewDoubleBuffer n cond opts s now m = Ok (inl d) → balanced None [] 0 (sys (mode_start mode k d)).
Proof.
  intros E%NewDoubleBuffer_stocked. unfold mode_start. cbn [sys DoubleBufferConc.start].
  assert (stocked None (RegisterReadMode mode d).1 = 0%nat) as E0
    by (rewrite (stocked_same None _ _ (RegisterReadMode_bufs mode d)); exact E).
  assert (∀ f : writer → nat, f (mkWriter WIdle []) = 0%nat → sum_over f (replicate k (mkWriter WIdle [])) = 0%nat) as Ht.
  { intros f Hf. unfold sum_over. induction k as [|k IH]; cbn; [done|]. rewrite Hf, IH. done. }
  constructor; unfold got; cbn [reads db writers DoubleBufferConc.start omap list_omap]; rewrite E0, Ht; cbn; done || lia.
Qed.

(** From a new double buffer on. *)
Lemma started_balanced (n : Z) (cond : SwitchCondition) (opts : list Z) (s : S) (now mode : Z)
    (m : memory) (d : DoubleBuffer H S) (k : nat) (evs : list trace_event) (t : trace H S) :
  NewDoubleBuffer n cond opts s now m = Ok (inl d) → trace_run range evs (mode_start mode k d) = Ok t →
  balanced None [] (weight C (called evs)) (sys t).
Proof. intros Hd Ht. eapply (trace_run_balanced 0); [by eapply start_balanced|done]. Qed.
End once.

(** Chunks whose release gives back the object of [sz] bytes at [p]. *)
Definition gives_back (p sz : Z) (c : DataChunk free_action) : Prop :=
  free c = Some (FreeRecycle p sz) ∨ free c = Some (FreeZeroCopy p sz).

#[export] Instance gives_back_dec (p sz : Z) (c : DataChunk free_action) : Decision (gives_back p sz c).
Proof. unfold gives_back. apply _. Defined.

Lemma given_back (p sz : Z) (it : BufferItem) (c : DataChunk free_action) :
  made_of it c → gives_back p sz c → it = mkItem p sz.
Proof.
  destruct it as [p' sz']. intros [_ [[b Ef]|[Ef|Ef]]] [Hg|Hg]; cbn in Ef; rewrite Hg in Ef; congruence.
Qed.

(** A call with the slice of [sz] bytes at [p]. *)
Definition passes (p sz : Z) (q : slice) : Prop := sptr q = p ∧ int32 (slen q) = sz.

#[export] Instance passes_dec (p sz : Z) (q : slice) : Decision (passes p sz q).
Proof. unfold passes. apply _. Defined.

Lemma classified_large {H S : Type} `{!PendingQueue H, !SwitchStrategy S} (p sz : Z) (o : oracle) (q : slice)
    (d d' : DoubleBuffer H S) (it : BufferItem) :
  SmallDataThreshold ≤ sz → classify o q d = Ok (d', it) → it = mkItem p sz → passes p sz q.
Proof.
  intros Hsz [_ [Hlt|E]]%classify_bufs ->; [cbn in Hlt; lia|]. by injection E as -> ->.
Qed.

Lemma large_not_zero (p sz : Z) : SmallDataThreshold ≤ sz → zeroItem ≠ mkItem p sz.
Proof. by intros Hsz [= _ <-]. Qed.

(** What the two ways of counting give. *)
Lemma balanced_all {H S : Type} `{!PendingQueue H, !SwitchStrategy S} (hid : option (nat * Z))
    (held : list BufferItem) (n : nat) (x : system H S) :
  balanced (λ it, it ≠ zeroItem) (λ _, True) (λ _, True) hid held n x →
  (length (got x) ≤ accepted (writers x) + sum_over (λ w, past_store (wpc w)) (writers x))%nat.
Proof.
  intros [Hs _]. rewrite <- sum_over_served. rewrite (weight_all (λ _, True)) in Hs by done. lia.
Qed.

Lemma balanced_one {H S : Type} `{!PendingQueue H, !SwitchStrategy S} (p sz : Z) (hid : option (nat * Z))
    (held : list BufferItem) (l : list slice) (x : system H S) :
  balanced (λ it, it = mkItem p sz) (passes p sz) (gives_back p sz) hid held (weight (passes p sz) l) x →
  (length (filter (gives_back p sz) (got x)) ≤ length (filter (passes p sz) l))%nat.
Proof. intros [_ Hc]. unfold weight in Hc. lia. Qed.

(** No write is delivered twice and no refused write is delivered, in any
    interleaving at all.  Whatever the writers inside [Write], the monitor,
    the goroutines of the switches, the readers in either mode, the pools and
    the users do, access by access and in any order, the chunks delivered are
    never more than the calls that returned nil or have stored their item and
    are about to; and the chunks that hold the object of [sz] bytes at [p],
    where [sz] is 1024 or more, are never more than the calls of [Write] with
    a slice of that length there. *)
Theorem interleavings_deliver_at_most_once {H S : Type} `{!PendingQueue H, !SwitchStrategy S}
    (range : gmap Z nat → list (Z * nat)) (k : nat) (n : Z) (cond : SwitchCondition)
    (opts : list Z) (s : S) (now mode : Z) (m : memory) (d : DoubleBuffer H S) (evs : list trace_event)
    (t : trace H S) (Hd : NewDoubleBuffer n cond opts s now m = Ok (inl d))
    (Ht : trace_run range evs (mode_start mode k d) = Ok t) :
  (length (got (sys t)) ≤
    accepted (writers (sys t)) + sum_over (λ w, past_store (wpc w)) (writers (sys t)))%nat ∧
  ∀ p sz : Z, SmallDataThreshold ≤ sz →
    (length (filter (gives_back p sz) (got (sys t))) ≤
      length (filter (passes p sz) (called evs)))%nat.
Proof.
  split.
  - eapply balanced_all, (started_balanced range (λ it, it ≠ zeroItem) (λ Hne, Hne eq_refl) (λ _, True)
      (λ _ _ _ _ _ _ _, I) (λ _, True) (λ _ _ Hm _, proj1 Hm)); [exact Hd|exact Ht].
  - intros p sz Hsz. eapply balanced_one, (started_balanced range _ (large_not_zero p sz Hsz) (passes p sz)
      (λ o q d1 d2 it, classified_large p sz o q d1 d2 it Hsz) (gives_back p sz) (given_back p sz));
      [exact Hd|exact Ht].
Qed.

(** The run of [crowd_evs] in zero-copy mode, and the second writer once more
    with the slice of its first call. *)
Definition once_evs : list trace_event :=
  crowd_evs ++ TRun (EvCall 1 crowd_q) :: replicate 45 (TRun (EvWriter demo_oracle 1)) ++
  replicate 9 (TRun (EvGo 0)) ++ [TRun (EvRead demo_oracle []); TRun (EvRead demo_oracle [])].

Definition once_end : trace WrapHeap DefaultStrategy :=
  get_ok (mode_start ZeroCopyRead 3 crowd) (trace_run map_to_list once_evs (mode_start ZeroCopyRead 3 crowd)).

Lemma interleavings_deliver_at_most_once_witness :
  (length (got (sys once_end)) = 3%nat ∧ accepted (writers (sys once_end)) = 4%nat ∧
   length (filter (gives_back 50 1100) (got (sys once_end))) = 1%nat) ∧
  (length (got (sys once_end)) ≤
    accepted (writers (sys once_end)) + sum_over (λ w, past_store (wpc w)) (writers (sys once_end)))%nat ∧
  ∀ p sz : Z, SmallDataThreshold ≤ sz →
    (length (filter (gives_back p sz) (got (sys once_end))) ≤
      length (filter (passes p sz) (called once_evs)))%nat.
Proof.
  split; [vm_compute; by split_and!|].
  eapply (interleavings_deliver_at_most_once map_to_list 3 1 _ _ _ _ ZeroCopyRead crowd_mem crowd once_evs).
  - apply crowd_ok.
  - apply get_ok_ok. vm_compute. exact I.
Defined.
