(* ===== verification/DoubleBufferProgress.v ===== *)
(** * Writers do not hold each other up

    In every interleaving of [DoubleBufferConc], the accesses a call of
    [Write] takes are bounded.  A compare-and-swap that fails sends the writer
    back, but it fails only when another writer's has succeeded since, or when
    a reader has reset the ring: a potential pays for these turns. *)
From S2P Require Import Prelude.
From S2P Require Import Consts.
From S2P Require Import Interfaces.
From S2P Require Import Runtime.
From S2P Require Import SmartBuffer.
From S2P Require Import SmartBufferConc.
From S2P Require Import SwitchStrategy.
From S2P Require Import SwitchConfig.
From S2P Require Import LifeCycle.
From S2P Require Import DataChunk.
From S2P Require Import WrapHeap.
From S2P Require Import DoubleBuffer.
From S2P Require Import DoubleBufferDelivery.
From S2P Require Import DoubleBufferConc.
From S2P Require Import DoubleBufferSafety.
From S2P Require Import DoubleBufferView.
From S2P Require Import DoubleBufferTurns.
From S2P Require Import DoubleBufferOnce.
Open Scope Z_scope.
Open Scope go_scope.

(** ** The accesses that are left *)

(** When no compare-and-swap fails. *)
Definition push_work (pc : push_pc) : nat :=
  match pc with
  | PushState => 10 | PushCount => 9 | PushHead => 8 | PushCas _ => 7
  | PushScan n _ => n + 3 | PushStore _ => 2 | PushAdd => 1 | PushFull => 1
  end.

Definition switch_work (pc : switch_pc) : nat :=
  match pc with
  | SwCas => 12 | SwLock => 11 | SwReadOnly => 10 | SwGet => 9 | SwOld _ => 8 | SwActive _ _ => 7
  | SwPassive _ _ => 6 | SwCount _ => 5 | SwLast _ => 4 | SwGo _ => 3 | SwState => 2 | SwUnlock => 1
  end.

Definition work (pc : writer_pc) : nat :=
  match pc with
  | WIdle => 0
  | WStart _ => 44 | WClassify _ => 43 | WFast _ => 42 | WFastActive _ => 41 | WFastClosed _ _ => 40
  | WFastPush _ _ pc => push_work pc + 29
  | WFastCount => 1
  | WLock _ => 29 | WSlowActive _ => 28 | WSlowState _ _ => 27
  | WSwitch _ pc => switch_work pc + 14
  | WSlowWrite _ => 14 | WSlowClosed _ _ => 13
  | WSlowPush _ _ pc => push_work pc + 2
  | WSlowCount => 2 | WUnlock _ => 1
  end.

(** The call may still win a compare-and-swap. *)
Definition push_may_win (pc : push_pc) : bool :=
  match pc with PushScan _ _ | PushStore _ | PushAdd => false | _ => true end.

Definition may_win (pc : writer_pc) : bool :=
  match pc with
  | WIdle | WFastCount | WSlowCount | WUnlock _ => false
  | WFastPush _ _ pc | WSlowPush _ _ pc => push_may_win pc
  | _ => true
  end.

Section progress.
  Context {H S : Type} `{!PendingQueue H, !PendingQueueLaws H, !SwitchStrategy S}.
  Context (range : gmap Z nat → list (Z * nat)).

(** The head was read and has changed: one turn more. *)
Definition turn_of (b : nat) (pc : push_pc) (d : DoubleBuffer H S) : nat :=
  match pc with
  | PushCas h =>
      match bufs (objs d) !! b with
      | Some s => if decide (head s = h) then 0 else 4
      | None => 4
      end
  | _ => 0
  end.

Definition extra (pc : writer_pc) (d : DoubleBuffer H S) : nat :=
  match pc with WFastPush _ b pc | WSlowPush _ b pc => turn_of b pc d | _ => 0 end.

(** The accesses left to a call among [n] writers, and what its
    compare-and-swap will cost the others. *)
Definition effort (n : nat) (d : DoubleBuffer H S) (w : writer) : nat :=
  (work (wpc w) + (if may_win (wpc w) then 4 * n else 0) + extra (wpc w) d)%nat.

(** ** The heads of the rings *)

Definition same_heads (d d' : DoubleBuffer H S) : Prop :=
  ∀ (b : nat) (s : SmartBuffer), bufs (objs d) !! b = Some s →
    ∃ s' : SmartBuffer, bufs (objs d') !! b = Some s' ∧ head s' = head s.

Lemma same_heads_bufs (d d' : DoubleBuffer H S) : bufs (objs d') = bufs (objs d) → same_heads d d'.
Proof. intros E b s Hb. exists s. by rewrite E. Qed.

Lemma same_heads_refl (d : DoubleBuffer H S) : same_heads d d.
Proof. by apply same_heads_bufs. Qed.

Lemma same_heads_set_buf (b : nat) (s s' : SmartBuffer) (d : DoubleBuffer H S) :
  get_buf b d = Ok s → head s' = head s → same_heads d (DoubleBuffer.set_buf b s' d).
Proof.
  unfold get_buf. destruct (bufs (objs d) !! b) as [s0|] eqn:E; [|done]. intros [= ->] Hh b' s1 Hb'.
  cbn. destruct (decide (b = b')) as [->|Hne].
  - exists s'. rewrite lookup_insert_eq. split; [done|congruence].
  - exists s1. by rewrite lookup_insert_ne.
Qed.

Lemma turn_of_le (b : nat) (pc : push_pc) (d : DoubleBuffer H S) : (turn_of b pc d ≤ 4)%nat.
Proof. unfold turn_of. destruct pc; try lia. case_match; [case_decide|]; lia. Qed.

Lemma extra_le (pc : writer_pc) (d : DoubleBuffer H S) : (extra pc d ≤ 4)%nat.
Proof. destruct pc; cbn [extra]; try lia; apply turn_of_le. Qed.

Lemma turn_of_heads (b : nat) (pc : push_pc) (d d' : DoubleBuffer H S) :
  same_heads d d' → (turn_of b pc d' ≤ turn_of b pc d)%nat.
Proof.
  intros Hh. destruct pc; cbn [turn_of]; try lia.
  destruct (bufs (objs d) !! b) as [s|] eqn:E.
  - destruct (Hh b s E) as (s' & -> & ->). done.
  - case_match; [case_decide|]; lia.
Qed.

Lemma effort_heads (n : nat) (d d' : DoubleBuffer H S) (w : writer) :
  same_heads d d' → (effort n d' w ≤ effort n d w)%nat.
Proof.
  intros Hh. unfold effort. apply Nat.add_le_mono_l.
  destruct (wpc w); cbn [extra]; try lia; by apply turn_of_heads.
Qed.

Lemma effort_le (n : nat) (d d' : DoubleBuffer H S) (w : writer) : (effort n d' w ≤ effort n d w + 4)%nat.
Proof. unfold effort. pose proof (extra_le (wpc w) d'). lia. Qed.

(** ** The steps of a push and of a switch *)

Definition next_work (b : nat) (next : push_pc + option error) (d : DoubleBuffer H S) : nat :=
  match next with inl pc => push_work pc + turn_of b pc d | inr _ => 0 end.

(** The call may win a compare-and-swap after this access. *)
Definition next_may_win (next : push_pc + option error) : bool :=
  match next with inl pc => push_may_win pc | inr None => false | inr (Some _) => true end.

(** An access of a push leaves the heads alone and brings the push forward, or
    it wins the compare-and-swap. *)
Lemma ring_step_work (it : BufferItem) (b : nat) (pc : push_pc) (d d' : DoubleBuffer H S)
    (next : push_pc + option error) :
  ring_step it b pc d = Ok (d', next) →
  (same_heads d d' ∧ (next_work b next d' + 1 ≤ push_work pc + turn_of b pc d)%nat ∧
   (next_may_win next = true → push_may_win pc = true)) ∨
  (push_may_win pc = true ∧ next_may_win next = false ∧ ∃ pc' : push_pc, next = inl pc' ∧
   (push_work pc' + turn_of b pc' d' + 1 ≤ push_work pc)%nat).
Proof.
  unfold ring_step. intros (s & E & ([s' nx] & Ep & [= <- <-])%rbind_ok)%rbind_ok.
  assert (head s' = head s → same_heads d (DoubleBuffer.set_buf b s' d)) as Hh
    by (by apply same_heads_set_buf).
  assert (bufs (objs d) !! b = Some s) as Hb.
  { revert E. unfold get_buf. destruct (bufs (objs d) !! b); [|done]. by intros [= ->]. }
  destruct pc as [| | | |h|n pos|pos|]; cbn [push_step] in Ep.
  - case_decide; injection Ep as <- <-; left; (split; [by apply Hh|]); split; cbn; lia || done.
  - case_decide; injection Ep as <- <-; left; (split; [by apply Hh|]); split; cbn; lia || done.
  - injection Ep as <- <-. left. split; [by apply Hh|]. split; cbn; lia || done.
  - injection Ep as <- <-. left. split; [by apply Hh|]. split; [|done]. cbn.
    rewrite lookup_insert_eq, decide_True by done. lia.
  - case_decide as Hc; injection Ep as <- <-.
    + right. split; [done|]. split; [done|]. eexists. split; [done|]. cbn. lia.
    + left. split; [by apply Hh|]. split; [|done]. cbn. rewrite Hb, decide_False by done. lia.
  - left. destruct n as [|n].
    + injection Ep as <- <-. split; [by apply Hh|]. split; cbn; lia || done.
    + apply rbind_ok in Ep as (x & _ & Ep).
      case_decide; injection Ep as <- <-; (split; [by apply Hh|]); split; cbn; lia || done.
  - apply rbind_ok in Ep as (l & _ & Ep). injection Ep as <- <-. left.
    split; [by apply Hh|]. split; cbn; lia || done.
  - injection Ep as <- <-. left. split; [by apply Hh|]. split; cbn; lia || done.
Qed.

(** The numbers of new rings are new. *)
Definition fresh_rings (d : DoubleBuffer H S) : Prop :=
  ∀ b : nat, b ∈ dom (bufs (objs d)) → (b < next (objs d))%nat.

Lemma pool_Get_heads (choice : option nat) (d d' : DoubleBuffer H S) (b : nat) :
  fresh_rings d → pool_Get choice d = Ok (d', b) → same_heads d d'.
Proof.
  intros Hf. unfold pool_Get. destruct (pool_take choice (pool d)) as [[b0 rest]|].
  { intros [= <- <-]. by apply same_heads_bufs. }
  unfold new_buf. intros (s & _ & [= <- <-])%rbind_ok b1 s1 Hb. exists s1. cbn.
  rewrite lookup_insert_ne; [done|]. intros <-. apply elem_of_dom_2, Hf in Hb. lia.
Qed.

Definition next_switch (next : option switch_pc) : nat :=
  match next with Some pc => switch_work pc | None => 0 end.

Lemma switch_step_work (o : oracle) (a : agent) (pc : switch_pc) (lock l : option agent)
    (d d' : DoubleBuffer H S) (next : option switch_pc) :
  fresh_rings d → switch_step o a pc lock d = Ok (d', l, next) →
  same_heads d d' ∧ (pc = SwLock ∧ lock ≠ None ∧ next = Some SwLock ∨
    (next_switch next + 1 ≤ switch_work pc)%nat).
Proof.
  intros Hf. destruct pc; cbn [switch_step];
    try (intros [= <- <- <-]; split; [by apply same_heads_bufs|right; cbn; lia]).
  - case_decide; intros [= <- <- <-]; (split; [by apply same_heads_bufs|right; cbn; lia]).
  - destruct lock; intros [= <- <- <-]; (split; [apply same_heads_refl|]); [by left|right; cbn; lia].
  - intros (s & E & [= <- <- <-])%rbind_ok. split; [by apply (same_heads_set_buf _ s)|right; cbn; lia].
  - intros ([d1 b] & E & [= <- <- <-])%rbind_ok. split; [by eapply pool_Get_heads|right; cbn; lia].
Qed.

(** ** The steps of a writer *)

(** Writer [i] of [n] becomes [w']: it comes nearer to its end by an access,
    and pays for the turns of the others when it changes a head. *)
Definition moved (n i : nat) (w : writer) (x y : system H S) : Prop :=
  ∃ w' : writer, writers y = <[i := w']> (writers x) ∧
    (same_heads (db x) (db y) ∧ (effort n (db y) w' + 1 ≤ effort n (db x) w)%nat ∨
     (effort n (db y) w' + 1 + 4 * n ≤ effort n (db x) w)%nat).

Lemma moved_goto (n i : nat) (w : writer) (pc : writer_pc) (x : system H S) (d : DoubleBuffer H S)
    (wl sl : option agent) :
  writers x !! i = Some w → same_heads (db x) d →
  (effort n d (mkWriter pc (returned w)) + 1 ≤ effort n (db x) w)%nat →
  moved n i w x (set_writeLock wl (set_switchLock sl (goto i pc d x))).
Proof.
  intros Hi Hd Hw. rewrite (goto_eq _ _ _ _ _ Hi). exists (mkWriter pc (returned w)).
  split; [done|]. by left.
Qed.

Lemma moved_return (n i : nat) (w : writer) (err : option error) (x : system H S) (d : DoubleBuffer H S)
    (wl : option agent) :
  writers x !! i = Some w → same_heads (db x) d → (1 ≤ effort n (db x) w)%nat →
  moved n i w x (set_writeLock wl (return_ i err d x)).
Proof.
  intros Hi Hd Hw. rewrite (return_eq _ _ _ _ _ Hi).
  exists (mkWriter WIdle (returned w ++ [err])). split; [done|]. left. by split.
Qed.

(** A writer that neither changes the double buffer nor takes a lock. *)
Lemma moved_on (n i : nat) (w : writer) (pc : writer_pc) (x : system H S) :
  writers x !! i = Some w →
  (effort n (db x) (mkWriter pc (returned w)) + 1 ≤ effort n (db x) w)%nat →
  moved n i w x (goto i pc (db x) x).
Proof.
  intros Hi Hw. apply (moved_goto n i w pc x (db x) (writeLock x) (switchLock x) Hi); [|done].
  apply same_heads_refl.
Qed.

Definition idles (w : writer) : bool := match wpc w with WIdle => true | _ => false end.

Ltac spend := unfold effort; cbn [wpc returned work may_win push_may_win extra push_work switch_work turn_of]; lia.

(** The accesses of a push inside a call; [C] says where in [Write] they are
    and [after] where it goes on. *)
Lemma moved_push (n i : nat) (C : push_pc → writer_pc) (k : nat) (after : option error → writer_pc)
    (it : BufferItem) (b : nat) (pc : push_pc) (rs : list (option error)) (x y : system H S) :
  (∀ pc, work (C pc) = push_work pc + k ∧ may_win (C pc) = push_may_win pc ∧
    ∀ d : DoubleBuffer H S, extra (C pc) d = turn_of b pc d)%nat →
  (∀ r, work (after r) ≤ k ∧ (∀ d : DoubleBuffer H S, extra (after r) d = 0) ∧
    (may_win (after r) = true → r ≠ None))%nat →
  writers x !! i = Some (mkWriter (C pc) rs) →
  (let* (d, next) := ring_step it b pc (db x) in
   Ok (goto i (match next with inl pc => C pc | inr r => after r end) d x)) = Ok y →
  moved n i (mkWriter (C pc) rs) x y.
Proof.
  intros HC Ha Hi ([d next] & E & [= <-])%rbind_ok. destruct (HC pc) as (Hw & Hm & He).
  rewrite (goto_eq _ _ _ _ _ Hi). eexists (mkWriter _ rs). split; [done|].
  unfold effort. cbn [db wpc]. rewrite Hw, Hm, He.
  destruct (ring_step_work _ _ _ _ _ _ E) as [(Hh & Hle & Hwin)|(Hwin & Hno & pc' & -> & Hle)].
  - left. split; [done|]. destruct next as [pc'|r]; cbn [next_work next_may_win] in *.
    + destruct (HC pc') as (-> & -> & ->). destruct (push_may_win pc'); [rewrite Hwin by done|]; lia.
    + destruct (Ha r) as (Hr & -> & Hmr). destruct (may_win (after r)); [|lia].
      destruct r as [err|]; [rewrite Hwin by done; lia|]. by destruct (Hmr eq_refl).
  - right. destruct (HC pc') as (-> & -> & ->). cbn [next_may_win] in Hno. rewrite Hno, Hwin. lia.
Qed.

Lemma writer_step_moved (n : nat) (o : oracle) (i : nat) (w : writer) (x y : system H S) :
  fresh_rings (db x) → writers x !! i = Some w → writer_step o i (wpc w) x = Ok y →
  y = x ∧ (idles w = true ∨ waits x (AWriter i) = true) ∨ moved n i w x y.
Proof.
  intros Hf Hi. assert (waits x (AWriter i) = waits x (AWriter i)) as Hw by done.
  revert Hw. unfold waits at 2. rewrite Hi. cbn [fmap option_fmap option_map].
  destruct w as [pc rs].
  destruct pc as [|p|p|it|it|it b|it b ppc| |it|it|it b|it spc|it|it b|it b ppc| |err];
    cbn [wpc writer_step]; intros Hw.
  - intros [= <-]. left. split; [done|]. by left.
  - case_decide; intros [= <-]; right; [|apply moved_on; [done|spend]].
    apply (moved_return n i _ _ x (db x) (writeLock x)); [done|apply same_heads_refl|spend].
  - intros ([d it] & E & [= <-])%rbind_ok. apply classify_bufs in E as [E _]. right.
    apply (moved_goto n i _ _ x d (writeLock x) (switchLock x)); [done|by apply same_heads_bufs|spend].
  - case_decide; intros [= <-]; right; (apply moved_on; [done|spend]).
  - intros [= <-]. right. apply moved_on; [done|spend].
  - intros (s & _ & E)%rbind_ok. right.
    case_decide; injection E as <-; (apply moved_on; [done|spend]).
  - intros E. right. apply (moved_push n i (WFastPush it b) 29
      (λ r, match r with Some _ => WLock it | None => WFastCount end) it b ppc rs x y); [done| |done|].
    + intros [err|]; cbn; (split; [lia|done]).
    + rewrite <- E. destruct (ring_step it b ppc (db x)) as [[d [pc'|[err|]]]| |]; done.
  - intros [= <-]. right.
    apply (moved_return n i _ _ x (set_count (int32 (count (db x) + 1)) (db x)) (writeLock x));
      [done|by apply same_heads_bufs|spend].
  - destruct (writeLock x); intros [= <-]; [left; split; [done|by right]|]. right.
    apply (moved_goto n i _ _ x (db x) (Some (AWriter i)) (switchLock x)); [done|apply same_heads_refl|spend].
  - intros [= <-]. right. apply moved_on; [done|spend].
  - intros (s & _ & E)%rbind_ok. right.
    case_decide; injection E as <-; (apply moved_on; [done|spend]).
  - intros ([[d l] next] & E & [= <-])%rbind_ok.
    destruct (switch_step_work _ _ _ _ _ _ _ _ Hf E) as [Hh [(-> & Hl & ->)|Hle]].
    + cbn [switch_step] in E. destruct (switchLock x) as [b|] eqn:El; [|done]. injection E as <- <-.
      left. split; [|by right]. rewrite (goto_eq _ _ _ _ _ Hi), list_insert_id by done.
      destruct x. cbn in *. by subst.
    + right. apply (moved_goto n i _ _ x d (writeLock x) l); [done|done|].
      destruct next as [pc'|]; cbn [next_switch] in Hle; spend.
  - intros [= <-]. right. apply moved_on; [done|spend].
  - intros (s & _ & E)%rbind_ok. right.
    case_decide; injection E as <-; (apply moved_on; [done|spend]).
  - intros E. right. apply (moved_push n i (WSlowPush it b) 2
      (λ r, match r with Some err => WUnlock (Some err) | None => WSlowCount end) it b ppc rs x y); [done| |done|].
    + intros [err|]; cbn; (split; [lia|done]).
    + rewrite <- E. destruct (ring_step it b ppc (db x)) as [[d [pc'|[err|]]]| |]; done.
  - intros [= <-]. right.
    apply (moved_goto n i _ _ x (set_count (int32 (count (db x) + 1)) (db x)) (writeLock x) (switchLock x));
      [done|by apply same_heads_bufs|spend].
  - intros [= <-]. right. apply (moved_return n i _ err x (db x) None); [done|apply same_heads_refl|spend].
Qed.

(** ** The system *)

Lemma sum_over_le (f f' : writer → nat) (c : nat) (ws : list writer) :
  (∀ w, f' w ≤ f w + c)%nat → (sum_over f' ws ≤ sum_over f ws + c * length ws)%nat.
Proof.
  intros Hf. unfold sum_over. induction ws as [|w ws IH]; [cbn; lia|]. cbn [sum_list_with length].
  pose proof (Hf w). lia.
Qed.

(** A writer moves, and the measure of the others grows by [c] at most. *)
Lemma sum_over_move (f f' : writer → nat) (c : nat) (ws : list writer) (i : nat) (w w' : writer) :
  ws !! i = Some w → (∀ v, f' v ≤ f v + c)%nat →
  (sum_over f' (<[i := w']> ws) + f w ≤ sum_over f ws + f' w' + c * length ws)%nat.
Proof.
  intros Hi Hf. rewrite insert_take_drop by (by eapply lookup_lt_Some).
  pose proof (sum_over_le f f' c (take i ws) Hf). pose proof (sum_over_le f f' c (drop (Datatypes.S i) ws) Hf).
  rewrite <- (take_drop_middle _ _ _ Hi) at 3 4. unfold sum_over in *.
  rewrite !sum_list_with_app, length_app. cbn [sum_list_with length]. lia.
Qed.

(** The effort of all writers. *)
Definition potential (x : system H S) : nat :=
  sum_over (effort (length (writers x)) (db x)) (writers x).

(** The event is an access of a writer inside [Write] that does not wait for a
    mutex. *)
Definition acts (ev : event) (x : system H S) : bool :=
  match ev with
  | EvWriter _ i =>
      match writers x !! i with
      | Some w => negb (idles w) && negb (waits x (AWriter i))
      | None => false
      end
  | _ => false
  end.

(** What a call of [Write] among [n] writers may cost, and a read. *)
Definition cost (n : nat) (ev : event) : nat :=
  match ev with EvCall _ _ => 44 + 4 * n | EvRead _ _ => 4 * n | _ => 0 end.

Lemma potential_db (c : nat) (x y : system H S) :
  writers y = writers x →
  (∀ w, effort (length (writers x)) (db y) w ≤ effort (length (writers x)) (db x) w + c)%nat →
  (potential y ≤ potential x + c * length (writers x))%nat.
Proof. intros Ew Hle. unfold potential. rewrite Ew. by apply sum_over_le. Qed.

Lemma potential_heads (x y : system H S) :
  writers y = writers x → same_heads (db x) (db y) → (potential y ≤ potential x)%nat.
Proof.
  intros Ew Hh. rewrite <- (Nat.add_0_r (potential x)). apply (potential_db 0); [done|].
  intros w. pose proof (effort_heads (length (writers x)) _ _ w Hh). lia.
Qed.

Lemma potential_moved (i : nat) (w : writer) (x y : system H S) :
  writers x !! i = Some w → moved (length (writers x)) i w x y → (potential y + 1 ≤ potential x)%nat.
Proof.
  intros Hi (w' & Ew & Hw). unfold potential. rewrite Ew, length_insert.
  set (n := length (writers x)) in *.
  destruct Hw as [[Hh Hw]|Hw].
  - pose proof (sum_over_move (effort n (db x)) (effort n (db y)) 0 _ _ _ w' Hi) as Hm.
    enough (∀ v, effort n (db y) v ≤ effort n (db x) v + 0)%nat by (specialize (Hm ltac:(done)); lia). intros v. rewrite Nat.add_0_r. by apply effort_heads.
  - pose proof (sum_over_move (effort n (db x)) (effort n (db y)) 4 _ _ _ w' Hi (effort_le n _ _)) as Hm.
    fold n in Hm. lia.
Qed.

(** An access lowers the potential, and only calls and reads raise it. *)
Lemma step_potential (ev : event) (x y : system H S) :
  fresh_rings (db x) → step range ev x = Ok y →
  length (writers y) = length (writers x) ∧
  (potential y + (if acts ev x then 1 else 0) ≤ potential x + cost (length (writers x)) ev)%nat.
Proof.
  intros Hf E. destruct ev as [i p|o i|o|i|o sleeps|f]; cbn [step acts cost] in *.
  - destruct (writers x !! i) as [[pc rs]|] eqn:Hi; [|injection E as <-; split; [done|lia]]. cbn [wpc] in E.
    destruct pc; injection E as <-; try (split; [done|lia]).
    rewrite (goto_eq _ _ _ _ _ Hi). cbn [writers]. rewrite length_insert. split; [done|].
    unfold potential. cbn [writers db returned]. rewrite length_insert.
    pose proof (sum_over_insert (effort (length (writers x)) (db x)) _ _ _ (mkWriter (WStart p) rs) Hi) as Hs.
    unfold effort in Hs at 2 4. cbn in Hs. lia.
  - destruct (writers x !! i) as [w|] eqn:Hi; [|injection E as <-; split; [done|lia]].
    destruct (writer_step_moved (length (writers x)) _ _ _ _ _ Hf Hi E) as [[-> Hw]|Hw].
    + split; [done|]. destruct Hw as [->| ->]; [cbn; lia|]. rewrite andb_false_r. lia.
    + split; [destruct Hw as (w' & -> & _); apply length_insert|].
      pose proof (potential_moved _ _ _ _ Hi Hw). case_match; lia.
  - assert (writers y = writers x ∧ same_heads (db x) (db y)) as [Ew Hh].
    { unfold monitor_step in E. destruct (monitor x) as [|pc].
      - destruct (swapper (db x)); [|injection E as <-; by split; [|apply same_heads_refl]]. unfold needSwitch in E.
        destruct (poll _ _) as [cond conf]. injection E as <-. split; [done|]. by apply same_heads_bufs.
      - apply rbind_ok in E as ([[d l] next] & Es & E). injection E as <-.
        by apply switch_step_work in Es as [Hh _]. }
    rewrite Ew. split; [done|]. pose proof (potential_heads _ _ Ew Hh). lia.
  - apply rbind_ok in E as (d & Eg & E). injection E as <-.
    apply run_goroutine_rings in Eg as [Eo _]. split; [done|].
    assert (same_heads (db x) d) as Hh by (apply same_heads_bufs; by rewrite Eo).
    pose proof (potential_heads x (set_db d x) eq_refl Hh). lia.
  - apply rbind_ok in E as ([d r] & Er & E). injection E as <-. split; [done|].
    rewrite Nat.add_0_r. apply (potential_db 4 x); [done|]. intros w. apply effort_le.
  - injection E as <-. split; [done|].
    assert (same_heads (db x) (run_free f (db x))) as Hh.
    { apply same_heads_bufs. destruct f as [s|p k|p k]; [done| |done]. cbn. unfold recycle. by repeat case_decide. }
    pose proof (potential_heads x (set_db (run_free f (db x)) x) eq_refl Hh). lia.
Qed.

(** The accesses of the writers in a run, up to a panic if there is one. *)
Fixpoint accesses (evs : list event) (x : system H S) : nat :=
  match evs with
  | [] => 0
  | ev :: evs =>
      match step range ev x with
      | Ok y => (if acts ev x then 1 else 0) + accesses evs y
      | _ => 0
      end
  end.

Definition costs (n : nat) (evs : list event) : nat := sum_list_with (cost n) evs.

Lemma accesses_bounded (stop : bool) (evs : list event) (x : system H S) (sw : option (agent * switch_pc)) :
  exclusive WritingState stop x sw →
  (accesses evs x ≤ potential x + costs (length (writers x)) evs)%nat.
Proof.
  revert x sw. induction evs as [|ev evs IH]; intros x sw Hx; cbn [accesses costs sum_list_with]; [lia|].
  destruct (step range ev x) as [y| |] eqn:E; [|lia..].
  destruct (step_exclusive range _ _ _ _ _ _ Hx E) as [sw' Hy].
  apply step_potential in E as [Hl Hle]; [|intros b; apply (ow_next _ _ (ex_rings _ _ _ _ Hx eq_refl))].
  specialize (IH y sw' Hy). rewrite Hl in IH. unfold costs in *. lia.
Qed.
End progress.

(** The calls of [Write] and the attempts to read. *)
Definition calls (evs : list event) : nat :=
  sum_list_with (λ ev, match ev with EvCall _ _ => 1 | _ => 0 end)%nat evs.
Definition attempts (evs : list event) : nat :=
  sum_list_with (λ ev, match ev with EvRead _ _ => 1 | _ => 0 end)%nat evs.

Lemma costs_eq (n : nat) (evs : list event) :
  costs n evs = (calls evs * (44 + 4 * n) + attempts evs * (4 * n))%nat.
Proof.
  unfold costs, calls, attempts. induction evs as [|ev evs IH]; [done|]. cbn [sum_list_with]. rewrite IH.
  destruct ev; cbn [cost]; lia.
Qed.

(** C9. Writers are lock-free.  In every interleaving of [k] writers with the
    monitor, the goroutines of the switches, readers and users, access by
    access, the accesses of the writers that are not spent waiting for a
    mutex are at most 44 and 4 more for each writer, for every call of
    [Write], and 4 for each writer for every attempt to read.  So no call
    goes round its compare-and-swap for ever: with no more calls and reads,
    finitely many accesses remain. *)
Theorem writers_are_lock_free {H S : Type} `{PendingQueueLaws H, !SwitchStrategy S}
    (range : gmap Z nat → list (Z * nat)) (cap : Z) (cond : SwitchCondition) (opts : list Z)
    (strategy : S) (now : Z) (m : memory) (d : DoubleBuffer H S) (mode : option Z) (k : nat)
    (evs : list event)
    (Hcap : 0 < cap < 2 ^ 31) (Hnew : NewDoubleBuffer cap cond opts strategy now m = Ok (inl d)) :
  (accesses range evs (start k (set_readMode mode d)) ≤
    calls evs * (44 + 4 * k) + attempts evs * (4 * k))%nat.
Proof.
  destruct (NewDoubleBuffer_flow cap cond opts strategy now m d Hcap Hnew) as (Hf & _).
  pose proof (accesses_bounded range _ evs _ None
    (start_exclusive k (set_readMode mode d) [] (λ _, []) Hf)) as Hle.
  rewrite costs_eq in Hle. cbn [start writers] in Hle. rewrite length_replicate in Hle.
  assert (potential (start k (set_readMode mode d)) = 0%nat) as E; [|lia].
  unfold potential. cbn [start writers db]. unfold sum_over.
  generalize (length (replicate k (mkWriter WIdle []))) (set_readMode mode d). clear.
  intros n d. induction k as [|k IH]; [done|]. cbn [replicate sum_list_with]. by rewrite IH.
Qed.

(** Two writers read the head before either moves it; one of them takes four
    accesses more than the 13 of an undisturbed call. *)
Definition contend : list event :=
  let w i := EvWriter (at_time 2) i in
  [EvCall 0 demo_p; EvCall 1 demo_q] ++ concat (replicate 9 [w 0%nat; w 1%nat]) ++
  replicate 30 (w 0%nat) ++ replicate 30 (w 1%nat) ++ [EvRead (at_time 2) []].

Lemma writers_are_lock_free_witness :
  accesses map_to_list contend (start 2 (set_readMode (Some SafeRead) wide)) = 30%nat ∧
  (accesses map_to_list contend (start 2 (set_readMode (Some SafeRead) wide)) ≤
    calls contend * (44 + 4 * 2) + attempts contend * (4 * 2))%nat.
Proof.
  split; [vm_compute; reflexivity|].
  apply (writers_are_lock_free map_to_list 4 (mkCondition (mkConfig 4 80 second 1000) true 1) []
    NewDefaultStrategy 0 demo_mem wide (Some SafeRead) 2 contend).
  - lia.
  - apply wide_ok.
Defined.
