(* ===== verification/DoubleBufferReaders.v ===== *)
(** * Reads one access at a time

    [tryRead] of [src/core/double_buffer.go] with all it calls, one shared
    access at a time, for any number of readers among the writers, the
    monitor, the goroutines of the switches and the users.  A reader that runs
    alone makes the one-step [tryRead]; two that meet can end in a panic,
    deliver a write twice, or stop delivery for good.

    The two locks of the code do not cover [tryRead]: the only synchronised
    parts are the heap, the pools and the atomics of a ring, and each call of
    those is one step. *)
From S2P Require Import Prelude.
From S2P Require Import Consts.
From S2P Require Import Interfaces.
From S2P Require Import Runtime.
From S2P Require Import SmartBuffer.
From S2P Require Import SmartBufferConc.
From S2P Require Import SwitchStrategy.
From S2P Require Import SwitchConfig.
From S2P Require Import LifeCycle.
From S2P Require Import DataChunk.
From S2P Require Import WrapHeap.
From S2P Require Import DoubleBuffer.
From S2P Require Import DoubleBufferDelivery.
From S2P Require Import DoubleBufferConc.
From S2P Require Import DoubleBufferTurns.
Open Scope Z_scope.
Open Scope go_scope.

(** ** Where a reader is *)

(** The stores of [Reset]; its receive from [sem] has no effect. *)
Inductive reset_pc := ResetState | ResetCount | ResetHead | ResetTail.

Inductive reader_pc :=
  | RdNil                                  (** [d.currentBuffer == nil] *)
  | RdLoad                                 (** loads [d.currentBuffer] for [Len] *)
  | RdLen (b : nat)                        (** [Len() == 0] *)
  | RdHas                                  (** [d.currentBuffer != nil] *)
  | RdUseless                              (** [uselessBuffer := d.currentBuffer] *)
  | RdReset (b : nat) (pc : reset_pc)      (** [uselessBuffer.Reset()] *)
  | RdClear (b : nat)                      (** [d.currentBuffer = nil] *)
  | RdPut (b : nat)                        (** [d.pool.Put(uselessBuffer)] *)
  | RdPick (n : nat)                       (** [Pick]; [n] turns of the loop are left after this one *)
  | RdCompare (n : nat) (s : Z) (b : nat)  (** loads [d.currentSequence] *)
  | RdTake (b : nat)                       (** [d.currentBuffer = bufferItem.buf] *)
  | RdNext                                 (** [d.currentSequence.Add(1)] *)
  | RdPush (n : nat) (s : Z) (b : nat)     (** pushes the item back; then the goroutine sleeps *)
  | RdFound                                (** [return d.currentBuffer != nil] *)
  | RdMode                                 (** loads [d.readMode] *)
  | RdCurrent (m : Z)                      (** loads [d.currentBuffer] for [Pop] *)
  | RdPop (m : Z) (b : nat) (pc : pop_pc)  (** inside [Pop] *)
  | RdDeliver (m : Z) (it : BufferItem).   (** makes the chunk of what [Pop] returned *)

Definition reset_step (pc : reset_pc) (s : SmartBuffer) : SmartBuffer * option reset_pc :=
  match pc with
  | ResetState => (SetState WriteOnly s, Some ResetCount)
  | ResetCount =>
      (mkSB (SmartBuffer.buf s) (head s) (tail s) 0 (capacity s) (SmartBuffer.state s) (sem_closed s),
       Some ResetHead)
  | ResetHead => (set_head (-1) s, Some ResetTail)
  | ResetTail => (set_tail (-1) s, None)
  end.

(** The head of the loop of [pickBufferFromHeap], [n] turns left. *)
Definition next_turn (n : nat) : reader_pc :=
  match n with O => RdFound | Datatypes.S n => RdPick n end.

Section readers.
  Context {H S : Type} `{!PendingQueue H, !SwitchStrategy S}.
  Context (range : gmap Z nat → list (Z * nat)).

(** [d.currentBuffer] where the code dereferences it. *)
Definition current (d : DoubleBuffer H S) : result nat :=
  match currentBuffer d with Some b => Ok b | None => Panics NilDereference end.

(** What [tryRead] returns for a read in one of the modes. *)
Definition read_result (x : DoubleBuffer H S * option (DataChunk free_action)) :
    DoubleBuffer H S * (DataChunk free_action + error) :=
  (x.1, match x.2 with Some c => inl c | None => inr ErrRead end).

(** One access: the call goes on, or returns. *)
Definition reader_step (o : oracle) (pc : reader_pc) (d : DoubleBuffer H S) :
    result (DoubleBuffer H S * (reader_pc + (DataChunk free_action + error))) :=
  match pc with
  | RdNil => Ok (d, inl (if currentBuffer d then RdLoad else RdHas))
  | RdLoad => let* b := current d in Ok (d, inl (RdLen b))
  | RdLen b =>
      let* s := get_buf b d in
      Ok (d, inl (if decide (SmartBuffer.Len s = 0) then RdHas else RdMode))
  | RdHas => Ok (d, inl (if currentBuffer d then RdUseless else next_turn maxRetires))
  | RdUseless => let* b := current d in Ok (d, inl (RdReset b ResetState))
  | RdReset b pc =>
      let* s := get_buf b d in
      let (s, next) := reset_step pc s in
      Ok (DoubleBuffer.set_buf b s d,
          inl (match next with Some pc => RdReset b pc | None => RdClear b end))
  | RdClear b => Ok (set_currentBuffer None d, inl (RdPut b))
  | RdPut b => Ok (pool_Put b d, inl (next_turn maxRetires))
  | RdPick n =>
      let* (h, x) := pq_pick (pendingHeap d) in
      let d := set_pendingHeap h d in
      match x with
      | None => Ok (d, inr (inr ErrNoBuffer))
      | Some (s, b) => Ok (d, inl (RdCompare n s b))
      end
  | RdCompare n s b =>
      Ok (d, inl (if decide (s = currentSequence d) then RdTake b else RdPush n s b))
  | RdTake b => Ok (set_currentBuffer (Some b) d, inl RdNext)
  | RdNext => Ok (set_currentSequence (int64 (currentSequence d + 1)) d, inl RdFound)
  | RdPush n s b =>
      let* h := pq_push (s, b) (pendingHeap d) in
      Ok (set_pendingHeap h d, inl (next_turn n))
  | RdFound => Ok (d, if currentBuffer d then inl RdMode else inr (inr ErrNoBuffer))
  | RdMode =>
      match readMode d with
      | None => Panics NilDereference
      | Some m =>
          Ok (d, if decide (m = SafeRead ∨ m = ZeroCopyRead) then inl (RdCurrent m)
                 else inr (inr ErrReadMode))
      end
  | RdCurrent m => let* b := current d in Ok (d, inl (RdPop m b PopCount))
  | RdPop m b pc =>
      let* s := get_buf b d in
      let* (s, next) := pop_step pc s in
      Ok (DoubleBuffer.set_buf b s d,
          inl (match next with
               | inl pc => RdPop m b pc
               | inr x => RdDeliver m (default zeroItem x)
               end))
  | RdDeliver m it =>
      let* x := if decide (m = SafeRead) then safe_chunk o (Ptr it) (Size it) d
                else zero_copy_chunk (Ptr it) (Size it) d in
      let (d, r) := read_result x in
      Ok (d, inr r)
  end.

(** ** Readers among the others *)

(** A trace of the other goroutines, and where each reader is inside
    [tryRead], if it is. *)
Record reading := mkReading { tr : trace H S; readers : list (option reader_pc) }.

Inductive reading_event :=
  | VTrace (ev : trace_event)
  | VCall (i : nat)               (** reader [i] calls [tryRead] *)
  | VRead (o : oracle) (i : nat). (** the next access of reader [i] *)

(** A call returns [r]. *)
Definition read_returns (d : DoubleBuffer H S) (r : DataChunk free_action + error) (t : trace H S) :
    trace H S :=
  let s := sys t in
  record (EvRead (mkOracle None None 0 0 0) [])
    (mkSystem d (writeLock s) (switchLock s) (writers s) (monitor s) (reads s ++ [r])) t.

Definition reading_step (ev : reading_event) (v : reading) : result reading :=
  match ev with
  | VTrace ev => let* t := trace_step range ev (tr v) in Ok (mkReading t (readers v))
  | VCall i =>
      match readers v !! i with
      | Some None => Ok (mkReading (tr v) (<[i := Some RdNil]> (readers v)))
      | _ => Ok v
      end
  | VRead o i =>
      match readers v !! i with
      | Some (Some pc) =>
          let* (d, next) := reader_step o pc (db (sys (tr v))) in
          match next with
          | inl pc => Ok (mkReading (with_db d (tr v)) (<[i := Some pc]> (readers v)))
          | inr r => Ok (mkReading (read_returns d r (tr v)) (<[i := None]> (readers v)))
          end
      | _ => Ok v
      end
  end.

Fixpoint reading_run (evs : list reading_event) (v : reading) : result reading :=
  match evs with
  | [] => Ok v
  | ev :: evs => let* v := reading_step ev v in reading_run evs v
  end.
End readers.
Arguments reading H S : clear implicits.

(** ** A reader that runs alone *)

Section alone.
  Context {H S : Type} `{!PendingQueue H, !SwitchStrategy S}.
  Context (range : gmap Z nat → list (Z * nat)).

(** [n] accesses, or fewer if the call returns. *)
Fixpoint read_alone (n : nat) (o : oracle) (pc : reader_pc) (d : DoubleBuffer H S) :
    result (DoubleBuffer H S * (reader_pc + (DataChunk free_action + error))) :=
  match n with
  | O => Ok (d, inl pc)
  | Datatypes.S n =>
      let* (d, next) := reader_step o pc d in
      match next with
      | inl pc => read_alone n o pc d
      | inr r => Ok (d, inr r)
      end
  end.

(** The call returns what a one-step call gives. *)
Definition returning (r : result (DoubleBuffer H S * (DataChunk free_action + error))) :
    result (DoubleBuffer H S * (reader_pc + (DataChunk free_action + error))) :=
  rmap (λ x, (x.1, inr x.2)) r.

(** The chunk made of what [Pop] gave. *)
Definition deliver (o : oracle) (m : Z) (x : Z * Z) (d : DoubleBuffer H S) :
    result (DoubleBuffer H S * (DataChunk free_action + error)) :=
  rmap read_result
    (if decide (m = SafeRead) then safe_chunk o x.1 x.2 d else zero_copy_chunk x.1 x.2 d).

Lemma deliver_alone (k : nat) (o : oracle) (m : Z) (it : BufferItem) (d : DoubleBuffer H S) :
  read_alone (Datatypes.S k) o (RdDeliver m it) d = returning (deliver o m (Ptr it, Size it) d).
Proof.
  cbn [read_alone reader_step]. unfold deliver. cbn [fst snd].
  destruct (if decide (m = SafeRead) then _ else _) as [x| |]; cbn [rbind rmap]; [|done..].
  by destruct (read_result x).
Qed.

Lemma pop_alone_deliver (n k : nat) (o : oracle) (m : Z) (b : nat) (pc : pop_pc)
    (d : DoubleBuffer H S) (s : SmartBuffer) :
  get_buf b d = Ok s → pop_alone n pc s ≠ OutOfFuel →
  read_alone (n + Datatypes.S k) o (RdPop m b pc) d =
  returning (let* (s', x) := pop_alone n pc s in deliver o m x (DoubleBuffer.set_buf b s' d)).
Proof.
  revert pc d s. induction n as [|n IH]; intros pc d s Hs Hf; [done|].
  cbn [pop_alone Nat.add read_alone reader_step] in *. rewrite Hs. cbn [rbind].
  destruct (pop_step pc s) as [[s' [pc'|x]]| |] eqn:E; cbn [rbind] in *; [| |done..].
  - rewrite (IH _ _ s' (get_buf_set _ _ _) Hf). destruct (pop_alone n pc' s') as [[s2 x]| |]; cbn [rbind]; [|done..].
    by rewrite set_buf_twice.
  - rewrite Nat.add_succ_r, deliver_alone. by destruct x.
Qed.

Lemma Pop_returns (s : SmartBuffer) : Pop s ≠ OutOfFuel.
Proof.
  assert (∀ (l : list BufferItem) (k : Z), indexZ l k ≠ OutOfFuel) as Hget.
  { intros l k. unfold indexZ, index. case_decide; [by destruct (l !! _)|done]. }
  assert (∀ (n : nat) (it : BufferItem) (k : Z), retry_read n it (buf s) k ≠ OutOfFuel) as Hretry.
  { induction n as [|n IH]; intros it k; cbn; [done|]. specialize (Hget (buf s) k).
    destruct (indexZ _ _); cbn; [by case_decide|done..]. }
  unfold Pop. case_decide; [done|]. specialize (Hretry maxRetry zeroItem (calcPos (capacity s) (tail s))).
  destruct (retry_read _ _ _ _); cbn; [|done..]. unfold set_indexZ, set_index. by repeat case_decide.
Qed.

(** From the read mode on. *)
Lemma read_current_alone (k : nat) (o : oracle) (d : DoubleBuffer H S) :
  read_alone (13 + k) o RdMode d = returning (read_current o d).
Proof.
  cbn [Nat.add]. set (n := Datatypes.S (call_fuel + k)). change (read_alone (Datatypes.S (Datatypes.S n)) o RdMode d = returning (read_current o d)).
  cbn [read_alone reader_step]. unfold read_current.
  destruct (readMode d) as [m|]; cbn [rbind]; [|done].
  assert (∀ p : panic, current d = Panics p → safeRead o d = Panics p ∧ zeroCopyRead d = Panics p) as Hnil.
  { intros p. unfold safeRead, zeroCopyRead, pop_current, current. destruct (currentBuffer d); [done|by intros [= <-]]. }
  destruct (decide (m = SafeRead ∨ m = ZeroCopyRead)) as [Hm|Hm]; cbn [rbind reader_step];
    [|by rewrite !decide_False by tauto].
  destruct (current d) as [b| |] eqn:Ec; cbn [rbind reader_step].
  2: { destruct (Hnil p eq_refl) as [-> ->]. repeat case_decide; cbn [rbind]; (done || tauto). }
  2: { unfold current in Ec. by destruct (currentBuffer d). }
  assert (currentBuffer d = Some b) as Eb by (unfold current in Ec; by destruct (currentBuffer d); [injection Ec as ->|]).
  assert (read_alone n o (RdPop m b PopCount) d =
    returning (let* (d', x) := pop_current d in deliver o m x d')) as ->.
  { unfold pop_current. rewrite Eb. destruct (get_buf b d) as [s| |] eqn:Hs.
    - unfold n. rewrite <- Nat.add_succ_r, (pop_alone_deliver _ _ _ _ _ _ _ s) by
        (done || rewrite pop_alone_Pop; apply Pop_returns).
      cbn [rbind]. rewrite pop_alone_Pop. by destruct (Pop s) as [[s' x]| |].
    - unfold n. cbn [read_alone reader_step rbind]. by rewrite Hs.
    - unfold n. cbn [read_alone reader_step rbind]. by rewrite Hs. }
  unfold safeRead, zeroCopyRead, deliver.
  destruct (pop_current d) as [[d' [p z]]| |]; cbn [rbind fst snd]; [|repeat case_decide; (done || tauto)..].
  destruct (decide (m = SafeRead)); [|rewrite decide_True by tauto];
    [destruct (safe_chunk o p z d') as [[? ?]| |]|destruct (zero_copy_chunk p z d') as [[? ?]| |]]; done.
Qed.

(** From the loop of [pickBufferFromHeap] on. *)
Lemma pick_alone (n k : nat) (o : oracle) (d : DoubleBuffer H S) :
  read_alone (n * 3 + (15 + k)) o (next_turn n) d =
  returning (let* (d, found) := pick_loop range n [] d in
   if found then if currentBuffer d then read_current o d else Ok (d, inr ErrNoBuffer)
   else Ok (d, inr ErrNoBuffer)).
Proof.
  assert (∀ (j : nat) (d : DoubleBuffer H S), read_alone (14 + j) o RdFound d =
    returning (if currentBuffer d then read_current o d else Ok (d, inr ErrNoBuffer))) as Hfound.
  { intros j d'. change (14 + j)%nat with (Datatypes.S (13 + j)). cbn [read_alone reader_step rbind].
    destruct (currentBuffer d'); cbn [rbind]; [apply read_current_alone|done]. }
  revert d. induction n as [|n IH]; intros d.
  { cbn [next_turn pick_loop rbind Nat.mul]. change (0 + (15 + k))%nat with (14 + Datatypes.S k)%nat. apply Hfound. }
  set (r := (n * 3 + (15 + k))%nat) in *.
  change (Datatypes.S n * 3 + (15 + k))%nat with (Datatypes.S (Datatypes.S (Datatypes.S r))).
  cbn [next_turn read_alone reader_step pick_loop rbind].
  destruct (pq_pick (pendingHeap d)) as [[h [[s b]|]]| |]; cbn [rbind read_alone reader_step]; [|done..].
  cbn [currentSequence set_pendingHeap]. destruct (decide (s = currentSequence d)); cbn [rbind read_alone reader_step].
  - replace r with (Datatypes.S (14 + (n * 3 + k))) by (unfold r; lia).
    cbn [rbind read_alone reader_step]. change (Datatypes.S (13 + (n * 3 + k))) with (14 + (n * 3 + k))%nat.
    apply Hfound.
  - cbn [pendingHeap set_pendingHeap hd tl run_schedule].
    destruct (pq_push (s, b) h) as [h'| |]; cbn [rbind]; [apply IH|done..].
Qed.

Lemma alone_step (n : nat) (o : oracle) (pc pc' : reader_pc) (d d' : DoubleBuffer H S) :
  reader_step o pc d = Ok (d', inl pc') → read_alone (Datatypes.S n) o pc d = read_alone n o pc' d'.
Proof. intros E. cbn [read_alone]. by rewrite E. Qed.

(** The used-up ring is reset and pooled. *)
Lemma reset_alone (n : nat) (o : oracle) (b : nat) (s : SmartBuffer) (d : DoubleBuffer H S) :
  get_buf b d = Ok s →
  read_alone (6 + n) o (RdReset b ResetState) d =
  read_alone n o (next_turn maxRetires) (pool_Put b (set_currentBuffer None (DoubleBuffer.set_buf b (Reset s) d))).
Proof.
  intros Es.
  assert (∀ pc s1 n', read_alone (Datatypes.S n') o (RdReset b pc) (DoubleBuffer.set_buf b s1 d) =
    let (s2, next) := reset_step pc s1 in
    read_alone n' o (match next with Some pc => RdReset b pc | None => RdClear b end)
      (DoubleBuffer.set_buf b s2 d)) as Hstep.
  { intros pc s1 n'. destruct (reset_step pc s1) as [s2 next] eqn:E. apply alone_step.
    cbn [reader_step]. rewrite get_buf_set. cbn [rbind]. by rewrite E, set_buf_twice. }
  assert (read_alone (6 + n) o (RdReset b ResetState) d =
    read_alone (5 + n) o (RdReset b ResetCount) (DoubleBuffer.set_buf b (SetState WriteOnly s) d)) as ->.
  { apply alone_step. cbn [reader_step]. by rewrite Es. }
  do 3 (cbn [Nat.add]; rewrite Hstep; cbn [reset_step]).
  rewrite (alone_step _ o (RdClear b) (RdPut b) _ _ eq_refl).
  by rewrite (alone_step _ o (RdPut b) (next_turn maxRetires) _ _ eq_refl).
Qed.

(** A call of [tryRead] that no other goroutine interrupts. *)
Lemma tryRead_alone (o : oracle) (d : DoubleBuffer H S) :
  read_alone 35 o RdNil d = returning (tryRead range o [] d).
Proof.
  unfold tryRead, current_empty.
  assert (∀ j d', read_alone (24 + j) o (next_turn maxRetires) d' =
    returning (let* (d, picked) := pickBufferFromHeap range [] d' in
     if picked then read_current o d else Ok (d, inr ErrNoBuffer))) as Hpick.
  { intros j d'. change (24 + j)%nat with (maxRetires * 3 + (15 + j))%nat. rewrite pick_alone.
    unfold pickBufferFromHeap. destruct (pick_loop range maxRetires [] d') as [[d1 [|]]| |]; cbn [rbind]; [|done..].
    destruct (currentBuffer d1) eqn:E; (case_bool_decide; [|]); (done || congruence). }
  destruct (currentBuffer d) as [b|] eqn:Eb; cbn [rbind].
  2: { rewrite (alone_step 34 o RdNil RdHas d d) by (cbn; by rewrite Eb).
       rewrite (alone_step 33 o RdHas (next_turn maxRetires) d d) by (cbn; by rewrite Eb).
       unfold discard_current. rewrite Eb. apply (Hpick 9%nat). }
  rewrite (alone_step 34 o RdNil RdLoad d d) by (cbn; by rewrite Eb).
  rewrite (alone_step 33 o RdLoad (RdLen b) d d) by (cbn; unfold current; by rewrite Eb).
  destruct (get_buf b d) as [s| |] eqn:Es; [|cbn [read_alone reader_step]; by rewrite Es..].
  rewrite (alone_step 32 o (RdLen b) (if decide (SmartBuffer.Len s = 0) then RdHas else RdMode) d d) by (cbn; by rewrite Es).
  cbn [rbind]. destruct (decide (SmartBuffer.Len s = 0)) as [Hl|Hl];
    [rewrite bool_decide_true by done|rewrite bool_decide_false by done; exact (read_current_alone 19 o d)].
  rewrite (alone_step 31 o RdHas RdUseless d d) by (cbn; by rewrite Eb).
  rewrite (alone_step 30 o RdUseless (RdReset b ResetState) d d) by (cbn; unfold current; by rewrite Eb).
  change 30%nat with (6 + 24)%nat. rewrite (reset_alone _ _ _ _ _ Es).
  unfold discard_current. rewrite Eb, Es. cbn [rbind]. apply (Hpick 0%nat).
Qed.

(** The accesses of reader [i] in a row. *)
Lemma reading_run_alone (n : nat) (o : oracle) (i : nat) (pc : reader_pc) (t : trace H S)
    (rs : list (option reader_pc)) :
  (i < length rs)%nat →
  reading_run range (replicate n (VRead o i)) (mkReading t (<[i := Some pc]> rs)) =
  (let* (d, next) := read_alone n o pc (db (sys t)) in
   Ok (match next with
       | inl pc => mkReading (with_db d t) (<[i := Some pc]> rs)
       | inr r => mkReading (read_returns d r t) (<[i := None]> rs)
       end)).
Proof.
  intros Hi. revert pc t. induction n as [|n IH]; intros pc t; cbn [replicate reading_run read_alone rbind].
  { destruct t as [[]]. reflexivity. }
  cbn [reading_step readers tr]. rewrite list_lookup_insert_eq by done. rewrite rbind_assoc.
  destruct (reader_step o pc (db (sys t))) as [[d [pc'|r]]| |]; cbn [rbind]; [| |done..].
  - rewrite list_insert_insert_eq, IH. cbn [sys with_db db set_db].
    destruct (read_alone n o pc' d) as [[d' [pc2|r]]| |]; done.
  - rewrite list_insert_insert_eq. clear IH. induction n as [|n IH]; [done|].
    cbn [replicate reading_run reading_step readers]. rewrite list_lookup_insert_eq by done. exact IH.
Qed.
End alone.

(** C13. A call of [tryRead] that no other goroutine interrupts is the call in
    one step: begun by an idle reader and run for 35 accesses, in any state,
    it has returned, with the chunk or the error, the state, the histories
    and the panics of the one-step [tryRead]. *)
Theorem uninterrupted_tryRead {H S : Type} `{!PendingQueue H, !SwitchStrategy S}
    (range : gmap Z nat → list (Z * nat)) (o : oracle) (i : nat) (v : reading H S)
    (Hi : readers v !! i = Some None) :
  reading_run range (VCall i :: replicate 35 (VRead o i)) v =
  reading_step range (VTrace (TRun (EvRead o []))) v.
Proof.
  destruct v as [t rs]. cbn [readers] in Hi. cbn [reading_run reading_step readers tr]. rewrite Hi. cbn [rbind].
  rewrite reading_run_alone by (by eapply lookup_lt_Some). rewrite (tryRead_alone range). cbn [trace_step step].
  destruct (tryRead range o [] (db (sys t))) as [[d r]| |]; cbn [returning rmap rbind fst snd]; [|done..].
  by rewrite list_insert_id.
Qed.

(** The run of [turns_evs], and the goroutine of its last switch. *)
Definition handed_over : trace WrapHeap DefaultStrategy :=
  get_ok (trace_start 2 demo)
    (trace_run map_to_list (turns_evs ++ replicate 4 (TRun (EvGo 0))) (trace_start 2 demo)).

Lemma uninterrupted_tryRead_witness :
  length (delivered handed_over) = 1%nat ∧
  (∃ v : reading WrapHeap DefaultStrategy,
     reading_step map_to_list (VTrace (TRun (EvRead demo_oracle []))) (mkReading handed_over [None]) = Ok v ∧
     length (delivered (tr v)) = 2%nat) ∧
  reading_run map_to_list (VCall 0 :: replicate 35 (VRead demo_oracle 0)) (mkReading handed_over [None]) =
  reading_step map_to_list (VTrace (TRun (EvRead demo_oracle []))) (mkReading handed_over [None]).
Proof.
  split; [vm_compute; reflexivity|]. split; [|by apply (uninterrupted_tryRead map_to_list demo_oracle 0)].
  exists (get_ok (mkReading handed_over [None])
    (reading_step map_to_list (VTrace (TRun (EvRead demo_oracle []))) (mkReading handed_over [None]))).
  split; [apply get_ok_ok; vm_compute; exact I|vm_compute; reflexivity].
Defined.
