(* ===== verification/DoubleBufferReadersSafety.v ===== *)
(** * Memory safety of interleaved reads

    The runs of [DoubleBufferReaders]: with the readers taken access by
    access too, in any number, the only thing that can go wrong with a pointer
    is the nil of [currentBuffer], and that only when two calls of [tryRead]
    overlap. *)
From S2P Require Import Prelude.
From S2P Require Import Consts.
From S2P Require Import Interfaces.
From S2P Require Import Runtime.
From S2P Require Import SmartBuffer.
From S2P Require Import SmartBufferConc.
From S2P Require Import SwitchStrategy.
From S2P Require Import SwitchConfig.
From S2P Require Import Waiters.
From S2P Require Import LifeCycle.
From S2P Require Import DataChunk.
From S2P Require Import WrapHeap.
From S2P Require Import DoubleBuffer.
From S2P Require Import DoubleBufferFlow.
From S2P Require Import DoubleBufferDelivery.
From S2P Require Import DoubleBufferConc.
From S2P Require Import DoubleBufferSafety.
From S2P Require Import DoubleBufferTurns.
From S2P Require Import DoubleBufferMemory.
From S2P Require Import DoubleBufferReaders.
Open Scope Z_scope.
Open Scope go_scope.

(** ** One access *)

(** The reader has found [currentBuffer] set and will dereference it. *)
Definition expects (pc : reader_pc) : bool :=
  match pc with
  | RdLoad | RdLen _ | RdUseless | RdNext | RdMode | RdCurrent _ => true
  | _ => false
  end.

Section safety.
  Context {H S : Type} `{!PendingQueue H, !PendingQueueLaws H, !SwitchStrategy S}.
  Context (range : gmap Z nat → list (Z * nat)) `{!RangeOrder range}.
  Context (Named : Z → Z → Prop).

Local Abbreviation carries := (carries Named).
Local Abbreviation safe := (safe Named).

Definition pop_safe (d : DoubleBuffer H S) (pc : pop_pc) : Prop :=
  match pc with
  | PopRead _ pos it | PopClear pos it =>
      0 ≤ pos < size d ∧ (it = zeroItem ∨ carries (mem (objs d)) it)
  | PopSub it => it = zeroItem ∨ carries (mem (objs d)) it
  | _ => True
  end.

(** What a reader holds: references to rings, an item. *)
Definition reader_safe (d : DoubleBuffer H S) (pc : reader_pc) : Prop :=
  match pc with
  | RdLen b | RdReset b _ | RdClear b | RdPut b | RdCompare _ _ b | RdTake b | RdPush _ _ b =>
      has_ring d b
  | RdPop _ b pc => has_ring d b ∧ pop_safe d pc
  | RdDeliver _ it => it = zeroItem ∨ carries (mem (objs d)) it
  | _ => True
  end.

Lemma reader_safe_grows (d d' : DoubleBuffer H S) (pc : reader_pc) :
  grows d d' → reader_safe d pc → reader_safe d' pc.
Proof.
  intros (Esz & He & Hr).
  assert (∀ it, it = zeroItem ∨ carries (mem (objs d)) it → it = zeroItem ∨ carries (mem (objs d')) it) as Hc.
  { intros it [?|?]; [by left|right; by eapply carries_extends]. }
  destruct pc as [| |b| | |b pc|b|b|n|n s b|b| |n s b| | |m|m b pc|m it]; cbn; auto.
  intros [Hb Hp]. split; [auto|]. destruct pc; cbn in *; rewrite ?Esz; auto; destruct Hp; auto.
Qed.

Lemma pop_step_safe (d : DoubleBuffer H S) (pc : pop_pc) (s : SmartBuffer) :
  safe d → ring_safe Named (size d) (mem (objs d)) s → pop_safe d pc →
  ∃ (s' : SmartBuffer) (next : pop_pc + option BufferItem), pop_step pc s = Ok (s', next) ∧
    ring_safe Named (size d) (mem (objs d)) s' ∧
    match next with
    | inl pc => pop_safe d pc
    | inr x => default zeroItem x = zeroItem ∨ carries (mem (objs d)) (default zeroItem x)
    end.
Proof.
  intros Hs Hr Hp. pose proof Hr as (Hcap & _). destruct pc as [| |t|n pos it|pos it|it]; cbn [pop_step].
  - case_decide; eexists _, _; (split; [done|]); (split; [done|]); [by left|done].
  - by eexists _, _.
  - case_decide; eexists _, _; (split; [done|]); (split; [done|]); [|done].
    cbn. rewrite Hcap. split; [apply calcPos_range, Hs|by left].
  - destruct Hp as [Hpos Hit]. destruct n as [|n]; [by eexists _, _|].
    destruct (index_safe Named (size d) (mem (objs d)) s pos Hr Hpos) as (x & -> & Hx). cbn [rbind].
    case_decide; by eexists _, _.
  - destruct Hp as [Hpos Hit].
    destruct (set_index_safe Named (size d) (mem (objs d)) s pos zeroItem Hr Hpos) as (b & -> & Hl & Hf); [by left|].
    cbn [rbind]. eexists _, _. split; [done|]. by split_and!.
  - by eexists _, _.
Qed.

Lemma reset_step_safe (sz : Z) (m : memory) (pc : reset_pc) (s : SmartBuffer) :
  ring_safe Named sz m s → ring_safe Named sz m (reset_step pc s).1.
Proof. by destruct pc. Qed.

(** What an access gives: the reader goes on or returns, and what it expects
    of [currentBuffer] it has just seen. *)
Definition access_safe (pc : reader_pc) (d : DoubleBuffer H S)
    (r : result (DoubleBuffer H S * (reader_pc + (DataChunk free_action + error)))) : Prop :=
  (r = Panics NilDereference ∧ expects pc = true ∧ currentBuffer d = None) ∨
  ∃ (d' : DoubleBuffer H S) (next : reader_pc + (DataChunk free_action + error)),
    r = Ok (d', next) ∧ safe d' ∧ grows d d' ∧
    match next with
    | inl pc' => reader_safe d' pc' ∧
        ((expects pc = true → currentBuffer d ≠ None) → expects pc' = true → currentBuffer d' ≠ None)
    | inr (inl c) => chunk_safe Named (mem (objs d')) c
    | inr (inr _) => True
    end.

Lemma current_ring (d : DoubleBuffer H S) (b : nat) : safe d → currentBuffer d = Some b → has_ring d b.
Proof.
  intros Hs Ec. apply (sf_refs Named d Hs). unfold refs. rewrite Ec. rewrite !elem_of_cons. right. right. by left.
Qed.

(** An access that changes nothing. *)
Lemma access_looks (pc pc' : reader_pc) (d : DoubleBuffer H S) :
  safe d → reader_safe d pc' →
  ((expects pc = true → currentBuffer d ≠ None) → expects pc' = true → currentBuffer d ≠ None) →
  access_safe pc d (Ok (d, inl pc')).
Proof. intros Hs Hr He. right. by eexists _, _. Qed.

(** An access of a field the others' references do not depend on. *)
Lemma access_moves (pc pc' : reader_pc) (d d' : DoubleBuffer H S) :
  safe d' → grows d d' → reader_safe d' pc' → expects pc' = false →
  access_safe pc d (Ok (d', inl pc')).
Proof. intros Hs Hg Hr He. right. eexists _, _. do 3 (split; [done|]). split; [done|]. intros _. by rewrite He. Qed.

(** A load of [currentBuffer] that is dereferenced. *)
Lemma access_current (pc : reader_pc) (d : DoubleBuffer H S) (pc' : nat → reader_pc) :
  safe d → expects pc = true → (∀ b, has_ring d b → reader_safe d (pc' b)) →
  access_safe pc d (let* b := current d in Ok (d, inl (pc' b))).
Proof.
  intros Hs He Hr. unfold current. destruct (currentBuffer d) as [b|] eqn:Ec; cbn [rbind]; [|by left].
  apply access_looks; [done|by apply Hr, current_ring|by rewrite Ec].
Qed.

Lemma next_turn_safe (n : nat) (d : DoubleBuffer H S) : reader_safe d (next_turn n) ∧ expects (next_turn n) = false.
Proof. by destruct n. Qed.

(** Fields that no reference goes through. *)
Lemma safe_current (x : option nat) (d : DoubleBuffer H S) :
  safe d → (∀ b, x = Some b → has_ring d b) →
  safe (set_currentBuffer x d) ∧ grows d (set_currentBuffer x d).
Proof.
  intros Hs Hx. apply safe_objs; try done; try apply Hs. intros b Hb. unfold refs in Hb. cbn in Hb.
  rewrite !elem_of_cons, !elem_of_app in Hb. destruct (decide (b ∈ option_list x)) as [Hin|Hn].
  - destruct x as [b'|]; [|by apply elem_of_nil in Hin]. apply list_elem_of_singleton in Hin as ->. by apply Hx.
  - apply (sf_refs Named d Hs). unfold refs. rewrite !elem_of_cons, !elem_of_app. tauto.
Qed.

Lemma safe_pool_Put (b : nat) (d : DoubleBuffer H S) :
  safe d → has_ring d b → safe (pool_Put b d) ∧ grows d (pool_Put b d).
Proof.
  intros Hs Hb. apply safe_objs; try done; try apply Hs. intros b' Hb'. unfold refs in Hb'. cbn in Hb'.
  rewrite !elem_of_cons, !elem_of_app in Hb'. destruct (decide (b' = b)) as [->|Hne]; [done|].
  apply (sf_refs Named d Hs). unfold refs. rewrite !elem_of_cons, !elem_of_app, ?elem_of_cons in *. tauto.
Qed.

Lemma safe_heap (h : H) (d : DoubleBuffer H S) :
  safe d → pq_wf h → (∀ b, b ∈ (pq_contents h).*2 → has_ring d b) →
  safe (set_pendingHeap h d) ∧ grows d (set_pendingHeap h d).
Proof.
  intros Hs Hh Hb.
  destruct (safe_goroutines Named d h (wm d) (goroutines d) Hs Hh (sf_wm Named d Hs)) as [Hs' Hg].
  { intros b [?|?]; [by apply Hb|by apply (go_refs Named)]. }
  by split.
Qed.

Lemma pick_access_safe (o : oracle) (n : nat) (d : DoubleBuffer H S) :
  safe d → access_safe (RdPick n) d (reader_step o (RdPick n) d).
Proof.
  intros Hs. cbn [reader_step]. pose proof (sf_heap Named d Hs) as Hh. right.
  destruct (decide (pq_contents (pendingHeap d) = [])) as [He|He].
  { rewrite (pq_pick_none _ Hh He). cbn [rbind]. eexists _, _. split; [done|]. by destruct d. }
  destruct (pq_pick_some _ Hh He) as (h & [s b] & -> & Hh' & Hp & _). cbn [rbind].
  destruct (safe_heap h d Hs Hh') as [Hs' Hg].
  { intros b' Hb'. apply (heap_refs Named); [done|]. rewrite Hp. by right. }
  eexists _, _. split; [done|]. split; [exact Hs'|]. split; [exact Hg|]. split; [|done].
  apply Hg, (heap_refs Named); [done|]. rewrite Hp. by left.
Qed.

Lemma push_access_safe (o : oracle) (n : nat) (s : Z) (b : nat) (d : DoubleBuffer H S) :
  safe d → has_ring d b → access_safe (RdPush n s b) d (reader_step o (RdPush n s b) d).
Proof.
  intros Hs Hb. cbn [reader_step].
  destruct (pq_push_ok (pendingHeap d) (s, b) (sf_heap Named d Hs)) as (h & -> & Hh' & Hp). cbn [rbind].
  destruct (safe_heap h d Hs Hh') as [Hs' Hg].
  { intros b' Hb'. rewrite Hp in Hb'. cbn in Hb'. apply elem_of_cons in Hb' as [->|Hb']; [done|].
    by apply (heap_refs Named). }
  by apply access_moves; [| |apply next_turn_safe|apply next_turn_safe].
Qed.

Lemma pop_access_safe (o : oracle) (m : Z) (b : nat) (pc : pop_pc) (d : DoubleBuffer H S) :
  safe d → has_ring d b → pop_safe d pc → access_safe (RdPop m b pc) d (reader_step o (RdPop m b pc) d).
Proof.
  intros Hs Hb Hp. cbn [reader_step]. destruct (get_safe Named b d Hs Hb) as (s & -> & Hr). cbn [rbind].
  destruct (pop_step_safe d pc s Hs Hr Hp) as (s' & next & -> & Hr' & Hn). cbn [rbind].
  destruct (safe_set_buf Named b s' d Hs Hr') as [Hs' Hg].
  apply access_moves; [done|done| |by destruct next].
  destruct next as [pc'|x]; [|exact Hn]. split; [by apply Hg|]. by destruct pc'.
Qed.

Lemma deliver_access_safe (o : oracle) (m : Z) (it : BufferItem) (d : DoubleBuffer H S) :
  safe d → it = zeroItem ∨ carries (mem (objs d)) it →
  access_safe (RdDeliver m it) d (reader_step o (RdDeliver m it) d).
Proof.
  intros Hs Hit. cbn [reader_step]. right.
  assert (read_safe Named d (if decide (m = SafeRead) then safe_chunk o (Ptr it) (Size it) d
    else zero_copy_chunk (Ptr it) (Size it) d)) as (d' & x & -> & Hs' & Hg & Hx)
    by (case_decide; [by apply safe_chunk_safe|by apply zero_copy_chunk_safe]).
  cbn [rbind read_result fst snd]. eexists _, _. split; [done|]. split; [done|]. split; [done|].
  by destruct x.
Qed.

Lemma reader_step_safe (o : oracle) (pc : reader_pc) (d : DoubleBuffer H S) :
  safe d → reader_safe d pc → access_safe pc d (reader_step o pc d).
Proof.
  intros Hs Hpc.
  destruct pc as [| |b| | |b pc|b|b|n|n s b|b| |n s b| | |m|m b pc|m it]; cbn [reader_safe] in Hpc.
  - apply access_looks; [done|by destruct (currentBuffer d)|]. intros _. by destruct (currentBuffer d).
  - by apply access_current.
  - cbn [reader_step]. destruct (get_safe Named b d Hs Hpc) as (s & -> & Hr). cbn [rbind].
    apply access_looks; [done|by case_decide|]. intros He _. by apply He.
  - apply access_looks; [done|by destruct (currentBuffer d)|]. intros _. by destruct (currentBuffer d).
  - by apply access_current.
  - cbn [reader_step]. destruct (get_safe Named b d Hs Hpc) as (s & -> & Hr). cbn [rbind].
    destruct (reset_step pc s) as [s' next] eqn:E.
    destruct (safe_set_buf Named b s' d Hs) as [Hs' Hg].
    { pose proof (reset_step_safe (size d) (mem (objs d)) pc s Hr) as Hr'. by rewrite E in Hr'. }
    apply access_moves; [done|done| |by destruct next]. destruct next; by apply Hg.
  - cbn [reader_step]. destruct (safe_current None d Hs) as [Hs' Hg]; [done|].
    apply access_moves; [done|done|by apply Hg|done].
  - cbn [reader_step]. destruct (safe_pool_Put b d Hs Hpc) as [Hs' Hg].
    by apply access_moves; [| |apply next_turn_safe|apply next_turn_safe].
  - by apply pick_access_safe.
  - apply access_looks; [done|by case_decide|]. intros _. by case_decide.
  - cbn [reader_step]. destruct (safe_current (Some b) d Hs) as [Hs' Hg]; [by intros ? [= <-]|].
    right. eexists _, _. by split_and!.
  - right. eexists _, _. split; [done|].
    assert (safe (set_currentSequence (int64 (currentSequence d + 1)) d)) as Hs' by (by destruct Hs).
    split; [exact Hs'|]. split; [done|]. split; [done|]. intros He _. by apply He.
  - by apply push_access_safe.
  - cbn [reader_step]. destruct (currentBuffer d) as [b|] eqn:Ec.
    + apply access_looks; [done|done|by rewrite Ec].
    + right. by eexists _, _.
  - cbn [reader_step]. pose proof (sf_mode Named d Hs). destruct (readMode d) as [m|]; [|done].
    case_decide; [|right; by eexists _, _]. apply access_looks; [done|done|]. intros He _. by apply He.
  - by apply access_current.
  - destruct Hpc. by apply pop_access_safe.
  - by apply deliver_access_safe.
Qed.

(** ** The others leave [currentBuffer] alone *)

Lemma switch_step_current (o : oracle) (a : agent) (pc : switch_pc) (lock l : option agent)
    (d d' : DoubleBuffer H S) (next : option switch_pc) :
  switch_step o a pc lock d = Ok (d', l, next) → currentBuffer d' = currentBuffer d.
Proof.
  destruct pc; cbn [switch_step]; try (by intros [= <- _ _]).
  - case_decide; by intros [= <- _ _].
  - destruct lock; by intros [= <- _ _].
  - by intros (s & _ & [= <- _ _])%rbind_ok.
  - intros ([d1 b] & E & [= <- _ _])%rbind_ok. revert E. unfold pool_Get, new_buf.
    destruct (pool_take _ _) as [[b' rest]|]; [by intros [= <- _]|]. by intros (s & _ & [= <- _])%rbind_ok.
Qed.

Lemma ring_step_current (it : BufferItem) (b : nat) (pc : push_pc) (d d' : DoubleBuffer H S)
    (next : push_pc + option error) :
  ring_step it b pc d = Ok (d', next) → currentBuffer d' = currentBuffer d.
Proof. unfold ring_step. by intros (s & _ & ([s' nx] & _ & [= <- _])%rbind_ok)%rbind_ok. Qed.

Lemma writer_step_current (o : oracle) (i : nat) (pc : writer_pc) (x y : system H S) :
  writer_step o i pc x = Ok y → currentBuffer (db y) = currentBuffer (db x).
Proof.
  destruct pc as [|p|p|it|it|it b|it b ppc| |it|it|it b|it spc|it|it b|it b ppc| |err]; cbn [writer_step];
    try (by intros [= <-]); try (case_decide; by intros [= <-]).
  - intros ([d it] & E & [= <-])%rbind_ok. by apply classify_same in E as (_ & _ & _ & _ & _ & _ & Ec & _).
  - intros (s & _ & E)%rbind_ok. case_decide; by injection E as <-.
  - intros ([d next] & E%ring_step_current & E2)%rbind_ok. by destruct next as [|[]]; injection E2 as <-.
  - destruct (writeLock x); by intros [= <-].
  - intros (s & _ & E)%rbind_ok. case_decide; by injection E as <-.
  - intros ([[d l] next] & E%switch_step_current & [= <-])%rbind_ok. done.
  - intros (s & _ & E)%rbind_ok. case_decide; by injection E as <-.
  - intros ([d next] & E%ring_step_current & E2)%rbind_ok. by destruct next as [|[]]; injection E2 as <-.
Qed.

Lemma monitor_step_current (o : oracle) (x y : system H S) :
  monitor_step o x = Ok y → currentBuffer (db y) = currentBuffer (db x).
Proof.
  unfold monitor_step. destruct (monitor x) as [|pc].
  - destruct (swapper (db x)); [|by intros [= <-]]. unfold needSwitch.
    destruct (poll _ _) as [cond conf]. by intros [= <-].
  - intros ([[d l] next] & E%switch_step_current & [= <-])%rbind_ok. done.
Qed.

Lemma run_free_current (f : free_action) (d : DoubleBuffer H S) :
  currentBuffer (run_free f d) = currentBuffer d.
Proof. destruct f as [s|p n|p n]; cbn; [done| |done]. unfold recycle. by repeat case_decide. Qed.

Lemma trace_step_current (ev : trace_event) (t t' : trace H S) :
  reads_now ev = false → trace_step range ev t = Ok t' →
  currentBuffer (db (sys t')) = currentBuffer (db (sys t)).
Proof.
  destruct ev as [ev|k|clock mo bo|k|p l]; cbn [trace_step]; intros Hev.
  - intros (y & E & [= <-])%rbind_ok. cbn [record sys]. destruct ev as [i p|o i|o|i|o sl|f]; cbn [step] in E.
    + destruct (writers (sys t) !! i) as [w|]; [|by injection E as <-]. by destruct (wpc w); injection E as <-.
    + destruct (writers (sys t) !! i) as [w|]; [|by injection E as <-]. by eapply writer_step_current.
    + by eapply monitor_step_current.
    + apply rbind_ok in E as (d & E & [= <-]). apply (run_schedule_current range [i]). cbn. by rewrite E.
    + done.
    + injection E as <-. apply run_free_current.
  - destruct (chunks t !! k) as [c|]; [|by intros [= <-]]. intros [= <-]. cbn.
    unfold Release. destruct (free c); [apply run_free_current|done].
  - intros [= <-]. cbn. unfold asyncRecycleWorker_tick. by destruct (recycler _).
  - by intros [= <-].
  - by intros [= <-].
Qed.

(** ** Runs *)

Record reading_safe (v : reading H S) : Prop := {
  rs_trace : trace_safe Named (tr v);
  rs_readers (i : nat) (pc : reader_pc) :
    readers v !! i = Some (Some pc) → reader_safe (db (sys (tr v))) pc
}.

(** One reader at most is inside [tryRead], and what it expects holds. *)
Definition undisturbed (v : reading H S) : Prop :=
  ∀ (i : nat) (pc : reader_pc), readers v !! i = Some (Some pc) →
    (expects pc = true → currentBuffer (db (sys (tr v))) ≠ None) ∧
    ∀ (j : nat) (pc' : reader_pc), readers v !! j = Some (Some pc') → j = i.

(** What is asked of the users, as in [DoubleBufferMemory]. *)
Definition vharmless (ev : reading_event) (v : reading H S) : Prop :=
  match ev with VTrace ev => harmless ev (tr v) | _ => True end.

(** No call of [tryRead] begins during another. *)
Definition apart (ev : reading_event) (v : reading H S) : Prop :=
  match ev with
  | VCall _ => Forall (λ r, r = None) (readers v)
  | VTrace ev => reads_now ev = true → Forall (λ r, r = None) (readers v)
  | VRead _ _ => True
  end.

Fixpoint during (P : reading_event → reading H S → Prop) (evs : list reading_event)
    (v : reading H S) : Prop :=
  match evs with
  | [] => True
  | ev :: evs =>
      P ev v ∧
      match reading_step range ev v with
      | Ok v => during P evs v
      | _ => True
      end
  end.

Lemma idle_readers (i : nat) (pc : reader_pc) (rs : list (option reader_pc)) :
  Forall (λ r, r = None) rs → rs !! i = Some (Some pc) → False.
Proof. intros Hall Hi. by pose proof (Forall_lookup_1 _ _ _ _ Hall Hi). Qed.

Lemma all_idle (rs : list (option reader_pc)) :
  (∀ (j : nat) (pc : reader_pc), rs !! j = Some (Some pc) → False) → Forall (λ r, r = None) rs.
Proof. intros Hn. apply Forall_lookup_2. intros j [pc|] Hj; [by destruct (Hn j pc)|done]. Qed.

(** The only reader inside goes on, or returns. *)
Lemma only_reader (i : nat) (r : option reader_pc) (rs : list (option reader_pc)) :
  (∀ (j : nat) (pc : reader_pc), rs !! j = Some (Some pc) → j = i) →
  ∀ (j : nat) (pc : reader_pc), <[i := r]> rs !! j = Some (Some pc) → j = i ∧ r = Some pc.
Proof.
  intros Hone j pc [(<- & -> & _)|[Hne Hj]]%list_lookup_insert_Some; [done|].
  by apply Hone in Hj.
Qed.

(** One reader at most is inside, and [I] holds of where it is. *)
Definition in_turn (I : option reader_pc → trace H S → Prop) (v : reading H S) : Prop :=
  (Forall (λ r, r = None) (readers v) ∧ I None (tr v)) ∨
  ∃ (i : nat) (pc : reader_pc), readers v !! i = Some (Some pc) ∧
    (∀ (j : nat) (pc' : reader_pc), readers v !! j = Some (Some pc') → j = i) ∧ I (Some pc) (tr v).

Lemma in_turn_other (I I' : option reader_pc → trace H S → Prop) (ev : trace_event) (v v' : reading H S) :
  in_turn I v → apart (VTrace ev) v →
  (∀ (o : option reader_pc) (t : trace H S), (reads_now ev = true → o = None) →
    (∀ pc : reader_pc, o = Some pc → Some pc ∈ readers v) → I o (tr v) →
    trace_step range ev (tr v) = Ok t → I' o t) →
  reading_step range (VTrace ev) v = Ok v' → in_turn I' v'.
Proof.
  cbn [reading_step apart]. intros Hv Ha HI (t & E & [= <-])%rbind_ok.
  destruct Hv as [[Hall Hv]|(i & pc & Hi & Hone & Hv)]; [left|right; exists i, pc]; cbn [readers tr].
  - split; [done|]. by eapply HI.
  - split; [done|]. split; [done|]. eapply HI; [|intros ? [= <-]; by eapply list_elem_of_lookup_2|done|done].
    intros Hr. destruct (idle_readers _ _ _ (Ha Hr) Hi).
Qed.

Lemma in_turn_call (I : option reader_pc → trace H S → Prop) (i : nat) (v v' : reading H S) :
  in_turn I v → apart (VCall i) v → (I None (tr v) → I (Some RdNil) (tr v)) →
  reading_step range (VCall i) v = Ok v' → in_turn I v'.
Proof.
  cbn [reading_step apart]. intros Hv Ha HI E.
  destruct (readers v !! i) as [[pc|]|] eqn:Hi; injection E as <-; [done| |done].
  destruct Hv as [[_ Hv]|(j & pc & Hj & _)]; [|destruct (idle_readers _ _ _ Ha Hj)].
  right. exists i, RdNil. cbn [readers tr]. split; [by eapply list_lookup_insert_eq, lookup_lt_Some|].
  split; [|by apply HI]. intros j pc Hj. eapply only_reader; [|exact Hj].
  intros j' pc' Hj'. destruct (idle_readers _ _ _ Ha Hj').
Qed.

Lemma in_turn_access (I : option reader_pc → trace H S → Prop) (o : oracle) (i : nat) (v v' : reading H S) :
  in_turn I v →
  (∀ (pc : reader_pc) (d : DoubleBuffer H S) (next : reader_pc + (DataChunk free_action + error)),
    I (Some pc) (tr v) → reader_step o pc (db (sys (tr v))) = Ok (d, next) →
    match next with
    | inl pc' => I (Some pc') (with_db d (tr v))
    | inr r => I None (read_returns d r (tr v))
    end) →
  reading_step range (VRead o i) v = Ok v' → in_turn I v'.
Proof.
  cbn [reading_step]. intros Hv HI. destruct (readers v !! i) as [[pc|]|] eqn:Hi; [|by intros [= <-]..].
  destruct Hv as [[Hall _]|(i' & pc' & Hi' & Hone & Hv)]; [destruct (idle_readers _ _ _ Hall Hi)|].
  pose proof (Hone i pc Hi) as <-. rewrite Hi in Hi'. injection Hi' as <-.
  intros ([d next] & E & E2)%rbind_ok. apply (HI _ _ _ Hv) in E.
  pose proof (lookup_lt_Some _ _ _ Hi) as Hlt. destruct next as [pc'|r]; injection E2 as <-.
  - right. exists i, pc'. cbn [readers tr]. split; [by apply list_lookup_insert_eq|].
    split; [|exact E]. intros j pc2 Hj. by eapply only_reader.
  - left. cbn [readers tr]. split; [|exact E].
    apply all_idle. intros j pc2 Hj. by apply (only_reader i None _ Hone) in Hj as [_ ?].
Qed.

Definition step_fine (ev : reading_event) (v : reading H S) : Prop :=
  (reading_step range ev v = Panics NilDereference ∧ (undisturbed v → apart ev v → False)) ∨
  ∃ v' : reading H S, reading_step range ev v = Ok v' ∧ reading_safe v' ∧
    (undisturbed v → apart ev v → undisturbed v').

Lemma trace_event_fine (ev : trace_event) (v : reading H S) :
  reading_safe v → harmless ev (tr v) → (∀ i p, ev = TRun (EvCall i p) → Named (sptr p) (slen p)) →
  step_fine (VTrace ev) v.
Proof.
  intros [Ht Hr] Hh Hn. right. cbn [reading_step].
  destruct (trace_step_safe range Named ev (tr v) Ht Hh Hn) as (t & E & Ht' & Hg). rewrite E. cbn [rbind].
  eexists. split; [done|]. split.
  - constructor; [exact Ht'|]. intros i pc Hi. by eapply reader_safe_grows, Hr.
  - intros Hu Ha i pc Hi. cbn [readers tr] in *. destruct (reads_now ev) eqn:Ev.
    + destruct (idle_readers _ _ _ (Ha Ev) Hi).
    + rewrite (trace_step_current _ _ _ Ev E). by apply Hu.
Qed.

Lemma call_fine (i : nat) (v : reading H S) : reading_safe v → step_fine (VCall i) v.
Proof.
  intros Hv. right. cbn [reading_step]. destruct (readers v !! i) as [[pc|]|] eqn:Hi;
    [by exists v| |by exists v].
  eexists. split; [done|]. split.
  - constructor; [apply Hv|]. intros j pc Hj. cbn [readers] in Hj.
    apply list_lookup_insert_Some in Hj as [(_ & [= <-] & _)|[_ Hj]]; [done|by eapply (rs_readers v)].
  - intros _ Ha j pc Hj. cbn [readers tr apart] in *.
    assert (∀ j pc, <[i := Some RdNil]> (readers v) !! j = Some (Some pc) → j = i ∧ pc = RdNil) as Hone.
    { intros j' pc' [(<- & [= <-] & _)|[_ Hj']]%list_lookup_insert_Some; [done|].
      destruct (idle_readers _ _ _ Ha Hj'). }
    apply Hone in Hj as [-> ->]. split; [done|]. by intros j pc [-> _]%Hone.
Qed.

Lemma read_fine (o : oracle) (i : nat) (v : reading H S) : reading_safe v → step_fine (VRead o i) v.
Proof.
  intros Hv. pose proof Hv as [Ht Hr]. pose proof Ht as [Hs Hc]. pose proof (ss_db _ _ Hs) as Hd.
  unfold step_fine. cbn [reading_step].
  destruct (readers v !! i) as [[pc|]|] eqn:Hi; [|right; by exists v..].
  destruct (reader_step_safe o pc (db (sys (tr v))) Hd (Hr i pc Hi)) as
    [(-> & He & Hcur)|(d & next & -> & Hd' & Hg & Hn)].
  { left. split; [done|]. intros Hu _. by apply (Hu i pc Hi). }
  cbn [rbind]. right.
  assert (∀ x j pc', <[i := x]> (readers v) !! j = Some (Some pc') →
    (j = i ∧ x = Some pc') ∨ readers v !! j = Some (Some pc') ∧ j ≠ i) as Hin.
  { intros x j pc' [(-> & -> & _)|[Hne Hj]]%list_lookup_insert_Some; [by left|right; by split]. }
  destruct next as [pc'|r].
  - eexists. split; [done|]. destruct Hn as [Hpc' Hexp]. split.
    + constructor; cbn [tr readers].
      * by apply env_step_safe.
      * intros j pc2 [[-> [= <-]]|[Hj _]]%Hin; [exact Hpc'|]. eapply reader_safe_grows; [exact Hg|by eapply Hr].
    + intros Hu _ j pc2 Hj. cbn [tr readers] in *. destruct (Hu i pc Hi) as [Hcur Hone].
      apply Hin in Hj as [[-> [= <-]]|[Hj Hne]]; [|by apply Hone in Hj]. split; [by apply Hexp|].
      intros j pc2 [[-> _]|[Hj Hne]]%Hin; [done|by apply Hone in Hj].
  - eexists. split; [done|]. split.
    + constructor; cbn [tr readers].
      * by apply returned_safe.
      * intros j pc2 [[_ ?]|[Hj _]]%Hin; [done|]. eapply reader_safe_grows; [exact Hg|by eapply Hr].
    + intros Hu _ j pc2 [[_ ?]|[Hj Hne]]%Hin; [done|]. by apply (Hu i pc Hi) in Hj.
Qed.

Lemma reading_step_fine (ev : reading_event) (v : reading H S) :
  reading_safe v → vharmless ev v →
  (∀ i p, ev = VTrace (TRun (EvCall i p)) → Named (sptr p) (slen p)) → step_fine ev v.
Proof.
  intros Hv Hh Hn. destruct ev as [ev|i|o i]; [|by apply call_fine|by apply read_fine].
  apply trace_event_fine; [done|done|]. intros i p ->. by eapply Hn.
Qed.

Lemma reading_run_fine (evs : list reading_event) (v : reading H S) :
  reading_safe v → during vharmless evs v →
  (∀ i p, VTrace (TRun (EvCall i p)) ∈ evs → Named (sptr p) (slen p)) →
  (reading_run range evs v = Panics NilDereference ∧ (undisturbed v → during apart evs v → False)) ∨
  ∃ v' : reading H S, reading_run range evs v = Ok v' ∧ reading_safe v'.
Proof.
  revert v. induction evs as [|ev evs IH]; intros v Hv Hh Hn; [right; by exists v|].
  destruct Hh as [Hev Hh]. cbn [reading_run during].
  destruct (reading_step_fine ev v Hv Hev) as [[E Hno]|(v1 & E & Hv1 & Hu1)].
  { intros i p ->. apply (Hn i). by left. }
  { left. rewrite E. split; [done|]. intros Hu [Ha _]. by apply Hno. }
  rewrite E in *. cbn [rbind].
  destruct (IH v1 Hv1 Hh) as [[E' Hno]|Hok]; [|left; split; [done|]|by right].
  - intros i p Hin. apply (Hn i). by right.
  - intros Hu [Ha Has]. apply Hno; [by apply Hu1|done].
Qed.
End safety.

(** [k] writers and [r] readers around a new double buffer. *)
Definition reading_start {H S : Type} `{!PendingQueue H, !SwitchStrategy S} (mode : Z) (k r : nat)
    (d : DoubleBuffer H S) : reading H S :=
  mkReading (mode_start mode k d) (replicate r None).

(** C3. Interleaved reads are memory-safe.  Any number of writers inside
    [Write] and of readers inside [tryRead], in either mode, the monitor, the
    goroutines of the switches in any order, releases, cleanups, and users
    who allocate and overwrite mapped memory: one access at a time, in any
    order.  As long as [Write] is given slices of 1 byte to 2 GiB of mapped
    memory, the only panic is a nil dereference, and there is none when no
    call of [tryRead] begins during another; every chunk that was delivered
    is a non-empty slice of mapped memory, and the object of 1024 bytes or
    more that it gives back when it is released is a slice that was given to
    [Write], of the chunk's length. *)
Theorem interleaved_reads_are_memory_safe {H S : Type} `{PendingQueueLaws H, !SwitchStrategy S}
    (range : gmap Z nat → list (Z * nat)) (k r : nat) (n : Z) (cond : SwitchCondition)
    (opts : list Z) (s : S) (now mode : Z) (m : memory) (d : DoubleBuffer H S)
    (evs : list reading_event)
    (Hrange : RangeOrder range) (Hn : 0 < n < 2 ^ 31) (Hm : mem_wf m)
    (Hmode : ReadMode_Validate mode = true) (Hd : NewDoubleBuffer n cond opts s now m = Ok (inl d))
    (Hharmless : during range vharmless evs (reading_start mode k r d)) :
  match reading_run range evs (reading_start mode k r d) with
  | Ok v => ∀ c : DataChunk free_action, c ∈ chunks (tr v) →
      0 < slen (data c) ∧ is_Some (slice_bytes (mem_of (tr v)) (data c)) ∧
      ∀ p sz : Z, free c = Some (FreeRecycle p sz) ∨ free c = Some (FreeZeroCopy p sz) →
        SmallDataThreshold ≤ sz →
        slen (data c) = sz ∧
        ∃ (i : nat) (q : slice), VTrace (TRun (EvCall i q)) ∈ evs ∧ sptr q = p ∧ slen q = sz
  | Panics p => p = NilDereference ∧ ¬ during range apart evs (reading_start mode k r d)
  | OutOfFuel => False
  end.
Proof.
  set (Named := λ p sz, ∃ (i : nat) (q : slice), VTrace (TRun (EvCall i q)) ∈ evs ∧ sptr q = p ∧ slen q = sz).
  assert (∀ i pc, replicate r (@None reader_pc) !! i = Some (Some pc) → False) as Hidle.
  { intros i pc Hi. by apply lookup_replicate in Hi as [? _]. }
  assert (reading_safe Named (reading_start mode k r d)) as Hs.
  { constructor; cbn [tr readers reading_start].
    - constructor; [|by constructor]. constructor; cbn; [by eapply NewDoubleBuffer_safe| |done].
      by apply Forall_replicate.
    - by intros i pc ?%Hidle. }
  destruct (reading_run_fine range Named evs _ Hs Hharmless) as [[-> Hno]|(v & -> & [[_ Hc] _])];
    [by intros i p Hin; exists i, p|split; [done|]; intros Ha; apply Hno; [|done]; by intros i pc ?%Hidle|].
  intros c Hin. rewrite Forall_forall in Hc. by apply (chunk_safe_gives Named), Hc.
Qed.

(** The writers of [crowd_evs], then two reads that do not overlap; a user
    overwrites memory during the first. *)
Definition readers_evs : list reading_event :=
  (VTrace <$> take 159 crowd_evs) ++ VCall 0 :: replicate 12 (VRead demo_oracle 0) ++
  VTrace (TStore 50 [x00; x00]) :: replicate 23 (VRead demo_oracle 0) ++ VTrace (TRelease 0) ::
  VCall 1 :: replicate 35 (VRead demo_oracle 1).

Definition readers_end : reading WrapHeap DefaultStrategy :=
  get_ok (reading_start SafeRead 3 2 crowd) (reading_run map_to_list readers_evs (reading_start SafeRead 3 2 crowd)).

Lemma readers_run : reading_run map_to_list readers_evs (reading_start SafeRead 3 2 crowd) = Ok readers_end.
Proof. apply get_ok_ok. vm_compute. exact I. Qed.

Lemma readers_harmless : during map_to_list vharmless readers_evs (reading_start SafeRead 3 2 crowd).
Proof. vm_compute. repeat split; try discriminate; by eexists. Qed.

Lemma interleaved_reads_are_memory_safe_witness :
  chunks (tr readers_end) = [mkChunk crowd_q (Some (FreeRecycle 50 1100))] ∧
  match reading_run map_to_list readers_evs (reading_start SafeRead 3 2 crowd) with
  | Ok v => ∀ c : DataChunk free_action, c ∈ chunks (tr v) →
      0 < slen (data c) ∧ is_Some (slice_bytes (mem_of (tr v)) (data c)) ∧
      ∀ p sz : Z, free c = Some (FreeRecycle p sz) ∨ free c = Some (FreeZeroCopy p sz) →
        SmallDataThreshold ≤ sz →
        slen (data c) = sz ∧
        ∃ (i : nat) (q : slice), VTrace (TRun (EvCall i q)) ∈ readers_evs ∧ sptr q = p ∧ slen q = sz
  | Panics p => p = NilDereference ∧ ¬ during map_to_list apart readers_evs (reading_start SafeRead 3 2 crowd)
  | OutOfFuel => False
  end.
Proof.
  split; [vm_compute; reflexivity|].
  apply (interleaved_reads_are_memory_safe map_to_list 3 2 1 (mkCondition (mkConfig 1 80 second 1000) true 1) []
    NewDefaultStrategy 0 SafeRead crowd_mem crowd readers_evs).
  - apply map_to_list_RangeOrder.
  - split; reflexivity.
  - apply crowd_mem_wf.
  - reflexivity.
  - apply crowd_ok.
  - apply readers_harmless.
Defined.
