(* ===== verification/DoubleBufferReadersOnce.v ===== *)
(** * Delivery at most once, reads access by access

    The runs of [DoubleBufferReaders] in which no call of [tryRead] begins
    during another: a write is delivered at most once there too, and a refused
    write is not delivered.  An item may now also be with a reader inside
    [Pop], which has loaded it and not yet cleared its slot. *)
From S2P Require Import Prelude.
From S2P Require Import Consts.
From S2P Require Import Interfaces.
From S2P Require Import Runtime.
From S2P Require Import SmartBuffer.
From S2P Require Import SmartBufferConc.
From S2P Require Import SwitchStrategy.
From S2P Require Import SwitchConfig.
From S2P Require Import LifeCycle.
From S2P Require Import DataChunk.
From S2P Require Import WrapHeap.
From S2P Require Import DoubleBuffer.
From S2P Require Import DoubleBufferDelivery.
From S2P Require Import DoubleBufferConc.
From S2P Require Import DoubleBufferView.
From S2P Require Import DoubleBufferTurns.
From S2P Require Import DoubleBufferMemory.
From S2P Require Import DoubleBufferOnce.
From S2P Require Import DoubleBufferReaders.
From S2P Require Import DoubleBufferReadersSafety.
Open Scope Z_scope.
Open Scope go_scope.

(** ** What a reader holds *)

(** The slot it has loaded and is about to clear. *)
Definition hidden (pc : reader_pc) : option (nat * Z) :=
  match pc with
  | RdPop _ b (PopRead O pos _ | PopClear pos _) => Some (b, pos)
  | _ => None
  end.

(** The item it will return. *)
Definition holds (pc : reader_pc) : list BufferItem :=
  match pc with
  | RdPop _ _ (PopRead O _ it | PopClear _ it | PopSub it) | RdDeliver _ it => [it]
  | _ => []
  end.

Section once.
  Context {H S : Type} `{!PendingQueue H, !SwitchStrategy S}.
  Context (range : gmap Z nat → list (Z * nat)).
  Context (P : BufferItem → Prop) `{∀ x, Decision (P x)} (HP : ¬ P zeroItem).
  Context (C : slice → Prop) `{∀ q, Decision (C q)}.
  Context (HC : ∀ (o : oracle) (p : slice) (d d' : DoubleBuffer H S) (it : BufferItem),
    classify o p d = Ok (d', it) → P it → C p).
  Context (R : DataChunk free_action → Prop) `{∀ c, Decision (R c)}.
  Context (HR : ∀ (it : BufferItem) (c : DataChunk free_action), made_of it c → R c → P it).

Local Abbreviation stocked := (stocked P).
Local Abbreviation balanced := (balanced P C R).

(** ** One access *)

(** Hiding a slot that holds [it]. *)
Lemma stocked_hide (b : nat) (pos : Z) (it : BufferItem) (s : SmartBuffer) (d : DoubleBuffer H S) :
  get_buf b d = Ok s → indexZ (SmartBuffer.buf s) pos = Ok it →
  (weight P [it] + stocked (Some (b, pos)) d = stocked None d)%nat.
Proof.
  unfold get_buf. destruct (bufs (objs d) !! b) as [s0|] eqn:Hb; [intros [= ->]|done]. intros Hi.
  unfold DoubleBufferOnce.stocked. rewrite !(items_split P _ _ b s Hb). cbn [visible].
  rewrite decide_True by done.
  assert (items (Some (b, pos)) (delete b (bufs (objs d))) = items None (delete b (bufs (objs d)))) as ->.
  { unfold items. f_equal. apply list_fmap_ext. intros j [b' s'] Hj%list_elem_of_lookup_2.
    apply elem_of_map_to_list in Hj. cbn. rewrite decide_False; [done|].
    intros ->. by rewrite lookup_delete_eq in Hj. }
  unfold indexZ, index in Hi. case_decide; [|done].
  destruct (SmartBuffer.buf s !! Z.to_nat pos) as [x|] eqn:Ex; [injection Hi as ->|done].
  pose proof (weight_insert P _ _ _ zeroItem Ex). rewrite (weight_none P zeroItem HP) in *. lia.
Qed.

(** Clearing the slot that was hidden. *)
Lemma stocked_clear (b : nat) (pos : Z) (l : list BufferItem) (s : SmartBuffer) (d : DoubleBuffer H S) :
  get_buf b d = Ok s → set_indexZ (SmartBuffer.buf s) pos zeroItem = Ok l →
  stocked None (DoubleBuffer.set_buf b (SmartBufferConc.set_buf l s) d) = stocked (Some (b, pos)) d.
Proof.
  intros Hs. unfold set_indexZ. case_decide; [|done]. unfold set_index. case_decide as Hlt; [|done].
  intros [= <-]. destruct (lookup_lt_is_Some_2 _ _ Hlt) as [x Ex].
  assert (indexZ (SmartBuffer.buf s) pos = Ok x) as Hi
    by (unfold indexZ, index; rewrite decide_True by done; by rewrite Ex).
  pose proof (stocked_hide b pos x s d Hs Hi).
  pose proof (set_buf_stocked P None b s (SmartBufferConc.set_buf (<[Z.to_nat pos := zeroItem]> (SmartBuffer.buf s)) s) d Hs) as E.
  cbn [visible SmartBufferConc.set_buf SmartBuffer.buf] in E.
  pose proof (weight_insert P _ _ _ zeroItem Ex). rewrite (weight_none P zeroItem HP) in *. lia.
Qed.

(** An access of a reader: what it goes on with, or returns, and what is
    left in the rings were held or in the rings before. *)
Definition keeps (pc : reader_pc) (d d' : DoubleBuffer H S)
    (next : reader_pc + (DataChunk free_action + error)) : Prop :=
  match next with
  | inl pc' =>
      (weight P (holds pc') + stocked (hidden pc') d' ≤ weight P (holds pc) + stocked (hidden pc) d)%nat
  | inr r =>
      (weight R (option_list (chunk_of r)) + stocked None d' ≤
        weight P (holds pc) + stocked (hidden pc) d)%nat
  end.

(** An access that does not touch the rings. *)
Lemma keeps_same (pc pc' : reader_pc) (d d' : DoubleBuffer H S) :
  bufs (objs d') = bufs (objs d) → hidden pc' = None → holds pc' = [] → hidden pc = None →
  keeps pc d d' (inl pc').
Proof.
  intros Eb Eh Ep Eh'. unfold keeps. rewrite Eh, Ep, Eh', weight_nil, (stocked_same P None _ _ Eb). lia.
Qed.

Lemma next_turn_holds (n : nat) : hidden (next_turn n) = None ∧ holds (next_turn n) = [].
Proof. by destruct n. Qed.

(** What [Pop] holds after an access goes on with the reader. *)
Definition popping (m : Z) (b : nat) (next : pop_pc + option BufferItem) : reader_pc :=
  match next with inl pc => RdPop m b pc | inr x => RdDeliver m (default zeroItem x) end.

Lemma pop_step_keeps (m : Z) (b : nat) (pc : pop_pc) (d : DoubleBuffer H S) (s s' : SmartBuffer)
    (next : pop_pc + option BufferItem) :
  get_buf b d = Ok s → pop_step pc s = Ok (s', next) →
  keeps (RdPop m b pc) d (DoubleBuffer.set_buf b s' d) (inl (popping m b next)).
Proof.
  intros Hs. assert (∀ hid s', SmartBuffer.buf s' = SmartBuffer.buf s →
    stocked hid (DoubleBuffer.set_buf b s' d) = stocked hid d) as Hsame
    by (intros hid s2; by apply set_buf_stocked_same).
  unfold keeps. destruct pc as [| |t|n pos it|pos it|it]; cbn [pop_step].
  - case_decide; intros [= <- <-]; cbn [popping holds hidden]; rewrite Hsame, ?weight_nil by done; [|lia].
    change (default zeroItem None) with zeroItem. rewrite (weight_none P _ HP). lia.
  - intros [= <- <-]. cbn. rewrite Hsame by done. lia.
  - case_decide; intros [= <- <-]; cbn; rewrite Hsame by done; lia.
  - destruct n as [|n]; [intros [= <- <-]; cbn; rewrite Hsame by done; lia|].
    intros (x & Hi & E)%rbind_ok. pose proof (stocked_hide b pos x s d Hs Hi) as Hh.
    case_decide; injection E as <- <-; [cbn [popping holds hidden]; rewrite Hsame, weight_nil by done; lia|].
    destruct n as [|n]; cbn [popping holds hidden]; rewrite Hsame, !weight_nil by done; lia.
  - intros (l & El & [= <- <-])%rbind_ok. cbn [popping holds hidden].
    rewrite (stocked_clear b pos l s d Hs El). lia.
  - intros [= <- <-]. cbn. rewrite Hsame by done. lia.
Qed.

Lemma deliver_keeps (m : Z) (it : BufferItem) (d d' : DoubleBuffer H S) (x : option (DataChunk free_action)) :
  chunk_made it d d' x → keeps (RdDeliver m it) d d' (inr (read_result (d', x)).2).
Proof.
  intros [Eb Hm]. unfold keeps. cbn [read_result snd holds hidden]. rewrite (stocked_same P None _ _ Eb).
  destruct x as [c|]; cbn [chunk_of option_list option_rect]; [|rewrite weight_nil; lia].
  pose proof (weight_made P R HR it c (Hm c eq_refl)). lia.
Qed.

Lemma reader_step_keeps (o : oracle) (pc : reader_pc) (d d' : DoubleBuffer H S)
    (next : reader_pc + (DataChunk free_action + error)) :
  reader_step o pc d = Ok (d', next) → keeps pc d d' next.
Proof.
  assert (∀ err : error, hidden pc = None →
    keeps pc d d (inr (inr err))) as Herr.
  { intros err Eh. unfold keeps. rewrite Eh. cbn. lia. }
  destruct pc as [| |b| | |b pc|b|b|n|n s b|b| |n s b| | |m|m b pc|m it]; cbn [reader_step].
  - intros [= <- <-]. by destruct (currentBuffer d); apply keeps_same.
  - intros (b & _ & [= <- <-])%rbind_ok. by apply keeps_same.
  - intros (s & _ & [= <- <-])%rbind_ok. by case_decide; apply keeps_same.
  - intros [= <- <-]. by destruct (currentBuffer d); apply keeps_same; try apply next_turn_holds.
  - intros (b & _ & [= <- <-])%rbind_ok. by apply keeps_same.
  - intros (s & Hs & E)%rbind_ok. destruct (reset_step pc s) as [s' nx] eqn:Er. injection E as <- <-.
    assert (SmartBuffer.buf s' = SmartBuffer.buf s) as Eb by (by destruct pc; injection Er as <- <-).
    pose proof (set_buf_stocked_same P None b s s' d Hs Eb). unfold keeps. destruct nx; cbn; lia.
  - intros [= <- <-]. by apply keeps_same.
  - intros [= <- <-]. apply keeps_same; try done; apply next_turn_holds.
  - intros ([h x] & _ & E)%rbind_ok. destruct x as [[s b]|]; injection E as <- <-; [by apply keeps_same|].
    unfold keeps. cbn. by rewrite (stocked_same P None d).
  - intros [= <- <-]. by case_decide; apply keeps_same.
  - intros [= <- <-]. by apply keeps_same.
  - intros [= <- <-]. by apply keeps_same.
  - intros (h & _ & [= <- <-])%rbind_ok. apply keeps_same; try done; apply next_turn_holds.
  - intros [= <- <-]. destruct (currentBuffer d); [by apply keeps_same|by apply Herr].
  - destruct (readMode d) as [m|]; [|done]. intros [= <- <-].
    case_decide; [by apply keeps_same|by apply Herr].
  - intros (b & _ & [= <- <-])%rbind_ok. by apply keeps_same.
  - intros (s & Hs & ([s' nx] & Ep & [= <- <-])%rbind_ok)%rbind_ok. by eapply pop_step_keeps.
  - intros ([d1 x] & E & E2)%rbind_ok. injection E2 as <- <-. apply (deliver_keeps m).
    case_decide; [by eapply safe_chunk_made|by eapply zero_copy_chunk_made].
Qed.

(** ** Runs *)

(** The balance counts what the reader inside [tryRead] holds. *)
Definition read_balanced (n : nat) (o : option reader_pc) (t : trace H S) : Prop :=
  balanced (from_option hidden None o) (from_option holds [] o) n (sys t).

Lemma balanced_access (pc pc' : reader_pc) (n : nat) (t : trace H S) (d : DoubleBuffer H S) :
  balanced (hidden pc) (holds pc) n (sys t) → keeps pc (db (sys t)) d (inl pc') →
  balanced (hidden pc') (holds pc') n (sys (with_db d t)).
Proof.
  unfold keeps. intros [Hs Hc] Hk. constructor; unfold got in *; cbn [with_db set_db sys reads writers db]; lia.
Qed.

(** The events of the others. *)
Definition others (evs : list reading_event) : list trace_event :=
  omap (λ ev, match ev with VTrace ev => Some ev | _ => None end) evs.

Lemma reading_step_balanced (ev : reading_event) (n : nat) (v v' : reading H S) :
  in_turn (read_balanced n) v → apart ev v → reading_step range ev v = Ok v' →
  in_turn (read_balanced (n + weight C (called (others [ev])))) v'.
Proof.
  intros Hv Ha E. destruct ev as [ev|i|o i].
  - change (others [VTrace ev]) with [ev]. eapply (in_turn_other range _ _ ev); [exact Hv|done| |exact E].
    intros r t Hr _ Hb Et. eapply (trace_step_balanced range P HP C HC R HR); [|exact Hb|exact Et].
    by intros ->%Hr.
  - cbn [others omap list_omap called]. rewrite weight_nil, Nat.add_0_r.
    by eapply (in_turn_call range _ i).
  - cbn [others omap list_omap called]. rewrite weight_nil, Nat.add_0_r.
    eapply (in_turn_access range _ o i); [exact Hv| |exact E]. intros pc d next Hb Es%reader_step_keeps.
    destruct next as [pc'|r]; [by eapply (balanced_access pc)|].
    apply (balanced_returns P C R (hidden pc) (holds pc) [] n (sys (tr v)) d r Hb).
    unfold keeps in Es. rewrite weight_nil. lia.
Qed.

Lemma reading_run_balanced (evs : list reading_event) (n : nat) (v v' : reading H S) :
  in_turn (read_balanced n) v → during range apart evs v → reading_run range evs v = Ok v' →
  in_turn (read_balanced (n + weight C (called (others evs)))) v'.
Proof.
  revert n v. induction evs as [|ev evs IH]; intros n v Hb; cbn [during reading_run].
  { intros _ [= <-]. cbn [others omap list_omap called]. by rewrite weight_nil, Nat.add_0_r. }
  intros [Ha Has] (v1 & E1 & E)%rbind_ok. rewrite E1 in Has.
  apply (IH _ _ (reading_step_balanced _ _ _ _ Hb Ha E1) Has) in E.
  replace (called (others (ev :: evs))) with (called (others [ev]) ++ called (others evs)).
  - by rewrite weight_app, Nat.add_assoc.
  - unfold called. rewrite <- omap_app. f_equal. unfold others. by rewrite <- omap_app.
Qed.

(** From a new double buffer on, some reader's hold accounts for the rest. *)
Lemma reading_balanced (n : Z) (cond : SwitchCondition) (opts : list Z) (s : S) (now mode : Z)
    (m : memory) (d : DoubleBuffer H S) (k r : nat) (evs : list reading_event) (v : reading H S) :
  NewDoubleBuffer n cond opts s now m = Ok (inl d) → during range apart evs (reading_start mode k r d) →
  reading_run range evs (reading_start mode k r d) = Ok v →
  ∃ (hid : option (nat * Z)) (held : list BufferItem),
    balanced hid held (weight C (called (others evs))) (sys (tr v)).
Proof.
  intros Hd Ha E.
  assert (in_turn (read_balanced 0) (reading_start mode k r d)) as Hb.
  { left. split; [by apply Forall_replicate|]. by eapply (start_balanced P HP C R). }
  destruct (reading_run_balanced _ _ _ _ Hb Ha E) as [[_ Hv]|(i & pc & _ & _ & Hv)]; by eexists _, _.
Qed.
End once.

(** C4. No write is delivered twice and no refused write is delivered as long
    as reads take turns.  Any number of writers inside [Write] and of readers
    inside [tryRead], the monitor, the goroutines of the switches, the pools
    and the users, one access at a time and in any order in which no call of
    [tryRead] begins during another: the chunks delivered are never more than
    the calls that returned nil or have stored their item and are about to;
    and the chunks that hold the object of [sz] bytes at [p], where [sz] is
    1024 or more, are never more than the calls of [Write] with a slice of
    that length there. *)
Theorem reads_in_turn_deliver_at_most_once {H S : Type} `{!PendingQueue H, !SwitchStrategy S}
    (range : gmap Z nat → list (Z * nat)) (k r : nat) (n : Z) (cond : SwitchCondition)
    (opts : list Z) (s : S) (now mode : Z) (m : memory) (d : DoubleBuffer H S)
    (evs : list reading_event) (v : reading H S)
    (Hd : NewDoubleBuffer n cond opts s now m = Ok (inl d))
    (Hapart : during range apart evs (reading_start mode k r d))
    (Hv : reading_run range evs (reading_start mode k r d) = Ok v) :
  (length (got (sys (tr v))) ≤
    accepted (writers (sys (tr v))) + sum_over (λ w, past_store (wpc w)) (writers (sys (tr v))))%nat ∧
  ∀ p sz : Z, SmallDataThreshold ≤ sz →
    (length (filter (gives_back p sz) (got (sys (tr v)))) ≤
      length (filter (passes p sz) (called (others evs))))%nat.
Proof.
  split.
  - edestruct (reading_balanced range (λ it, it ≠ zeroItem) (λ Hne, Hne eq_refl) (λ _, True)
      (λ _ _ _ _ _ _ _, I) (λ _, True) (λ _ _ Hm _, proj1 Hm)) as (hid & held & Hb); [exact Hd|exact Hapart|exact Hv|].
    by eapply balanced_all.
  - intros p sz Hsz. edestruct (reading_balanced range _ (large_not_zero p sz Hsz) (passes p sz)
      (λ o q d1 d2 it, classified_large p sz o q d1 d2 it Hsz) (gives_back p sz) (given_back p sz))
      as (hid & held & Hb); [exact Hd|exact Hapart|exact Hv|]. by eapply balanced_one.
Qed.

(** The run of [readers_evs]: three calls return nil, and two reads, a user's
    store between the accesses of the first, deliver two of the items. *)
Lemma reads_in_turn_deliver_at_most_once_witness :
  (length (got (sys (tr readers_end))) = 2%nat ∧ accepted (writers (sys (tr readers_end))) = 3%nat ∧
   length (filter (gives_back 50 1100) (got (sys (tr readers_end)))) = 1%nat) ∧
  (length (got (sys (tr readers_end))) ≤
    accepted (writers (sys (tr readers_end))) +
      sum_over (λ w, past_store (wpc w)) (writers (sys (tr readers_end))))%nat ∧
  ∀ p sz : Z, SmallDataThreshold ≤ sz →
    (length (filter (gives_back p sz) (got (sys (tr readers_end)))) ≤
      length (filter (passes p sz) (called (others readers_evs))))%nat.
Proof.
  split; [vm_compute; by split_and!|].
  eapply (reads_in_turn_deliver_at_most_once map_to_list 3 2 1 _ _ _ _ SafeRead crowd_mem crowd readers_evs).
  - apply crowd_ok.
  - vm_compute. repeat split; try discriminate; repeat constructor.
  - exact readers_run.
Defined.
