(* ===== verification/DoubleBufferReadersFrame.v ===== *)
(** * What the reader alone touches

    A [frame] replaces what only the reader writes: the current ring and its
    number, the ring it drains, and an item of the heap it holds, which then
    counts as one a goroutine is about to push.  Whatever the others do in the
    framed double buffer is what they do in the double buffer, framed. *)
From S2P Require Import Prelude.
From S2P Require Import Consts.
From S2P Require Import Interfaces.
From S2P Require Import Runtime.
From S2P Require Import SmartBuffer.
From S2P Require Import SmartBufferConc.
From S2P Require Import SwitchStrategy.
From S2P Require Import SwitchConfig.
From S2P Require Import Waiters.
From S2P Require Import LifeCycle.
From S2P Require Import DataChunk.
From S2P Require Import DoubleBuffer.
From S2P Require Import DoubleBufferFlow.
From S2P Require Import DoubleBufferConc.
From S2P Require Import DoubleBufferView.
From S2P Require Import DoubleBufferTurns.
Open Scope Z_scope.
Open Scope go_scope.

Record frame := mkFrame {
  f_current : option nat;
  f_sequence : Z;
  f_front : list goroutine;
  f_ring : option (nat * SmartBuffer)
}.

Definition f_bufs (F : frame) (bm : gmap nat SmartBuffer) : gmap nat SmartBuffer :=
  match f_ring F with Some (b, s) => <[b := s]> bm | None => bm end.

(** Ring [b] is not the one the frame replaces. *)
Definition spares (F : frame) (b : nat) : Prop :=
  ∀ (b' : nat) (s : SmartBuffer), f_ring F = Some (b', s) → b' ≠ b.

Lemma f_bufs_lookup (F : frame) (b : nat) (bm : gmap nat SmartBuffer) :
  spares F b → f_bufs F bm !! b = bm !! b.
Proof.
  unfold f_bufs, spares. destruct (f_ring F) as [[b' s]|]; [|done]. intros Hb.
  by rewrite lookup_insert_ne by (by eapply Hb).
Qed.

Lemma f_bufs_insert (F : frame) (b : nat) (s : SmartBuffer) (bm : gmap nat SmartBuffer) :
  spares F b → <[b := s]> (f_bufs F bm) = f_bufs F (<[b := s]> bm).
Proof.
  unfold f_bufs, spares. destruct (f_ring F) as [[b' s']|]; [|done]. intros Hb.
  by rewrite insert_insert_ne by (intros ->; by eapply Hb).
Qed.

Section framed.
  Context {H S : Type} `{!PendingQueue H, !SwitchStrategy S}.
  Context (range : gmap Z nat → list (Z * nat)) (F : frame).

Definition framed (d : DoubleBuffer H S) : DoubleBuffer H S :=
  mkDB (active d) (passive d) (f_current F) (stop_closed d) (size d) (count d) (state d)
    (lastSwitch d) (pool d) (sequence d) (f_sequence F) (pendingHeap d) (enableMetrics d) (scd d)
    (sc d) (sw d) (readMode d) (wm d) (pm d)
    (mkObjects (mem (objs d)) (f_bufs F (bufs (objs d))) (next (objs d)))
    (f_front F ++ goroutines d) (swapper d) (recycler d).

Definition sframed (x : system H S) : system H S := set_db (framed (db x)) x.
Definition tframed (t : trace H S) : trace H S := with_db (framed (db (sys t))) t.

(** ** Calls *)

Lemma get_buf_framed (b : nat) (d : DoubleBuffer H S) :
  spares F b → get_buf b (framed d) = get_buf b d.
Proof. intros Hb. unfold get_buf. cbn. by rewrite f_bufs_lookup. Qed.

Lemma set_buf_framed (b : nat) (s : SmartBuffer) (d : DoubleBuffer H S) :
  spares F b → DoubleBuffer.set_buf b s (framed d) = framed (DoubleBuffer.set_buf b s d).
Proof. intros Hb. unfold DoubleBuffer.set_buf, framed. cbn. by rewrite f_bufs_insert. Qed.

Lemma ring_step_framed (item : BufferItem) (b : nat) (pc : push_pc) (d : DoubleBuffer H S) :
  spares F b → ring_step item b pc (framed d) = vmap framed (ring_step item b pc d).
Proof.
  intros Hb. unfold ring_step. rewrite get_buf_framed by done.
  apply same_bind. intros s _. apply same_bind. intros [s' next] _. by rewrite set_buf_framed.
Qed.

Lemma small_copy_framed (o : oracle) (n : Z) (src : slice) (d : DoubleBuffer H S) :
  small_copy o n src (framed d) = vmap framed (small_copy o n src d).
Proof.
  unfold small_copy. cbn [pm objs mem framed].
  apply same_bind. intros [[l m] buf] _. apply same_bind. intros [m' buf'] _.
  apply same_bind. intros buf2 _. by apply same_bind.
Qed.

Lemma classify_framed (o : oracle) (p : slice) (d : DoubleBuffer H S) :
  classify o p (framed d) = vmap framed (classify o p d).
Proof.
  unfold classify. case_decide; [|by case_decide].
  apply vmap_bind; [apply small_copy_framed|]. intros d1 buf _. by apply same_bind.
Qed.

Lemma pool_Get_framed (choice : option nat) (d : DoubleBuffer H S) :
  spares F (next (objs d)) → pool_Get choice (framed d) = vmap framed (pool_Get choice d).
Proof.
  intros Hb. unfold pool_Get. change (pool (framed d)) with (pool d).
  destruct (pool_take choice (pool d)) as [[b rest]|]; [done|]. unfold new_buf.
  apply same_bind. intros s _. unfold vmap, framed. cbn. by rewrite f_bufs_insert.
Qed.

Lemma switch_step_framed (o : oracle) (a : agent) (pc : switch_pc) (lock : option agent)
    (d : DoubleBuffer H S) :
  spares F (active d) → spares F (next (objs d)) →
  switch_step o a pc lock (framed d) =
    rmap (λ x, (framed x.1.1, x.1.2, x.2)) (switch_step o a pc lock d).
Proof.
  intros Ha Hn. destruct pc; cbn [switch_step]; try done.
  - change (state (framed d)) with (state d). by case_decide.
  - by destruct lock.
  - change (active (framed d)) with (active d). rewrite get_buf_framed by done.
    destruct (get_buf (active d) d); cbn [rbind rmap]; [|done..]. cbn [fst snd]. by rewrite set_buf_framed.
  - rewrite pool_Get_framed by done. by destruct (pool_Get _ d) as [[d' b]| |].
  - cbn. do 3 f_equal. unfold framed. cbn. by rewrite app_assoc.
Qed.

Lemma run_goroutine_framed (i : nat) (d : DoubleBuffer H S) :
  (∀ b : nat, goroutines d !! i = Some (GLen b) → get_buf b (framed d) = get_buf b d) →
  run_goroutine range (length (f_front F) + i) (framed d) = rmap framed (run_goroutine range i d).
Proof.
  intros Hl. unfold run_goroutine. cbn [goroutines framed].
  rewrite lookup_app_r by lia. replace (length (f_front F) + i - length (f_front F))%nat with i by lia.
  destruct (goroutines d !! i) as [[b|s b|b|n]|] eqn:E; [| | | |done].
  - cbn. by rewrite insert_app_r.
  - cbn. destruct (pq_push (s, b) (pendingHeap d)); cbn; [|done..].
    by rewrite insert_app_r.
  - rewrite Hl by done. destruct (get_buf b d); cbn; [|done..]. by rewrite insert_app_r.
  - cbn. destruct (Waiters.notify range n (wm d)); cbn; [|done..].
    assert (delete (length (f_front F) + i)%nat (f_front F ++ goroutines d) =
      f_front F ++ delete i (goroutines d)) as ->; [|done].
    rewrite !delete_take_drop, <- Nat.add_succ_r, take_app_add, drop_app_add. by rewrite <- app_assoc.
Qed.

(** ** Steps of the others *)

Lemma goto_framed (i : nat) (pc : writer_pc) (d : DoubleBuffer H S) (x : system H S) :
  goto i pc (framed d) (sframed x) = sframed (goto i pc d x).
Proof. done. Qed.

(** The rings a writer will access. *)
Definition spares_writer (pc : writer_pc) : Prop := ∀ b : nat, refers pc = Some b → spares F b.

Lemma writer_step_framed (o : oracle) (i : nat) (pc : writer_pc) (x : system H S) :
  spares F (active (db x)) → spares F (next (objs (db x))) → spares_writer pc →
  writer_step o i pc (sframed x) = rmap sframed (writer_step o i pc x).
Proof.
  intros Ha Hn Hw.
  assert (∀ item b ppc (k k' : DoubleBuffer H S * (push_pc + option error) → result (system H S)),
    refers pc = Some b → (∀ d nx, k' (framed d, nx) = rmap sframed (k (d, nx))) →
    (let* y := ring_step item b ppc (framed (db x)) in k' y) =
    rmap sframed (let* y := ring_step item b ppc (db x) in k y)) as Hring.
  { intros item b ppc k k' Hb Hk. rewrite ring_step_framed by (by apply Hw).
    destruct (ring_step item b ppc (db x)) as [[d nx]| |]; cbn [vmap rmap rbind fst snd]; [apply Hk|done..]. }
  destruct pc as [|p|p|it|it|it b|it b ppc| |it|it|it b|it spc|it|it b|it b ppc| |err];
    cbn [writer_step]; change (db (sframed x)) with (framed (db x)); try done.
  - change (state (framed (db x))) with (state (db x)). by case_decide.
  - rewrite classify_framed. by destruct (classify o p (db x)) as [[d it]| |].
  - change (state (framed (db x))) with (state (db x)). by case_decide.
  - rewrite get_buf_framed by (by apply Hw). destruct (get_buf b (db x)); cbn [rbind]; [by case_decide|done..].
  - apply Hring; [done|]. by intros d [|[]].
  - change (writeLock (sframed x)) with (writeLock x). by destruct (writeLock x).
  - rewrite get_buf_framed by (by apply Hw). destruct (get_buf b (db x)); cbn [rbind]; [by case_decide|done..].
  - change (switchLock (sframed x)) with (switchLock x). rewrite switch_step_framed by done.
    by destruct (switch_step o (AWriter i) spc (switchLock x) (db x)) as [[[d l] nx]| |].
  - rewrite get_buf_framed by (by apply Hw). destruct (get_buf b (db x)); cbn [rbind]; [by case_decide|done..].
  - apply Hring; [done|]. by intros d [|[]].
Qed.

Lemma monitor_step_framed (o : oracle) (x : system H S) :
  spares F (active (db x)) → spares F (next (objs (db x))) →
  monitor_step o (sframed x) = rmap sframed (monitor_step o x).
Proof.
  intros Ha Hn. unfold monitor_step. change (monitor (sframed x)) with (monitor x).
  change (db (sframed x)) with (framed (db x)). change (switchLock (sframed x)) with (switchLock x).
  destruct (monitor x) as [|pc].
  - change (swapper (framed (db x))) with (swapper (db x)). destruct (swapper (db x)); [|done].
    unfold needSwitch. change (sc (framed (db x))) with (sc (db x)). change (scd (framed (db x))) with (scd (db x)).
    by destruct (poll _ _) as [cond conf].
  - rewrite switch_step_framed by done.
    by destruct (switch_step o AMonitor pc (switchLock x) (db x)) as [[[d l] nx]| |].
Qed.

Lemma run_free_framed (f : free_action) (d : DoubleBuffer H S) : run_free f (framed d) = framed (run_free f d).
Proof. destruct f as [s|p n|p n]; [done| |done]. cbn. unfold recycle. by repeat case_decide. Qed.

(** An event, seen in the frame: the goroutines of the frame come first. *)
Definition shifted (ev : trace_event) : trace_event :=
  match ev with TRun (EvGo i) => TRun (EvGo (length (f_front F) + i)) | _ => ev end.

(** The others do not access the reader's ring. *)
Definition spares_others (ev : trace_event) (t : trace H S) : Prop :=
  let d := db (sys t) in
  reads_now ev = false ∧ spares F (active d) ∧ spares F (next (objs d)) ∧
  match ev with
  | TRun (EvWriter _ i) => spares_writer (writer_at i (sys t))
  | TRun (EvGo i) => ∀ b : nat, goroutines d !! i = Some (GLen b) → get_buf b (framed d) = get_buf b d
  | _ => True
  end.

Lemma record_framed (ev : event) (x : system H S) (t : trace H S) :
  record ev (sframed x) (tframed t) = tframed (record ev x t).
Proof. done. Qed.

Lemma trace_step_framed (ev : trace_event) (t : trace H S) :
  spares_others ev t → trace_step range (shifted ev) (tframed t) = rmap tframed (trace_step range ev t).
Proof.
  intros (Hr & Ha & Hn & Hev).
  assert (∀ ev0 ev : event, (∀ x, record ev0 x t = record ev x t) →
    step range ev0 (sframed (sys t)) = rmap sframed (step range ev (sys t)) →
    trace_step range (TRun ev0) (tframed t) = rmap tframed (trace_step range (TRun ev) t)) as Hrun.
  { intros ev0 ev1 Hrec E. cbn [trace_step]. change (sys (tframed t)) with (sframed (sys t)). rewrite E.
    destruct (step range ev1 (sys t)) as [x| |]; cbn [rmap rbind]; [|done..].
    by rewrite record_framed, Hrec. }
  destruct ev as [[i p|o i|o|i|o sl|f]|k|clock mo bo|k|p l]; try done; cbn [shifted].
  - apply Hrun; try done. cbn [step]. change (writers (sframed (sys t))) with (writers (sys t)).
    destruct (writers (sys t) !! i) as [w|]; [|done]. by destruct (wpc w).
  - apply Hrun; try done. cbn [step]. change (writers (sframed (sys t))) with (writers (sys t)).
    unfold writer_at in Hev. destruct (writers (sys t) !! i) as [w|]; [|done]. by apply writer_step_framed.
  - apply Hrun; try done. cbn [step]. by apply monitor_step_framed.
  - apply Hrun; try done. cbn [step]. change (db (sframed (sys t))) with (framed (db (sys t))).
    rewrite run_goroutine_framed by done. by destruct (run_goroutine range i (db (sys t))).
  - apply Hrun; try done. cbn [step]. change (db (sframed (sys t))) with (framed (db (sys t))).
    by rewrite run_free_framed.
  - cbn [trace_step]. change (chunks (tframed t)) with (chunks t). destruct (chunks t !! k) as [c|]; [|done].
    unfold Release, tframed. cbn [rmap]. destruct (free c) as [f|]; [|done]. cbn [snd sys db with_db set_db].
    by rewrite run_free_framed.
  - cbn. unfold asyncRecycleWorker_tick, tframed. cbn. by destruct (recycler _).
Qed.
End framed.

(** ** What the others leave alone *)

Section leave.
  Context {H S : Type} `{!PendingQueue H, !SwitchStrategy S}.
  Context (range : gmap Z nat → list (Z * nat)).

(** The frame that replaces nothing, and says so of ring [ring]. *)
Definition own_frame (ring : option (nat * SmartBuffer)) (d : DoubleBuffer H S) : frame :=
  mkFrame (currentBuffer d) (currentSequence d) [] ring.

Definition holds_ring (ring : option (nat * SmartBuffer)) (d : DoubleBuffer H S) : Prop :=
  ∀ (b : nat) (s : SmartBuffer), ring = Some (b, s) → bufs (objs d) !! b = Some s.

Lemma own_framed (ring : option (nat * SmartBuffer)) (d : DoubleBuffer H S) :
  holds_ring ring d → framed (own_frame ring d) d = d.
Proof.
  intros Hr. destruct d as [a p c st sz co sta ls pl sq cs ph em sc1 sc2 sw rm wm pm [m bm nx] gs swp rec].
  unfold framed, own_frame, f_bufs. cbn. destruct ring as [[b s]|]; [|done]. by rewrite insert_id by (by apply Hr).
Qed.

(** The others leave the current ring, its number and the reader's ring. *)
Lemma others_leave (ring : option (nat * SmartBuffer)) (ev : trace_event) (t t' : trace H S) :
  let d := db (sys t) in let d' := db (sys t') in
  holds_ring ring d → reads_now ev = false →
  (∀ (b : nat) (s : SmartBuffer), ring = Some (b, s) → b ≠ active d ∧ b ≠ next (objs d) ∧
    match ev with TRun (EvWriter _ i) => refers (writer_at i (sys t)) ≠ Some b | _ => True end) →
  trace_step range ev t = Ok t' →
  currentBuffer d' = currentBuffer d ∧ currentSequence d' = currentSequence d ∧ holds_ring ring d'.
Proof.
  intros d d' Hr Hev Hb E. set (F := own_frame ring d).
  assert (tframed F t = t) as Et.
  { unfold tframed. change (db (sys t)) with d. unfold F. rewrite own_framed by done. by destruct t as [[]]. }
  assert (trace_step range (shifted F ev) (tframed F t) = Ok (tframed F t')) as E2.
  { rewrite trace_step_framed; [by rewrite E|]. split; [done|]. split; [|split].
    - intros b s Hbs. by apply (Hb b s).
    - intros b s Hbs. by apply (Hb b s).
    - destruct ev as [[i p|o i|o|i|o sl|f]|k|clock mo bo|k|p l]; try done.
      + intros b Href b' s Hbs ->. by eapply Hb.
      + intros b _. change (get_buf b (framed F d) = get_buf b d). unfold F. by rewrite own_framed. }
  rewrite Et in E2. assert (shifted F ev = ev) as Es by (by destruct ev as [[]| | | |]).
  rewrite Es, E in E2. assert (d' = framed F d') as Ed by (injection E2; by intros E3; unfold d' at 1; rewrite E3).
  split; [by rewrite Ed|]. split; [by rewrite Ed|]. intros b s Hbs. rewrite Ed. cbn. unfold f_bufs. cbn.
  rewrite Hbs. by rewrite lookup_insert_eq.
Qed.
End leave.
