(* ===== verification/DoubleBufferReadersParts.v ===== *)
(** * The parts of a read

    The invariant of [DoubleBufferTurns] when a read is taken in parts: the
    used-up ring is dropped, a pair is picked and pushed back or taken, the
    current ring is read. *)
From S2P Require Import Prelude.
From S2P Require Import Consts.
From S2P Require Import Interfaces.
From S2P Require Import Runtime.
From S2P Require Import SmartBuffer.
From S2P Require Import SmartBufferConc.
From S2P Require Import SwitchStrategy.
From S2P Require Import SwitchConfig.
From S2P Require Import Waiters.
From S2P Require Import LifeCycle.
From S2P Require Import DataChunk.
From S2P Require Import DoubleBuffer.
From S2P Require Import DoubleBufferFlow.
From S2P Require Import DoubleBufferDelivery.
From S2P Require Import DoubleBufferConc.
From S2P Require Import DoubleBufferSafety.
From S2P Require Import DoubleBufferView.
From S2P Require Import DoubleBufferTurns.
From S2P Require Import DoubleBufferReaders.
Open Scope Z_scope.
Open Scope go_scope.

Section parts.
  Context {H S : Type} `{!PendingQueue H, !PendingQueueLaws H, !SwitchStrategy S}.
  Context (range : gmap Z nat → list (Z * nat)) `{!RangeOrder range} (stop : bool).

Local Abbreviation serial := (serial stop).

(** The buffers, the goroutines or the heap change, the queue does not. *)
Lemma serial_moves (n : Z) (t : trace H S) (d : DoubleBuffer H S) :
  let d0 := db (sys t) in
  serial n t → rearranged d0 d → untouched d0 d → readMode d = readMode d0 → pm d = pm d0 →
  mem (objs d) = mem (objs d0) →
  (∀ (s0 : SmartBuffer) (pc : option switch_pc) (bs : list nat) (f : nat → list BufferItem),
    flow (view s0 pc d0) bs f → issued (view s0 pc d0) ≤ n →
    ∃ bs' : list nat, flow (view s0 pc d) bs' f ∧
      queued (view s0 pc d) bs' f = queued (view s0 pc d0) bs f ∧
      issued (view s0 pc d) = issued (view s0 pc d0)) →
  serial n (with_db d t).
Proof.
  intros d0 (sw & i & w & s0 & s & bs & f & bss & Hs) Hre [Ea Eb] Erm Epm Em Hfl.
  pose proof Hs as [Hex Ht Hring Hpush Hf Hmode Hi Hk Hch Hw Hret].
  destruct (Hfl _ _ _ _ Hf Hi) as (bs' & Hf' & Hq & Hi').
  apply (serial_env stop n t sw i w s0 s bs bs' f f bss bss d _ _ _ Hs); try done.
  - by rewrite Ea, Eb.
  - by rewrite Erm.
  - by rewrite Hi'.
  - by rewrite Em, Epm, Hq.
Qed.

(** A read that fails and changes nothing. *)
Lemma serial_fails (n : Z) (err : error) (t : trace H S) :
  serial n t → serial n (read_returns (db (sys t)) (inr err) t).
Proof.
  intros (sw & i & w & s0 & s & bs & f & bss & Hs). pose proof Hs as [Hex Ht Hring Hpush Hf Hmode Hi Hk Hch Hw Hret].
  apply (serial_returned stop n (mkOracle None None 0 0 0) [] t sw i w s0 s bs bs f f bss (db (sys t)) (inr err) Hs); try done.
Qed.

(** Goroutines that are not to number a ring, and the heap. *)
Lemma serial_goroutines (n : Z) (t : trace H S) (gs : list goroutine) (h : H) :
  let d := db (sys t) in
  serial n t → unnumbered gs = unnumbered (goroutines d) → (pq_wf (pendingHeap d) → pq_wf h) →
  (pq_wf (pendingHeap d) →
    pq_contents h ++ pushes gs ≡ₚ pq_contents (pendingHeap d) ++ pushes (goroutines d)) →
  (∀ b : nat, GLen b ∈ gs → GLen b ∈ goroutines d) →
  serial n (with_db (set_goroutines gs (set_pendingHeap h d)) t).
Proof.
  intros d Hs Hun Hwf Hc Hl. apply serial_moves; try done.
  - constructor; try done. intros Hh. specialize (Hc Hh). apply (fmap_Permutation snd) in Hc.
    rewrite !fmap_app in Hc. unfold reader_rings. cbn -[unnumbered pushes]. rewrite Hun.
    rewrite (Permutation_app_comm (unnumbered _)), !(app_assoc (pq_contents _).*2), Hc. solve_Permutation.
  - intros s0 pc bs f [Hst Hp] _. exists bs. pose proof (fl_heap Hp) as Hh.
    assert (unnumbered (view_goroutines pc (set_goroutines gs (set_pendingHeap h d))) =
      unnumbered (view_goroutines pc d)) as Hun2
      by (unfold view_goroutines; rewrite !unnumbered_app; cbn -[unnumbered]; by rewrite Hun).
    split; [split; [done|]|unfold queued, issued; cbn -[unnumbered view_goroutines]; by rewrite Hun2].
    eapply parts_goroutines; [exact Hp|exact Hun2|by apply Hwf| | |apply (fl_wm Hp)].
    + cbn. unfold view_goroutines. rewrite !pushes_app, !app_assoc. cbn. by rewrite (Hc Hh).
    + intros b. cbn. unfold view_goroutines. rewrite !elem_of_app. intros [Hb|Hb]; left; [left; by apply Hl|by right].
Qed.

(** [Pick]: the pair is on its way back to the heap. *)
Lemma serial_pick (n : Z) (t : trace H S) (h : H) (s : Z) (b : nat) :
  let d := db (sys t) in
  serial n t → pq_pick (pendingHeap d) = Ok (h, Some (s, b)) →
  serial n (with_db (set_goroutines (GPush s b :: goroutines d) (set_pendingHeap h d)) t).
Proof.
  intros d Hs E.
  assert (pq_wf (pendingHeap d) → pq_wf h ∧ pq_contents (pendingHeap d) ≡ₚ (s, b) :: pq_contents h) as Hp.
  { intros Hwf. destruct (decide (pq_contents (pendingHeap d) = [])) as [Hc|Hc].
    - by rewrite pq_pick_none in E.
    - destruct (pq_pick_some _ Hwf Hc) as (h' & x & E' & Hwf' & Hc' & _). rewrite E in E'. by injection E' as <- <-. }
  apply serial_goroutines; [done..| | |].
  - change (db (sys t)) with d. intros Hwf. by apply Hp.
  - change (db (sys t)) with d. intros Hwf. destruct (Hp Hwf) as [_ ->]. cbn -[pushes]. change (pushes (GPush s b :: ?gs)) with ((s, b) :: pushes gs).
    by rewrite <- Permutation_middle.
  - intros c [?|Hc]%elem_of_cons; [done|exact Hc].
Qed.

(** The push back. *)
Lemma serial_push_back (n : Z) (t : trace H S) (h : H) (s : Z) (b : nat) (gs : list goroutine) :
  let d := db (sys t) in
  serial n t → goroutines d = GPush s b :: gs → pq_push (s, b) (pendingHeap d) = Ok h →
  serial n (with_db (set_goroutines gs (set_pendingHeap h d)) t).
Proof.
  intros d Hs Eg E.
  assert (pq_wf (pendingHeap d) → pq_wf h ∧ pq_contents h ≡ₚ (s, b) :: pq_contents (pendingHeap d)) as Hp.
  { intros Hwf. destruct (pq_push_ok _ (s, b) Hwf) as (h' & E' & ? & ?). rewrite E in E'. by injection E' as <-. }
  apply serial_goroutines; change (db (sys t)) with d; [done|by rewrite Eg| | |].
  - change (db (sys t)) with d. intros Hwf. by apply Hp.
  - change (db (sys t)) with d. intros Hwf. destruct (Hp Hwf) as [_ ->]. rewrite Eg. change (pushes (GPush s b :: gs)) with ((s, b) :: pushes gs).
    cbn [app]. by rewrite <- Permutation_middle.
  - intros c Hc. rewrite Eg. by right.
Qed.

(** Another number for the waiters. *)
Lemma serial_notify (n : Z) (t : trace H S) (i : nat) (m m' : Z) :
  let d := db (sys t) in
  serial n t → goroutines d !! i = Some (GNotify m) →
  serial n (with_db (set_goroutines (<[i := GNotify m']> (goroutines d)) d) t).
Proof.
  intros d Hs Hi.
  assert (∀ (A : Type) (g : goroutine → option A), g (GNotify m) = None → g (GNotify m') = None →
    omap g (<[i := GNotify m']> (goroutines d)) = omap g (goroutines d)) as Hom.
  { intros A g E1 E2. rewrite insert_take_drop by (by eapply lookup_lt_Some).
    rewrite <- (take_drop_middle _ _ _ Hi) at 3. rewrite !omap_app. cbn. by rewrite E1, E2. }
  assert (set_goroutines (<[i := GNotify m']> (goroutines d)) d =
    set_goroutines (<[i := GNotify m']> (goroutines d)) (set_pendingHeap (pendingHeap d) d)) as -> by (by destruct d).
  apply serial_goroutines; [done|by apply Hom|done| |].
  - intros _. unfold pushes. by rewrite Hom.
  - intros b [j Hj]%list_elem_of_lookup. apply list_lookup_insert_Some in Hj as [(_ & ? & _)|[_ Hj]]; [done|].
    by eapply list_elem_of_lookup_2.
Qed.

(** The ring that is next becomes the current one. *)
Lemma serial_take (n : Z) (t : trace H S) (b : nat) (gs : list goroutine) :
  let d := db (sys t) in
  serial n t → n < 2 ^ 63 - 1 → currentBuffer d = None → goroutines d = GPush (currentSequence d) b :: gs →
  serial n (with_db (set_goroutines gs (set_currentBuffer (Some b)
    (set_currentSequence (int64 (currentSequence d + 1)) d))) t).
Proof.
  intros d Hs Hn Ec Eg. apply serial_moves; try done.
  - constructor; try done. intros _. change (db (sys t)) with d. unfold reader_rings. cbn -[unnumbered pushes].
    rewrite Ec, Eg. cbn -[unnumbered pushes]. change (unnumbered (GPush _ _ :: gs)) with (unnumbered gs).
    change (pushes (GPush ?s b :: gs)) with ((s, b) :: pushes gs). cbn. solve_Permutation.
  - change (db (sys t)) with d. intros s0 pc bs f [Hst Hp] Hi. cbn in Hp. rewrite Ec in Hp.
    assert (view_goroutines pc d = GPush (currentSequence d) b ::
      view_goroutines pc (set_goroutines gs d)) as Evg by (unfold view_goroutines; by rewrite Eg).
    rewrite Evg in Hp. set (gs' := view_goroutines pc (set_goroutines gs d)) in *.
    pose proof (fl_heap Hp) as Hwf0.
    destruct (pq_push_ok (pendingHeap d) (currentSequence d, b) (fl_heap Hp)) as (h & _ & Hwf & Hc).
    eapply (parts_goroutines _ _ _ _ _ _ _ _ h _ gs') in Hp; [|done|exact Hwf| |intros c Hc'; left; by right|apply (fl_wm Hp)].
    2: { rewrite Hc. change (pushes (GPush ?s b :: gs')) with ((s, b) :: pushes gs'). cbn [app].
         by rewrite <- Permutation_middle. }
    destruct (parts_pick _ _ _ _ _ b _ _ (pendingHeap d) _ _ _ _ _ _ Hp) as (bs' & -> & Hp'); [exact Hwf0|exact Hc|].
    pose proof (fl_seq Hp') as Hsq. pose proof (fl_cs Hp') as Hcs.
    assert (int64 (currentSequence d + 1) = currentSequence d + 1) as ->.
    { apply signed_id; [lia|]. unfold issued in Hi. cbn -[unnumbered view_goroutines] in Hi. unfold in_signed. lia. }
    assert (unnumbered (view_goroutines pc d) = unnumbered gs') as Hun by (by rewrite Evg).
    exists bs'. split; [by split|]. unfold queued, issued. cbn -[unnumbered view_goroutines].
    change (view_goroutines pc (set_goroutines gs _)) with gs'. rewrite Ec, Hun. split; [|done].
    cbn. by rewrite app_nil_r, <- app_assoc.
Qed.

(** The used-up ring is reset and pooled. *)
Lemma serial_discard (n : Z) (t : trace H S) (b : nat) (s : SmartBuffer) :
  let d := db (sys t) in
  serial n t → currentBuffer d = Some b → bufs (objs d) !! b = Some s → SmartBuffer.count s = 0 →
  serial n (with_db (pool_Put b (set_currentBuffer None (set_buf b (Reset s) d))) t).
Proof.
  intros d Hs Ec Es Hc.
  pose proof Hs as (sw & i & w & s0 & s1 & bs & f & bss & Hat).
  assert (b ≠ active d) as Hba.
  { pose proof (ow_nodup _ _ (ex_rings _ _ _ _ (se_exclusive _ _ _ _ _ _ _ _ _ _ _ Hat) eq_refl)) as Hnd.
    fold d in Hnd. cbn in Hnd. apply NoDup_cons in Hnd as [Hnd _]. rewrite elem_of_app in Hnd.
    intros ->. apply Hnd. right. unfold reader_rings. rewrite Ec. by left. }
  clear sw i w s0 s1 bs f bss Hat.
  assert (discard_current d = Ok (pool_Put b (set_currentBuffer None (set_buf b (Reset s) d)))) as E.
  { unfold discard_current, get_buf. by rewrite Ec, Es. }
  apply serial_moves; try done.
  - by apply discard_current_rearranged in E as [? _].
  - split; [done|]. cbn. by apply lookup_insert_ne.
  - change (db (sys t)) with d. intros s0 pc bs f [Hst Hp] Hi. cbn in Hp. rewrite Ec in Hp.
    assert (f b = []) as Hfb.
    { destruct (fl_stored Hp b) as (s' & T & E' & Hr & _); [unfold owned; right; right; by left|].
      rewrite lookup_insert_ne, Es in E' by done. injection E' as <-.
      pose proof (repr_count _ _ _ Hr) as Hcnt. apply nil_length_inv. lia. }
    exists bs. split; [split; [done|]|].
    + cbn. unfold view_pool. cbn. rewrite insert_insert_ne by done.
      apply (parts_discard _ _ _ _ _ b _ _ _ _ _ _ _ _ s Hp); [|done]. by rewrite lookup_insert_ne.
    + unfold queued, issued. cbn -[unnumbered view_goroutines]. rewrite Ec. cbn -[unnumbered view_goroutines].
      by rewrite Hfb.
Qed.

(** The reader is at none of the writers' rings. *)
Lemma serial_apart (n : Z) (t : trace H S) : serial n t → active (db (sys t)) ∉ reader_rings (db (sys t)).
Proof.
  intros (sw & i & w & s0 & s & bs & f & bss & Hs).
  pose proof (ow_nodup _ _ (ex_rings _ _ _ _ (se_exclusive _ _ _ _ _ _ _ _ _ _ _ Hs) eq_refl)) as Hnd.
  cbn in Hnd. apply NoDup_cons in Hnd as [Hnd _]. rewrite elem_of_app in Hnd. tauto.
Qed.

(** A read of the current ring. *)
Lemma serial_read_current (n : Z) (o : oracle) (t : trace H S) :
  let d := db (sys t) in
  serial n t → currentBuffer d ≠ None →
  ∃ (d' : DoubleBuffer H S) (r : DataChunk free_action + error),
    read_current o d = Ok (d', r) ∧ serial n (read_returns d' r t).
Proof.
  intros d Hser Hc. pose proof (apart_reader_rings _ (serial_apart n t Hser)) as Ha.
  destruct Hser as (sw & i & w & s0 & s & bs & f & bss & Hs).
  pose proof Hs as [Hex Ht Hring Hpush Hf Hmode Hi Hk Hch Hw Hret].
  pose proof (read_current_view s0 (snd <$> sw) o d Ha) as Ev.
  destruct (safe_read_more o (view s0 (snd <$> sw) d) bs f bss (held (chunks t)) (option_list (in_flight (wpc w)))
    (if in_flight (wpc w) then [copied t] else [])) as (v & f' & Hf' & Hi' & Hm' & _ & _ & _ & Hr); try done.
  { by destruct (in_flight (wpc w)). }
  assert (∃ d' r, read_current o d = Ok (d', r) ∧ read_current o (view s0 (snd <$> sw) d) = Ok (v, r)
    ∧ v = view s0 (snd <$> sw) d') as (d' & r & E & Er & ->).
  { destruct (read_current o d) as [[d' r]| |]; destruct Hr as [(E & _)|(c & x & bss' & E & _)];
      rewrite E in Ev; try done;
      injection Ev as E1 E2; exists d', r; by rewrite E, E1, E2. }
  exists d', r. split; [done|].
  apply (serial_returned stop n (mkOracle None None 0 0 0) [] t sw i w s0 s bs bs f f' bss d' r Hs); try done.
  - by eapply read_current_rearranged.
  - by eapply read_current_untouched.
  - change (readMode (view s0 (snd <$> sw) d') = Some SafeRead). by rewrite Hm'.
  - rewrite Er in Hr. destruct Hr as [([= ->] & Hq & _ & Hk')|(c & x & bss' & [= ->] & Hfree & -> & Hx & Hk')];
      [exact Hk'|]. split; [done|]. exists x, bss'. split; [done|]. split; [done|].
    eapply kept_perm; [|exact Hk']. unfold held. rewrite fmap_app. cbn. solve_Permutation.
Qed.
End parts.
