(* ===== verification/DoubleBufferReadersTurns.v ===== *)
(** * Delivery in order, reads access by access

    The runs of [DoubleBufferReaders] in which the writers take turns and the
    readers take turns: between any two accesses of the writer and of the
    reader whose turn it is, the others do theirs.  What is delivered is a
    prefix of what took effect, as in [DoubleBufferTurns].  The state between
    two accesses of a reader is seen through a frame in which the access
    has not begun. *)
From S2P Require Import Prelude.
From S2P Require Import Consts.
From S2P Require Import Interfaces.
From S2P Require Import Runtime.
From S2P Require Import SmartBuffer.
From S2P Require Import SmartBufferConc.
From S2P Require Import SwitchStrategy.
From S2P Require Import SwitchConfig.
From S2P Require Import Waiters.
From S2P Require Import LifeCycle.
From S2P Require Import DataChunk.
From S2P Require Import WrapHeap.
From S2P Require Import DoubleBuffer.
From S2P Require Import DoubleBufferFlow.
From S2P Require Import DoubleBufferDelivery.
From S2P Require Import DoubleBufferConc.
From S2P Require Import DoubleBufferSafety.
From S2P Require Import DoubleBufferView.
From S2P Require Import DoubleBufferTurns.
From S2P Require Import DoubleBufferMemory.
From S2P Require Import DoubleBufferReaders.
From S2P Require Import DoubleBufferReadersSafety.
From S2P Require Import DoubleBufferReadersOnce.
From S2P Require Import DoubleBufferReadersFrame.
From S2P Require Import DoubleBufferReadersParts.
Open Scope Z_scope.
Open Scope go_scope.

(** ** The frame of a reader *)

(** The current ring before the access that changes it counts. *)
Definition shown {H S : Type} (pc : reader_pc) (d : DoubleBuffer H S) : option nat :=
  match pc with RdPut b => Some b | RdNext => None | _ => currentBuffer d end.

(** The pair the reader has picked. *)
Definition hand {H S : Type} (pc : reader_pc) (d : DoubleBuffer H S) : list goroutine :=
  match pc with
  | RdCompare _ s b | RdPush _ s b => [GPush s b]
  | RdTake b => [GPush (currentSequence d) b]
  | RdNext => match currentBuffer d with Some b => [GPush (currentSequence d) b] | None => [] end
  | _ => []
  end.

(** The ring it resets, or pops from. *)
Definition drains {H S : Type} (pc : reader_pc) (d : DoubleBuffer H S) : option nat :=
  match pc with
  | RdReset b _ | RdClear b | RdPut b | RdPop _ b _ => Some b
  | RdDeliver _ _ => currentBuffer d
  | _ => None
  end.

(** [s1] is that ring before the call touched it. *)
Definition reader_frame {H S : Type} (s1 : SmartBuffer) (pc : reader_pc) (d : DoubleBuffer H S) : frame :=
  mkFrame (shown pc d) (currentSequence d) (hand pc d) ((λ b, (b, s1)) <$> drains pc d).

(** [s] is [s1] in the middle of [Reset]. *)
Definition half_reset (pc : reset_pc) (s1 s : SmartBuffer) : Prop :=
  match pc with
  | ResetState => s = s1
  | ResetCount => s = SetState WriteOnly s1
  | ResetHead => s = (reset_step ResetCount (SetState WriteOnly s1)).1
  | ResetTail => s = set_head (-1) (reset_step ResetCount (SetState WriteOnly s1)).1
  end.

(** [s] is [s1] in the middle of [Pop]: what is left of the call makes it
    [Pop], and what is no longer in the slots the reader holds. *)
Definition half_popped (pc : pop_pc) (s1 s : SmartBuffer) : Prop :=
  (∃ n : nat, pop_alone n pc s = Pop s1) ∧
  match pc with
  | PopRead O pos it | PopClear pos it => buf s = buf s1 ∧ indexZ (buf s) pos = Ok it
  | PopSub it => ∀ x : BufferItem, x ∈ buf s1 → x ∈ buf s ∨ x = it
  | _ => buf s = buf s1
  end.

(** The current ring [b] is [s]. *)
Definition at_ring {H S : Type} (b : nat) (s : SmartBuffer) (d : DoubleBuffer H S) : Prop :=
  currentBuffer d = Some b ∧ bufs (objs d) !! b = Some s.

(** What the reader has found, which only it can change. *)
Definition reader_at {H S : Type} (s1 : SmartBuffer) (pc : reader_pc) (d : DoubleBuffer H S) : Prop :=
  match pc with
  | RdNil | RdFound => True
  | RdLoad | RdMode => currentBuffer d ≠ None
  | RdCurrent m => currentBuffer d ≠ None ∧ m = SafeRead
  | RdLen b => currentBuffer d = Some b
  | RdHas => ∀ b : nat, currentBuffer d = Some b → ∃ s : SmartBuffer, at_ring b s d ∧ SmartBuffer.count s = 0
  | RdUseless => ∃ (b : nat) (s : SmartBuffer), at_ring b s d ∧ SmartBuffer.count s = 0
  | RdReset b pc => SmartBuffer.count s1 = 0 ∧ ∃ s : SmartBuffer, at_ring b s d ∧ half_reset pc s1 s
  | RdClear b => SmartBuffer.count s1 = 0 ∧ at_ring b (Reset s1) d
  | RdPut b => SmartBuffer.count s1 = 0 ∧ currentBuffer d = None ∧ bufs (objs d) !! b = Some (Reset s1)
  | RdPick _ | RdCompare _ _ _ | RdTake _ | RdPush _ _ _ => currentBuffer d = None
  | RdNext => currentBuffer d ≠ None
  | RdPop m b pc => m = SafeRead ∧ ∃ s : SmartBuffer, at_ring b s d ∧ half_popped pc s1 s
  | RdDeliver m it => m = SafeRead ∧ ∃ (b : nat) (s : SmartBuffer), at_ring b s d ∧
      Pop s1 = Ok (s, (Ptr it, Size it)) ∧ ∀ x : BufferItem, x ∈ buf s1 → x ∈ buf s ∨ x = it
  end.

(** The ring [reader_at] speaks of. *)
Definition watched {H S : Type} (pc : reader_pc) (d : DoubleBuffer H S) : option nat :=
  match pc with RdPut b => Some b | _ => currentBuffer d end.

Lemma reader_at_same {H S : Type} (s1 : SmartBuffer) (pc : reader_pc) (d d' : DoubleBuffer H S) :
  currentBuffer d' = currentBuffer d →
  (∀ (b : nat) (s : SmartBuffer), watched pc d = Some b → bufs (objs d) !! b = Some s →
    bufs (objs d') !! b = Some s) →
  reader_at s1 pc d → reader_at s1 pc d'.
Proof.
  intros Ec Hw.
  assert (∀ b s, watched pc d = currentBuffer d → at_ring b s d → at_ring b s d') as Hat.
  { intros b s Ew [E1 E2]. split; [by rewrite Ec|]. apply Hw; [by rewrite Ew|done]. }
  destruct pc; cbn [reader_at watched] in *; rewrite ?Ec; try done.
  - intros Hb b' Eb'. destruct (Hb b' Eb') as (s & Hs & Hs0). exists s. by split; [apply Hat|].
  - intros (b & s & Hs & Hs0). exists b, s. by split; [apply Hat|].
  - intros (Hc & s & Hs & Hh). split; [done|]. exists s. by split; [apply Hat|].
  - intros (Hc & Hs). split; [done|]. by apply Hat.
  - intros (Hc & Hn & Hs). split; [done|]. split; [done|]. by apply Hw.
  - intros (Hm & s & Hs & Hp). split; [done|]. exists s. by split; [apply Hat|].
  - intros (Hm & b & s & Hs & Hp). split; [done|]. exists b, s. by split; [apply Hat|].
Qed.

Section turns.
  Context {H S : Type} `{!PendingQueue H, !PendingQueueLaws H, !SwitchStrategy S}.
  Context (range : gmap Z nat → list (Z * nat)) `{!RangeOrder range} (stop : bool).

Local Abbreviation serial := (serial stop).

(** ** The others, in the frame of the reader *)

Lemma half_pushed_refers (pc : writer_pc) (a b : nat) (s0 s : SmartBuffer) :
  half_pushed pc a s0 s → refers pc = Some b → b = a.
Proof. destruct pc; cbn; try done; by intros [-> _] [= ->]. Qed.

(** The reader's ring is none of the writers' and not a new one. *)
Lemma serial_watched (n : Z) (s1 : SmartBuffer) (pc : reader_pc) (t : trace H S) (b : nat) :
  let d := db (sys t) in
  serial n (tframed (reader_frame s1 pc d) t) → watched pc d = Some b →
  b ≠ active d ∧ b ≠ next (objs d) ∧ ∀ i : nat, refers (writer_at i (sys t)) ≠ Some b.
Proof.
  intros d (sw & i & w & s0 & s & bs & f & bss & Hs) Hb.
  pose proof (ex_rings _ _ _ _ (se_exclusive _ _ _ _ _ _ _ _ _ _ _ Hs) eq_refl) as Ho.
  assert (b ∈ reader_rings (framed (reader_frame s1 pc d) d)) as Hin.
  { unfold reader_rings. cbn. rewrite !elem_of_app. destruct pc; cbn [watched shown] in *;
      rewrite ?Hb; try (left; by left). right; right; right; right. cbn. rewrite Hb. by left. }
  pose proof (ow_nodup _ _ Ho) as Hnd. cbn in Hnd. apply NoDup_cons in Hnd as [Hnd _].
  rewrite elem_of_app in Hnd.
  assert (b ≠ active d) as Ha by (intros ->; apply Hnd; by right).
  split; [exact Ha|]. split.
  - assert (b < next (objs d))%nat; [|lia]. apply (ow_next _ _ Ho), (ow_exist _ _ Ho).
    apply elem_of_app. by right.
  - intros j Hj. apply Ha. destruct (decide (j = i)) as [->|Hne].
    + destruct (se_turn _ _ _ _ _ _ _ _ _ _ _ Hs) as [Hi _]. unfold writer_at in Hj.
      change (writers (sys (tframed _ t))) with (writers (sys t)) in Hi. rewrite Hi in Hj. cbn in Hj.
      eapply (half_pushed_refers (wpc w) _ b); [apply (se_push _ _ _ _ _ _ _ _ _ _ _ Hs)|done].
    + unfold writer_at in Hj. destruct (writers (sys t) !! j) as [w'|] eqn:E; [|done]. cbn in Hj.
      by rewrite (proj2 (se_turn _ _ _ _ _ _ _ _ _ _ _ Hs) j w' E Hne) in Hj.
Qed.

(** What the others do leaves the frame of the reader as it is. *)
Lemma other_leaves (n : Z) (s1 : SmartBuffer) (pc : reader_pc) (ev : trace_event) (t t' : trace H S) :
  let d := db (sys t) in let d' := db (sys t') in
  serial n (tframed (reader_frame s1 pc d) t) → reads_now ev = false →
  trace_step range ev t = Ok t' → reader_at s1 pc d →
  reader_frame s1 pc d' = reader_frame s1 pc d ∧ reader_at s1 pc d'.
Proof.
  intros d d' Hs Hev E Hat.
  assert (∀ ring, holds_ring ring d → (∀ b s, ring = Some (b, s) → watched pc d = Some b) →
    currentBuffer d' = currentBuffer d ∧ currentSequence d' = currentSequence d ∧ holds_ring ring d') as Hl.
  { intros ring Hr Hw. apply (others_leave range ring ev t t'); [done|done| |done].
    intros b s Hbs. apply Hw in Hbs. destruct (serial_watched n s1 pc t b Hs Hbs) as (? & ? & Href).
    split; [done|]. split; [done|]. by destruct ev as [[]| | | |]. }
  destruct (Hl None) as (Ec & Eq & _); [done|done|]. split.
  - unfold reader_frame, shown, hand, drains. rewrite Ec, Eq. by destruct pc.
  - eapply reader_at_same; [exact Ec| |exact Hat]. intros b s Hb Hbs.
    destruct (Hl (Some (b, s))) as (_ & _ & Hr); [by intros ? ? [= <- <-]|by intros ? ? [= <- _]|by apply Hr].
Qed.

(** The frame's ring is in the store. *)
Lemma drains_exist (s1 : SmartBuffer) (pc : reader_pc) (d : DoubleBuffer H S) (b : nat) :
  reader_at s1 pc d → drains pc d = Some b → is_Some (bufs (objs d) !! b).
Proof. unfold at_ring. destruct pc; cbn; unfold at_ring; naive_solver. Qed.

Lemma reader_at_ring (s1 s : SmartBuffer) (pc : reader_pc) (d : DoubleBuffer H S) (b : nat) :
  reader_at s1 pc d → get_buf b (framed (reader_frame s1 pc d) d) = Ok s →
  ∃ s' : SmartBuffer, get_buf b d = Ok s'.
Proof.
  intros Hat. unfold get_buf. cbn. unfold f_bufs. cbn.
  destruct (drains pc d) as [b'|] eqn:E; cbn; [|by eauto].
  destruct (decide (b' = b)) as [->|Hne]; [|rewrite lookup_insert_ne by done; by eauto].
  destruct (drains_exist _ _ _ _ Hat E) as [s' ->]. by eauto.
Qed.

(** The goroutine that reads the length of a ring may read another one than
    it does in the frame. *)
Lemma other_len (n : Z) (s1 : SmartBuffer) (pc : reader_pc) (i b : nat) (t t0 : trace H S) :
  let d := db (sys t) in let F := reader_frame s1 pc d in
  reader_at s1 pc d → goroutines d !! i = Some (GLen b) →
  trace_step range (shifted F (TRun (EvGo i))) (tframed F t) = Ok t0 → serial n t0 →
  ∃ t' : trace H S, trace_step range (TRun (EvGo i)) t = Ok t' ∧ serial n (tframed F t').
Proof.
  intros d F Hat Hi E Hs. cbn [shifted trace_step step] in E.
  change (db (sys (tframed F t))) with (framed F d) in E.
  assert (goroutines (framed F d) !! (length (f_front F) + i)%nat = Some (GLen b)) as Hi'.
  { cbn [framed goroutines]. rewrite lookup_app_r by lia.
    by replace (length (f_front F) + i - length (f_front F))%nat with i by lia. }
  unfold run_goroutine in E. rewrite Hi' in E.
  destruct (get_buf b (framed F d)) as [s| |] eqn:Es; [|done..]. cbn [rbind] in E. injection E as <-.
  destruct (reader_at_ring _ _ _ _ _ Hat Es) as [s' Es'].
  assert (trace_step range (TRun (EvGo i)) t =
    Ok (with_db (set_goroutines (<[i := GNotify (SmartBuffer.Len s')]> (goroutines d)) d) t)) as E'.
  { cbn [trace_step step]. change (db (sys t)) with d. unfold run_goroutine. rewrite Hi, Es'. cbn [rbind].
    by rewrite record_quiet. }
  eexists. split; [exact E'|]. rewrite record_quiet in Hs by done.
  eapply (serial_notify stop _ _ (length (f_front F) + i) (SmartBuffer.Len s) (SmartBuffer.Len s')) in Hs.
  2: { cbn -[framed]. cbn [framed goroutines]. apply list_lookup_insert_eq.
       eapply lookup_lt_Some. exact Hi'. }
  refine (eq_ind _ (serial n) Hs _ _). cbn [sys with_db]. unfold tframed, with_db. cbn.
  by rewrite list_insert_insert_eq, insert_app_r.
Qed.

(** An item of the ring before the call is still in a slot, or the reader has it. *)
Lemma drains_covers (s1 : SmartBuffer) (pc : reader_pc) (d : DoubleBuffer H S) (b : nat) (x : BufferItem) :
  reader_at s1 pc d → drains pc d = Some b → x ∈ buf s1 →
  ∃ s : SmartBuffer, bufs (objs d) !! b = Some s ∧ (x ∈ buf s ∨ x ∈ holds pc).
Proof.
  intros Hat Hb Hx. destruct pc as [| |b'| | |b' pc|b'|b'|n|n s b'|b'| |n s b'| | |m|m b' pc|m it]; try done;
    cbn in Hb; try injection Hb as ->; cbn [reader_at] in Hat.
  - destruct Hat as (_ & s & [_ Hs] & Hh). exists s. split; [done|]. left. by destruct pc; cbn in Hh; subst.
  - destruct Hat as (_ & _ & Hs). exists (Reset s1). split; [done|]. by left.
  - destruct Hat as (_ & _ & Hs). exists (Reset s1). split; [done|]. by left.
  - destruct Hat as (_ & s & [_ Hs] & _ & Hp). exists s. split; [done|].
    destruct pc as [| | | [|n] pos it|pos it|it]; try (left; by rewrite Hp || by rewrite (proj1 Hp)).
    destruct (Hp x Hx) as [?| ->]; [by left|right; by left].
  - destruct Hat as (_ & b' & s & [Ec Hs] & _ & Hp). rewrite Ec in Hb. injection Hb as ->. exists s.
    split; [done|]. destruct (Hp x Hx) as [?| ->]; [by left|right; by left].
Qed.

Lemma slots_ring (d : DoubleBuffer H S) (x : BufferItem) :
  x ∈ slots d → ∃ (b : nat) (s : SmartBuffer), bufs (objs d) !! b = Some s ∧ x ∈ buf s.
Proof.
  intros (l & Hl & Hx)%list_elem_of_concat. apply list_elem_of_fmap in Hl as (s & -> & Hs).
  apply list_elem_of_fmap in Hs as ([b s'] & -> & Hs). apply elem_of_map_to_list in Hs. by exists b, s'.
Qed.

Lemma slots_framed (s1 : SmartBuffer) (pc : reader_pc) (d : DoubleBuffer H S) (x : BufferItem) :
  reader_at s1 pc d → x ∈ slots (framed (reader_frame s1 pc d) d) → x ∈ slots d ∨ x ∈ holds pc.
Proof.
  intros Hat (b & s & Hs & Hx)%slots_ring. cbn in Hs. unfold f_bufs in Hs. cbn in Hs.
  destruct (drains pc d) as [b'|] eqn:E; cbn in Hs; [|left; by eapply ring_slots].
  apply lookup_insert_Some in Hs as [[-> ->]|[_ Hs]]; [|left; by eapply ring_slots].
  destruct (drains_covers _ _ _ _ _ Hat E Hx) as (s' & Hs' & [?|?]); [|by right]. left. by eapply ring_slots.
Qed.

(** The stores of the users spare what the reader holds. *)
Definition spares_held (ev : trace_event) (its : list BufferItem) : Prop :=
  match ev with
  | TStore p l => Forall (λ x, disjoint_at (Ptr x) (Size x) p (Z.of_nat (length l))) its
  | _ => True
  end.

Lemma allowed_framed (s1 : SmartBuffer) (pc : reader_pc) (ev : trace_event) (t : trace H S) :
  let F := reader_frame s1 pc (db (sys t)) in
  reader_at s1 pc (db (sys t)) → reads_now ev = false → trace_allowed range ev t →
  spares_held ev (holds pc) → trace_allowed range (shifted F ev) (tframed F t).
Proof.
  intros F Hat Hev Hal Hsp.
  destruct ev as [[i p|o i|o|i|o sl|f]|k|clock mo bo|k|p l]; try done.
  - cbn [shifted trace_allowed] in *. change (db (sys (tframed F t))) with (framed F (db (sys t))).
    unfold in_order in *. cbn [framed goroutines].
    rewrite lookup_app_r by lia. replace (length (f_front F) + i - length (f_front F))%nat with i by lia.
    destruct (goroutines (db (sys t)) !! i) as [[]|]; try done. rewrite take_app_add, unnumbered_app, Hal.
    assert (unnumbered (f_front F) = []) as ->; [|done].
    unfold F, reader_frame, hand. cbn. destruct pc; try done. by destruct (currentBuffer _).
  - cbn [shifted trace_allowed spares_held] in *. destruct Hal as (H1 & H2 & H3 & H4). split_and!; try done.
    rewrite Forall_app in H3. destruct H3 as [H3 H5]. apply Forall_app. split; [|done].
    rewrite Forall_forall in H3, Hsp |- *. intros x [Hx|Hx]%slots_framed; [by apply H3|by apply Hsp|done].
Qed.

(** A step of another goroutine, or of a user, during a read. *)
Lemma serial_other (n : Z) (s1 : SmartBuffer) (pc : reader_pc) (ev : trace_event) (t : trace H S) :
  reader_at s1 pc (db (sys t)) → serial n (tframed (reader_frame s1 pc (db (sys t))) t) → n < 2 ^ 63 - 1 →
  reads_now ev = false → trace_allowed range ev t → spares_held ev (holds pc) →
  ∃ t' : trace H S, trace_step range ev t = Ok t' ∧ reader_at s1 pc (db (sys t')) ∧
    serial (n + 1) (tframed (reader_frame s1 pc (db (sys t'))) t').
Proof.
  intros Hat Hs Hn Hev Hal Hsp. set (F := reader_frame s1 pc (db (sys t))) in *.
  destruct (serial_step range stop n (shifted F ev) (tframed F t) Hs Hn) as (t0 & E0 & Hs0);
    [by apply allowed_framed|].
  assert (∃ t' : trace H S, trace_step range ev t = Ok t' ∧ serial (n + 1) (tframed F t')) as (t' & E & Hs').
  { assert ((∃ i b, ev = TRun (EvGo i) ∧ goroutines (db (sys t)) !! i = Some (GLen b)) ∨
      ∀ i b, ev = TRun (EvGo i) → goroutines (db (sys t)) !! i ≠ Some (GLen b)) as [(i & b & -> & Hi)|Hno];
      [|by eapply other_len|].
    { destruct ev as [[i p|o i|o|i|o sl|f]|k|clock mo bo|k|p l]; try by right.
      destruct (goroutines (db (sys t)) !! i) as [[b|s b|b|m]|] eqn:Hi;
        [| |left; by exists i, b|..]; right; intros ? ? [= <-]; by rewrite Hi. }
    rewrite (trace_step_framed range F ev t) in E0.
    - destruct (trace_step range ev t) as [t'| |]; try done. injection E0 as <-. by exists t'.
    - split; [done|].
      assert (∀ b s, f_ring F = Some (b, s) → watched pc (db (sys t)) = Some b) as Hw.
      { unfold F. cbn. intros b s. destruct pc; cbn in *; try done; try by intros [= <- _].
        - intros [= <- _]. by destruct Hat as (_ & s' & [? _] & _).
        - intros [= <- _]. by destruct Hat as (_ & ? & _).
        - intros [= <- _]. by destruct Hat as (_ & s' & [? _] & _).
        - destruct (currentBuffer _); [by intros [= <- _]|done]. }
      split; [|split].
      + intros b s Hb%Hw. by eapply serial_watched.
      + intros b s Hb%Hw. by eapply serial_watched.
      + destruct ev as [[i p|o i|o|i|o sl|f]|k|clock mo bo|k|p l]; try done.
        * intros b Hb b' s Hb'%Hw ->. by eapply serial_watched.
        * intros b Hb. by destruct (Hno i b). }
  destruct (other_leaves n s1 pc ev t t' Hs Hev E Hat) as [EF Hat'].
  exists t'. rewrite EF. by split_and!.
Qed.

(** ** The accesses of the reader *)

(** The reader goes on, or returns. *)
Definition read_on (n : Z) (t : trace H S) (d : DoubleBuffer H S)
    (next : reader_pc + (DataChunk free_action + error)) : Prop :=
  match next with
  | inl pc => ∃ s1 : SmartBuffer, reader_at s1 pc d ∧ serial n (with_db (framed (reader_frame s1 pc d) d) t)
  | inr r => serial n (read_returns d r t)
  end.

(** Where the frame replaces nothing. *)
Definition plain (pc : reader_pc) : bool :=
  match pc with
  | RdNil | RdLoad | RdLen _ | RdHas | RdUseless | RdPick _ | RdFound | RdMode | RdCurrent _ => true
  | _ => false
  end.

Lemma plain_framed (s1 : SmartBuffer) (pc : reader_pc) (d : DoubleBuffer H S) :
  plain pc = true → framed (reader_frame s1 pc d) d = d.
Proof.
  intros Hp. assert (reader_frame s1 pc d = own_frame None d) as -> by (by destruct pc).
  by apply own_framed.
Qed.

Lemma next_turn_plain (n : nat) : plain (next_turn n) = true.
Proof. by destruct n. Qed.

Lemma with_db_id (t : trace H S) : with_db (db (sys t)) t = t.
Proof. by destruct t as [[]]. Qed.

Lemma read_on_plain (n : Z) (t : trace H S) (pc : reader_pc) (d : DoubleBuffer H S) (s1 : SmartBuffer) :
  plain pc = true → reader_at s1 pc d → serial n (with_db d t) → read_on n t d (inl pc).
Proof. intros Hp Hat Hs. exists s1. split; [done|]. by rewrite plain_framed. Qed.

(** The frame's ring, whatever the store has. *)
Lemma framed_absorb (F : frame) (b : nat) (s1 s : SmartBuffer) (d : DoubleBuffer H S) :
  f_ring F = Some (b, s1) → framed F (DoubleBuffer.set_buf b s d) = framed F d.
Proof. intros E. unfold framed, f_bufs. rewrite E. cbn. by rewrite insert_insert_eq. Qed.

Lemma set_buf_id (b : nat) (s : SmartBuffer) (d : DoubleBuffer H S) :
  bufs (objs d) !! b = Some s → DoubleBuffer.set_buf b s d = d.
Proof.
  intros E. destruct d as [a p c st sz co sta ls pl sq cs ph em sc1 sc2 sw rm wm pm [m bm nx] gs swp rec].
  unfold DoubleBuffer.set_buf. cbn in *. by rewrite insert_id.
Qed.

(** The current ring exists and can be popped. *)
Lemma serial_current (n : Z) (t : trace H S) (b : nat) :
  serial n t → currentBuffer (db (sys t)) = Some b →
  ∃ (s s' : SmartBuffer) (x : Z * Z), bufs (objs (db (sys t))) !! b = Some s ∧ Pop s = Ok (s', x).
Proof.
  intros Hser Ec. pose proof (apart_reader_rings _ (serial_apart stop n t Hser)) as Ha.
  destruct Hser as (sw & i & w & s0 & s & bs & f & bss & Hs).
  set (d := db (sys t)) in *. pose proof (pop_current_view s0 (snd <$> sw) d Ha) as Ev.
  assert (∃ y, pop_current (view s0 (snd <$> sw) d) = Ok y) as [y Ey].
  { destruct (pop_current_ok _ bs f (se_flow _ _ _ _ _ _ _ _ _ _ _ Hs)) as (b' & s' & _ & [(_ & E & _)|(x & f' & E & _)]).
    - change (currentBuffer d ≠ None). by rewrite Ec.
    - by eexists.
    - by eexists. }
  rewrite Ev in Ey. unfold pop_current, get_buf in Ey. rewrite Ec in Ey.
  destruct (bufs (objs d) !! b) as [s'|]; [|done]. exists s'.
  cbn [rbind] in Ey. destruct (Pop s') as [[s2 x]| |]; cbn in Ey; [by exists s2, x|done..].
Qed.

Lemma serial_mode (n : Z) (t : trace H S) : serial n t → readMode (db (sys t)) = Some SafeRead.
Proof. by intros (sw & i & w & s0 & s & bs & f & bss & []). Qed.

Lemma serial_heap (n : Z) (t : trace H S) : serial n t → pq_wf (pendingHeap (db (sys t))).
Proof. intros (sw & i & w & s0 & s & bs & f & bss & []). by eapply ex_heap. Qed.

(** An access of [Pop]. *)
Lemma half_popped_step (pc : pop_pc) (s1 s s' : SmartBuffer) (next : pop_pc + option BufferItem) (y : SmartBuffer * (Z * Z)) :
  half_popped pc s1 s → Pop s1 = Ok y → pop_step pc s = Ok (s', next) →
  match next with
  | inl pc' => half_popped pc' s1 s'
  | inr x => let it := default zeroItem x in
      Pop s1 = Ok (s', (Ptr it, Size it)) ∧ ∀ x : BufferItem, x ∈ buf s1 → x ∈ buf s' ∨ x = it
  end.
Proof.
  intros [[n Hn] Hb] Hy E. destruct n as [|n]; cbn [pop_alone] in Hn; [by rewrite Hy in Hn|].
  rewrite E in Hn. cbn [rbind] in Hn.
  destruct pc as [| |u|[|k] pos it|pos it|it]; cbn [pop_step] in E.
  - case_decide; injection E as <- <-; [split; [by rewrite <- Hn|]; rewrite Hb; by left|].
    split; [by exists n|done].
  - injection E as <- <-. split; [by exists n|done].
  - case_decide; injection E as <- <-; (split; [by exists n|done]).
  - injection E as <- <-. split; [by exists n|done].
  - apply rbind_ok in E as (x & Ex & E). case_decide; injection E as <- <-; (split; [by exists n|]); [done|].
    by destruct k.
  - apply rbind_ok in E as (l & El & E). injection E as <- <-. split; [by exists n|].
    destruct Hb as [Hb Hi]. intros x Hx. cbn. revert El Hi. unfold set_indexZ, indexZ, set_index, index.
    case_decide; [|done]. case_decide as Hlt; [|done]. intros [= <-].
    destruct (buf s !! Z.to_nat pos) as [z|] eqn:Ez; [intros [= ->]|done].
    rewrite <- Hb in Hx. apply list_elem_of_lookup in Hx as [j Hj].
    destruct (decide (j = Z.to_nat pos)) as [->|Hne]; [right; congruence|left].
    apply list_elem_of_lookup. exists j. by rewrite list_lookup_insert_ne.
  - injection E as <- <-. split; [by rewrite <- Hn|exact Hb].
Qed.

(** What an access gives. *)
Definition reads_on (n : Z) (o : oracle) (pc : reader_pc) (t : trace H S) : Prop :=
  ∃ (d : DoubleBuffer H S) (next : reader_pc + (DataChunk free_action + error)),
    reader_step o pc (db (sys t)) = Ok (d, next) ∧ read_on n t d next.

(** The frame sees nothing. *)
Lemma reads_on_same (n : Z) (o : oracle) (s1 s1' : SmartBuffer) (pc pc' : reader_pc) (t : trace H S)
    (d : DoubleBuffer H S) :
  serial n (tframed (reader_frame s1 pc (db (sys t))) t) →
  reader_step o pc (db (sys t)) = Ok (d, inl pc') → reader_at s1' pc' d →
  framed (reader_frame s1' pc' d) d = framed (reader_frame s1 pc (db (sys t))) (db (sys t)) →
  reads_on n o pc t.
Proof.
  intros Hs E Hat EF. exists d, (inl pc'). split; [exact E|]. exists s1'. split; [exact Hat|]. rewrite EF. exact Hs.
Qed.

(** The reader looks at something. *)
Lemma reads_on_looks (n : Z) (o : oracle) (s1 : SmartBuffer) (pc pc' : reader_pc) (t : trace H S) :
  serial n t → plain pc = true → plain pc' = true →
  reader_step o pc (db (sys t)) = Ok (db (sys t), inl pc') → reader_at s1 pc' (db (sys t)) →
  reads_on n o pc t.
Proof.
  intros Hs Hp Hp' E Hat. eapply (reads_on_same n o s1 s1); [|exact E|exact Hat|].
  - unfold tframed. by rewrite plain_framed, with_db_id.
  - by rewrite !plain_framed.
Qed.

(** ... and fails. *)
Lemma reads_on_fails (n : Z) (o : oracle) (pc : reader_pc) (err : error) (t : trace H S) :
  serial n t → reader_step o pc (db (sys t)) = Ok (db (sys t), inr (inr err)) → reads_on n o pc t.
Proof. intros Hs E. eexists _, _. split; [exact E|]. by apply serial_fails. Qed.

(** The current ring is set. *)
Lemma plain_reads_on_some (n : Z) (o : oracle) (s1 : SmartBuffer) (pc : reader_pc) (b : nat) (t : trace H S) :
  let d := db (sys t) in
  serial n t → plain pc = true → reader_at s1 pc d → currentBuffer d = Some b → reads_on n o pc t.
Proof.
  intros d Hs Hp Hat Ec. pose proof (serial_mode n t Hs) as Hm. fold d in Hm.
  destruct (serial_current n t b Hs Ec) as (s & s' & x & Es & Ex). fold d in Es.
  assert (∀ pc', plain pc' = true → reader_step o pc d = Ok (d, inl pc') → reader_at s1 pc' d →
    reads_on n o pc t) as Hlook by (intros pc' ? ? ?; by eapply reads_on_looks).
  assert (∀ pc' s2, reader_step o pc d = Ok (d, inl pc') → reader_at s2 pc' d →
    reader_frame s2 pc' d = own_frame (Some (b, s2)) d → bufs (objs d) !! b = Some s2 → reads_on n o pc t) as Hring.
  { intros pc' s2 E Hat' EF E2. eapply (reads_on_same n o s1 s2 pc pc' t d); [|exact E|exact Hat'|].
    - unfold tframed. fold d. rewrite plain_framed by done. unfold d. by rewrite with_db_id.
    - fold d. rewrite (plain_framed s1 pc), EF by done. apply own_framed. by intros ? ? [= <- <-]. }
  destruct pc as [| |b'| | |b' pc|b'|b'|k|k q b'|b'| |k q b'| | |m|m b' pc|m it]; try done; cbn [reader_at] in Hat.
  - apply (Hlook RdLoad); [done| |cbn; congruence]. cbn. by rewrite Ec.
  - apply (Hlook (RdLen b)); [done| |done]. cbn. unfold current. by rewrite Ec.
  - rewrite Ec in Hat. injection Hat as <-.
    apply (Hlook (if decide (SmartBuffer.Len s = 0) then RdHas else RdMode)).
    + by case_decide.
    + cbn. unfold get_buf. by rewrite Es.
    + case_decide; cbn; [|congruence]. intros b' Eb'. exists s. split; [|done]. split; [done|congruence].
  - apply (Hlook RdUseless); [done| |]; [cbn; by rewrite Ec|]. destruct (Hat b Ec) as (s2 & ? & ?). by exists b, s2.
  - destruct Hat as (b' & s2 & [Eb' Es2] & Hc). rewrite Ec in Eb'. injection Eb' as <-.
    apply (Hring (RdReset b ResetState) s2); [|split; [done|]; exists s2; by split; [split|]|done|done].
    cbn. unfold current. by rewrite Ec.
  - congruence.
  - apply (Hlook RdMode); [done| |cbn; congruence]. cbn. by rewrite Ec.
  - apply (Hlook (RdCurrent SafeRead)); [done| |split; [congruence|done]]. cbn. by rewrite Hm.
  - destruct Hat as [_ ->]. apply (Hring (RdPop SafeRead b PopCount) s); [cbn; unfold current; by rewrite Ec| |done|done].
    split; [done|]. exists s. split; [by split|]. split; [|done]. exists call_fuel. apply pop_alone_Pop.
Qed.

(** ... or not. *)
Lemma plain_reads_on_none (n : Z) (o : oracle) (s1 : SmartBuffer) (pc : reader_pc) (t : trace H S) :
  let d := db (sys t) in
  serial n t → plain pc = true → reader_at s1 pc d → currentBuffer d = None → reads_on n o pc t.
Proof.
  intros d Hs Hp Hat Ec. pose proof (serial_heap n t Hs) as Hwf. fold d in Hwf.
  assert (∀ pc', plain pc' = true → reader_step o pc d = Ok (d, inl pc') → reader_at s1 pc' d →
    reads_on n o pc t) as Hlook by (intros pc' ? ? ?; by eapply reads_on_looks).
  destruct pc as [| |b'| | |b' pc|b'|b'|k|k q b'|b'| |k q b'| | |m|m b' pc|m it]; try done; cbn [reader_at] in Hat;
    try congruence; try (destruct Hat; congruence).
  - apply (Hlook RdHas); [done| |cbn; congruence]. cbn. by rewrite Ec.
  - apply (Hlook (RdPick 2)); [done| |done]. cbn. by rewrite Ec.
  - destruct Hat as (b' & s2 & [Eb' _] & _). congruence.
  - destruct (decide (pq_contents (pendingHeap d) = [])) as [He|He].
    { eapply (reads_on_fails _ _ _ ErrNoBuffer); [done|]. cbn. fold d. rewrite (pq_pick_none _ Hwf He). cbn. by destruct d. }
    destruct (pq_pick_some _ Hwf He) as (h & [q b] & E & _).
    exists (set_pendingHeap h d), (inl (RdCompare k q b)). split; [cbn; fold d; by rewrite E|].
    exists s1. split; [done|]. pose proof (serial_pick stop n t h q b Hs E) as Hs'. fold d in Hs'.
    replace (framed _ _) with (set_goroutines (GPush q b :: goroutines d) (set_pendingHeap h d)); [done|].
    by destruct d as [? ? ? ? ? ? ? ? ? ? ? ? ? ? ? ? ? ? ? [] ? ? ?].
  - eapply (reads_on_fails _ _ _ ErrNoBuffer); [done|]. cbn. fold d. by rewrite Ec.
Qed.

Lemma reset_reads_on (n : Z) (o : oracle) (s1 : SmartBuffer) (b : nat) (pc : reset_pc) (t : trace H S) :
  serial n (tframed (reader_frame s1 (RdReset b pc) (db (sys t))) t) →
  reader_at s1 (RdReset b pc) (db (sys t)) → reads_on n o (RdReset b pc) t.
Proof.
  intros Hs (Hc & s & [Ec Es] & Hh). set (d := db (sys t)) in *.
  destruct (reset_step pc s) as [s' next] eqn:Er.
  eapply (reads_on_same n o s1 s1 _ (match next with Some pc => RdReset b pc | None => RdClear b end) t
    (DoubleBuffer.set_buf b s' d)); [exact Hs| | |].
  - cbn. fold d. unfold get_buf. rewrite Es. cbn [rbind]. by rewrite Er.
  - assert (∀ s2, at_ring b s2 (DoubleBuffer.set_buf b s2 d)) as Hat
      by (intros s2; split; [done|cbn; apply lookup_insert_eq]).
    destruct pc; cbn in Hh, Er; subst s; injection Er as <- <-; cbn [reader_at]; (split; [done|]); try apply Hat;
      eexists; (split; [apply Hat|done]).
  - fold d. rewrite <- (framed_absorb (reader_frame s1 (RdReset b pc) d) b s1 s') by done. by destruct next.
Qed.

Lemma put_reads_on (n : Z) (o : oracle) (s1 : SmartBuffer) (b : nat) (t : trace H S) :
  serial n (tframed (reader_frame s1 (RdPut b) (db (sys t))) t) →
  reader_at s1 (RdPut b) (db (sys t)) → reads_on n o (RdPut b) t.
Proof.
  intros Hs (Hc & Ec & Es). set (d := db (sys t)) in *. set (F := reader_frame s1 (RdPut b) d) in *.
  exists (pool_Put b d), (inl (RdPick 2)). split; [done|]. apply (read_on_plain _ _ _ _ s1); [done|done|].
  apply (serial_discard stop n (tframed F t) b s1) in Hs; [|done|cbn; apply lookup_insert_eq|done].
  change (db (sys (tframed F t))) with (framed F d) in Hs.
  assert (DoubleBuffer.set_buf b (Reset s1) (framed F d) = framed (own_frame (Some (b, Reset s1)) (set_currentBuffer (Some b) d)) d) as E.
  { unfold DoubleBuffer.set_buf, framed, F. cbn. unfold f_bufs. cbn. by rewrite insert_insert_eq. }
  rewrite E in Hs.
  replace (pool_Put b d) with (pool_Put b (set_currentBuffer None
    (framed (own_frame (Some (b, Reset s1)) (set_currentBuffer (Some b) d)) d))); [exact Hs|].
  f_equal. transitivity (framed (own_frame (Some (b, Reset s1)) d) d).
  - unfold framed. cbn. by rewrite Ec.
  - apply own_framed. by intros ? ? [= <- <-].
Qed.

Lemma take_reads_on (n : Z) (o : oracle) (s1 : SmartBuffer) (t : trace H S) :
  serial n (tframed (reader_frame s1 RdNext (db (sys t))) t) → n < 2 ^ 63 - 1 →
  reader_at s1 RdNext (db (sys t)) → reads_on n o RdNext t.
Proof.
  intros Hs Hn Hat. set (d := db (sys t)) in *. cbn [reader_at] in Hat.
  destruct (currentBuffer d) as [b|] eqn:Ec; [|done]. set (F := reader_frame s1 RdNext d) in *.
  exists (set_currentSequence (int64 (currentSequence d + 1)) d), (inl RdFound). split; [done|].
  apply (read_on_plain _ _ _ _ s1); [done|done|].
  apply (serial_take stop n (tframed F t) b (goroutines d)) in Hs; [|done|done|unfold F; cbn; fold d; by rewrite Ec].
  replace (set_currentSequence (int64 (currentSequence d + 1)) d) with
    (set_goroutines (goroutines d) (set_currentBuffer (Some b)
      (set_currentSequence (int64 (currentSequence d + 1)) (framed F d)))); [exact Hs|].
  unfold framed, f_bufs. cbn. rewrite <- Ec. by destruct d as [? ? ? ? ? ? ? ? ? ? ? ? ? ? ? ? ? ? ? [] ? ? ?].
Qed.

Lemma push_reads_on (n : Z) (o : oracle) (s1 : SmartBuffer) (k : nat) (q : Z) (b : nat) (t : trace H S) :
  serial n (tframed (reader_frame s1 (RdPush k q b) (db (sys t))) t) →
  reader_at s1 (RdPush k q b) (db (sys t)) → reads_on n o (RdPush k q b) t.
Proof.
  intros Hs Hat. set (d := db (sys t)) in *. set (F := reader_frame s1 (RdPush k q b) d) in *.
  destruct (pq_push_ok (pendingHeap d) (q, b) (serial_heap _ _ Hs)) as (h & E & _).
  exists (set_pendingHeap h d), (inl (next_turn k)). split; [cbn; fold d; by rewrite E|].
  apply (read_on_plain _ _ _ _ s1); [apply next_turn_plain|by destruct k|].
  apply (serial_push_back stop n (tframed F t) h q b (goroutines d)) in Hs; [|done|done].
  replace (set_pendingHeap h d) with (set_goroutines (goroutines d) (set_pendingHeap h (framed F d))); [exact Hs|].
  unfold framed, f_bufs. cbn. by destruct d as [? ? ? ? ? ? ? ? ? ? ? ? ? ? ? ? ? ? ? [] ? ? ?].
Qed.

Lemma pop_reads_on (n : Z) (o : oracle) (s1 : SmartBuffer) (m : Z) (b : nat) (pc : pop_pc) (t : trace H S) :
  serial n (tframed (reader_frame s1 (RdPop m b pc) (db (sys t))) t) →
  reader_at s1 (RdPop m b pc) (db (sys t)) → reads_on n o (RdPop m b pc) t.
Proof.
  intros Hs (Hm & s & [Ec Es] & Hh). set (d := db (sys t)) in *. set (F := reader_frame s1 (RdPop m b pc) d) in *.
  destruct (serial_current n (tframed F t) b Hs Ec) as (s2 & s3 & x & Es2 & Ex).
  cbn in Es2. unfold f_bufs in Es2. cbn in Es2. rewrite lookup_insert_eq in Es2. injection Es2 as <-.
  assert (∃ s' next, pop_step pc s = Ok (s', next)) as (s' & next & E).
  { destruct Hh as [[[|j] Hj] _]; cbn [pop_alone] in Hj; [by rewrite Ex in Hj|]. rewrite Ex in Hj.
    apply rbind_ok in Hj as ([s' next] & E & _). by exists s', next. }
  pose proof (half_popped_step _ _ _ _ _ _ Hh Ex E) as Hnext.
  eapply (reads_on_same n o s1 s1 _ (match next with inl pc => RdPop m b pc | inr x => RdDeliver m (default zeroItem x) end) t
    (DoubleBuffer.set_buf b s' d)); [exact Hs| | |].
  - cbn. fold d. unfold get_buf. rewrite Es. cbn [rbind]. rewrite E. by destruct next.
  - assert (at_ring b s' (DoubleBuffer.set_buf b s' d)) as Hat by (split; [done|cbn; apply lookup_insert_eq]).
    destruct next as [pc'|x']; (split; [done|]); [by exists s'|]. exists b, s'. by split.
  - fold d. rewrite <- (framed_absorb F b s1 s') by done. unfold F. destruct next; [done|].
    unfold reader_frame. cbn. by rewrite Ec.
Qed.

Lemma deliver_reads_on (n : Z) (o : oracle) (s1 : SmartBuffer) (m : Z) (it : BufferItem) (t : trace H S) :
  serial n (tframed (reader_frame s1 (RdDeliver m it) (db (sys t))) t) →
  reader_at s1 (RdDeliver m it) (db (sys t)) → reads_on n o (RdDeliver m it) t.
Proof.
  intros Hs (-> & b & s & [Ec Es] & Ep & _). set (d := db (sys t)) in *.
  set (F := reader_frame s1 (RdDeliver SafeRead it) d) in *.
  assert (f_ring F = Some (b, s1)) as EF by (unfold F, reader_frame; cbn; by rewrite Ec).
  destruct (serial_read_current stop n o (tframed F t) Hs) as (d' & r & E & Hs').
  { change (currentBuffer d ≠ None). by rewrite Ec. }
  exists d', (inr r). split; [|exact Hs']. change (db (sys (tframed F t))) with (framed F d) in E.
  assert (pop_current (framed F d) = Ok (d, (Ptr it, Size it))) as Epop.
  { unfold pop_current, get_buf. cbn [framed currentBuffer objs bufs]. unfold f_bufs. rewrite EF.
    change (f_current F) with (currentBuffer d). rewrite Ec, lookup_insert_eq. cbn [rbind]. rewrite Ep. cbn [rbind].
    do 2 f_equal. transitivity (framed (own_frame (Some (b, s)) d) d); [|apply own_framed; by intros ? ? [= <- <-]].
    unfold DoubleBuffer.set_buf, framed, f_bufs. rewrite EF. cbn. by rewrite insert_insert_eq. }
  cbn [reader_step]. rewrite decide_True by done. fold d. revert E. unfold read_current. pose proof (serial_mode _ _ Hs) as Hmode.
  change (readMode (framed F d)) with (readMode (db (sys (tframed F t)))). rewrite Hmode.
  rewrite decide_True by done. unfold safeRead. rewrite Epop. cbn [rbind].
  destruct (safe_chunk o (Ptr it) (Size it) d) as [[d2 x]| |]; cbn [rbind]; [|done..]. by intros [= <- <-].
Qed.

Lemma serial_reader (n : Z) (o : oracle) (s1 : SmartBuffer) (pc : reader_pc) (t : trace H S) :
  serial n (tframed (reader_frame s1 pc (db (sys t))) t) → n < 2 ^ 63 - 1 →
  reader_at s1 pc (db (sys t)) → reads_on n o pc t.
Proof.
  intros Hs Hn Hat. destruct (plain pc) eqn:Hp.
  { unfold tframed in Hs. rewrite plain_framed, with_db_id in Hs by done.
    destruct (currentBuffer (db (sys t))) eqn:Ec; [by eapply plain_reads_on_some|by eapply plain_reads_on_none]. }
  destruct pc as [| |b| | |b pc|b|b|k|k q b|b| |k q b| | |m|m b pc|m it]; try done.
  - by eapply reset_reads_on.
  - destruct Hat as (Hc & Ec & Es).
    eapply (reads_on_same n o s1 s1 _ (RdPut b) t (set_currentBuffer None (db (sys t))) Hs); try done.
    unfold framed. cbn. by rewrite Ec.
  - by eapply put_reads_on.
  - cbn [reader_at] in Hat. destruct (decide (q = currentSequence (db (sys t)))) as [->|Hq].
    + eapply (reads_on_same n o s1 s1 _ (RdTake b) t (db (sys t)) Hs); try done. cbn. by rewrite decide_True.
    + eapply (reads_on_same n o s1 s1 _ (RdPush k q b) t (db (sys t)) Hs); try done. cbn. by rewrite decide_False.
  - cbn [reader_at] in Hat.
    eapply (reads_on_same n o s1 s1 _ RdNext t (set_currentBuffer (Some b) (db (sys t))) Hs); try done.
    unfold framed. cbn. by rewrite Hat.
  - by eapply take_reads_on.
  - by eapply push_reads_on.
  - by eapply pop_reads_on.
  - by eapply deliver_reads_on.
Qed.

(** ** Runs *)

Definition read_serial (n : Z) (o : option reader_pc) (t : trace H S) : Prop :=
  match o with
  | None => serial n t
  | Some pc => ∃ s1 : SmartBuffer, reader_at s1 pc (db (sys t)) ∧
      serial n (tframed (reader_frame s1 pc (db (sys t))) t)
  end.

Lemma read_serial_weaken (n : Z) (o : option reader_pc) (t : trace H S) :
  read_serial n o t → read_serial (n + 1) o t.
Proof.
  destruct o as [pc|]; cbn [read_serial]; [intros (s1 & Hat & Hs); exists s1; split; [done|]; revert Hs|intros Hs; revert Hs];
    intros Hs; (eapply serial_weaken; [exact Hs|lia]).
Qed.

Lemma in_turn_weaken (n : Z) (v : reading H S) :
  in_turn (read_serial n) v → in_turn (read_serial (n + 1)) v.
Proof.
  intros [[? Hs]|(i & pc & ? & ? & Hs)]; [left|right; exists i, pc]; auto using read_serial_weaken.
Qed.

(** What is asked for: the conditions of [DoubleBufferTurns], reads in turn,
    and that no one stores to memory a reader is about to deliver. *)
Definition reading_allowed (ev : reading_event) (v : reading H S) : Prop :=
  apart ev v ∧
  match ev with
  | VTrace ev => trace_allowed range ev (tr v) ∧ spares_held ev (concat (from_option holds [] <$> readers v))
  | _ => True
  end.

Lemma spares_held_in (ev : trace_event) (pc : reader_pc) (rs : list (option reader_pc)) :
  spares_held ev (concat (from_option holds [] <$> rs)) → Some pc ∈ rs → spares_held ev (holds pc).
Proof.
  intros Hsp Hin. destruct ev as [| | | |p l]; try done. cbn [spares_held] in *.
  rewrite Forall_forall in Hsp |- *. intros x Hx. apply Hsp, list_elem_of_concat.
  exists (holds pc). split; [|done]. apply list_elem_of_fmap. by exists (Some pc).
Qed.

Lemma trace_read_serial (n : Z) (ev : trace_event) (o : option reader_pc) (v : reading H S) :
  read_serial n o (tr v) → n < 2 ^ 63 - 1 → trace_allowed range ev (tr v) →
  spares_held ev (concat (from_option holds [] <$> readers v)) →
  (reads_now ev = true → o = None) → (∀ pc : reader_pc, o = Some pc → Some pc ∈ readers v) →
  ∃ t' : trace H S, trace_step range ev (tr v) = Ok t' ∧ read_serial (n + 1) o t'.
Proof.
  intros Hs Hn Hal Hsp Hr Hin. destruct o as [pc|]; [|by eapply serial_step].
  destruct Hs as (s1 & Hat & Hs).
  destruct (serial_other n s1 pc ev (tr v) Hat Hs Hn) as (t' & E & Hat' & Hs'); [|done| |].
  - destruct (reads_now ev); [by specialize (Hr eq_refl)|done].
  - eapply spares_held_in; [done|by apply Hin].
  - exists t'. split; [done|]. by exists s1.
Qed.

Lemma reading_step_serial (n : Z) (ev : reading_event) (v : reading H S) :
  in_turn (read_serial n) v → n < 2 ^ 63 - 1 → reading_allowed ev v →
  ∃ v' : reading H S, reading_step range ev v = Ok v' ∧ in_turn (read_serial (n + 1)) v'.
Proof.
  intros Hv Hn [Ha Hal].
  assert ((∃ v', reading_step range ev v = Ok v') →
    (∀ v', reading_step range ev v = Ok v' → in_turn (read_serial (n + 1)) v') →
    ∃ v', reading_step range ev v = Ok v' ∧ in_turn (read_serial (n + 1)) v') as Hboth
    by (intros [v' E] HI; exists v'; auto).
  destruct ev as [ev|i|o i]; apply Hboth.
  - destruct Hal as [Hal Hsp].
    assert (∃ t', trace_step range ev (tr v) = Ok t') as [t' E].
    { destruct Hv as [[Hall Hs]|(i & pc & Hi & _ & Hs)]; (eapply trace_read_serial in Hs as (t' & E & _); [by exists t'|done..| |]).
      - done.
      - done.
      - intros Hr. destruct (idle_readers _ _ _ (Ha Hr) Hi).
      - intros ? [= <-]. by eapply list_elem_of_lookup_2. }
    eexists. cbn [reading_step]. by rewrite E.
  - intros v' E. eapply (in_turn_other range (read_serial n)); [done|done| |exact E].
    destruct Hal as [Hal Hsp]. intros r t Hr Hin Hs Et.
    destruct (trace_read_serial n ev r v Hs Hn Hal Hsp Hr Hin) as (t' & Et' & Hs'). congruence.
  - cbn [reading_step]. destruct (readers v !! i) as [[|]|]; by eexists.
  - intros v' E. apply in_turn_weaken. eapply (in_turn_call range _ i); [done|done| |exact E].
    intros Hs. exists (mkSB [] 0 0 0 0 0 false). split; [done|].
    unfold tframed. by rewrite plain_framed, with_db_id.
  - cbn [reading_step]. destruct (readers v !! i) as [[pc|]|] eqn:Hi; [|by eexists..].
    destruct Hv as [[Hall _]|(i' & pc' & Hi' & Hone & s1 & Hat & Hs)]; [destruct (idle_readers _ _ _ Hall Hi)|].
    pose proof (Hone i pc Hi) as <-. rewrite Hi in Hi'. injection Hi' as <-.
    destruct (serial_reader n o s1 pc (tr v) Hs Hn Hat) as (d & next & -> & _). cbn [rbind].
    destruct next; by eexists.
  - intros v' E. assert (in_turn (read_serial n) v') as Hv'.
    { eapply (in_turn_access range _ o i); [exact Hv| |exact E]. intros pc d next (s1 & Hat & Hs) Es.
      destruct (serial_reader n o s1 pc (tr v) Hs Hn Hat) as (d' & next' & E' & Hnext).
      rewrite Es in E'. injection E' as <- <-. destruct next as [pc'|r]; [|exact Hnext].
      destruct Hnext as (s1' & Hat' & Hs'). by exists s1'. }
    by apply in_turn_weaken.
Qed.

Lemma reading_run_serial (n : Z) (evs : list reading_event) (v : reading H S) :
  in_turn (read_serial n) v → n + Z.of_nat (length evs) < 2 ^ 63 → during range reading_allowed evs v →
  ∃ v' : reading H S, reading_run range evs v = Ok v' ∧ in_turn (read_serial (n + Z.of_nat (length evs))) v'.
Proof.
  revert n v. induction evs as [|ev evs IH]; intros n v Hv Hn Hal.
  { exists v. split; [done|]. cbn [length]. by rewrite Z.add_0_r. }
  cbn [length] in *. destruct Hal as [Hev Hal].
  destruct (reading_step_serial n ev v Hv ltac:(lia) Hev) as (v1 & E & Hv1). cbn [reading_run]. rewrite E in *.
  cbn [rbind]. destruct (IH (n + 1) v1 Hv1) as (v2 & E2 & Hv2); [lia|done|].
  exists v2. split; [done|].
  by replace (n + Z.of_nat (Datatypes.S (length evs))) with (n + 1 + Z.of_nat (length evs)) by lia.
Qed.

(** What the invariant says of the histories. *)
Lemma read_serial_histories (n : Z) (o : option reader_pc) (t : trace H S) :
  read_serial n o t →
  (∃ rest : list (list byte), written t = delivered t ++ rest) ∧
  (Forall (λ w, wpc w = WIdle) (writers (sys t)) → length (written t) = accepted (writers (sys t))).
Proof.
  assert (∀ t : trace H S, serial n t → (∃ rest : list (list byte), written t = delivered t ++ rest) ∧
    (Forall (λ w, wpc w = WIdle) (writers (sys t)) → length (written t) = accepted (writers (sys t)))) as Hser.
  { intros t0 (sw & i & w & s0 & s1 & bs & f & bss & [Hex Ht Hring Hpush Hf Hmode Hi Hk Hch Hw Hret]).
    split; [by exists bss|]. intros Hidle. rewrite Hret. replace (wpc w) with WIdle; [cbn; lia|]. symmetry.
    by eapply (Forall_lookup_1 _ _ _ _ Hidle), Ht. }
  destruct o as [pc|]; [|apply Hser]. intros (s1 & _ & Hs). exact (Hser _ Hs).
Qed.
End turns.

(** C2. Delivery in order holds between the accesses of the reads too.  Any
    number of writers call [Write] one at a time, each with 1 to 1023 bytes of
    mapped memory, and any number of readers
    call [tryRead] one at a time, in safe-read mode, each call a sequence of
    accesses to shared memory; between any two of them the monitor, the
    goroutines of the switches, the pools and the users take steps in any
    order.  As long as the monitor exchanges the rings while no writer holds a
    reference to one (and the goroutines take their numbers in order, and no
    one stores to memory the library holds), nothing panics, at every moment
    the byte strings delivered are a prefix of the byte strings whose push
    took effect, and whenever no call of [Write] is under way these are as
    many as the calls that returned nil. *)
Theorem reads_in_turn_deliver_in_order {H S : Type} `{PendingQueueLaws H, !SwitchStrategy S}
    (range : gmap Z nat → list (Z * nat)) (k r : nat) (n : Z) (cond : SwitchCondition)
    (opts : list Z) (s : S) (now : Z) (m : memory) (d : DoubleBuffer H S) (evs : list reading_event)
    (Hrange : RangeOrder range) (Hk : (0 < k)%nat) (Hn : 0 < n < 2 ^ 31) (Hm : mem_wf m)
    (Hd : NewDoubleBuffer n cond opts s now m = Ok (inl d))
    (Hlen : Z.of_nat (length evs) < 2 ^ 63)
    (Hallowed : during range (reading_allowed range) evs (reading_start SafeRead k r d)) :
  ∃ v : reading H S, reading_run range evs (reading_start SafeRead k r d) = Ok v ∧
    (∃ rest : list (list byte), written (tr v) = delivered (tr v) ++ rest) ∧
    (Forall (λ w, wpc w = WIdle) (writers (sys (tr v))) →
     length (written (tr v)) = accepted (writers (sys (tr v)))).
Proof.
  destruct (reading_run_serial range (stop_closed d) 0 evs (reading_start SafeRead k r d)) as (v & E & Hv).
  - left. split; [by apply Forall_replicate|]. by eapply trace_start_serial.
  - done.
  - done.
  - exists v. split; [done|]. destruct Hv as [[_ Hs]|(i & pc & _ & _ & Hs)]; by eapply read_serial_histories.
Qed.

(** The run of [turns_evs] with its read taken access by access: the second
    writer pushes in the middle of it, and again in the middle of the read
    that resets and pools the ring and finds the next one. *)
Definition read_turns_evs : list reading_event :=
  let w i n := replicate n (VTrace (TRun (EvWriter demo_oracle i))) in
  let r i n := replicate n (VRead demo_oracle i) in
  (VTrace <$> take 51 turns_evs) ++ VCall 0 :: r 0%nat 11%nat ++ w 1%nat 4%nat ++ r 0%nat 5%nat ++
  VTrace (TRelease 0) :: w 1%nat 4%nat ++ VTrace (TRun (EvCall 0 demo_p)) :: w 0%nat 25%nat ++
  VCall 1 :: r 1%nat 6%nat ++ w 0%nat 15%nat ++ replicate 4 (VTrace (TRun (EvGo 0))) ++ r 1%nat 20%nat.

Definition read_turns_end : reading WrapHeap DefaultStrategy :=
  get_ok (reading_start SafeRead 2 2 demo) (reading_run map_to_list read_turns_evs (reading_start SafeRead 2 2 demo)).

Lemma read_turns_allowed :
  during map_to_list (reading_allowed map_to_list) read_turns_evs (reading_start SafeRead 2 2 demo).
Proof.
  vm_compute. repeat split; try discriminate; try (by eexists); try (by repeat constructor; discriminate).
Qed.

Lemma reads_in_turn_deliver_in_order_witness :
  (writers (sys (tr read_turns_end)) = [mkWriter WIdle [None; None]; mkWriter WIdle [None]] ∧
   written (tr read_turns_end) = [[x11; x22]; [xaa; xbb; xcc]; [x00; x00]] ∧
   delivered (tr read_turns_end) = [[x11; x22]; [xaa; xbb; xcc]]) ∧
  ∃ v : reading WrapHeap DefaultStrategy,
    reading_run map_to_list read_turns_evs (reading_start SafeRead 2 2 demo) = Ok v ∧
    (∃ rest : list (list byte), written (tr v) = delivered (tr v) ++ rest) ∧
    (Forall (λ w, wpc w = WIdle) (writers (sys (tr v))) →
     length (written (tr v)) = accepted (writers (sys (tr v)))).
Proof.
  split; [vm_compute; by split_and!|].
  eapply (reads_in_turn_deliver_in_order map_to_list 2 2 1 _ _ _ _ demo_mem demo read_turns_evs).
  - apply map_to_list_RangeOrder.
  - lia.
  - split; reflexivity.
  - apply demo_mem_wf.
  - apply demo_ok.
  - reflexivity.
  - apply read_turns_allowed.
Defined.
