(* ===== verification/DoubleBufferRaces.v ===== *)
(** * Reads that overlap

    What two calls of [tryRead] do to each other, in runs of
    [DoubleBufferReaders]: [BlockingRead] and the waiter manager are made for
    several readers, but nothing keeps their calls apart. *)
From S2P Require Import Prelude.
From S2P Require Import Consts.
From S2P Require Import Interfaces.
From S2P Require Import Runtime.
From S2P Require Import SmartBuffer.
From S2P Require Import SmartBufferConc.
From S2P Require Import SwitchStrategy.
From S2P Require Import SwitchConfig.
From S2P Require Import LifeCycle.
From S2P Require Import DataChunk.
From S2P Require Import WrapHeap.
From S2P Require Import DoubleBuffer.
From S2P Require Import DoubleBufferDelivery.
From S2P Require Import DoubleBufferConc.
From S2P Require Import DoubleBufferSafety.
From S2P Require Import DoubleBufferTurns.
From S2P Require Import DoubleBufferMemory.
From S2P Require Import DoubleBufferReaders.
From S2P Require Import DoubleBufferReadersSafety.
Open Scope Z_scope.
Open Scope go_scope.

(** ** A ring whose count is negative *)

Section stuck.
  Context {H S : Type} `{!PendingQueue H, !SwitchStrategy S}.
  Context (range : gmap Z nat → list (Z * nat)).

(** The current ring [s] is empty and its count is not zero. *)
Definition stuck (b : nat) (s : SmartBuffer) (d : DoubleBuffer H S) : Prop :=
  readMode d = Some SafeRead ∧ currentBuffer d = Some b ∧ get_buf b d = Ok s ∧
  0 < capacity s < 2 ^ 31 ∧ SmartBuffer.buf s = replicate (Z.to_nat (capacity s)) zeroItem ∧
  SmartBuffer.count s < 0.

(** A read of it finds an item of no bytes, and takes one from the count. *)
Lemma stuck_read (o : oracle) (b : nat) (s : SmartBuffer) (d : DoubleBuffer H S) :
  stuck b s d → - 2 ^ 31 < SmartBuffer.count s →
  ∃ s' : SmartBuffer, tryRead range o [] d = Ok (DoubleBuffer.set_buf b s' d, inr ErrRead) ∧
    stuck b s' (DoubleBuffer.set_buf b s' d) ∧ SmartBuffer.count s' = SmartBuffer.count s - 1.
Proof.
  intros (Hm & Hc & Hb & Hcap & Hbuf & Hneg) Hlow.
  pose proof (calcPos_range (capacity s) (tail s) Hcap) as Hpos. set (pos := calcPos (capacity s) (tail s)) in *.
  assert (replicate (Z.to_nat (capacity s)) zeroItem !! Z.to_nat pos = Some zeroItem) as Hz
    by (apply lookup_replicate; split; [done|lia]).
  assert (indexZ (SmartBuffer.buf s) pos = Ok zeroItem) as Hi by (apply indexZ_ok; [lia|by rewrite Hbuf]).
  set (s' := mkSB (SmartBuffer.buf s) (head s) (int32 (tail s + 1)) (int32 (SmartBuffer.count s - 1)) (capacity s)
    (SmartBuffer.state s) (sem_closed s)).
  assert (SmartBuffer.Pop s = Ok (s', (0, 0))) as Hpop.
  { unfold SmartBuffer.Pop. rewrite decide_False by lia. fold pos. cbn [maxRetry retry_read].
    rewrite Hi. cbn [rbind]. do 3 rewrite decide_False by (cbn; tauto).
    rewrite set_indexZ_ok by (rewrite Hbuf, length_replicate; lia). cbn [rbind].
    rewrite list_insert_id by (by rewrite Hbuf). done. }
  exists s'. split; [|split].
  - unfold tryRead, current_empty. rewrite Hc, Hb. cbn [rbind].
    rewrite bool_decide_false by (unfold SmartBuffer.Len; lia).
    unfold read_current. rewrite Hm, decide_True by done. unfold safeRead, pop_current. rewrite Hc, Hb. cbn [rbind].
    rewrite Hpop. done.
  - split; [done|]. split; [done|]. split; [apply get_buf_set|]. split; [exact Hcap|]. split; [exact Hbuf|].
    unfold s'. cbn [SmartBuffer.count]. rewrite signed_id by (unfold in_signed; lia). lia.
  - unfold s'. cbn [SmartBuffer.count]. rewrite signed_id by (unfold in_signed; lia). lia.
Qed.

Lemma stuck_reads (o : oracle) (k : nat) (b : nat) (s : SmartBuffer) (v : reading H S) :
  stuck b s (db (sys (tr v))) → Z.of_nat k < 2 ^ 31 + SmartBuffer.count s →
  ∃ v' : reading H S, reading_run range (replicate k (VTrace (TRun (EvRead o [])))) v = Ok v' ∧
    reads (sys (tr v')) = reads (sys (tr v)) ++ replicate k (inr ErrRead) ∧
    delivered (tr v') = delivered (tr v) ∧
    pendingHeap (db (sys (tr v'))) = pendingHeap (db (sys (tr v))).
Proof.
  revert s v. induction k as [|k IH]; intros s v Hs Hk.
  { exists v. cbn. by rewrite app_nil_r. }
  cbn [replicate reading_run reading_step trace_step step].
  destruct (stuck_read o b s _ Hs) as (s' & -> & Hs' & Hc'); [lia|]. cbn [rbind].
  set (v1 := mkReading _ _).
  destruct (IH s' v1) as (v2 & E & Er & Ed & Eh); [exact Hs'|lia|].
  exists v2. split; [exact E|]. rewrite Er, Ed, Eh. cbn [v1 tr sys db record reads delivered].
  rewrite drop_app_length. cbn [omap list_omap fmap list_fmap]. rewrite app_nil_r, <- app_assoc. done.
Qed.
End stuck.

(** ** Concrete runs *)

Definition now (ev : event) : reading_event := VTrace (TRun ev).

(** A whole call of [Write], a hand-over, and [n] accesses of reader [i]. *)
Definition writes (p : slice) : list reading_event :=
  now (EvCall 0 p) :: replicate 13 (now (EvWriter (at_time 0) 0)).
Definition hands_over (t : Z) : list reading_event := map now (hand_over (at_time t)).
Definition accesses (i n : nat) : list reading_event := replicate n (VRead (at_time 2) i).
Definition whole_read (i : nat) : list reading_event := VCall i :: accesses i 35.

(** One writer and two readers, with rings of four slots and of one. *)
Definition four_slots : reading WrapHeap DefaultStrategy := reading_start SafeRead 1 2 wide.
Definition one_slot : reading WrapHeap DefaultStrategy := reading_start SafeRead 1 2 demo.

(** The current ring is empty; reader 0 has seen it when reader 1 drops it. *)
Definition nil_run : list reading_event :=
  writes demo_p ++ hands_over 2 ++ whole_read 0 ++
  VCall 0 :: accesses 0 1 ++ whole_read 1 ++ accesses 0 1.

(** The current ring holds one item; both readers have read its count. *)
Definition twice_run : list reading_event :=
  writes demo_p ++ hands_over 2 ++
  VCall 0 :: accesses 0 10 ++ VCall 1 :: accesses 1 6 ++ accesses 0 3 ++ accesses 1 3 ++
  accesses 0 25 ++ accesses 1 25.

(** The same in a ring of four slots that held two items. *)
Definition stuck_run : list reading_event :=
  writes demo_p ++ writes demo_q ++ hands_over 2 ++ whole_read 0 ++
  VCall 0 :: accesses 0 6 ++ VCall 1 :: accesses 1 6 ++ accesses 0 25 ++ accesses 1 25 ++
  writes demo_p ++ hands_over 4.

(** Both readers have kept the empty ring to reset it; two switches follow. *)
Definition pooled_run : list reading_event :=
  writes demo_p ++ hands_over 2 ++ whole_read 0 ++
  VCall 0 :: accesses 0 5 ++ whole_read 1 ++ accesses 0 30 ++ hands_over 4 ++ hands_over 6.

Definition twice_end : reading WrapHeap DefaultStrategy := get_ok one_slot (reading_run map_to_list twice_run one_slot).
Definition stuck_end : reading WrapHeap DefaultStrategy := get_ok four_slots (reading_run map_to_list stuck_run four_slots).
Definition pooled_end : reading WrapHeap DefaultStrategy := get_ok four_slots (reading_run map_to_list pooled_run four_slots).

(** The state after the race of [stuck_run]: the count is minus one, and the
    heap holds a ring with an item. *)
Lemma stuck_end_stuck :
  stuck 2 (mkSB (replicate 4 zeroItem) 1 2 (-1) 4 ReadOnly false) (db (sys (tr stuck_end))).
Proof. vm_compute. repeat split. Qed.

