(* ===== verification/DoubleBufferClosing.v ===== *)
(** * Closing the interleaved double buffer

    [Close] of [src/core/double_buffer.go] one statement at a time, in any
    number of goroutines, among the interleaved writers, switches and reads of
    [DoubleBufferConc].  A closed buffer stays closed and its stop channel is
    closed once; but a reader can make [Close] panic, and a write can be
    accepted by a buffer that is closed. *)
From S2P Require Import Prelude.
From S2P Require Import Consts.
From S2P Require Import Interfaces.
From S2P Require Import Runtime.
From S2P Require Import SmartBuffer.
From S2P Require Import SmartBufferConc.
From S2P Require Import SwitchStrategy.
From S2P Require Import SwitchConfig.
From S2P Require Import LifeCycle.
From S2P Require Import DataChunk.
From S2P Require Import WrapHeap.
From S2P Require Import DoubleBuffer.
From S2P Require Import DoubleBufferFlow.
From S2P Require Import DoubleBufferDelivery.
From S2P Require Import DoubleBufferConc.
From S2P Require Import DoubleBufferSafety.
Open Scope Z_scope.
Open Scope go_scope.

(** ** The statements of [Close] *)

Inductive close_pc :=
  | ClCas                       (** the compare-and-swap of the state *)
  | ClStop                      (** [close(d.stop)] *)
  | ClActive                    (** pools the active ring *)
  | ClPassive
  | ClWait                      (** [d.wg.Wait()] *)
  | ClLen                       (** [drainProcessor]: reads the heap's length *)
  | ClPick                      (** takes a ring off the heap and pools it *)
  | ClReturned (won : bool).    (** whether this call closed the buffer *)

(** The call that closes the buffer, from its compare-and-swap on. *)
Definition won (pc : close_pc) : bool :=
  match pc with ClCas | ClReturned false => false | _ => true end.

(** It has closed the stop channel. *)
Definition past_stop (pc : close_pc) : bool :=
  match pc with ClStop => false | _ => won pc end.

Section closing.
  Context {H S : Type} `{!PendingQueue H, !SwitchStrategy S}.
  Context (range : gmap Z nat → list (Z * nat)).

(** One statement.  The fields and the rings of the heap are never nil here,
    so the guards of the source against nil hold. *)
Definition close_step (pc : close_pc) (d : DoubleBuffer H S) : result (DoubleBuffer H S * close_pc) :=
  match pc with
  | ClCas =>
      if decide (state d ≠ WritingState) then Ok (d, ClReturned false)
      else Ok (set_state ClosedState d, ClStop)
  | ClStop =>
      if stop_closed d then Panics CloseOfClosedChannel
      else Ok (set_stop_closed true d, ClActive)
  | ClActive => Ok (pool_Put (active d) d, ClPassive)
  | ClPassive => Ok (pool_Put (passive d) d, ClWait)
  | ClWait => if workers_done d then Ok (d, ClLen) else Ok (d, ClWait)
  | ClLen =>
      if decide (0 < pq_len (pendingHeap d))%nat then Ok (d, ClPick) else Ok (d, ClReturned true)
  | ClPick =>
      let* (h, x) := pq_pick (pendingHeap d) in
      match x with
      | None => Panics NilDereference
      | Some (_, b) => Ok (pool_Put b (set_pendingHeap h d), ClLen)
      end
  | ClReturned w => Ok (d, ClReturned w)
  end.

(** The system with the calls of [Close]. *)
Record closing := mkClosing { sys : system H S; closers : list close_pc }.

Inductive closing_event :=
  | CeRun (ev : event)          (** a writer, the monitor, a goroutine or the reader *)
  | CeClose (i : nat)           (** the next statement of a call of [Close] *)
  | CeMonitorStops              (** [swapMonitor] takes the closed stop channel *)
  | CeRecyclerStops.            (** so does [asyncRecycleWorker] *)

Definition cstep (ev : closing_event) (c : closing) : result closing :=
  match ev with
  | CeRun ev => let* s := step range ev (sys c) in Ok (mkClosing s (closers c))
  | CeClose i =>
      match closers c !! i with
      | Some pc =>
          let* (d, pc) := close_step pc (db (sys c)) in
          Ok (mkClosing (set_db d (sys c)) (<[i := pc]> (closers c)))
      | None => Ok c
      end
  | CeMonitorStops =>
      match monitor (sys c) with
      | MIdle => Ok (mkClosing (set_db (swapMonitor_stop (db (sys c))) (sys c)) (closers c))
      | MSwitch _ => Ok c
      end
  | CeRecyclerStops =>
      Ok (mkClosing (set_db (asyncRecycleWorker_stop (db (sys c))) (sys c)) (closers c))
  end.

Fixpoint crun (evs : list closing_event) (c : closing) : result closing :=
  match evs with
  | [] => Ok c
  | ev :: evs =>
      let* c := cstep ev c in
      crun evs c
  end.

(** [n] idle writers and [k] calls of [Close] that have not begun. *)
Definition cstart (n k : nat) (d : DoubleBuffer H S) : closing :=
  mkClosing (start n d) (replicate k ClCas).
End closing.
Arguments closing H S : clear implicits.

(** ** A closed buffer stays closed *)

Section closed.
  Context {H S : Type} `{!PendingQueue H, !PendingQueueLaws H, !SwitchStrategy S}.
  Context (range : gmap Z nat → list (Z * nat)).

(** [w] is the call that closed the buffer, if one did. *)
Definition idle_state (w : option close_pc) : Z := if w then ClosedState else WritingState.
Definition stopped (w : option close_pc) : bool := match w with Some pc => past_stop pc | None => false end.

Record closing_inv (c : closing H S) (w : option close_pc) (sw : option (agent * switch_pc)) : Prop := {
  ci_won : filter (λ pc, won pc = true) (closers c) = option_list w;
  ci_sys : exclusive (idle_state w) (stopped w) (sys c) sw
}.

(** In a closed buffer the rings no longer have one owner. *)
Lemma exclusive_closed (stop stop' : bool) (d : DoubleBuffer H S) (s : system H S) (idle : Z) :
  exclusive idle stop s None → state d = ClosedState → stop_closed d = stop' →
  pq_wf (pendingHeap d) → exclusive ClosedState stop' (set_db d s) None.
Proof.
  intros [Hst Hid Hstop Hsw Hl Hw Hh Ho] Es Ep Eh. constructor; try done. by right.
Qed.

Lemma won_unique (l : list close_pc) (i : nat) (pc : close_pc) (w : option close_pc) :
  filter (λ pc, won pc = true) l = option_list w → l !! i = Some pc → won pc = true → w = Some pc.
Proof.
  intros Hl Hi Hw. assert (pc ∈ option_list w) as Hin.
  { rewrite <- Hl. apply list_elem_of_filter. split; [done|]. by eapply list_elem_of_lookup_2. }
  destruct w as [pc'|]; [|by apply elem_of_nil in Hin]. by apply list_elem_of_singleton in Hin as ->.
Qed.

Lemma filter_won_insert (l : list close_pc) (i : nat) (pc pc' : close_pc) (w : option close_pc) :
  l !! i = Some pc → filter (λ pc, won pc = true) l = option_list w →
  (won pc = true → won pc' = true) → (won pc' = true → won pc = true ∨ w = None) →
  filter (λ pc, won pc = true) (<[i := pc']> l) = option_list (if won pc' then Some pc' else w).
Proof.
  intros Hi Hl Hkeep Hnew. rewrite insert_take_drop by (by eapply lookup_lt_Some).
  rewrite <- (take_drop_middle l i pc Hi) in Hl.
  rewrite filter_app, filter_cons in *. destruct (won pc'); rewrite (decide_False (P := false = true)) || rewrite (decide_True (P := true = true)); try done.
  - destruct (won pc); rewrite ?decide_True, ?decide_False in Hl by done.
    + apply (f_equal length) in Hl. rewrite length_app in Hl. cbn in Hl.
      destruct (filter _ (take i l)); [|destruct w; cbn in Hl; lia].
      destruct (filter _ (drop (Datatypes.S i) l)); [done|destruct w; cbn in Hl; lia].
    + destruct Hnew as [?| ->]; [done..|]. apply app_eq_nil in Hl as [-> ->]. done.
  - destruct (won pc); [by specialize (Hkeep eq_refl)|]. by rewrite decide_False in Hl by done.
Qed.

Lemma close_step_inv (i : nat) (pc : close_pc) (c : closing H S) (w : option close_pc)
    (sw : option (agent * switch_pc)) :
  closing_inv c w sw → closers c !! i = Some pc →
  close_step pc (db (sys c)) ≠ Panics CloseOfClosedChannel ∧
  ∀ (d : DoubleBuffer H S) (pc' : close_pc), close_step pc (db (sys c)) = Ok (d, pc') →
    ∃ (w' : option close_pc) (sw' : option (agent * switch_pc)),
      closing_inv (mkClosing (set_db d (sys c)) (<[i := pc']> (closers c))) w' sw' ∧
      (w ≠ None → w' ≠ None).
Proof.
  intros [Hc Hs] Hi.
  assert (∀ (d : DoubleBuffer H S) (pc' : close_pc),
    won pc = true → won pc' = true → state d = state (db (sys c)) → stop_closed d = past_stop pc' →
    pq_wf (pendingHeap d) →
    closing_inv (mkClosing (set_db d (sys c)) (<[i := pc']> (closers c))) (Some pc') None) as Hwin.
  { intros d pc' Hw Hw' Hst Hstop Hh.
    pose proof (won_unique _ _ _ _ Hc Hi Hw) as ->. pose proof Hs as [Hst0 Hid _ _ _ _ _ _].
    destruct Hid as [?|[_ ->]]; [done|]. constructor; cbn [closers sys].
    - rewrite (filter_won_insert _ _ pc pc' (Some pc) Hi Hc); [by rewrite Hw'|done|by left].
    - eapply exclusive_closed; [exact Hs|by rewrite Hst, Hst0|exact Hstop|exact Hh]. }
  assert (won pc = true → stop_closed (db (sys c)) = past_stop pc) as Hstop.
  { intros Hw. pose proof (won_unique _ _ _ _ Hc Hi Hw) as ->. apply (ex_stop _ _ _ _ Hs). }
  pose proof (ex_heap _ _ _ _ Hs) as Hh.
  assert (∀ pc', won pc = won pc' → won pc' = false → closing_inv
    (mkClosing (set_db (db (sys c)) (sys c)) (<[i := pc']> (closers c))) w sw) as Hstay.
  { intros pc' Hw Hw'. constructor; cbn [closers sys].
    - rewrite (filter_won_insert _ _ pc pc' w Hi Hc); [by rewrite Hw'|congruence..].
    - by destruct (sys c). }
  destruct pc as [| | | | | | |wn]; cbn [close_step].
  - split; [by case_decide|]. intros d pc'. case_decide as Hd; intros [= <- <-].
    + exists w, sw. split; [by apply Hstay|done].
    + assert (state (db (sys c)) = WritingState) as Hwr by (destruct (decide (state (db (sys c)) = WritingState)); tauto).
      pose proof (ex_state _ _ _ _ Hs) as Hst. rewrite Hwr in Hst.
      destruct sw; [done|]. destruct w; [done|]. exists (Some ClStop), None. split; [|done].
      constructor; cbn [closers sys].
      * rewrite (filter_won_insert _ _ ClCas ClStop None Hi Hc); [done|done|by right].
      * eapply exclusive_closed; [exact Hs|done|by apply (ex_stop _ _ _ _ Hs)|exact Hh].
  - rewrite Hstop by done. split; [done|]. intros d pc' [= <- <-].
    exists (Some ClActive), None. split; [by apply Hwin|done].
  - split; [done|]. intros d pc' [= <- <-]. exists (Some ClPassive), None. split; [by apply Hwin; auto|done].
  - split; [done|]. intros d pc' [= <- <-]. exists (Some ClWait), None. split; [by apply Hwin; auto|done].
  - split; [by destruct (workers_done _)|]. intros d pc'. destruct (workers_done _); intros [= <- <-];
      eexists _, None; (split; [by apply Hwin; auto|done]).
  - split; [by case_decide|]. intros d pc'. case_decide; intros [= <- <-];
      eexists _, None; (split; [by apply Hwin; auto|done]).
  - destruct (decide (pq_contents (pendingHeap (db (sys c))) = [])) as [He|He].
    + rewrite pq_pick_none by done. by split.
    + destruct (pq_pick_some _ Hh He) as (h & [s b] & -> & Hh' & _). split; [done|].
      intros d pc' [= <- <-]. eexists _, None. split; [by apply Hwin; auto|done].
  - split; [done|]. intros d pc' [= <- <-]. destruct wn; [|by exists w, sw; split; [apply Hstay|]].
    eexists _, None. split; [by apply Hwin; auto|done].
Qed.

Lemma exclusive_rearranged (idle : Z) (stop : bool) (d : DoubleBuffer H S) (s : system H S)
    (sw : option (agent * switch_pc)) :
  exclusive idle stop s sw → rearranged (db s) d → exclusive idle stop (set_db d s) sw.
Proof. apply exclusive_db. Qed.

Lemma cstep_inv (ev : closing_event) (c c' : closing H S) (w : option close_pc)
    (sw : option (agent * switch_pc)) :
  closing_inv c w sw → cstep range ev c = Ok c' →
  ∃ (w' : option close_pc) (sw' : option (agent * switch_pc)),
    closing_inv c' w' sw' ∧ (w ≠ None → w' ≠ None).
Proof.
  intros Hinv. pose proof Hinv as [Hc Hs].
  assert (∀ d, rearranged (db (sys c)) d → ∃ (w' : option close_pc) (sw' : option (agent * switch_pc)),
    closing_inv (mkClosing (set_db d (sys c)) (closers c)) w' sw' ∧ (w ≠ None → w' ≠ None)) as Hre.
  { intros d Hd. exists w, sw. split; [|done]. constructor; [done|]. by apply exclusive_rearranged. }
  destruct ev as [ev|i| |]; cbn [cstep].
  - intros (s & E & [= <-])%rbind_ok. destruct (step_exclusive _ _ _ _ _ _ _ Hs E) as [sw' Hs'].
    by exists w, sw'.
  - destruct (closers c !! i) as [pc|] eqn:Hi; [|intros [= <-]; by exists w, sw].
    intros ([d pc'] & E & [= <-])%rbind_ok. by eapply close_step_inv.
  - destruct (monitor (sys c)); intros [= <-]; [|by exists w, sw]. apply Hre.
    unfold swapMonitor_stop. destruct (stop_closed _); [by constructor|done].
  - intros [= <-]. apply Hre.
    unfold asyncRecycleWorker_stop. destruct (stop_closed _); [by constructor|done].
Qed.

Lemma crun_inv (evs : list closing_event) (c c' : closing H S) (w : option close_pc)
    (sw : option (agent * switch_pc)) :
  closing_inv c w sw → crun range evs c = Ok c' →
  ∃ (w' : option close_pc) (sw' : option (agent * switch_pc)),
    closing_inv c' w' sw' ∧ (w ≠ None → w' ≠ None).
Proof.
  revert c w sw. induction evs as [|ev evs IH]; intros c w sw Hinv; cbn [crun].
  { intros [= <-]. by exists w, sw. }
  intros (c1 & (w1 & sw1 & Hinv1 & Hw1)%(cstep_inv _ _ _ _ _ Hinv) & E)%rbind_ok.
  destruct (IH _ _ _ Hinv1 E) as (w' & sw' & ? & ?). exists w', sw'. auto.
Qed.

Lemma closing_inv_state (c : closing H S) (w : option close_pc) (sw : option (agent * switch_pc)) :
  closing_inv c w sw → state (db (sys c)) = ClosedState ↔ w ≠ None.
Proof.
  intros [_ [Hst Hid _ _ _ _ _ _]]. rewrite Hst. destruct w as [pc|]; cbn in *.
  - destruct Hid as [?|[_ ->]]; [done|]. by split.
  - by destruct sw.
Qed.

Lemma NewDoubleBuffer_stop (n : Z) (cond : SwitchCondition) (opts : list Z) (s : S) (now : Z)
    (m : memory) (d : DoubleBuffer H S) :
  NewDoubleBuffer n cond opts s now m = Ok (inl d) → stop_closed d = false.
Proof.
  unfold NewDoubleBuffer. destruct pq_new_ok as (h & -> & _). cbn -[apply_options new_buf].
  intros (s0 & _ & (s1 & _ & E)%rbind_ok)%rbind_ok.
  destruct (apply_options (H:=H) (S:=S) opts _) as [d0|] eqn:Eo; [|done].
  apply apply_options_same in Eo as ((_ & _ & _ & _ & _ & _ & _ & _ & _ & _ & _ & _ & _ & _ & Es) & _).
  revert E. unfold new_buf. intros ([d1 b] & (s2 & _ & [= <- <-])%rbind_ok & E)%rbind_ok.
  apply rbind_ok in E as ([d2 b2] & (s3 & _ & [= <- <-])%rbind_ok & [= <-]). exact Es.
Qed.

Lemma cstart_inv (n k : nat) (d : DoubleBuffer H S) (bs : list nat) (f : nat → list BufferItem) :
  flow d bs f → stop_closed d = false → closing_inv (cstart n k d) None None.
Proof.
  intros Hf Hstop. constructor.
  - cbn. induction k as [|k IH]; [done|]. cbn [replicate]. by rewrite filter_cons_False.
  - cbn. rewrite <- Hstop. by eapply start_exclusive.
Qed.
End closed.

(** C19. However [Close] is called, any number of times and access by access
    among the writers, the switches and the reader: at most one call closes
    the buffer, and the state says so from its compare-and-swap on; no call
    closes the stop channel a second time; and a closed buffer is never
    opened again, neither by a call nor by a switch that ends late. *)
Theorem closing_is_final {H S : Type} `{PendingQueueLaws H, !SwitchStrategy S}
    (range : gmap Z nat → list (Z * nat)) (cap : Z) (cond : SwitchCondition) (opts : list Z)
    (strategy : S) (now : Z) (m : memory) (d : DoubleBuffer H S) (mode : option Z) (n k : nat)
    (evs : list closing_event) (c : closing H S)
    (Hcap : 0 < cap < 2 ^ 31) (Hnew : NewDoubleBuffer cap cond opts strategy now m = Ok (inl d))
    (Hrun : crun range evs (cstart n k (set_readMode mode d)) = Ok c) :
  (length (filter (λ pc, won pc = true) (closers c)) ≤ 1)%nat ∧
  (state (db (sys c)) = ClosedState ↔ filter (λ pc, won pc = true) (closers c) ≠ []) ∧
  (∀ (i : nat) (pc : close_pc), closers c !! i = Some pc →
    close_step pc (db (sys c)) ≠ Panics CloseOfClosedChannel) ∧
  (state (db (sys c)) = ClosedState →
    ∀ (evs' : list closing_event) (c' : closing H S), crun range evs' c = Ok c' →
      state (db (sys c')) = ClosedState).
Proof.
  destruct (NewDoubleBuffer_flow cap cond opts strategy now m d Hcap Hnew) as (Hf & _).
  pose proof (NewDoubleBuffer_stop _ _ _ _ _ _ _ Hnew) as Hstop.
  assert (closing_inv (cstart n k (set_readMode mode d)) None None) as Hinit.
  { by apply (cstart_inv n k (set_readMode mode d) [] (λ _, [])). }
  destruct (crun_inv range _ _ _ _ _ Hinit Hrun) as (w & sw & Hinv & _).
  pose proof (closing_inv_state _ _ _ Hinv) as Hst. pose proof (ci_won _ _ _ Hinv) as Hw.
  split_and!.
  - rewrite Hw. destruct w; cbn; lia.
  - rewrite Hst, Hw. by destruct w.
  - intros i pc Hi. by destruct (close_step_inv i pc c w sw Hinv Hi).
  - intros Hc%Hst evs' c' Hrun'. destruct (crun_inv range _ _ _ _ _ Hinv Hrun') as (w' & sw' & Hinv' & Hw').
    apply (closing_inv_state _ _ _ Hinv'). auto.
Qed.

(** ** Concrete runs *)

Definition closing_start (k : nat) : closing WrapHeap DefaultStrategy :=
  cstart 1 k (set_readMode (Some SafeRead) wide).

(** The call of [Close] that wins, up to [drainProcessor], and the workers
    that end meanwhile. *)
Definition close_and_wait : list closing_event :=
  replicate 4 (CeClose 0) ++ [CeMonitorStops; CeRecyclerStops; CeClose 0].

(** Two calls of [Close]; the second one begins inside the first. *)
Definition two_closers : list closing_event := CeClose 0 :: CeClose 1 :: replicate 3 (CeClose 0).

Definition two_closers_end : closing WrapHeap DefaultStrategy :=
  get_ok (closing_start 2) (crun map_to_list two_closers (closing_start 2)).

Lemma closing_is_final_witness :
  closers two_closers_end = [ClWait; ClReturned false] ∧
  ∀ (evs : list closing_event) (c : closing WrapHeap DefaultStrategy),
    crun map_to_list evs two_closers_end = Ok c → state (db (sys c)) = ClosedState.
Proof.
  split; [vm_compute; reflexivity|].
  refine (proj2 (proj2 (proj2 (closing_is_final map_to_list 4 (mkCondition (mkConfig 4 80 second 1000) true 1) []
    NewDefaultStrategy 0 demo_mem wide (Some SafeRead) 1 2 two_closers two_closers_end _ _ _))) _).
  - lia.
  - exact wide_ok.
  - apply get_ok_ok. vm_compute. exact I.
  - vm_compute. reflexivity.
Defined.

Definition a_write : list closing_event :=
  CeRun (EvCall 0 demo_p) :: replicate 14 (CeRun (EvWriter (at_time 0) 0)).

(** A ring is handed over; [drainProcessor] counts it, the reader takes it. *)
Definition reader_meets_drain : list closing_event :=
  a_write ++ map CeRun (hand_over (at_time 2)) ++ close_and_wait ++
  [CeClose 0; CeRun (EvRead (at_time 2) []); CeClose 0].

(** The writer has loaded the state and the reference to the active ring. *)
Definition writer_meets_close : list closing_event :=
  CeRun (EvCall 0 demo_p) :: replicate 4 (CeRun (EvWriter (at_time 0) 0)) ++
  close_and_wait ++ CeClose 0 :: replicate 10 (CeRun (EvWriter (at_time 0) 0)).

Definition written_late : closing WrapHeap DefaultStrategy :=
  get_ok (closing_start 1) (crun map_to_list writer_meets_close (closing_start 1)).

(** The call meets a switch of the monitor. *)
Definition close_meets_switch : list closing_event :=
  replicate 2 (CeRun (EvMonitor (at_time 2))) ++ CeClose 0 ::
  replicate 11 (CeRun (EvMonitor (at_time 2))) ++ a_write.

Definition left_open : closing WrapHeap DefaultStrategy :=
  get_ok (closing_start 1) (crun map_to_list close_meets_switch (closing_start 1)).

(** C25. What [Close] does not do among other goroutines.  A reader that takes
    the last ring between the length check and the [Pick] of
    [drainProcessor] makes it dereference nil.  A write that has passed the
    check of the state is accepted after [Close] has returned, into a pooled
    ring that no queue holds.  A [Close] that meets a switch returns without
    closing the buffer, which goes on accepting writes. *)
Theorem Close_races :
  crun map_to_list reader_meets_drain (closing_start 1) = Panics NilDereference ∧
  (crun map_to_list writer_meets_close (closing_start 1) = Ok written_late ∧
   closers written_late = [ClReturned true] ∧
   returned <$> writers (sys written_late) = [[None]] ∧
   state (db (sys written_late)) = ClosedState ∧
   pq_contents (pendingHeap (db (sys written_late))) = [] ∧
   currentBuffer (db (sys written_late)) = None ∧ goroutines (db (sys written_late)) = [] ∧
   bool_decide (active (db (sys written_late)) ∈ pool (db (sys written_late))) = true) ∧
  (crun map_to_list close_meets_switch (closing_start 1) = Ok left_open ∧
   closers left_open = [ClReturned false] ∧
   returned <$> writers (sys left_open) = [[None]] ∧
   state (db (sys left_open)) = WritingState ∧ monitor (sys left_open) = MIdle).
Proof.
  split; [vm_compute; reflexivity|]. split; (split; [apply get_ok_ok; vm_compute; exact I|]);
    split_and!; vm_compute; reflexivity.
Qed.
