(* ===== verification/AtomicX.v ===== *)
(** * The atomic wrappers of [src/utils/atomicx]

    The five generated integer types differ in their width and in how [Dec]
    writes minus one.  Every method is one atomic instruction, so a run of
    several goroutines is a sequence of method calls. *)
From S2P Require Import Prelude.
Open Scope Z_scope.

(** ** The integer types *)

(** A type: the wrap-around of its values, and the operand [Dec] adds. *)
Record kind := mkKind { wrap : Z → Z; minus_one : Z }.

Definition Int32 : kind := mkKind int32 (-1).
Definition Int64 : kind := mkKind int64 (-1).
Definition Uint32 : kind := mkKind uint32 (uint32 (Z.lnot 0)).
Definition Uint64 : kind := mkKind uint64 (uint64 (Z.lnot 0)).
(** [uintptr] has 64 bits on the platforms the program is built for. *)
Definition Uintptr : kind := mkKind uint64 (uint64 (Z.lnot 0)).

Definition kinds : list kind := [Int32; Int64; Uint32; Uint64; Uintptr].

(** The calls; the state is the value. *)
Inductive op :=
  | Add (delta : Z)
  | Store (val : Z)
  | Load
  | Swap (newVal : Z)
  | CompareAndSwap (oldVal newVal : Z)
  | Inc
  | Dec.

Inductive output := VInt (n : Z) | VBool (b : bool) | VUnit.

Definition exec_Add (k : kind) (delta value : Z) : Z * output :=
  let value := wrap k (value + delta) in (value, VInt value).

Definition exec (k : kind) (o : op) (value : Z) : Z * output :=
  match o with
  | Add delta => exec_Add k delta value
  | Store val => (val, VUnit)
  | Load => (value, VInt value)
  | Swap newVal => (newVal, VInt value)
  | CompareAndSwap oldVal newVal =>
      if decide (value = oldVal) then (newVal, VBool true) else (value, VBool false)
  | Inc => exec_Add k 1 value
  | Dec => exec_Add k (minus_one k) value
  end.

Fixpoint exec_all (k : kind) (os : list op) (value : Z) : Z * list output :=
  match os with
  | [] => (value, [])
  | o :: os =>
      let (value, v) := exec k o value in
      let (value, vs) := exec_all k os value in
      (value, v :: vs)
  end.

(** ** Lemmas *)

(** The change a counting call asks for. *)
Definition change (o : op) : Z :=
  match o with
  | Add delta => delta
  | Inc => 1
  | Dec => -1
  | _ => 0
  end.

Definition counting (o : op) : Prop :=
  match o with
  | Add _ | Inc | Dec | Load => True
  | _ => False
  end.

Definition total (os : list op) : Z := foldr (λ o n, change o + n) 0 os.

(** Wrapping is compatible with adding, and [minus_one] is minus one. *)
Lemma kind_laws (k : kind) :
  k ∈ kinds →
  (∀ a b : Z, wrap k (wrap k a + b) = wrap k (a + b)) ∧
  (∀ a : Z, wrap k (a + minus_one k) = wrap k (a - 1)).
Proof.
  assert (∀ w : Z, 0 < w → ∀ a : Z, unsigned w (a + unsigned w (Z.lnot 0)) = unsigned w (a - 1)) as Hu.
  { intros w Hw a. rewrite (Z.add_comm a), unsigned_idemp_add_l.
    change (Z.lnot 0) with (-1). f_equal. lia. }
  unfold kinds. rewrite !elem_of_cons, elem_of_nil.
  intros [->|[->|[->|[->|[->|[]]]]]]; split; cbn [wrap minus_one Int32 Int64 Uint32 Uint64 Uintptr];
    try (intros; apply signed_idemp_add_l); try (intros; apply unsigned_idemp_add_l);
    try (intros; by apply Hu); done.
Qed.

Lemma exec_counting (k : kind) (o : op) (v : Z) :
  k ∈ kinds → counting o → (exec k o (wrap k v)).1 = wrap k (v + change o).
Proof.
  intros Hk Ho. destruct (kind_laws k Hk) as [Hadd Hdec].
  destruct o; try done; cbn -[exec_Add]; unfold exec_Add; cbn [fst].
  - apply Hadd.
  - f_equal. lia.
  - apply Hadd.
  - by rewrite Hadd, Hdec.
Qed.

(** Counters count: for each of the five integer types, whatever the order
    in which the goroutines' additions, increments, decrements and loads take
    effect, the counter ends at its start plus the sum of the changes, wrapped
    to its width; any reordering of the calls ends at the same value, and an
    unsigned [Dec], which adds the complement of zero, counts down by one. *)
Theorem counters_count (k : kind) (os os' : list op) (v : Z)
    (Hk : k ∈ kinds) (Hos : Forall counting os) (Hperm : os ≡ₚ os') :
  (exec_all k os (wrap k v)).1 = wrap k (v + total os) ∧
  (exec_all k os' (wrap k v)).1 = wrap k (v + total os).
Proof.
  assert (∀ (l : list op) (u : Z), Forall counting l →
    (exec_all k l (wrap k u)).1 = wrap k (u + total l)) as Hall.
  { intros l u Hl. revert u. induction Hl as [|o l Ho Hl IH]; intros u; cbn [exec_all].
    - cbn [fst total foldr]. f_equal. lia.
    - change (total (o :: l)) with (change o + total l).
      destruct (exec k o (wrap k u)) as [u' r] eqn:E. pose proof (exec_counting k o u Hk Ho) as Ho'.
      rewrite E in Ho'. cbn [fst] in Ho'. subst u'. specialize (IH (u + change o)).
      destruct (exec_all k l _). cbn [fst] in *. rewrite IH. f_equal. lia. }
  split; [by apply Hall|]. rewrite Hall by (by rewrite <- Hperm). do 2 f_equal.
  clear -Hperm. unfold total. induction Hperm; cbn; lia.
Qed.

Lemma counters_count_witness :
  (exec_all Uint32 [Dec; Add 5; Inc] (wrap Uint32 0)).1 = 5 ∧
  (exec_all Uint32 [Inc; Dec; Add 5] (wrap Uint32 0)).1 = wrap Uint32 (0 + total [Dec; Add 5; Inc]).
Proof.
  split; [reflexivity|]. apply (counters_count Uint32 [Dec; Add 5; Inc] [Inc; Dec; Add 5] 0).
  - right. right. left.
  - repeat constructor.
  - symmetry. apply (Permutation_cons_append [Dec; Add 5] Inc).
Defined.
