(* ===== verification/AtomicBool.v ===== *)
(** * The atomic boolean of [src/utils/atomicx/bool.go]

    A boolean kept as 0 or 1 in a 32-bit integer.  Every method is one atomic
    instruction, so a run of several goroutines is a sequence of calls. *)
From S2P Require Import Prelude.
Open Scope Z_scope.

Inductive op :=
  | SetTrue
  | SetFalse
  | Load
  | Store (val : bool)
  | Swap (newVal : bool)
  | CompareAndSwap (oldVal newVal : bool).

Inductive output := VBool (b : bool) | VUnit.

Definition NewBool : Z := 0.

(** [if val { 1 } else { 0 }]. *)
Definition bit (val : bool) : Z := if val then 1 else 0.

Definition exec (o : op) (value : Z) : Z * output :=
  match o with
  | SetTrue => (1, VUnit)
  | SetFalse => (0, VUnit)
  | Load => (value, VBool (bool_decide (value = 1)))
  | Store val => (bit val, VUnit)
  | Swap newVal => (bit newVal, VBool (bool_decide (value = 1)))
  | CompareAndSwap oldVal newVal =>
      if decide (value = bit oldVal) then (bit newVal, VBool true) else (value, VBool false)
  end.

Fixpoint exec_all (os : list op) (value : Z) : Z * list output :=
  match os with
  | [] => (value, [])
  | o :: os =>
      let (value, v) := exec o value in
      let (value, vs) := exec_all os value in
      (value, v :: vs)
  end.

(** The same calls on a boolean. *)
Definition spec (o : op) (b : bool) : bool * output :=
  match o with
  | SetTrue => (true, VUnit)
  | SetFalse => (false, VUnit)
  | Load => (b, VBool b)
  | Store val => (val, VUnit)
  | Swap newVal => (newVal, VBool b)
  | CompareAndSwap oldVal newVal =>
      if Bool.eqb b oldVal then (newVal, VBool true) else (b, VBool false)
  end.

Fixpoint spec_all (os : list op) (b : bool) : bool * list output :=
  match os with
  | [] => (b, [])
  | o :: os =>
      let (b, v) := spec o b in
      let (b, vs) := spec_all os b in
      (b, v :: vs)
  end.

(** ** Properties *)

(** The atomic boolean behaves as a boolean: every sequence of its calls,
    from a new one, returns what the same calls on a plain boolean return, and
    its integer is 1 exactly when the boolean is true, so that compare-and-swap
    never fails for another representation of true. *)
Theorem Bool_is_boolean (os : list op) :
  let '(value, vs) := exec_all os NewBool in
  let '(b, ws) := spec_all os false in
  value = bit b ∧ vs = ws.
Proof.
  change NewBool with (bit false). generalize false. induction os as [|o os IH]; intros b; cbn.
  { done. }
  assert (exec o (bit b) = (bit (spec o b).1, (spec o b).2)) as ->
    by (destruct b, o as [| | |[]|[]|[] []]; reflexivity).
  destruct (spec o b) as [b' v]. cbn. specialize (IH b').
  destruct (exec_all os _), (spec_all os b'). destruct IH as [-> ->]. done.
Qed.
