(* ===== verification/TextTemplate.v ===== *)
(** * Templates of the package [text/template]

    What the generator of [src/utils/atomicx/gen] uses of Go's template
    package: text, fields of the current value, [range] and [if] with [else],
    and [end].  [parse] knows these actions and refuses the others.  A
    template writes its output piece by piece, and what was written before an
    error stays written. *)
From Stdlib Require Import Ascii String.
From S2P Require Import Prelude.
Open Scope string_scope.
Open Scope list_scope.

(** ** Templates *)

Inductive branch := If | Range.

Inductive node :=
  | Text (s : string)
  | Field (f : string)
  | Branch (k : branch) (f : string) (body els : list node).

(** ** Lexing *)

Inductive token := TText (s : string) | TAction (words : list string).

Definition text_of (acc : list ascii) : string := String.string_of_list_ascii (rev acc).

(** The parts between separators that are not empty. *)
Fixpoint split (sep : ascii) (acc : list ascii) (l : list ascii) : list string :=
  let flush := match acc with [] => [] | _ => [text_of acc] end in
  match l with
  | [] => flush
  | a :: l => if decide (a = sep) then flush ++ split sep [] l else split sep (a :: acc) l
  end.

Definition text_token (acc : list ascii) : list token :=
  match acc with [] => [] | _ => [TText (text_of acc)] end.

(** [inside] an action, [acc] are the characters since its beginning or since
    the end of the last one, backwards.  An action that is not closed is an
    error. *)
Fixpoint lex (inside : bool) (acc : list ascii) (l : list ascii) : option (list token) :=
  match l with
  | [] => if inside then None else Some (text_token acc)
  | "{"%char :: (("{"%char :: l) as l') =>
      if inside then lex true ("{"%char :: acc) l'
      else ts ← lex true [] l; Some (text_token acc ++ ts)
  | "}"%char :: (("}"%char :: l) as l') =>
      if inside then ts ← lex false [] l; Some (TAction (split " " [] (rev acc)) :: ts)
      else lex false ("}"%char :: acc) l'
  | a :: l => lex inside (a :: acc) l
  end.

(** ** Parsing *)

(** A letter, a digit or an underscore. *)
Definition is_alnum (a : ascii) : bool :=
  let n := nat_of_ascii a in
  ((48 <=? n) && (n <=? 57) || (65 <=? n) && (n <=? 90) || (97 <=? n) && (n <=? 122) || (n =? 95))%nat.

Definition field_name (w : string) : option string :=
  match w with
  | String "."%char ((String _ _) as f) => if forallb is_alnum (String.list_ascii_of_string f) then Some f else None
  | _ => None
  end.

(** An action that is open: its keyword, its field, the nodes before [else]
    once that is read, and the nodes before the action, backwards. *)
Record frame := mkFrame {
  keyword : branch; arg : string; before_else : option (list node); enclosing : list node
}.

Definition close_frame (fr : frame) (cur : list node) : list node :=
  match before_else fr with
  | None => Branch (keyword fr) (arg fr) (rev cur) [] :: enclosing fr
  | Some body => Branch (keyword fr) (arg fr) body (rev cur) :: enclosing fr
  end.

(** [cur] are the nodes of the innermost open action, backwards. *)
Fixpoint parse_tokens (ts : list token) (cur : list node) (stack : list frame) : option (list node) :=
  match ts with
  | [] => match stack with [] => Some (rev cur) | _ => None end
  | TText s :: ts => parse_tokens ts (Text s :: cur) stack
  | TAction [w] :: ts =>
      if decide (w = "end"%string) then
        match stack with
        | fr :: stack => parse_tokens ts (close_frame fr cur) stack
        | [] => None
        end
      else if decide (w = "else"%string) then
        match stack with
        | mkFrame k f None out :: stack => parse_tokens ts [] (mkFrame k f (Some (rev cur)) out :: stack)
        | _ => None
        end
      else f ← field_name w; parse_tokens ts (Field f :: cur) stack
  | TAction [w; x] :: ts =>
      k ← (if decide (w = "if"%string) then Some If
           else if decide (w = "range"%string) then Some Range else None);
      f ← field_name x;
      parse_tokens ts [] (mkFrame k f None cur :: stack)
  | TAction _ :: _ => None
  end.

Definition parse (s : string) : option (list node) :=
  ts ← lex false [] (String.list_ascii_of_string s); parse_tokens ts [] [].

(** ** Execution *)

Inductive value :=
  | VString (s : string)
  | VBool (b : bool)
  | VList (vs : list value)
  | VStruct (fields : list (string * value)).

(** [fmt.Fprint] *)
Fixpoint print (v : value) : string :=
  match v with
  | VString s => s
  | VBool b => if b then "true" else "false"
  | VList vs => "[" +:+ String.concat " " (print <$> vs) +:+ "]"
  | VStruct fs => "{" +:+ String.concat " " ((λ x, print x.2) <$> fs) +:+ "}"
  end.

(** [IsTrue]: a value is true unless it is the zero value or empty. *)
Definition truth (v : value) : bool :=
  match v with
  | VString s => negb (bool_decide (s = ""))
  | VBool b => b
  | VList vs => negb (bool_decide (length vs = 0%nat))
  | VStruct _ => true
  end.

Definition get_field (f : string) (dot : value) : option value :=
  match dot with
  | VStruct fs => (λ x, x.2.2) <$> list_find (λ x, x.1 = f) fs
  | _ => None
  end.

(** The pieces written, and whether the execution came to its end. *)
Definition output : Type := list string * bool.

Definition then_ (x : output) (y : output) : output :=
  if x.2 then (x.1 ++ y.1, y.2) else x.

Fixpoint exec (n : node) (dot : value) : output :=
  match n with
  | Text s => ([s], true)
  | Field f => match get_field f dot with Some v => ([print v], true) | None => ([], false) end
  | Branch k f body els =>
      let list := fix list (ns : list node) (dot : value) : output :=
        match ns with [] => ([], true) | n :: ns => then_ (exec n dot) (list ns dot) end in
      match k, get_field f dot with
      | If, Some v => list (if truth v then body else els) dot
      | Range, Some (VList []) => list els dot
      | Range, Some (VList vs) => foldr (λ v, then_ (list body v)) ([], true) vs
      | _, _ => ([], false)
      end
  end.

Definition exec_list (ns : list node) (dot : value) : output :=
  foldr (λ n, then_ (exec n dot)) ([], true) ns.

Definition join (ps : list string) : string := foldr String.append "" ps.

(** Writing the pieces; write number [k] fails if [fails k]. *)
Fixpoint write_all (fails : nat → bool) (k : nat) (pieces : list string) : string * bool :=
  match pieces with
  | [] => ("", true)
  | p :: ps =>
      if fails k then ("", false) else let (s, ok) := write_all fails (S k) ps in (p +:+ s, ok)
  end.

(** [Execute]: what reaches the writer, and whether there is no error. *)
Definition Execute (t : list node) (data : value) (fails : nat → bool) : string * bool :=
  let (pieces, ok) := exec_list t data in
  let (s, ok') := write_all fails 0 pieces in (s, ok' && ok).

(** ** Lemmas *)

Lemma then_assoc (x y z : output) : then_ (then_ x y) z = then_ x (then_ y z).
Proof. destruct x as [l []], y as [l' []]; cbn; [by rewrite app_assoc|done..]. Qed.

Lemma then_nil_l (x : output) : then_ ([], true) x = x.
Proof. by destruct x. Qed.

Lemma exec_list_app (ns ns' : list node) (dot : value) :
  exec_list (ns ++ ns') dot = then_ (exec_list ns dot) (exec_list ns' dot).
Proof.
  unfold exec_list. rewrite foldr_app. induction ns as [|n ns IH]; cbn [foldr].
  - symmetry. apply then_nil_l.
  - by rewrite IH, then_assoc.
Qed.

(** A range over a list executes its body once for each element. *)
Lemma exec_range (f : string) (body : list node) (dot : value) (v : value) (vs : list value) :
  get_field f dot = Some (VList (v :: vs)) →
  exec (Branch Range f body []) dot = foldr (λ v, then_ (exec_list body v)) ([], true) (v :: vs).
Proof.
  intros E. cbn [exec]. rewrite E. clear E. generalize (v :: vs). intros l.
  induction l as [|x l IH]; [done|]. cbn [foldr]. rewrite IH. f_equal.
  clear. induction body as [|n ns IH]; [done|]. cbn. by rewrite IH.
Qed.

(** What reaches the writer is a prefix of the output, and all of it when no
    write fails. *)
Lemma write_all_prefix (fails : nat → bool) (k : nat) (pieces : list string) :
  ∃ j : nat, (write_all fails k pieces).1 = join (take j pieces) ∧
    if (write_all fails k pieces).2 then (length pieces ≤ j)%nat else fails (k + j)%nat = true.
Proof.
  revert k. induction pieces as [|p ps IH]; intros k; cbn.
  { exists 0%nat. split; [done|lia]. }
  destruct (fails k) eqn:E.
  { exists 0%nat. cbn. by rewrite Nat.add_0_r. }
  destruct (IH (S k)) as (j & E1 & E2). destruct (write_all fails (S k) ps) as [s ok].
  cbn in *. subst s. exists (S j). split; [done|].
  destruct ok; [lia|]. by rewrite Nat.add_succ_r.
Qed.

(** ** The parser inverts the listing of the tokens *)

Definition keyword_of (k : branch) : string := match k with If => "if" | Range => "range" end.

Fixpoint tokens (n : node) : list token :=
  match n with
  | Text s => [TText s]
  | Field f => [TAction [String "."%char f]]
  | Branch k f body els =>
      TAction [keyword_of k; String "."%char f] :: concat (tokens <$> body) ++
      match els with [] => [] | _ => TAction ["else"] :: concat (tokens <$> els) end ++
      [TAction ["end"]]
  end.

(** The fields are names. *)
Fixpoint well_named (n : node) : Prop :=
  match n with
  | Text _ => True
  | Field f => field_name (String "."%char f) = Some f
  | Branch _ f body els =>
      field_name (String "."%char f) = Some f ∧
      foldr (λ n P, well_named n ∧ P) True body ∧ foldr (λ n P, well_named n ∧ P) True els
  end.

(** Induction on a template and on the lists of its branches. *)
Lemma node_rect_lists (P : node → Prop) :
  (∀ s, P (Text s)) → (∀ f, P (Field f)) →
  (∀ k f body els, Forall P body → Forall P els → P (Branch k f body els)) → ∀ n, P n.
Proof.
  intros HT HF HB. fix IH 1. intros [s|f|k f body els]; [apply HT|apply HF|].
  apply HB; [induction body|induction els]; constructor; auto.
Qed.

Lemma parse_tokens_node (n : node) :
  well_named n → ∀ (ts : list token) (cur : list node) (stack : list frame),
  parse_tokens (tokens n ++ ts) cur stack = parse_tokens ts (n :: cur) stack.
Proof.
  assert (∀ ns, Forall (λ x, well_named x → ∀ ts cur stack,
      parse_tokens (tokens x ++ ts) cur stack = parse_tokens ts (x :: cur) stack) ns →
    foldr (λ n P, well_named n ∧ P) True ns → ∀ ts cur stack,
    parse_tokens (concat (tokens <$> ns) ++ ts) cur stack = parse_tokens ts (rev ns ++ cur) stack) as Hlist.
  { induction 1 as [|x ns Hn _ IH]; [done|]. intros [Hw Hws] ts cur stack. cbn [fmap list_fmap concat rev].
    rewrite <- app_assoc, Hn by done. rewrite IH by done. by rewrite <- app_assoc. }
  induction n as [s|f|k f body els Hb He] using node_rect_lists; intros Hw ts cur stack; [done| |].
  - cbn [well_named tokens app] in *. cbn [parse_tokens].
    rewrite !decide_False by done. by rewrite Hw.
  - destruct Hw as (Hf & Hwb & Hwe). cbn [tokens app parse_tokens].
    replace (if decide (keyword_of k = "if") then Some If
      else if decide (keyword_of k = "range") then Some Range else None) with (Some k) by (by destruct k).
    cbn [mbind option_bind]. rewrite Hf. cbn [mbind option_bind].
    rewrite <- app_assoc, Hlist by done. rewrite app_nil_r.
    destruct els as [|e els]; [cbn; by rewrite rev_involutive|].
    rewrite <- app_assoc. cbn [app]. cbn [parse_tokens]. rewrite decide_False by done.
    rewrite decide_True by done. rewrite Hlist by done. rewrite app_nil_r.
    cbn -[rev]. unfold close_frame. cbn -[rev]. by rewrite !rev_involutive.
Qed.

Theorem parse_inverts_tokens (ns : list node) :
  foldr (λ n P, well_named n ∧ P) True ns → parse_tokens (concat (tokens <$> ns)) [] [] = Some ns.
Proof.
  intros Hw. rewrite <- (app_nil_r (concat _)).
  assert (∀ ts cur, parse_tokens (concat (tokens <$> ns) ++ ts) cur [] = parse_tokens ts (rev ns ++ cur) []) as H.
  { induction ns as [|n ns IH]; [done|]. intros ts cur. destruct Hw as [Hn Hw].
    cbn [fmap list_fmap concat rev]. rewrite <- app_assoc, parse_tokens_node by done.
    rewrite IH by done. by rewrite <- app_assoc. }
  rewrite H, app_nil_r. cbn. by rewrite rev_involutive.
Qed.
