(* ===== verification/AtomicGen.v ===== *)
(** * The generator of the atomic wrappers

    [src/utils/atomicx/gen/gen.go], the program that writes
    [atomic_generated.go] from its template: the file the repository has is
    what the generator writes, up to the layout [gofmt] gives it. *)
From Stdlib Require Import Ascii String.
From S2P Require Import Prelude.
From S2P Require Import AtomicX.
From S2P Require Import TextTemplate.
Open Scope string_scope.
Open Scope list_scope.

(** ** File names: [filepath.Clean] and [filepath.Join] on Unix *)

(** An element of a path; [out] are the elements before it, backwards. *)
Definition clean_element (rooted : bool) (out : list string) (e : string) : list string :=
  if decide (e = ".") then out
  else if decide (e = "..") then
    match out with
    | [] => if rooted then [] else [".."]
    | x :: out' => if decide (x = "..") then ".." :: out else out'
    end
  else e :: out.

Definition Clean (path : string) : string :=
  let rooted := match path with String "/"%char _ => true | _ => false end in
  let elements := rev (foldl (clean_element rooted) [] (split "/" [] (list_ascii_of_string path))) in
  if rooted then "/" +:+ String.concat "/" elements
  else match elements with [] => "." | _ => String.concat "/" elements end.

Fixpoint Join (elem : list string) : string :=
  match elem with
  | [] => ""
  | "" :: elem => Join elem
  | _ => Clean (String.concat "/" elem)
  end.

(** ** The program *)

Record TypeDef := mkTypeDef { Name : string; Base : string; AtomicSuffix : string; IsSigned : bool }.

Definition types : list TypeDef := [
  mkTypeDef "Int32" "int32" "Int32" true;
  mkTypeDef "Int64" "int64" "Int64" true;
  mkTypeDef "Uint32" "uint32" "Uint32" false;
  mkTypeDef "Uint64" "uint64" "Uint64" false;
  mkTypeDef "Uintptr" "uintptr" "Uintptr" false].

(** What the template sees of a type. *)
Definition TypeDef_value (t : TypeDef) : value :=
  VStruct [("Name", VString (Name t)); ("Base", VString (Base t));
           ("AtomicSuffix", VString (AtomicSuffix t)); ("IsSigned", VBool (IsSigned t))].

Definition basePath (pwd : string) : string := Join [pwd; "utils"; "atomicx"].
Definition template_path (pwd : string) : string := Join [basePath pwd; "gen"; "atomic_generated.go.tmpl"].
Definition output_path (pwd : string) : string := Join [basePath pwd; "atomic_generated.go"].

(** [pwd] is the result of [os.Getwd], if it has one, and [fs] the contents of
    the files.  When the file cannot be created, [f] is nil and every write to
    it fails. *)
Definition main (pwd : option string) (can_create : string → bool) (fails : nat → bool)
    (fs : gmap string string) : gmap string string * result unit :=
  let pwd := default "" pwd in
  match fs !! template_path pwd ≫= parse with
  | None => (fs, Panics LibraryPanic)
  | Some tmpl =>
      let data := VStruct [("Types", VList (TypeDef_value <$> types))] in
      if can_create (output_path pwd) then
        let (s, ok) := Execute tmpl data fails in
        (<[output_path pwd := s]> fs, if ok then Ok () else Panics ExplicitPanic)
      else
        let (_, ok) := Execute tmpl data (λ _, true) in
        (fs, if ok then Ok () else Panics ExplicitPanic)
  end.

(** ** The two files *)

Definition newline : ascii := "010".
Definition tab : ascii := "009".
Definition quote : ascii := "034".

Definition text (lines : list string) : string := String.concat (String newline "") lines.

(** A line of the import list. *)
Definition quoted (s : string) : string := String tab (String quote (s +:+ String quote "")).

(** The template, [gen/atomic_generated.go.tmpl]. *)
Definition atomic_generated_tmpl : string := text [
  "// Code generated by go generate; DO NOT EDIT.";
  "// Templates: atomic_generated.go.tmpl";
  "";
  "package atomicx";
  "";
  "import (";
  quoted "sync/atomic";
  quoted "unsafe";
  ")";
  "";
  "{{range .Types}}";
  "// {{.Name}} Atomic type encapsulation";
  "type {{.Name}} struct {";
  "	value {{.Base}}";
  "}";
  "";
  "// New{{.Name}} Create a new {{.Name}} atomic object";
  "func New{{.Name}}(v {{.Base}}) *{{.Name}} {";
  "	return &{{.Name}}{value: v}";
  "}";
  "";
  "// Add Atomic addition";
  "func (a *{{.Name}}) Add(delta {{.Base}}) {{.Base}} {";
  "	return atomic.Add{{.AtomicSuffix}}((*{{.Base}})(unsafe.Pointer(&a.value)), delta)";
  "}";
  "";
  "// Store Atomic storage";
  "func (a *{{.Name}}) Store(val {{.Base}}) {";
  "	atomic.Store{{.AtomicSuffix}}((*{{.Base}})(unsafe.Pointer(&a.value)), val)";
  "}";
  "";
  "// Load Atomic loading";
  "func (a *{{.Name}}) Load() {{.Base}} {";
  "	return atomic.Load{{.AtomicSuffix}}((*{{.Base}})(unsafe.Pointer(&a.value)))";
  "}";
  "";
  "// Swap Atomic swap";
  "func (a *{{.Name}}) Swap(newVal {{.Base}}) {{.Base}} {";
  "	return atomic.Swap{{.AtomicSuffix}}((*{{.Base}})(unsafe.Pointer(&a.value)), newVal)";
  "}";
  "";
  "// CompareAndSwap compare and swap";
  "func (a *{{.Name}}) CompareAndSwap(oldVal, newVal {{.Base}}) bool {";
  "	return atomic.CompareAndSwap{{.AtomicSuffix}}((*{{.Base}})(unsafe.Pointer(&a.value)), oldVal, newVal)";
  "}";
  "";
  "// Inc Atomic increment";
  "func (a *{{.Name}}) Inc() {{.Base}} {";
  "	return a.Add(1)";
  "}";
  "";
  "// Dec Atomic decrement";
  "func (a *{{.Name}}) Dec() {{.Base}} {";
  "    {{if .IsSigned}}";
  "        return a.Add(-1)";
  "    {{else}}";
  "        return a.Add(^{{.Base}}(0))";
  "    {{end}}";
  "}";
  "{{end}}"
].

(** The file in the repository, [atomic_generated.go]. *)
Definition atomic_generated : string := text [
  "// Code generated by go generate; DO NOT EDIT.";
  "// Templates: atomic_generated.go.tmpl";
  "";
  "package atomicx";
  "";
  "import (";
  quoted "sync/atomic";
  quoted "unsafe";
  ")";
  "";
  "// Int32 Atomic type encapsulation";
  "type Int32 struct {";
  "	value int32";
  "}";
  "";
  "// NewInt32 Create a new Int32 atomic object";
  "func NewInt32(v int32) *Int32 {";
  "	return &Int32{value: v}";
  "}";
  "";
  "// Add Atomic addition";
  "func (a *Int32) Add(delta int32) int32 {";
  "	return atomic.AddInt32((*int32)(unsafe.Pointer(&a.value)), delta)";
  "}";
  "";
  "// Store Atomic storage";
  "func (a *Int32) Store(val int32) {";
  "	atomic.StoreInt32((*int32)(unsafe.Pointer(&a.value)), val)";
  "}";
  "";
  "// Load Atomic loading";
  "func (a *Int32) Load() int32 {";
  "	return atomic.LoadInt32((*int32)(unsafe.Pointer(&a.value)))";
  "}";
  "";
  "// Swap Atomic swap";
  "func (a *Int32) Swap(newVal int32) int32 {";
  "	return atomic.SwapInt32((*int32)(unsafe.Pointer(&a.value)), newVal)";
  "}";
  "";
  "// CompareAndSwap compare and swap";
  "func (a *Int32) CompareAndSwap(oldVal, newVal int32) bool {";
  "	return atomic.CompareAndSwapInt32((*int32)(unsafe.Pointer(&a.value)), oldVal, newVal)";
  "}";
  "";
  "// Inc Atomic increment";
  "func (a *Int32) Inc() int32 {";
  "	return a.Add(1)";
  "}";
  "";
  "// Dec Atomic decrement";
  "func (a *Int32) Dec() int32 {";
  "";
  "	return a.Add(-1)";
  "";
  "}";
  "";
  "// Int64 Atomic type encapsulation";
  "type Int64 struct {";
  "	value int64";
  "}";
  "";
  "// NewInt64 Create a new Int64 atomic object";
  "func NewInt64(v int64) *Int64 {";
  "	return &Int64{value: v}";
  "}";
  "";
  "// Add Atomic addition";
  "func (a *Int64) Add(delta int64) int64 {";
  "	return atomic.AddInt64((*int64)(unsafe.Pointer(&a.value)), delta)";
  "}";
  "";
  "// Store Atomic storage";
  "func (a *Int64) Store(val int64) {";
  "	atomic.StoreInt64((*int64)(unsafe.Pointer(&a.value)), val)";
  "}";
  "";
  "// Load Atomic loading";
  "func (a *Int64) Load() int64 {";
  "	return atomic.LoadInt64((*int64)(unsafe.Pointer(&a.value)))";
  "}";
  "";
  "// Swap Atomic swap";
  "func (a *Int64) Swap(newVal int64) int64 {";
  "	return atomic.SwapInt64((*int64)(unsafe.Pointer(&a.value)), newVal)";
  "}";
  "";
  "// CompareAndSwap compare and swap";
  "func (a *Int64) CompareAndSwap(oldVal, newVal int64) bool {";
  "	return atomic.CompareAndSwapInt64((*int64)(unsafe.Pointer(&a.value)), oldVal, newVal)";
  "}";
  "";
  "// Inc Atomic increment";
  "func (a *Int64) Inc() int64 {";
  "	return a.Add(1)";
  "}";
  "";
  "// Dec Atomic decrement";
  "func (a *Int64) Dec() int64 {";
  "";
  "	return a.Add(-1)";
  "";
  "}";
  "";
  "// Uint32 Atomic type encapsulation";
  "type Uint32 struct {";
  "	value uint32";
  "}";
  "";
  "// NewUint32 Create a new Uint32 atomic object";
  "func NewUint32(v uint32) *Uint32 {";
  "	return &Uint32{value: v}";
  "}";
  "";
  "// Add Atomic addition";
  "func (a *Uint32) Add(delta uint32) uint32 {";
  "	return atomic.AddUint32((*uint32)(unsafe.Pointer(&a.value)), delta)";
  "}";
  "";
  "// Store Atomic storage";
  "func (a *Uint32) Store(val uint32) {";
  "	atomic.StoreUint32((*uint32)(unsafe.Pointer(&a.value)), val)";
  "}";
  "";
  "// Load Atomic loading";
  "func (a *Uint32) Load() uint32 {";
  "	return atomic.LoadUint32((*uint32)(unsafe.Pointer(&a.value)))";
  "}";
  "";
  "// Swap Atomic swap";
  "func (a *Uint32) Swap(newVal uint32) uint32 {";
  "	return atomic.SwapUint32((*uint32)(unsafe.Pointer(&a.value)), newVal)";
  "}";
  "";
  "// CompareAndSwap compare and swap";
  "func (a *Uint32) CompareAndSwap(oldVal, newVal uint32) bool {";
  "	return atomic.CompareAndSwapUint32((*uint32)(unsafe.Pointer(&a.value)), oldVal, newVal)";
  "}";
  "";
  "// Inc Atomic increment";
  "func (a *Uint32) Inc() uint32 {";
  "	return a.Add(1)";
  "}";
  "";
  "// Dec Atomic decrement";
  "func (a *Uint32) Dec() uint32 {";
  "";
  "	return a.Add(^uint32(0))";
  "";
  "}";
  "";
  "// Uint64 Atomic type encapsulation";
  "type Uint64 struct {";
  "	value uint64";
  "}";
  "";
  "// NewUint64 Create a new Uint64 atomic object";
  "func NewUint64(v uint64) *Uint64 {";
  "	return &Uint64{value: v}";
  "}";
  "";
  "// Add Atomic addition";
  "func (a *Uint64) Add(delta uint64) uint64 {";
  "	return atomic.AddUint64((*uint64)(unsafe.Pointer(&a.value)), delta)";
  "}";
  "";
  "// Store Atomic storage";
  "func (a *Uint64) Store(val uint64) {";
  "	atomic.StoreUint64((*uint64)(unsafe.Pointer(&a.value)), val)";
  "}";
  "";
  "// Load Atomic loading";
  "func (a *Uint64) Load() uint64 {";
  "	return atomic.LoadUint64((*uint64)(unsafe.Pointer(&a.value)))";
  "}";
  "";
  "// Swap Atomic swap";
  "func (a *Uint64) Swap(newVal uint64) uint64 {";
  "	return atomic.SwapUint64((*uint64)(unsafe.Pointer(&a.value)), newVal)";
  "}";
  "";
  "// CompareAndSwap compare and swap";
  "func (a *Uint64) CompareAndSwap(oldVal, newVal uint64) bool {";
  "	return atomic.CompareAndSwapUint64((*uint64)(unsafe.Pointer(&a.value)), oldVal, newVal)";
  "}";
  "";
  "// Inc Atomic increment";
  "func (a *Uint64) Inc() uint64 {";
  "	return a.Add(1)";
  "}";
  "";
  "// Dec Atomic decrement";
  "func (a *Uint64) Dec() uint64 {";
  "";
  "	return a.Add(^uint64(0))";
  "";
  "}";
  "";
  "// Uintptr Atomic type encapsulation";
  "type Uintptr struct {";
  "	value uintptr";
  "}";
  "";
  "// NewUintptr Create a new Uintptr atomic object";
  "func NewUintptr(v uintptr) *Uintptr {";
  "	return &Uintptr{value: v}";
  "}";
  "";
  "// Add Atomic addition";
  "func (a *Uintptr) Add(delta uintptr) uintptr {";
  "	return atomic.AddUintptr((*uintptr)(unsafe.Pointer(&a.value)), delta)";
  "}";
  "";
  "// Store Atomic storage";
  "func (a *Uintptr) Store(val uintptr) {";
  "	atomic.StoreUintptr((*uintptr)(unsafe.Pointer(&a.value)), val)";
  "}";
  "";
  "// Load Atomic loading";
  "func (a *Uintptr) Load() uintptr {";
  "	return atomic.LoadUintptr((*uintptr)(unsafe.Pointer(&a.value)))";
  "}";
  "";
  "// Swap Atomic swap";
  "func (a *Uintptr) Swap(newVal uintptr) uintptr {";
  "	return atomic.SwapUintptr((*uintptr)(unsafe.Pointer(&a.value)), newVal)";
  "}";
  "";
  "// CompareAndSwap compare and swap";
  "func (a *Uintptr) CompareAndSwap(oldVal, newVal uintptr) bool {";
  "	return atomic.CompareAndSwapUintptr((*uintptr)(unsafe.Pointer(&a.value)), oldVal, newVal)";
  "}";
  "";
  "// Inc Atomic increment";
  "func (a *Uintptr) Inc() uintptr {";
  "	return a.Add(1)";
  "}";
  "";
  "// Dec Atomic decrement";
  "func (a *Uintptr) Dec() uintptr {";
  "";
  "	return a.Add(^uintptr(0))";
  "";
  "}";
  ""
].

(** What [gofmt] keeps: the lines without the space around them, and no empty
    ones. *)
Fixpoint strip (l : list ascii) : list ascii :=
  match l with
  | a :: l' => if decide (a = " "%char ∨ a = tab) then strip l' else l
  | [] => []
  end.

Definition strip_line (s : string) : string :=
  string_of_list_ascii (rev (strip (rev (strip (list_ascii_of_string s))))).

Definition code_lines (s : string) : list string :=
  filter (λ l, l ≠ "") (strip_line <$> split newline [] (list_ascii_of_string s)).

(** ** The output *)

Definition parsed : list node := default [] (parse atomic_generated_tmpl).
Definition data : value := VStruct [("Types", VList (TypeDef_value <$> types))].

(** The pieces the generator writes. *)
Definition pieces : list string := Eval vm_compute in (exec_list parsed data).1.

Lemma parsed_ok : parse atomic_generated_tmpl = Some parsed.
Proof. vm_compute. reflexivity. Qed.

Lemma pieces_ok : exec_list parsed data = (pieces, true).
Proof. vm_compute. reflexivity. Qed.

Lemma pieces_lines : code_lines (join pieces) = code_lines atomic_generated.
Proof. vm_compute. reflexivity. Qed.

Lemma Execute_parsed (fails : nat → bool) : Execute parsed data fails = write_all fails 0 pieces.
Proof.
  unfold Execute. rewrite pieces_ok. destruct (write_all fails 0 pieces) as [s ok].
  by rewrite andb_true_r.
Qed.

Lemma write_all_ok (fails : nat → bool) (k : nat) (ps : list string) :
  (∀ j : nat, (k ≤ j < k + length ps)%nat → fails j = false) → write_all fails k ps = (join ps, true).
Proof.
  revert k. induction ps as [|p ps IH]; intros k Hf; [done|]. cbn. rewrite Hf by (cbn; lia).
  rewrite IH; [done|]. intros j Hj. apply Hf. cbn. lia.
Qed.

Lemma write_all_fails (fails : nat → bool) (k : nat) (ps : list string) (j : nat) :
  (j < length ps)%nat → fails (k + j)%nat = true → (∀ i : nat, (i < j)%nat → fails (k + i)%nat = false) →
  write_all fails k ps = (join (take j ps), false).
Proof.
  revert k j. induction ps as [|p ps IH]; intros k j Hj Hf Hlt; [cbn in Hj; lia|].
  destruct j as [|j]; cbn.
  - by rewrite Nat.add_0_r in Hf; rewrite Hf.
  - pose proof (Hlt 0%nat ltac:(lia)) as H0. rewrite Nat.add_0_r in H0. rewrite H0.
    rewrite (IH (S k) j); [done| | |].
    + cbn in Hj. lia.
    + by rewrite Nat.add_succ_comm.
    + intros i Hi. rewrite Nat.add_succ_comm. apply Hlt. lia.
Qed.

(** ** Properties *)

(** C36. The generator reproduces the wrappers of the repository.  Run in a
    directory under which the template is the one of the repository, it
    writes, when the output can be created and no write fails, a file with
    the lines of [atomic_generated.go], up to indentation and empty lines.
    When the output cannot be created it panics and changes no file; when a
    write fails it panics too, and the old file has been replaced by what was
    written before. *)
Theorem generator_reproduces_wrappers (pwd : option string) (can_create : string → bool)
    (fails : nat → bool) (fs : gmap string string)
    (Htmpl : fs !! template_path (default "" pwd) = Some atomic_generated_tmpl) :
  let out := output_path (default "" pwd) in
  ∃ ps : list string, code_lines (join ps) = code_lines atomic_generated ∧
    (can_create out = false → main pwd can_create fails fs = (fs, Panics ExplicitPanic)) ∧
    (can_create out = true → (∀ k : nat, (k < length ps)%nat → fails k = false) →
      main pwd can_create fails fs = (<[out := join ps]> fs, Ok ())) ∧
    (∀ k : nat, can_create out = true → (k < length ps)%nat → fails k = true →
      (∀ j : nat, (j < k)%nat → fails j = false) →
      main pwd can_create fails fs = (<[out := join (take k ps)]> fs, Panics ExplicitPanic)).
Proof.
  intros out. exists pieces. split; [apply pieces_lines|].
  unfold main. rewrite Htmpl. cbn [mbind option_bind]. rewrite parsed_ok.
  fold out data. rewrite !Execute_parsed. split_and!.
  - intros ->. rewrite (write_all_fails (λ _, true) 0 pieces 0); [done|cbn; lia|done|lia].
  - intros -> Hf. rewrite write_all_ok; [done|]. intros j Hj. apply Hf. lia.
  - intros k -> Hk Hf Hlt. by rewrite (write_all_fails fails 0 pieces k).
Qed.

(** In a directory with nothing but the template. *)
Definition bare : gmap string string := {[template_path "/" := atomic_generated_tmpl]}.

Lemma generator_reproduces_wrappers_witness :
  ∃ ps : list string, code_lines (join ps) = code_lines atomic_generated ∧
    main (Some "/") (λ _, true) (λ _, false) bare =
      (<["/utils/atomicx/atomic_generated.go" := join ps]> bare, Ok ()).
Proof.
  destruct (generator_reproduces_wrappers (Some "/") (λ _, true) (λ _, false) bare) as (ps & E & _ & E1 & _).
  - apply lookup_singleton_eq.
  - exists ps. split; [exact E|]. exact (E1 eq_refl (λ k _, eq_refl)).
Defined.

(** A template that is missing or not well formed is noticed before any file
    is touched. *)
Theorem generator_needs_template (pwd : option string) (can_create : string → bool)
    (fails : nat → bool) (fs : gmap string string)
    (Htmpl : fs !! template_path (default "" pwd) ≫= parse = None) :
  main pwd can_create fails fs = (fs, Panics LibraryPanic).
Proof. unfold main. by rewrite Htmpl. Qed.

(** The types of the generator are those [AtomicX] models: signed types
    subtract by adding -1, the others by adding the complement of 0. *)
Definition wrap_of (base : string) : option (Z → Z) :=
  if decide (base = "int32") then Some int32
  else if decide (base = "int64") then Some int64
  else if decide (base = "uint32") then Some uint32
  else if decide (base = "uint64" ∨ base = "uintptr") then Some uint64
  else None.

Definition kind_of (t : TypeDef) : option kind :=
  w ← wrap_of (Base t); Some (mkKind w (if IsSigned t then -1 else w (Z.lnot 0))%Z).

Lemma types_are_kinds : kind_of <$> types = Some <$> kinds.
Proof. reflexivity. Qed.
