(* ===== verification/Prometheus.v ===== *)
(** * The Prometheus collector of [src/core/metrics/prometheus.go]

    The collector passes what it observes to the counters, gauges and the
    histogram of the Prometheus client library.  The library is not modelled:
    the collector's state is the list of the calls it has made, what a counter
    refuses to add is an instance of the class [CounterLibrary], and a registry
    is one of the class of [Interfaces]. *)
From Stdlib Require Import SpecFloat.
From S2P Require Import Prelude.
From S2P Require Import Consts.
From S2P Require Import Interfaces.
From S2P Require Import Float64.
Open Scope go_scope.

(** ** The interface [Collector] of [src/core/metrics/types.go] *)

Class Collector (M : Type) := {
  CollectSwitcher : bool → M → M;
  ObserveWrite : float64 → float64 → float64 → M → result M;
  ObserveRead : float64 → float64 → float64 → M → result M;
  AllocInc : float64 → M → result M;
  ObserveAsyncGoroutine : Z → float64 → M → result M;
  SwitchWithLatency : Z → float64 → float64 → M → result M;
  ObserveActive : float64 → float64 → M → result M
}.

(** ** The Prometheus implementation *)

Inductive metric :=
  | writeCounter | writeSizes | writeErrors
  | readCounter | readSizes | readErrors
  | switchCounts | switchLatency | skipSwitchCounts
  | activeChannelDataCounts | activeChannelDataSizes
  | asyncWorkers | poolAlloc.

#[export] Instance metric_eq_dec : EqDecision metric.
Proof. solve_decision. Defined.

(** A call of the client library. *)
Inductive metric_call :=
  | MAdd (m : metric) (v : float64)
  | MInc (m : metric)
  | MSet (m : metric) (v : float64)
  | MObserve (m : metric) (v : float64).

(** The metrics that are counters; the others are gauges and a histogram. *)
Definition is_counter (m : metric) : bool :=
  match m with
  | activeChannelDataCounts | activeChannelDataSizes | asyncWorkers | switchLatency => false
  | _ => true
  end.

(** [Counter.Add] of the library: whether it panics on a value.  It is
    documented to panic on the negative ones. *)
Class CounterLibrary := { Add_panics : float64 → bool }.

Class CounterLaws `{CounterLibrary} : Prop := {
  Add_panics_negative (v : float64) : f64_ltb v (f64_of_Z 0) = true → Add_panics v = true;
  Add_accepts (v : float64) : f64_leb (f64_of_Z 0) v = true → Add_panics v = false
}.

(** A library that panics on nothing else. *)
Definition negative_counters : CounterLibrary := {| Add_panics v := f64_ltb v (f64_of_Z 0) |}.

Lemma negative_counters_laws : @CounterLaws negative_counters.
Proof.
  constructor; cbn; [done|]. intros v. change (f64_of_Z 0) with (S754_zero false).
  by destruct v as [[]|[]| |[] m e].
Qed.

Record Prometheus := mkPrometheus { enabled : bool; calls : list metric_call }.

(** [&Prometheus{}]. *)
Definition zeroPrometheus : Prometheus := mkPrometheus false [].

Section collector.
  Context `{CounterLibrary}.

Definition call_panics (c : metric_call) : bool :=
  match c with
  | MAdd m v => is_counter m && Add_panics v
  | _ => false
  end.

(** Calls of the library, one after the other. *)
Fixpoint make_calls (l : list metric_call) (p : Prometheus) : result Prometheus :=
  match l with
  | [] => Ok p
  | c :: l =>
      if call_panics c then Panics LibraryPanic
      else make_calls l (mkPrometheus (enabled p) (calls p ++ [c]))
  end.

(** The same, when collection is enabled. *)
Definition emit (l : list metric_call) (p : Prometheus) : result Prometheus :=
  if enabled p then make_calls l p else Ok p.

Definition prom_enable (enable : bool) (p : Prometheus) : Prometheus := mkPrometheus enable (calls p).

Definition prom_write (counts bytes errors : float64) (p : Prometheus) : result Prometheus :=
  emit [MAdd writeCounter counts; MAdd writeSizes bytes; MAdd writeErrors errors] p.

Definition prom_read (counts bytes errors : float64) (p : Prometheus) : result Prometheus :=
  emit [MAdd readCounter counts; MAdd readSizes bytes; MAdd readErrors errors] p.

Definition prom_alloc (delta : float64) (p : Prometheus) : result Prometheus :=
  emit [MAdd poolAlloc delta] p.

Definition prom_switch (status : Z) (counts millSeconds : float64) (p : Prometheus) :
    result Prometheus :=
  if decide (status = SwitchSuccess) then
    emit [MAdd switchCounts counts; MObserve switchLatency millSeconds] p
  else if decide (status = SwitchFailure) then Ok p
  else if decide (status = SwitchSkip) then emit [MInc skipSwitchCounts] p
  else Ok p.

Definition prom_async (operation : Z) (counts : float64) (p : Prometheus) : result Prometheus :=
  if decide (operation = MetricsIncOp) then emit [MAdd asyncWorkers counts] p
  else emit [MAdd asyncWorkers (f64_neg counts)] p.

Definition prom_active (counts size : float64) (p : Prometheus) : result Prometheus :=
  let zero :=
    if f64_eqb size (f64_of_Z 0) && f64_eqb counts (f64_of_Z 0) then
      [MSet activeChannelDataCounts (f64_of_Z 0); MSet activeChannelDataSizes (f64_of_Z 0)]
    else [] in
  emit (zero ++ [MAdd activeChannelDataCounts counts; MAdd activeChannelDataSizes size]) p.

#[export] Instance Prometheus_Collector : Collector Prometheus := {|
  CollectSwitcher := prom_enable;
  ObserveWrite := prom_write;
  ObserveRead := prom_read;
  AllocInc := prom_alloc;
  ObserveAsyncGoroutine := prom_async;
  SwitchWithLatency := prom_switch;
  ObserveActive := prom_active
|}.
End collector.

(** ** Registration *)

Definition namespace : string := "turbo stream".

(** The collectors [register] makes, with their names and help texts. *)
Definition descriptions : list (metric * string * string) := [
  (writeCounter, "write_counts_total", "Number of metrics written by write.");
  (writeSizes, "write_sizes_total", "Number of metrics written by write sizes.");
  (writeErrors, "write_errors_total", "Number of errors encountered by write.");
  (readCounter, "read_counts_total", "Number of metrics read.");
  (readSizes, "read_metrics_sizes_total", "Number of metrics read sizes.");
  (readErrors, "read_metrics_errors_total", "Number of read errors.");
  (poolAlloc, "pool_alloc_total", "Number of pool allocations.");
  (asyncWorkers, "async_workers", "Number of async workers.");
  (switchCounts, "switch_counts_total", "Number of switches.");
  (activeChannelDataCounts, "active_channel_data_counts", "Number of active channels.");
  (activeChannelDataSizes, "active_channel_data_sizes", "Number of active channel sizes.");
  (switchLatency, "switch_latency", "Latency of switches.");
  (skipSwitchCounts, "skip_switch_counts_total", "Number of skip switches.")
].

Section registration.
  Context {R : Type} `{!Registry (nat * metric) R}.

(** The package's variables; the [Prometheus] objects are numbered in the
    order they are made, and [made] is the number of the next. *)
Record globals := mkGlobals { mc : option nat; registry : option R; made : nat }.

(** [register] of the object [p]. *)
Definition register (p : nat) (r : R) : result R :=
  register_all ((λ '(m, name, help), (mkOpts namespace name help, (p, m))) <$> descriptions) r.

(** The new object is returned with its number. *)
Definition NewPrometheus (g : globals) : result (globals * (nat * Prometheus)) :=
  let p := made g in
  let* r := register p NewRegistry in
  Ok (mkGlobals (Some p) (Some r) (S p), (p, zeroPrometheus)).

(** The registry the HTTP handler serves. *)
Definition GetHandler (g : globals) : option R := registry g.
End registration.
Arguments globals R : clear implicits.
Arguments mkGlobals {R}.

(** C39. [NewPrometheus] registers every collector of the new object exactly
    once, under distinct names, and from then on the handler serves these and
    none of an object made before.  It panics when the library refuses one of
    the names, which share a prefix with a space in it. *)
Theorem NewPrometheus_registers {R : Type} `{RegistryLaws (nat * metric) R} (g : globals R) :
  ((∀ name : string, name ∈ descriptions.*1.*2 → valid_name (namespace, name) = true) →
   ∃ (g' : globals R) (r : R),
     NewPrometheus g = Ok (g', (made g, zeroPrometheus)) ∧ GetHandler g' = Some r ∧
     (∀ (o : metric_opts) (p : nat) (m : metric), (o, (p, m)) ∈ registered r → p = made g) ∧
     NoDup (full_name <$> (registered r).*1) ∧
     ∀ m : metric, length (filter (λ x, x.2.2 = m) (registered r)) = 1%nat) ∧
  (∀ name : string, name ∈ descriptions.*1.*2 → valid_name (namespace, name) = false →
   NewPrometheus g = Panics LibraryPanic).
Proof.
  set (l := (λ '(m, name, help), (mkOpts namespace name help, (made g, m))) <$> descriptions).
  assert (NoDup (full_name <$> l.*1)) as Hnd by (by apply (bool_decide_unpack _); vm_compute).
  assert (∀ o, o ∈ l.*1 ↔ ∃ m name help, o = mkOpts namespace name help ∧
    (m, name, help) ∈ descriptions) as Hl.
  { intros o. unfold l. rewrite list_elem_of_fmap. setoid_rewrite list_elem_of_fmap. split.
    - intros (x & -> & [[m name] help] & -> & Hx). by exists m, name, help.
    - intros (m & name & help & -> & Hx). eexists. split; [|exists (m, name, help); by split]. done. }
  split.
  - intros Hv. destruct (register_all_ok l NewRegistry) as (r & E & Er).
    { intros o (m & name & help & -> & Hx)%Hl. apply Hv.
      apply list_elem_of_fmap. exists (m, name). split; [done|]. apply list_elem_of_fmap. by exists (m, name, help). }
    { by rewrite NewRegistry_ok. }
    rewrite NewRegistry_ok in Er. cbn [app] in Er.
    unfold NewPrometheus, register. fold l. rewrite E. cbn [rbind].
    eexists _, r. split; [done|]. split; [done|]. rewrite Er. split; [|split; [done|]].
    + intros o p m Hin. by apply list_elem_of_fmap in Hin as ([[m' name] help] & [= -> -> ->] & _).
    + intros m. by destruct m.
  - intros name Hin Hv. unfold NewPrometheus, register. fold l.
    apply list_elem_of_fmap in Hin as ([m name'] & -> & Hin).
    apply list_elem_of_fmap in Hin as ([[m' name''] help] & [= -> ->] & Hin).
    rewrite (register_all_panics l NewRegistry (mkOpts namespace name'' help)); [done|..].
    + apply Hl. by exists m', name'', help.
    + exact Hv.
    + by rewrite NewRegistry_ok.
Qed.

(** A registry that takes every name, and one that takes none with a space. *)
Definition has_space (s : string) : bool :=
  bool_decide (String.index 0 " " s ≠ None).

Lemma NewPrometheus_registers_witness :
  let no_space (n : string * string) := negb (has_space n.1) in
  let g := @mkGlobals (list (metric_opts * (nat * metric))) (Some 0%nat) (Some []) 1%nat in
  (∃ g' r, @NewPrometheus _ (list_registry _ (λ _, true)) g = Ok (g', (1%nat, zeroPrometheus)) ∧
     GetHandler g' = Some r) ∧
  @NewPrometheus _ (list_registry _ no_space) g = Panics LibraryPanic.
Proof.
  intros no_space g. split.
  - destruct (@NewPrometheus_registers _ _ (list_registry_laws _ (λ _, true)) g) as [Hok _].
    destruct Hok as (g' & r & E & Eh & _); [done|]. by exists g', r.
  - destruct (@NewPrometheus_registers _ _ (list_registry_laws _ no_space) g) as [_ Hp].
    apply (Hp "async_workers"); [apply (bool_decide_unpack _)|]; vm_compute; done.
Defined.
