(* ===== verification/BatchCollector.v ===== *)
(** * The batch collector of [src/core/metrics/batch_collector.go]

    Counts are collected in 64-bit integers and passed on to a [Collector] by
    a report, which then sets them to zero.  A report is a list of statements,
    each an atomic load with the call it feeds or a group of atomic stores, so
    that the calls of other goroutines can be placed between them.  A recording
    call, a few atomic additions, is one step.  The file
    is written against the interface and applied to the Prometheus collector. *)
From Stdlib Require Import SpecFloat.
From S2P Require Import Prelude.
From S2P Require Import Consts.
From S2P Require Import Float64.
From S2P Require Import Prometheus.
Open Scope Z_scope.
Open Scope go_scope.

(** ** Data *)

Record Write := mkWrite {
  writeCounts : Z;
  writeSizes : Z;
  writeErrors : Z;
  activeChannelDataCounts : Z;
  activeChannelDataSizes : Z
}.

Record Read := mkRead { readCounts : Z; readSizes : Z; readErrors : Z }.

Record Supporting := mkSupporting {
  asyncWorkerIncCounts : Z;
  asyncWorkerDecCounts : Z;
  poolAlloc : Z;
  switchCounts : Z;
  switchLatency : Z;
  skipSwitchCounts : Z
}.

Definition Write_Reset (w : Write) : Write := mkWrite 0 0 0 0 0.
Definition Read_Reset (r : Read) : Read := mkRead 0 0 0.
Definition Supporting_Reset (s : Supporting) : Supporting := mkSupporting 0 0 0 0 0 0.

Section batch.
  Context {M : Type} `{!Collector M}.

Record BatchCollectImpl := mkBatch {
  w : Write;
  r : Read;
  sp : Supporting;
  mc : M;
  sem_closed : bool;
  workers : nat                (** goroutines inside [asyncWorker] *)
}.

Definition NewBatchCollector (m : M) : BatchCollectImpl :=
  mkBatch (mkWrite 0 0 0 0 0) (mkRead 0 0 0) (mkSupporting 0 0 0 0 0 0) (CollectSwitcher true m) false 0.

Definition set_w (x : Write) (b : BatchCollectImpl) : BatchCollectImpl :=
  mkBatch x (r b) (sp b) (mc b) (sem_closed b) (workers b).
Definition set_r (x : Read) (b : BatchCollectImpl) : BatchCollectImpl :=
  mkBatch (w b) x (sp b) (mc b) (sem_closed b) (workers b).
Definition set_sp (x : Supporting) (b : BatchCollectImpl) : BatchCollectImpl :=
  mkBatch (w b) (r b) x (mc b) (sem_closed b) (workers b).
Definition observe (f : M → result M) (b : BatchCollectImpl) : result BatchCollectImpl :=
  rmap (λ m, mkBatch (w b) (r b) (sp b) m (sem_closed b) (workers b)) (f (mc b)).

(** ** Recording *)

Definition RecordWrite (size : Z) (failed : bool) (b : BatchCollectImpl) : BatchCollectImpl :=
  let x := w b in
  if failed then
    set_w (mkWrite (writeCounts x) (writeSizes x) (int64 (writeErrors x + 1))
             (activeChannelDataCounts x) (activeChannelDataSizes x)) b
  else
    set_w (mkWrite (int64 (writeCounts x + 1)) (int64 (writeSizes x + size)) (writeErrors x)
             (int64 (activeChannelDataCounts x + 1)) (int64 (activeChannelDataSizes x + size))) b.

Definition RecordRead (count size : Z) (failed : bool) (b : BatchCollectImpl) : BatchCollectImpl :=
  let x := r b in
  if failed then set_r (mkRead (readCounts x) (readSizes x) (int64 (readErrors x + 1))) b
  else set_r (mkRead (int64 (readCounts x + count)) (int64 (readSizes x + size)) (readErrors x)) b.

Definition RecordSwitch (status latencySeconds : Z) (b : BatchCollectImpl) : BatchCollectImpl :=
  let x := sp b in
  if decide (status = SwitchSkip) then
    set_sp (mkSupporting (asyncWorkerIncCounts x) (asyncWorkerDecCounts x) (poolAlloc x)
              (switchCounts x) (switchLatency x) (int64 (skipSwitchCounts x + 1))) b
  else if decide (status = SwitchSuccess) then
    set_sp (mkSupporting (asyncWorkerIncCounts x) (asyncWorkerDecCounts x) (poolAlloc x)
              (int64 (switchCounts x + 1)) latencySeconds (skipSwitchCounts x)) b
  else b.

Definition ObserveAsyncWorker (op : Z) (b : BatchCollectImpl) : BatchCollectImpl :=
  let x := sp b in
  if decide (op = MetricsIncOp) then
    set_sp (mkSupporting (int64 (asyncWorkerIncCounts x + 1)) (asyncWorkerDecCounts x) (poolAlloc x)
              (switchCounts x) (switchLatency x) (skipSwitchCounts x)) b
  else
    set_sp (mkSupporting (asyncWorkerIncCounts x) (int64 (asyncWorkerDecCounts x + 1)) (poolAlloc x)
              (switchCounts x) (switchLatency x) (skipSwitchCounts x)) b.

Definition RecordPoolAlloc (b : BatchCollectImpl) : BatchCollectImpl :=
  let x := sp b in
  set_sp (mkSupporting (asyncWorkerIncCounts x) (asyncWorkerDecCounts x) (int64 (poolAlloc x + 1))
            (switchCounts x) (switchLatency x) (skipSwitchCounts x)) b.

(** ** Reporting *)

(** The statements of [report]. *)
Definition report_steps : list (BatchCollectImpl → result BatchCollectImpl) := [
  λ b, observe (ObserveWrite (f64_of_Z (writeCounts (w b))) (f64_of_Z (writeSizes (w b)))
                  (f64_of_Z (writeErrors (w b)))) b;
  λ b, observe (ObserveActive (f64_of_Z (activeChannelDataCounts (w b)))
                  (f64_of_Z (activeChannelDataSizes (w b)))) b;
  λ b, Ok (set_w (Write_Reset (w b)) b);
  λ b, observe (ObserveRead (f64_of_Z (readCounts (r b))) (f64_of_Z (readSizes (r b)))
                  (f64_of_Z (readErrors (r b)))) b;
  λ b, Ok (set_r (Read_Reset (r b)) b);
  λ b, observe (ObserveAsyncGoroutine MetricsIncOp (f64_of_Z (asyncWorkerIncCounts (sp b)))) b;
  λ b, observe (ObserveAsyncGoroutine MetricsDecOp (f64_of_Z (asyncWorkerDecCounts (sp b)))) b;
  λ b, observe (AllocInc (f64_of_Z (poolAlloc (sp b)))) b;
  λ b, observe (SwitchWithLatency SwitchSuccess (f64_of_Z (switchCounts (sp b)))
                  (f64_of_Z (switchLatency (sp b)))) b;
  λ b, observe (SwitchWithLatency SwitchSkip (f64_of_Z (skipSwitchCounts (sp b))) (f64_of_Z 0)) b;
  λ b, Ok (set_sp (Supporting_Reset (sp b)) b)
].

Fixpoint in_order (fs : list (BatchCollectImpl → result BatchCollectImpl)) (b : BatchCollectImpl) :
    result BatchCollectImpl :=
  match fs with
  | [] => Ok b
  | f :: fs =>
      let* b := f b in
      in_order fs b
  end.

(** A report with the call [other] of another goroutine after its first [i]
    statements. *)
Definition report_interrupted (i : nat) (other : BatchCollectImpl → BatchCollectImpl)
    (b : BatchCollectImpl) : result BatchCollectImpl :=
  let* b := in_order (take i report_steps) b in
  in_order (drop i report_steps) (other b).

Definition report (b : BatchCollectImpl) : result BatchCollectImpl := in_order report_steps b.

Definition Flush (b : BatchCollectImpl) : result BatchCollectImpl := report b.

Definition set_workers (n : nat) (b : BatchCollectImpl) : BatchCollectImpl :=
  mkBatch (w b) (r b) (sp b) (mc b) (sem_closed b) n.

Definition Start (b : BatchCollectImpl) : BatchCollectImpl := set_workers (S (workers b)) b.

(** A turn of the loop of [asyncWorker] in one of the goroutines: the [select]
    takes the tick, also when [sem] is closed by then, or the closed [sem]. *)
Definition asyncWorker (tick : bool) (b : BatchCollectImpl) : result BatchCollectImpl :=
  match workers b with
  | O => Ok b
  | S n => if tick then report b else Ok (if sem_closed b then set_workers n b else b)
  end.

Definition Stop (b : BatchCollectImpl) : result BatchCollectImpl :=
  if sem_closed b then Panics CloseOfClosedChannel
  else Ok (mkBatch (w b) (r b) (sp b) (mc b) true (workers b)).
End batch.
Arguments BatchCollectImpl M : clear implicits.

(** ** Runs over the Prometheus collector *)

Inductive op :=
  | OWrite (size : Z) (failed : bool)
  | ORead (count size : Z) (failed : bool)
  | OSwitch (status latencySeconds : Z)
  | OAsync (operation : Z)
  | OAlloc
  | OReport.

#[export] Instance op_eq_dec : EqDecision op.
Proof. solve_decision. Defined.

Definition record (o : op) (b : BatchCollectImpl Prometheus) : BatchCollectImpl Prometheus :=
  match o with
  | OWrite size failed => RecordWrite size failed b
  | ORead count size failed => RecordRead count size failed b
  | OSwitch status latency => RecordSwitch status latency b
  | OAsync operation => ObserveAsyncWorker operation b
  | OAlloc => RecordPoolAlloc b
  | OReport => b
  end.

Definition exec `{CounterLibrary} (o : op) (b : BatchCollectImpl Prometheus) :
    result (BatchCollectImpl Prometheus) :=
  if decide (o = OReport) then report b else Ok (record o b).

Fixpoint exec_all `{CounterLibrary} (os : list op) (b : BatchCollectImpl Prometheus) :
    result (BatchCollectImpl Prometheus) :=
  match os with
  | [] => Ok b
  | o :: os =>
      let* b := exec o b in
      exec_all os b
  end.

(** What a call adds to the count behind a counter of the library. *)
Definition recorded (m : metric) (o : op) : Z :=
  match m, o with
  | Prometheus.writeCounter, OWrite _ false => 1
  | Prometheus.writeSizes, OWrite size false => size
  | Prometheus.writeErrors, OWrite _ true => 1
  | readCounter, ORead count _ false => count
  | Prometheus.readSizes, ORead _ size false => size
  | Prometheus.readErrors, ORead _ _ true => 1
  | Prometheus.poolAlloc, OAlloc => 1
  | Prometheus.switchCounts, OSwitch status _ => if decide (status = SwitchSuccess) then 1 else 0
  | _, _ => 0
  end.

(** The count that waits for the next report. *)
Definition pending (m : metric) (b : BatchCollectImpl Prometheus) : Z :=
  match m with
  | writeCounter => writeCounts (w b)
  | Prometheus.writeSizes => writeSizes (w b)
  | Prometheus.writeErrors => writeErrors (w b)
  | readCounter => readCounts (r b)
  | Prometheus.readSizes => readSizes (r b)
  | Prometheus.readErrors => readErrors (r b)
  | Prometheus.poolAlloc => poolAlloc (sp b)
  | Prometheus.switchCounts => switchCounts (sp b)
  | _ => 0
  end.

(** The counters whose every change is a reported count. *)
Definition conserved : list metric :=
  [writeCounter; Prometheus.writeSizes; Prometheus.writeErrors; readCounter; Prometheus.readSizes;
   Prometheus.readErrors; Prometheus.poolAlloc; Prometheus.switchCounts].

(** The amounts added to a counter. *)
Definition added (m : metric) (l : list metric_call) : list float64 :=
  omap (λ c, match c with
             | MAdd m' v => if decide (m' = m) then Some v else None
             | _ => None
             end) l.

Definition sumZ (l : list Z) : Z := foldr Z.add 0 l.

Fixpoint reports (os : list op) : nat :=
  match os with
  | [] => 0
  | OReport :: os => S (reports os)
  | _ :: os => reports os
  end.

(** How often a counter was incremented by one. *)
Definition incremented (m : metric) (l : list metric_call) : nat :=
  length (omap (λ c, match c with
                     | MInc m' => if decide (m' = m) then Some tt else None
                     | _ => None
                     end) l).

(** The calls of one report, statement by statement. *)
Definition report_calls (b : BatchCollectImpl Prometheus) : list metric_call :=
  let v := f64_of_Z in
  [MAdd writeCounter (v (writeCounts (w b))); MAdd Prometheus.writeSizes (v (writeSizes (w b)));
   MAdd Prometheus.writeErrors (v (writeErrors (w b)))] ++
  ((if f64_eqb (v (activeChannelDataSizes (w b))) (v 0) && f64_eqb (v (activeChannelDataCounts (w b))) (v 0)
    then [MSet Prometheus.activeChannelDataCounts (v 0); MSet Prometheus.activeChannelDataSizes (v 0)]
    else []) ++
   [MAdd Prometheus.activeChannelDataCounts (v (activeChannelDataCounts (w b)));
    MAdd Prometheus.activeChannelDataSizes (v (activeChannelDataSizes (w b)))]) ++
  [MAdd readCounter (v (readCounts (r b))); MAdd Prometheus.readSizes (v (readSizes (r b)));
   MAdd Prometheus.readErrors (v (readErrors (r b)))] ++
  [MAdd asyncWorkers (v (asyncWorkerIncCounts (sp b)))] ++
  [MAdd asyncWorkers (f64_neg (v (asyncWorkerDecCounts (sp b))))] ++
  [MAdd Prometheus.poolAlloc (v (poolAlloc (sp b)))] ++
  [MAdd Prometheus.switchCounts (v (switchCounts (sp b)));
   MObserve Prometheus.switchLatency (v (switchLatency (sp b)))] ++
  [MInc Prometheus.skipSwitchCounts].

(** ** Lemmas *)

#[local] Opaque f64_of_Z f64_eqb f64_neg.

Lemma added_app (m : metric) (l l' : list metric_call) : added m (l ++ l') = added m l ++ added m l'.
Proof. apply omap_app. Qed.

Lemma incremented_app (m : metric) (l l' : list metric_call) :
  incremented m (l ++ l') = (incremented m l + incremented m l')%nat.
Proof. unfold incremented. by rewrite omap_app, length_app. Qed.

#[local] Ltac project :=
  cbn [w r sp mc calls sem_closed workers writeCounts writeSizes writeErrors activeChannelDataCounts
    activeChannelDataSizes readCounts readSizes readErrors asyncWorkerIncCounts asyncWorkerDecCounts
    poolAlloc switchCounts switchLatency].

Section lemmas.
  Context `{CounterLibrary}.

Lemma make_calls_eq (l : list metric_call) (p : Prometheus) :
  make_calls l p =
    if existsb call_panics l then Panics LibraryPanic
    else Ok (mkPrometheus (enabled p) (calls p ++ l)).
Proof.
  revert p. induction l as [|c l IH]; intros p; cbn -[call_panics].
  { rewrite app_nil_r. by destruct p. }
  destruct (call_panics c); [done|]. rewrite IH. cbn [enabled calls orb]. by rewrite <- app_assoc.
Qed.

Lemma emit_eq (l cs : list metric_call) :
  emit l (mkPrometheus true cs) =
    if existsb call_panics l then Panics LibraryPanic else Ok (mkPrometheus true (cs ++ l)).
Proof. apply make_calls_eq. Qed.

Lemma observe_emit (f : Prometheus → result Prometheus) (l cs : list metric_call) (x : Write)
    (y : Read) (z : Supporting) (sm : bool) (n : nat) :
  f (mkPrometheus true cs) = emit l (mkPrometheus true cs) →
  observe f (mkBatch x y z (mkPrometheus true cs) sm n) =
    if existsb call_panics l then Panics LibraryPanic
    else Ok (mkBatch x y z (mkPrometheus true (cs ++ l)) sm n).
Proof.
  intros E. unfold observe. cbn [mc w r sp sem_closed workers]. rewrite E, emit_eq.
  by destruct (existsb _ l).
Qed.

(** A report makes its calls and resets all counts, unless a call panics. *)
Lemma report_eq (b : BatchCollectImpl Prometheus) :
  enabled (mc b) = true →
  report b =
    if existsb call_panics (report_calls b) then Panics LibraryPanic
    else Ok (mkBatch (mkWrite 0 0 0 0 0) (mkRead 0 0 0) (mkSupporting 0 0 0 0 0 0)
      (mkPrometheus true (calls (mc b) ++ report_calls b)) (sem_closed b) (workers b)).
Proof.
  destruct b as [[wc ws we ac az] [rc rs re] [ai ad pa sc sl sk] [en cs] sm n]. cbn [mc enabled]. intros ->.
  unfold report, report_steps. cbn [in_order]. unfold report_calls. project. rewrite !existsb_app.
  do 7 (erewrite observe_emit by reflexivity; rewrite ?existsb_app; project;
    match goal with |- rbind (if ?c then _ else _) _ = _ => destruct c end;
    cbn [rbind orb]; [done|]; unfold set_w, set_r; project).
  erewrite observe_emit by reflexivity. cbn -[f64_of_Z f64_neg app].
  by rewrite <- !app_assoc.
Qed.

(** A report panics exactly when the library refuses a pending count. *)
Lemma report_panics (b : BatchCollectImpl Prometheus) :
  existsb call_panics (report_calls b) = existsb (λ m, Add_panics (f64_of_Z (pending m b))) conserved.
Proof.
  unfold report_calls. rewrite !existsb_app. destruct (f64_eqb _ _ && f64_eqb _ _); cbn;
    repeat (destruct (Add_panics _); cbn; [done|]); done.
Qed.

Lemma report_added (m : metric) (b : BatchCollectImpl Prometheus) :
  m ∈ conserved → added m (report_calls b) = [f64_of_Z (pending m b)].
Proof.
  unfold conserved. rewrite !elem_of_cons, elem_of_nil. intros Hm. unfold report_calls.
  destruct (f64_eqb _ _ && f64_eqb _ _);
    destruct Hm as [->|[->|[->|[->|[->|[->|[->|[->|[]]]]]]]]]; reflexivity.
Qed.

(** A call that is not a report makes no call of the library. *)
Lemma record_calls (o : op) (b : BatchCollectImpl Prometheus) : mc (record o b) = mc b.
Proof.
  destruct o as [? []|? ? []|s l|a| |]; try done; cbn [record].
  - unfold RecordSwitch. by repeat case_decide.
  - unfold ObserveAsyncWorker. by case_decide.
Qed.

(** It changes what is pending by what it records. *)
Lemma record_pending (m : metric) (o : op) (b : BatchCollectImpl Prometheus) :
  m ∈ conserved →
  pending m (record o b) = pending m b ∧ recorded m o = 0 ∨
  pending m (record o b) = int64 (pending m b + recorded m o).
Proof.
  unfold conserved. rewrite !elem_of_cons, elem_of_nil. intros Hm.
  destruct o as [? []|? ? []|s l|a| |].
  1-4, 7-8: destruct Hm as [->|[->|[->|[->|[->|[->|[->|[->|[]]]]]]]]]; auto.
  - cbn [record]. unfold RecordSwitch. destruct (decide (s = SwitchSkip)) as [->|].
    { left. destruct Hm as [->|[->|[->|[->|[->|[->|[->|[->|[]]]]]]]]]; done. }
    case_decide; destruct Hm as [->|[->|[->|[->|[->|[->|[->|[->|[]]]]]]]]];
      cbn; rewrite ?decide_True, ?decide_False by done; auto.
  - cbn [record]. unfold ObserveAsyncWorker. case_decide; left;
      destruct Hm as [->|[->|[->|[->|[->|[->|[->|[->|[]]]]]]]]]; done.
Qed.

(** The collector after [NewBatchCollector]. *)
Record working (b : BatchCollectImpl Prometheus) : Prop := {
  wk_enabled : enabled (mc b) = true;
  wk_range (m : metric) : m ∈ conserved → in_int64 (pending m b)
}.

Lemma record_working (o : op) (b : BatchCollectImpl Prometheus) : working b → working (record o b).
Proof.
  intros [He Hr]. constructor; [by rewrite record_calls|]. intros m Hm.
  destruct (record_pending m o b Hm) as [[-> _]| ->]; [by apply Hr|]. apply signed_range. lia.
Qed.

Context `{!CounterLaws}.

Lemma add_panics_sign (n : Z) : in_int64 n → Add_panics (f64_of_Z n) = bool_decide (n < 0).
Proof.
  intros Hn. assert (- 2 ^ 100 < n < 2 ^ 100) by (unfold in_signed in Hn; lia).
  case_bool_decide; [apply Add_panics_negative, f64_of_Z_negative; lia|].
  apply Add_accepts, f64_of_Z_nonnegative. lia.
Qed.

(** A report passes on every count, or one of them is negative. *)
Lemma report_cases (b : BatchCollectImpl Prometheus) :
  working b →
  (∃ b' : BatchCollectImpl Prometheus, report b = Ok b' ∧ working b' ∧
     calls (mc b') = calls (mc b) ++ report_calls b ∧
     ∀ m : metric, m ∈ conserved → 0 ≤ pending m b ∧ pending m b' = 0) ∨
  report b = Panics LibraryPanic ∧ ∃ m : metric, m ∈ conserved ∧ pending m b < 0.
Proof.
  intros [He Hr]. rewrite report_eq, report_panics by done.
  destruct (existsb _ conserved) eqn:Hx.
  - right. split; [done|]. apply existsb_exists in Hx as (m & Hm & Hp). apply list_elem_of_In in Hm.
    rewrite add_panics_sign in Hp by auto. exists m. split; [done|]. by apply bool_decide_eq_true in Hp.
  - left. eexists. split; [done|].
    assert (∀ m, m ∈ conserved → 0 ≤ pending m b) as Hnn.
    { intros m Hm. destruct (decide (0 ≤ pending m b)); [done|].
      assert (existsb (λ m, Add_panics (f64_of_Z (pending m b))) conserved = true) as E; [|congruence].
      apply existsb_exists. exists m. split; [by apply list_elem_of_In|].
      rewrite add_panics_sign by auto. apply bool_decide_eq_true. lia. }
    assert (∀ m x y, m ∈ conserved → pending m (mkBatch (mkWrite 0 0 0 0 0) (mkRead 0 0 0)
      (mkSupporting 0 0 0 0 0 0) x y (workers b)) = 0) as Hz
      by (intros m x y Hm; by destruct m).
    split; [constructor; [done|]; intros m Hm; rewrite Hz by done; unfold in_signed; lia|].
    split; [done|]. intros m Hm. split; [by apply Hnn|by apply Hz].
Qed.

(** What a run from [b] to [b'] has passed on to the counter [m]. *)
Definition conserves (m : metric) (os : list op) (b b' : BatchCollectImpl Prometheus) : Prop :=
  ∃ ns : list Z,
    added m (calls (mc b')) = added m (calls (mc b)) ++ (f64_of_Z <$> ns) ∧
    length ns = reports os ∧ Forall (λ n, 0 ≤ n) ns ∧
    int64 (sumZ ns + pending m b') = int64 (pending m b + sumZ (recorded m <$> os)).

Lemma conserves_record (m : metric) (o : op) (os : list op) (b b' : BatchCollectImpl Prometheus) :
  m ∈ conserved → o ≠ OReport → conserves m os (record o b) b' → conserves m (o :: os) b b'.
Proof.
  intros Hm Ho (ns & Hns & Hlen & Hnn & Hsum). exists ns.
  rewrite record_calls in Hns. split; [done|]. split; [by destruct o|]. split; [done|]. rewrite Hsum.
  change (sumZ (recorded m <$> o :: os)) with (recorded m o + sumZ (recorded m <$> os)).
  destruct (record_pending m o b Hm) as [[-> ->]| ->]; [f_equal; lia|].
  rewrite signed_idemp_add_l. f_equal. lia.
Qed.

Lemma conserves_report (m : metric) (os : list op) (b b1 b' : BatchCollectImpl Prometheus) :
  m ∈ conserved → calls (mc b1) = calls (mc b) ++ report_calls b → 0 ≤ pending m b →
  pending m b1 = 0 → conserves m os b1 b' → conserves m (OReport :: os) b b'.
Proof.
  intros Hm Hc Hp Hz (ns & Hns & Hlen & Hnn & Hsum). exists (pending m b :: ns).
  rewrite Hc, added_app, report_added, <- app_assoc in Hns by done.
  split; [exact Hns|]. split; [cbn; by rewrite Hlen|]. split; [by constructor|].
  change (sumZ (pending m b :: ns)) with (pending m b + sumZ ns).
  replace (pending m b + sumZ ns + pending m b') with (sumZ ns + pending m b' + pending m b) by lia.
  rewrite <- signed_idemp_add_l, Hsum, signed_idemp_add_l, Hz. f_equal.
  change (sumZ (recorded m <$> OReport :: os)) with (recorded m OReport + sumZ (recorded m <$> os)).
  assert (recorded m OReport = 0) as -> by (by destruct m). lia.
Qed.

Lemma exec_cases (o : op) (b : BatchCollectImpl Prometheus) :
  working b →
  match exec o b with
  | Ok b1 => working b1 ∧ ∀ (m : metric) (os : list op) (b' : BatchCollectImpl Prometheus),
      m ∈ conserved → conserves m os b1 b' → conserves m (o :: os) b b'
  | Panics p => p = LibraryPanic ∧ o = OReport ∧ ∃ m : metric, m ∈ conserved ∧ pending m b < 0
  | OutOfFuel => False
  end.
Proof.
  intros Hb. unfold exec. case_decide as Ho.
  - destruct (report_cases b Hb) as [(b1 & -> & Hb1 & Hc & Hp)|[-> Hneg]]; [|done].
    split; [done|]. intros m os b' Hm Hcons. destruct (Hp m Hm). subst o. by eapply conserves_report.
  - split; [by apply record_working|]. intros m os b' Hm. by apply conserves_record.
Qed.

(** A run from any state: it conserves every count, or a report met a negative
    one. *)
Lemma run_conserves (os : list op) (b : BatchCollectImpl Prometheus) :
  working b →
  match exec_all os b with
  | Ok b' => ∀ m : metric, m ∈ conserved → conserves m os b b'
  | Panics p => p = LibraryPanic ∧
      ∃ (os1 os2 : list op) (b1 : BatchCollectImpl Prometheus) (m : metric),
        os = os1 ++ OReport :: os2 ∧ exec_all os1 b = Ok b1 ∧ m ∈ conserved ∧ pending m b1 < 0
  | OutOfFuel => False
  end.
Proof.
  revert b. induction os as [|o os IH]; intros b Hb; cbn [exec_all].
  { intros m Hm. exists []. rewrite app_nil_r. split_and!; [done..|]. cbn. f_equal. lia. }
  pose proof (exec_cases o b Hb) as Ho. destruct (exec o b) as [b1|p|] eqn:Ex; cbn [rbind]; [| |done].
  - destruct Ho as [Hb1 Hc]. specialize (IH b1 Hb1). destruct (exec_all os b1) as [b'|p|]; [by auto| |done].
    destruct IH as (-> & os1 & os2 & b2 & m & -> & E1 & Hm & Hneg). split; [done|].
    exists (o :: os1), os2, b2, m. split; [done|]. split; [|done]. cbn [exec_all]. by rewrite Ex.
  - destruct Ho as (-> & -> & m & Hm & Hneg). split; [done|]. by exists [], os, b, m.
Qed.

(** Counts that are not negative and whose totals fit make no report panic. *)
Lemma run_returns (os : list op) (b : BatchCollectImpl Prometheus) :
  working b →
  (∀ m : metric, m ∈ conserved → 0 ≤ pending m b ∧ Forall (λ o, 0 ≤ recorded m o) os ∧
     pending m b + sumZ (recorded m <$> os) < 2 ^ 63) →
  ∃ b' : BatchCollectImpl Prometheus, exec_all os b = Ok b'.
Proof.
  revert b. induction os as [|o os IH]; intros b Hb Hm; [by eexists|]. cbn [exec_all].
  assert (∀ m, Forall (λ o, 0 ≤ recorded m o) os → 0 ≤ sumZ (recorded m <$> os)) as Hsum.
  { clear. intros m. induction 1; cbn; [done|]. unfold sumZ in *. lia. }
  unfold exec. case_decide as Ho.
  - destruct (report_cases b Hb) as [(b1 & -> & Hb1 & _ & Hp)|[_ (m & Hin & Hneg)]].
    2: { destruct (Hm m Hin). lia. }
    cbn [rbind]. apply IH; [done|]. intros m Hin. destruct (Hm m Hin) as (Hp0 & Hnn & Hlt).
    apply Forall_cons in Hnn as [Ho1 Hnn]. destruct (Hp m Hin) as [_ ->].
    change (sumZ (recorded m <$> o :: os)) with (recorded m o + sumZ (recorded m <$> os)) in Hlt.
    split_and!; [lia|done|lia].
  - cbn [rbind]. apply IH; [by apply record_working|]. intros m Hin. destruct (Hm m Hin) as (Hp0 & Hnn & Hlt).
    apply Forall_cons in Hnn as [Ho1 Hnn]. specialize (Hsum m Hnn).
    change (sumZ (recorded m <$> o :: os)) with (recorded m o + sumZ (recorded m <$> os)) in Hlt.
    destruct (record_pending m o b Hin) as [[-> E]| ->]; [split_and!; [lia|done|lia]|].
    rewrite signed_id by (unfold in_signed; lia). split_and!; [lia|done|lia].
Qed.
End lemmas.

Lemma New_working `{CounterLibrary} : working (NewBatchCollector zeroPrometheus).
Proof. constructor; [done|]. intros m Hm. by destruct m. Qed.

(** ** Properties *)


#[local] Transparent f64_of_Z f64_eqb f64_neg.

Definition some_calls : list op :=
  [OWrite 10 false; OReport; OWrite 5 false; OWrite 7 true; OReport; OWrite 1 false].


(** The counter of skipped switches counts reports: after any run it was
    incremented once per report, whether no switch was skipped or many. *)
Theorem skip_counter_counts_reports `{CounterLibrary} (os : list op) (b : BatchCollectImpl Prometheus)
    (Hb : exec_all os (NewBatchCollector zeroPrometheus) = Ok b) :
  incremented Prometheus.skipSwitchCounts (calls (mc b)) = reports os ∧
  added Prometheus.skipSwitchCounts (calls (mc b)) = [].
Proof.
  assert (∀ b0 : BatchCollectImpl Prometheus, enabled (mc b0) = true → exec_all os b0 = Ok b →
    incremented Prometheus.skipSwitchCounts (calls (mc b)) =
      (incremented Prometheus.skipSwitchCounts (calls (mc b0)) + reports os)%nat ∧
    added Prometheus.skipSwitchCounts (calls (mc b)) =
      added Prometheus.skipSwitchCounts (calls (mc b0))) as Hrun;
    [|by apply (Hrun _ (wk_enabled _ New_working) Hb)].
  clear Hb. induction os as [|o os IH]; intros b0 He E; cbn [exec_all reports] in *.
  { injection E as <-. by rewrite Nat.add_0_r. }
  apply rbind_ok in E as (b1 & E1 & E). unfold exec in E1. case_decide as Ho.
  - rewrite report_eq in E1 by done. destruct (existsb _ _); [done|]. injection E1 as <-.
    apply IH in E as [-> ->]; [|done]. cbn [mc calls]. rewrite incremented_app, added_app.
    assert (incremented Prometheus.skipSwitchCounts (report_calls b0) = 1%nat ∧
            added Prometheus.skipSwitchCounts (report_calls b0) = []) as [-> ->]
      by (unfold report_calls; destruct (_ && _); split; reflexivity).
    subst o. rewrite app_nil_r. split; [lia|done].
  - injection E1 as <-. destruct (IH (record o b0)) as [-> ->]; [by rewrite record_calls|done|].
    rewrite record_calls. split; [|done]. by destruct o.
Qed.

(** A report loses what is recorded while it runs: a successful write
    recorded after the write counts are passed on and before they are set to
    zero is in no report, neither in this one, whose calls are those of a
    report without it, nor in a later one, because nothing is pending. *)
Theorem report_loses_concurrent_write `{CounterLibrary} (b : BatchCollectImpl Prometheus) (size : Z)
    (He : enabled (mc b) = true) :
  report_interrupted 2 (RecordWrite size false) b = report b ∧
  ∀ b' : BatchCollectImpl Prometheus, report b = Ok b' → writeCounts (w b') = 0.
Proof.
  split.
  - destruct b as [[wc ws we ac az] y z [en cs] sm n]. cbn [mc enabled] in He. subst en.
    unfold report_interrupted, report, report_steps. cbn [take drop in_order]. project.
    do 2 (erewrite observe_emit by reflexivity;
      match goal with |- context [existsb call_panics ?l] => destruct (existsb call_panics l) end;
      cbn [rbind]; [done|]; project). reflexivity.
  - intros b' E. rewrite report_eq in E by done. destruct (existsb _ _); [done|]. by injection E as <-.
Qed.

Lemma report_loses_concurrent_write_witness :
  let b := @NewBatchCollector _ (@Prometheus_Collector negative_counters) zeroPrometheus in
  @report_interrupted _ (@Prometheus_Collector negative_counters) 2 (RecordWrite 10 false) b =
    @report _ (@Prometheus_Collector negative_counters) b ∧
  writeCounts (w (RecordWrite 10 false b)) = 1.
Proof.
  intros b. destruct (@report_loses_concurrent_write negative_counters b 10 eq_refl) as [H1 _].
  split; [exact H1|reflexivity].
Defined.
