(* ===== verification/Collectors.v ===== *)
(** * The system collectors of [src/metrics/collector.go]

    The processor, runtime, memory and network collectors and the data of
    [src/metrics/metrics.go].  What the libraries they call return is an
    argument of each collector: a value or the failure of the call. *)
From Stdlib Require Import SpecFloat.
From S2P Require Import Prelude.
From S2P Require Import Float64.
Open Scope Z_scope.
Open Scope go_scope.

(** ** The data of [metrics.go] *)

Record CPUStates := mkCPU {
  Usage : float64; User : float64; System : float64; Idle : float64;
  Load1 : float64; Load5 : float64; Load15 : float64
}.

Record MemoryStates := mkMemory {
  Total : Z; Used : Z; Free : Z; UsedPercent : float64; Cached : Z; Buffers : Z
}.

Record InterfaceStats := mkInterface { BytesSent : Z; BytesRecv : Z; PacketsSent : Z; PacketsRecv : Z }.

(** A counter of the network library: the name of the interface and its
    numbers. *)
Record IOCountersStat := mkIOCounters { Name : string; stats : InterfaceStats }.

(** [C] is the library's type of a connection. *)
Record NetworkStates {C : Type} := mkNetwork {
  Connections : list C;
  IOCounters : list IOCountersStat;
  TotalBytesSent : Z;
  TotalBytesRecv : Z;
  TotalPacketsSent : Z;
  TotalPacketsRecv : Z;
  interfaceStats : gmap string InterfaceStats
}.
Arguments NetworkStates C : clear implicits.
Arguments mkNetwork {C}.

Record RuntimeStates := mkRuntime {
  Goroutines : Z; HeapAlloc : Z; StackAlloc : Z; GCNums : Z; GCPause : Z
}.

Definition zeroCPU : CPUStates :=
  let z := f64_of_Z 0 in mkCPU z z z z z z z.
Definition zeroMemory : MemoryStates := mkMemory 0 0 0 (f64_of_Z 0) 0 0.

(** ** The processor *)

Definition percentBase : Z := 100.

(** The times the library reports. *)
Record TimesStat := mkTimes { tUser : float64; tSystem : float64; tIdle : float64 }.

Definition cpu_times (times : option (list TimesStat)) (c : CPUStates) : CPUStates :=
  match times with
  | Some (state :: _) =>
      let total := f64_add (f64_add (tUser state) (tSystem state)) (tIdle state) in
      if f64_ltb (f64_of_Z 0) total then
        let share x := f64_mul (f64_div x total) (f64_of_Z percentBase) in
        mkCPU (Usage c) (share (tUser state)) (share (tSystem state)) (share (tIdle state))
          (Load1 c) (Load5 c) (Load15 c)
      else c
  | _ => c
  end.

Definition cpu_load (avg : option (float64 * float64 * float64)) (c : CPUStates) : CPUStates :=
  match avg with
  | Some (l1, l5, l15) => mkCPU (Usage c) (User c) (System c) (Idle c) l1 l5 l15
  | None => c
  end.

Definition CPU_Collect (percs : option (list float64)) (times : option (list TimesStat))
    (avg : option (float64 * float64 * float64)) : result CPUStates :=
  match percs with
  | None => Ok zeroCPU
  | Some percs =>
      let* usage := index percs 0 in
      let z := f64_of_Z 0 in
      Ok (cpu_load avg (cpu_times times (mkCPU usage z z z z z z)))
  end.

(** ** The Go runtime *)

(** What [runtime.ReadMemStats] fills in: [PauseNs] is a ring of 256 entries. *)
Record MemStats := mkMemStats { msHeapAlloc : Z; StackInuse : Z; NumGC : Z; PauseNs : list Z }.

Definition gc_pause (m : MemStats) : result Z :=
  if decide (NumGC m = 0) then Ok 0
  else indexZ (PauseNs m) (uint32 (NumGC m - 1) `mod` Z.of_nat (length (PauseNs m))).

Definition Runtimes_Collect (goroutines : Z) (m : MemStats) : result RuntimeStates :=
  let* pause := gc_pause m in
  Ok (mkRuntime (uint64 goroutines) (msHeapAlloc m) (StackInuse m) (NumGC m) pause).

(** ** Memory *)

Definition Memory_Collect (vms : option MemoryStates) : MemoryStates := default zeroMemory vms.

(** ** The network *)

(** The body of the loop over the counters. *)
Definition add_counter {C : Type} (n : NetworkStates C) (counter : IOCountersStat) : NetworkStates C :=
  let s := stats counter in
  mkNetwork (Connections n) (IOCounters n)
    (uint64 (TotalBytesSent n + BytesSent s)) (uint64 (TotalBytesRecv n + BytesRecv s))
    (uint64 (TotalPacketsSent n + PacketsSent s)) (uint64 (TotalPacketsRecv n + PacketsRecv s))
    (<[Name counter := s]> (interfaceStats n)).

Definition Network_Collect {C : Type} (connections : list C) (ioCounters : list IOCountersStat) :
    NetworkStates C :=
  foldl add_counter (mkNetwork connections ioCounters 0 0 0 0 ∅) ioCounters.

(** ** Lemmas *)

(** A total of the counters, without wrap-around. *)
Definition sum_of (f : InterfaceStats → Z) (l : list IOCountersStat) : Z :=
  foldr (λ c n, f (stats c) + n) 0 l.

Lemma add_counters_totals {C : Type} (l : list IOCountersStat) (n : NetworkStates C) :
  let n' := foldl add_counter n l in
  Connections n' = Connections n ∧ IOCounters n' = IOCounters n ∧
  uint64 (TotalBytesSent n') = uint64 (TotalBytesSent n + sum_of BytesSent l) ∧
  uint64 (TotalBytesRecv n') = uint64 (TotalBytesRecv n + sum_of BytesRecv l) ∧
  uint64 (TotalPacketsSent n') = uint64 (TotalPacketsSent n + sum_of PacketsSent l) ∧
  uint64 (TotalPacketsRecv n') = uint64 (TotalPacketsRecv n + sum_of PacketsRecv l).
Proof.
  revert n. induction l as [|c l IH]; intros n; cbn.
  - rewrite !Z.add_0_r. done.
  - destruct (IH (add_counter n c)) as (-> & -> & -> & -> & -> & ->). cbn.
    rewrite !unsigned_idemp_add_l, !Z.add_assoc. done.
Qed.

(** An interface has the numbers of its last counter. *)
Lemma add_counters_interfaces {C : Type} (l : list IOCountersStat) (n : NetworkStates C) :
  interfaceStats (foldl add_counter n l) =
  list_to_map (reverse ((λ c, (Name c, stats c)) <$> l)) ∪ interfaceStats n.
Proof.
  revert n. induction l as [|c l IH]; intros n; cbn [foldl fmap list_fmap].
  - by rewrite reverse_nil, list_to_map_nil, map_empty_union.
  - rewrite IH, reverse_cons, list_to_map_app, list_to_map_cons, list_to_map_nil.
    rewrite <- map_union_assoc. f_equal. cbn [add_counter interfaceStats].
    by rewrite <- insert_union_l, map_empty_union.
Qed.

(** The ring of pauses is indexed within its bounds. *)
Lemma gc_pause_ok (m : MemStats) :
  length (PauseNs m) = 256%nat →
  ∃ p : Z, gc_pause m = Ok p ∧
    (0 < NumGC m < 2 ^ 32 → PauseNs m !! Z.to_nat ((NumGC m + 255) `mod` 256) = Some p).
Proof.
  intros Hl. unfold gc_pause. case_decide as H0; [exists 0; split; [done|lia]|].
  rewrite Hl. change (Z.of_nat 256) with 256.
  pose proof (Z.mod_pos_bound (uint32 (NumGC m - 1)) 256 ltac:(lia)) as Hb.
  destruct (lookup_lt_is_Some_2 (PauseNs m) (Z.to_nat (uint32 (NumGC m - 1) `mod` 256))) as [p Hp];
    [rewrite Hl; lia|].
  exists p. split; [apply indexZ_ok; [lia|done]|]. intros Hn. rewrite <- Hp. do 2 f_equal.
  rewrite unsigned_id by (unfold in_unsigned; lia).
  replace (NumGC m + 255) with (NumGC m - 1 + 1 * 256) by lia. apply Z_mod_plus_full.
Qed.

(** ** Properties *)

(** The runtime and network collectors never fail and report what the
    libraries returned: the pause is that of the last collection in the ring
    of 256, the totals are the sums over all interfaces modulo [2 ^ 64], and
    every interface has the numbers of its last counter. *)
Theorem collectors_report {C : Type} (g : Z) (m : MemStats) (cs : list C) (l : list IOCountersStat)
    (Hring : length (PauseNs m) = 256%nat) (Hgc : 0 < NumGC m < 2 ^ 32) :
  (∃ p : Z, Runtimes_Collect g m = Ok (mkRuntime (uint64 g) (msHeapAlloc m) (StackInuse m) (NumGC m) p) ∧
     PauseNs m !! Z.to_nat ((NumGC m + 255) `mod` 256) = Some p) ∧
  let n := Network_Collect cs l in
  Connections n = cs ∧ IOCounters n = l ∧
  uint64 (TotalBytesSent n) = uint64 (sum_of BytesSent l) ∧
  uint64 (TotalBytesRecv n) = uint64 (sum_of BytesRecv l) ∧
  uint64 (TotalPacketsSent n) = uint64 (sum_of PacketsSent l) ∧
  uint64 (TotalPacketsRecv n) = uint64 (sum_of PacketsRecv l) ∧
  interfaceStats n = list_to_map (reverse ((λ c, (Name c, stats c)) <$> l)).
Proof.
  split.
  - destruct (gc_pause_ok m Hring) as (p & E & Hp). exists p. unfold Runtimes_Collect.
    rewrite E. auto.
  - cbv zeta. unfold Network_Collect.
    destruct (add_counters_totals l (mkNetwork cs l 0 0 0 0 ∅)) as (? & ? & ? & ? & ? & ?).
    split_and!; try done. rewrite add_counters_interfaces. apply map_union_empty.
Qed.

Lemma collectors_report_witness :
  let m := mkMemStats 4096 2048 257 (5 :: replicate 255 9) in
  Runtimes_Collect 7 m = Ok (mkRuntime 7 4096 2048 257 5) ∧
  uint64 (TotalBytesSent (Network_Collect ([] : list unit)
    [mkIOCounters "eth0" (mkInterface (2 ^ 64 - 1) 0 0 0); mkIOCounters "eth1" (mkInterface 3 0 0 0)])) = 2.
Proof.
  intros m.
  destruct (collectors_report 7 m ([] : list unit)
    [mkIOCounters "eth0" (mkInterface (2 ^ 64 - 1) 0 0 0); mkIOCounters "eth1" (mkInterface 3 0 0 0)])
    as [(p & E & Hp) (_ & _ & Hs & _)]; [reflexivity|vm_compute; auto|].
  split; [|by rewrite Hs].
  rewrite E. change (Some 5 = Some p) in Hp. by injection Hp as <-.
Defined.
