(* ===== verification/DiskCollector.v ===== *)
(** * The disk collector of [src/metrics/collector.go]

    Usage of the mounted partitions and the rates of each disk since the
    counters of an earlier call.  What the disk library and the clock return
    is an argument of the call. *)
From Stdlib Require Import SpecFloat.
From S2P Require Import Prelude.
From S2P Require Import Runtime.
From S2P Require Import Float64.
Open Scope Z_scope.

(** ** Data *)

(** The library's records, with the fields the collector reads. *)
Record PartitionStat := mkPartition {
  Device : string; Mountpoint : string; Fstype : string; Opts : list string
}.

Record UsageStat := mkUsage {
  uTotal : Z; uUsed : Z; uFree : Z; uUsedPercent : float64;
  uInodesTotal : Z; uInodesUsed : Z; uInodesFree : Z
}.

Record IOCountersStat := mkCounters {
  ReadCount : Z; WriteCount : Z; ReadBytes : Z; WriteBytes : Z;
  ReadTime : Z; WriteTime : Z; IoTime : Z
}.

Record PartitionState := mkPartitionState {
  pDevice : string; MountPoint : string; FsType : string; Options : string;
  Total : Z; Used : Z; Free : Z; UsedPercent : float64;
  InodesTotal : Z; InodesUsed : Z; InodesFree : Z;
  ReadOnly : bool
}.

Record DiskIOStats := mkIO {
  DiskName : string;
  ReadCountPerSec : float64; WriteCountPerSec : float64;
  ReadBytesPerSec : float64; WriteBytesPerSec : float64;
  ReadTimePerSec : float64; WriteTimePerSec : float64;
  UtilizationPercent : float64
}.

(** [TotalIO] of the Go type is never set and left out. *)
Record DiskStates := mkDisk {
  Timestamp : Z;
  Partitions : list PartitionState;
  PerDiskIO : gmap string DiskIOStats;
  Errors : list string
}.

Record DiskCollector := mkCollector { prevIOCounters : gmap string IOCountersStat }.

Definition newDiskCollector : DiskCollector := mkCollector ∅.

(** What the library and the clock return during one call.  [io_error] is the
    text of the error of [disk.IOCounters]. *)
Record env := mkEnv {
  io_counters : gmap string IOCountersStat;
  io_error : option string;
  partitions : list PartitionStat;
  usage : string → UsageStat + string;
  now : Z
}.

(** ** Which partitions are skipped *)

Fixpoint strings_Contains (s sub : string) : bool :=
  String.prefix sub s ||
  match s with
  | EmptyString => false
  | String _ s => strings_Contains s sub
  end.

Definition strings_HasPrefix (s pre : string) : bool := String.prefix pre s.

Definition skipFsTypes : list string :=
  ["tmpfs"; "devtmpfs"; "squashfs"; "overlay"; "autofs"; "cgroup"; "cgroup2"; "tracefs"; "debugfs";
   "pstore"; "bpf"; "securityfs"; "configfs"; "fusectl"; "hugetlbfs"; "mqueue"; "binfmt_misc"]%string.

Definition skipMounts : list string :=
  ["/dev"; "/proc"; "/sys"; "/run"; "/snap"; "/sys/kernel"; "/boot/efi"; "/sys/fs/cgroup";
   "/sys/fs/fuse"; "/sys/fs/pstore"; "/sys/fs/bpf"; "/sys/kernel/debug"; "/sys/kernel/tracing";
   "/proc/sys/fs/binfmt_misc"]%string.

(** The loop over the options that looks for read-only. *)
Fixpoint has_ro (opts : list string) : bool :=
  match opts with
  | [] => false
  | opt :: opts => if decide (opt = "ro"%string) then true else has_ro opts
  end.

Definition shouldSkipPartition (p : PartitionStat) : bool :=
  if decide (Fstype p ∈ skipFsTypes) then true
  else if decide (Mountpoint p ∈ skipMounts) then true
  else if has_ro (Opts p) then true
  else
    strings_Contains (Mountpoint p) "/var/lib/docker" ||
    strings_Contains (Mountpoint p) "/var/lib/kubelet" ||
    strings_Contains (Mountpoint p) "/var/lib/lxc" ||
    strings_Contains (Mountpoint p) "/var/lib/lxd" ||
    strings_Contains (Mountpoint p) "/var/lib/containers" ||
    strings_HasPrefix (Device p) "gvfs" ||
    strings_Contains (Device p) "ram".

(** ** A collection *)

(** The loop over the partitions: the states and the errors it appends. *)
Fixpoint collect_partitions (usage : string → UsageStat + string) (ps : list PartitionStat)
    (states : list PartitionState) (errors : list string) : list PartitionState * list string :=
  match ps with
  | [] => (states, errors)
  | p :: ps =>
      if shouldSkipPartition p then collect_partitions usage ps states errors
      else
        match usage (Mountpoint p) with
        | inr err =>
            collect_partitions usage ps states
              (errors ++ [("Usage error [" ++ Mountpoint p ++ "]: " ++ err)%string])
        | inl u =>
            let isReadOnly := has_ro (Opts p) in
            collect_partitions usage ps
              (states ++ [mkPartitionState (Device p) (Mountpoint p) (Fstype p)
                 (String.concat "," (Opts p)) (uTotal u) (uUsed u) (uFree u) (uUsedPercent u)
                 (uInodesTotal u) (uInodesUsed u) (uInodesFree u) isReadOnly]) errors
        end
  end.

(** [Duration.Seconds]. *)
Definition Seconds (d : Z) : float64 :=
  f64_add (f64_of_Z (Z.quot d second)) (f64_div (f64_of_Z (Z.rem d second)) (f64_of_Z 1000000000)).

Definition percentBase : Z := 100.
Definition milliseconds : Z := 1000.

Definition delta (elapsed : float64) (current prev : Z) : float64 :=
  if decide (current < prev) then f64_div (f64_of_Z current) elapsed
  else f64_div (f64_of_Z (current - prev)) elapsed.

Definition skip_disk (diskName : string) : bool :=
  strings_Contains diskName "loop" || strings_HasPrefix diskName "dm-" ||
  strings_Contains diskName "nvme".

(** The body of the loop over the counters: the entry made for a disk. *)
Definition disk_io (elapsed : float64) (prevs : gmap string IOCountersStat) (diskName : string)
    (counters : IOCountersStat) : option DiskIOStats :=
  if skip_disk diskName then None
  else
    match prevs !! diskName with
    | None => None
    | Some prev =>
        let utilization :=
          f64_div (f64_mul (f64_of_Z percentBase) (f64_of_Z (uint64 (IoTime counters - IoTime prev))))
            (f64_mul elapsed (f64_of_Z milliseconds)) in
        Some (mkIO diskName
          (delta elapsed (ReadCount counters) (ReadCount prev))
          (delta elapsed (WriteCount counters) (WriteCount prev))
          (delta elapsed (ReadBytes counters) (ReadBytes prev))
          (delta elapsed (WriteBytes counters) (WriteBytes prev))
          (delta elapsed (ReadTime counters) (ReadTime prev))
          (delta elapsed (WriteTime counters) (WriteTime prev))
          utilization)
    end.

Definition elapsed_since (now last : Z) : float64 :=
  let elapsed := Seconds (since now last) in
  if f64_leb elapsed (f64_of_Z 0) then f64_of_Z 1 else elapsed.

(** [lastCollection] is [None] for the zero time.  The loop over the counters
    makes one entry per disk, so its order does not matter. *)
Definition Collect (e : env) (lastCollection : option Z) (d : DiskCollector) :
    DiskCollector * DiskStates :=
  match lastCollection with
  | None => (mkCollector (io_counters e), mkDisk (now e `div` second) [] ∅ [])
  | Some last =>
      let elapsed := elapsed_since (now e) last in
      let (states, errors) := collect_partitions (usage e) (partitions e) [] [] in
      match io_error e with
      | Some err =>
          (d, mkDisk (now e `div` second) states ∅ (errors ++ [("IO Counters error: " ++ err)%string]))
      | None =>
          (mkCollector (io_counters e),
           mkDisk (now e `div` second) states
             (map_imap (disk_io elapsed (prevIOCounters d)) (io_counters e)) errors)
      end
  end.

(** ** Specifications *)

(** What a partition contributes to the report. *)
Definition reported (usage : string → UsageStat + string) (p : PartitionStat) :
    option PartitionState :=
  if shouldSkipPartition p then None
  else
    match usage (Mountpoint p) with
    | inl u =>
        Some (mkPartitionState (Device p) (Mountpoint p) (Fstype p) (String.concat "," (Opts p))
          (uTotal u) (uUsed u) (uFree u) (uUsedPercent u) (uInodesTotal u) (uInodesUsed u)
          (uInodesFree u) false)
    | inr _ => None
    end.

Definition failed (usage : string → UsageStat + string) (p : PartitionStat) : option string :=
  if shouldSkipPartition p then None
  else
    match usage (Mountpoint p) with
    | inl _ => None
    | inr err => Some ("Usage error [" ++ Mountpoint p ++ "]: " ++ err)%string
    end.

(** The counters a call leaves: those it read, except that a call that knows
    the last collection and could not read them leaves the old ones. *)
Definition reading (c : gmap string IOCountersStat) (call : option Z * env) :
    gmap string IOCountersStat :=
  match call with
  | (Some _, e) => match io_error e with None => io_counters e | Some _ => c end
  | (None, e) => io_counters e
  end.

(** ** Lemmas *)

Lemma not_skipped_not_ro (p : PartitionStat) :
  shouldSkipPartition p = false → has_ro (Opts p) = false.
Proof. unfold shouldSkipPartition. repeat case_decide; try done. by destruct (has_ro _). Qed.

Lemma collect_partitions_eq (usage : string → UsageStat + string) (ps : list PartitionStat)
    (states : list PartitionState) (errors : list string) :
  collect_partitions usage ps states errors =
  (states ++ omap (reported usage) ps, errors ++ omap (failed usage) ps).
Proof.
  revert states errors. induction ps as [|p ps IH]; intros states errors; cbn -[shouldSkipPartition].
  { by rewrite !app_nil_r. }
  unfold reported at 1, failed at 1. destruct (shouldSkipPartition p) eqn:Hs; [apply IH|].
  destruct (usage (Mountpoint p)); rewrite IH, <- app_assoc; [|done].
  by rewrite (not_skipped_not_ro p Hs).
Qed.

Lemma Collect_prev (e : env) (last : option Z) (d : DiskCollector) :
  prevIOCounters (Collect e last d).1 = reading (prevIOCounters d) (last, e).
Proof.
  destruct last as [t|]; [|done]. cbn. destruct (collect_partitions _ _ _ _). by destruct (io_error e).
Qed.

(** The rates of a call that can read the counters. *)
Lemma Collect_io (e : env) (t : Z) (d : DiskCollector) (name : string) :
  io_error e = None →
  PerDiskIO (Collect e (Some t) d).2 !! name =
    io_counters e !! name ≫= disk_io (elapsed_since (now e) t) (prevIOCounters d) name.
Proof.
  intros Hio. cbn [Collect]. destruct (collect_partitions _ _ _ _). rewrite Hio. cbn [snd PerDiskIO].
  apply map_lookup_imap.
Qed.

(** ** Properties *)

(** The partitions of a report are, in the order of the library, those
    that are not skipped and whose usage could be read, each with its usage,
    and the errors are those of the others that are not skipped.  Because a
    read-only partition is skipped before its options are looked at, no
    partition is ever reported as read-only. *)
Theorem Collect_partitions (e : env) (t : Z) (d : DiskCollector) (Hio : io_error e = None) :
  let s := (Collect e (Some t) d).2 in
  Partitions s = omap (reported (usage e)) (partitions e) ∧
  Errors s = omap (failed (usage e)) (partitions e) ∧
  Forall (λ p, ReadOnly p = false) (Partitions s) ∧
  (∀ p : PartitionStat, has_ro (Opts p) = true → reported (usage e) p = None).
Proof.
  cbv zeta. unfold Collect. rewrite collect_partitions_eq, Hio. cbn [snd Partitions Errors app].
  split; [done|]. split; [done|]. split.
  - apply Forall_forall. intros x (p & _ & Hx)%list_elem_of_omap. unfold reported in Hx.
    destruct (shouldSkipPartition p); [done|]. destruct (usage e _); [|done]. by injection Hx as <-.
  - intros p Hp. unfold reported. destruct (shouldSkipPartition p) eqn:Hs; [done|].
    apply not_skipped_not_ro in Hs. congruence.
Qed.

Definition gib : UsageStat := mkUsage (2 ^ 30) (2 ^ 29) (2 ^ 29) (f64_of_Z 50) 1000 500 500.

Lemma Collect_partitions_witness :
  let e := mkEnv ∅ None
    [mkPartition "/dev/sda1" "/" "ext4" ["rw"]; mkPartition "/dev/sr0" "/media" "iso9660" ["ro"];
     mkPartition "proc" "/proc" "proc" ["rw"]; mkPartition "/dev/sdb" "/data" "xfs" []]
    (λ m, if decide (m = "/data"%string) then inr "denied"%string else inl gib) 0 in
  let s := (Collect e (Some 0) newDiskCollector).2 in
  (MountPoint <$> Partitions s) = ["/"%string] ∧ Errors s = ["Usage error [/data]: denied"%string].
Proof.
  intros e s. destruct (Collect_partitions e 0 newDiskCollector eq_refl) as (Hp & He & _).
  unfold s. rewrite Hp, He. split; reflexivity.
Defined.

(** The time a disk was busy is subtracted without the guard of [delta]: when
    the counter went back by one millisecond, the utilization of the second
    is over [10 ^ 18] percent. *)
Lemma utilization_underflows :
  let prev := {["sda"%string := mkCounters 0 0 0 0 0 0 10]} in
  match disk_io (f64_of_Z 1) prev "sda" (mkCounters 0 0 0 0 0 0 9) with
  | Some io => f64_leb (f64_of_Z (10 ^ 18)) (UtilizationPercent io) = true
  | None => False
  end.
Proof. vm_compute. reflexivity. Qed.
