(* ===== verification/Monitor.v ===== *)
(** * The monitor of [src/metrics/monitor.go]

    The monitor collects system metrics on a timer and passes them to its
    observers.  A collection hands five tasks to a pool of workers and waits
    until all of them are done or a timeout passes.  The file has the data,
    the options and, as events, every step of the monitor's goroutines: the
    collecting loop, the tasks, and the callers of its methods, of which
    [Start] and [Stop] are taken one statement at a time.

    The pool is a library: whether it takes a task is an argument of the event
    that submits it, except that a released pool takes none. *)
From Stdlib Require Import SpecFloat.
From S2P Require Import Prelude.
From S2P Require Import Runtime.
From S2P Require Import Float64.
From S2P Require Import Collectors.
From S2P Require Import DiskCollector.
From S2P Require Import WaitGroup.
Open Scope Z_scope.
Open Scope go_scope.

(** ** Timeouts: [src/metrics/opensource_timeout.go] *)

(** [ub] is the platform's conversion of a number that does not fit. *)
Definition OpenSourceTimeout_Timeout (ub : float64 → Z) (fixedRatio : float64)
    (collectInterval : Z) : Z :=
  f64_to_int64 ub (f64_mul (f64_of_Z collectInterval) fixedRatio).

(** ** Data *)

Definition default_interval : Z := 5 * second.
Definition workers : nat := 5.
Definition mod5 : Z := 5.

(** [LastCollectTime] is [None] for the zero time. *)
Record Meta := mkMeta {
  LastCollectTime : option Z;
  SuccessCount : Z;
  ErrCount : Z;
  AverageTimeTaken : Z;
  TimeTakenQueue : list Z
}.

Record Metrics {C : Type} := mkMetrics {
  Timestamp : Z;
  CPU : CPUStates;
  Memory : MemoryStates;
  Disk : DiskStates;
  Runtime : RuntimeStates;
  Network : NetworkStates C
}.
Arguments Metrics C : clear implicits.
Arguments mkMetrics {C}.

Inductive task := TCPU | TMemory | TNetwork | TRuntime | TDisk.

#[export] Instance task_eq_dec : EqDecision task.
Proof. solve_decision. Defined.

(** Where a goroutine that runs [runCollector] is: before its [select],
    in it, having evaluated [m.ctx.Done()], inside the collection [group] begun
    at [start], about to notify, or in the deferred [m.wg.Done()], which saw
    [w] goroutines blocked. *)
Inductive runner := Looping | Waiting (ctx : nat) | Collecting (start : Z) (group : nat)
  | Notifying | Returning | Releasing (w : nat) | Exited.

(** Where a call of [Start] or [Stop] is after its compare-and-swap.  [Stop]
    ends in a [select] that returns when its goroutine closes [done] or a
    timeout passes, and changes nothing; [StopWait] is that goroutine, in
    [m.wg.Wait()], and [StopBlocked] when the wait group has blocked it. *)
Inductive caller := StartContext | StartAdd | StartGo
  | StopCancel | StopRelease | StopWait | StopBlocked | Finished.

Section monitor.
  Context {C : Type}.

(** [ctxs] says of the contexts made by [Start] which are done; the last of
    them is [m.ctx], and [m.cancelFunc] ends it.  [running] are the tasks the
    pool has taken and not finished, with their collections; [remaining] are
    the wait groups of the collections and [wg] is that of the monitor;
    [rounds] counts the calls of [NotifyAll] and [updates] are the calls of
    [Update], by observer. *)
Record Monitor := mkMonitor {
  collectInterval : Z;
  reportInterval : Z;
  pid : Z;
  timeoutCtrl : Z → Z;
  observers : list nat;
  diskCollector : DiskCollector;
  metrics : Metrics C;
  meta : Meta;
  state : bool;
  ctxs : list bool;
  released : bool;
  runners : list runner;
  callers : list caller;
  wg : WaitGroup;
  running : list (nat * task);
  remaining : list nat;
  rounds : nat;
  updates : list (nat * Metrics C)
}.

Definition zeroMetrics : Metrics C :=
  mkMetrics 0 zeroCPU zeroMemory (mkDisk 0 [] ∅ []) (mkRuntime 0 0 0 0 0)
    (mkNetwork [] [] 0 0 0 0 ∅).

(** ** Construction *)

Inductive option_ := WithTimeoutController (ctrl : Z → Z) | WithCollectInterval (interval : Z)
  | WithProcessMonitoring (p : Z).

Definition apply_option (m : Monitor) (o : option_) : Monitor :=
  let '(mkMonitor ci ri p tc ob dc ms me st cx re rs cs wg ru rm ro up) := m in
  match o with
  | WithTimeoutController ctrl => mkMonitor ci ri p ctrl ob dc ms me st cx re rs cs wg ru rm ro up
  | WithCollectInterval interval => mkMonitor ci interval p tc ob dc ms me st cx re rs cs wg ru rm ro up
  | WithProcessMonitoring p => mkMonitor ci ri p tc ob dc ms me st cx re rs cs wg ru rm ro up
  end.

(** The pool is made with constant options, with which it reports no error. *)
Definition NewMonitor (ub : float64 → Z) (opts : list option_) : Monitor :=
  foldl apply_option
    (mkMonitor default_interval default_interval 0
       (OpenSourceTimeout_Timeout ub (f64_of_Z default_interval)) [] newDiskCollector zeroMetrics
       (mkMeta None 0 0 0 []) false [] false [] [] zeroWaitGroup [] [] 0 []) opts.

(** ** Updates of the record *)

Definition set_observers (x : list nat) (m : Monitor) : Monitor :=
  mkMonitor (collectInterval m) (reportInterval m) (pid m) (timeoutCtrl m) x (diskCollector m)
    (metrics m) (meta m) (state m) (ctxs m) (released m) (runners m) (callers m) (wg m)
    (running m) (remaining m) (rounds m) (updates m).
Definition set_metrics (x : Metrics C) (dc : DiskCollector) (m : Monitor) : Monitor :=
  mkMonitor (collectInterval m) (reportInterval m) (pid m) (timeoutCtrl m) (observers m) dc x
    (meta m) (state m) (ctxs m) (released m) (runners m) (callers m) (wg m) (running m)
    (remaining m) (rounds m) (updates m).
Definition set_meta (x : Meta) (m : Monitor) : Monitor :=
  mkMonitor (collectInterval m) (reportInterval m) (pid m) (timeoutCtrl m) (observers m)
    (diskCollector m) (metrics m) x (state m) (ctxs m) (released m) (runners m) (callers m) (wg m)
    (running m) (remaining m) (rounds m) (updates m).
Definition set_life (st : bool) (cx : list bool) (re : bool) (m : Monitor) : Monitor :=
  mkMonitor (collectInterval m) (reportInterval m) (pid m) (timeoutCtrl m) (observers m)
    (diskCollector m) (metrics m) (meta m) st cx re (runners m) (callers m) (wg m) (running m)
    (remaining m) (rounds m) (updates m).
Definition set_runners (x : list runner) (m : Monitor) : Monitor :=
  mkMonitor (collectInterval m) (reportInterval m) (pid m) (timeoutCtrl m) (observers m)
    (diskCollector m) (metrics m) (meta m) (state m) (ctxs m) (released m) x (callers m) (wg m)
    (running m) (remaining m) (rounds m) (updates m).
Definition set_wait (cs : list caller) (x : WaitGroup) (m : Monitor) : Monitor :=
  mkMonitor (collectInterval m) (reportInterval m) (pid m) (timeoutCtrl m) (observers m)
    (diskCollector m) (metrics m) (meta m) (state m) (ctxs m) (released m) (runners m) cs x
    (running m) (remaining m) (rounds m) (updates m).
Definition set_tasks (x : list (nat * task)) (left : list nat) (m : Monitor) : Monitor :=
  mkMonitor (collectInterval m) (reportInterval m) (pid m) (timeoutCtrl m) (observers m)
    (diskCollector m) (metrics m) (meta m) (state m) (ctxs m) (released m) (runners m) (callers m)
    (wg m) x left (rounds m) (updates m).
Definition set_sent (x : nat) (y : list (nat * Metrics C)) (m : Monitor) : Monitor :=
  mkMonitor (collectInterval m) (reportInterval m) (pid m) (timeoutCtrl m) (observers m)
    (diskCollector m) (metrics m) (meta m) (state m) (ctxs m) (released m) (runners m) (callers m)
    (wg m) (running m) (remaining m) x y.

(** ** Observers *)

Definition Register (o : nat) (m : Monitor) : Monitor := set_observers (observers m ++ [o]) m.

(** The loop removes the first entry that is [o]. *)
Fixpoint remove_first (o : nat) (l : list nat) : list nat :=
  match l with
  | [] => []
  | x :: l => if decide (x = o) then l else x :: remove_first o l
  end.

Definition Unregister (o : nat) (m : Monitor) : Monitor :=
  set_observers (remove_first o (observers m)) m.

Definition NotifyAll (m : Monitor) : Monitor :=
  set_sent (S (rounds m)) (updates m ++ ((λ o, (o, metrics m)) <$> observers m)) m.

(** ** Starting and stopping *)

(** The two calls up to their compare-and-swap. *)
Definition Start (m : Monitor) : Monitor :=
  if state m then m
  else set_wait (callers m ++ [StartContext]) (wg m) (set_life true (ctxs m) (released m) m).

Definition Stop (m : Monitor) : Monitor :=
  if state m then
    set_wait (callers m ++ [StopCancel]) (wg m) (set_life false (ctxs m) (released m) m)
  else m.

(** [m.cancelFunc], when it is not nil. *)
Definition cancel (m : Monitor) : Monitor :=
  set_life (state m) (<[pred (length (ctxs m)) := true]> (ctxs m)) (released m) m.

(** The next statement of a call of [Start] or [Stop]. *)
Definition caller_step (c : caller) (m : Monitor) : result (Monitor * caller) :=
  match c with
  | StartContext => Ok (set_life (state m) (ctxs m ++ [false]) (released m) m, StartAdd)
  | StartAdd =>
      let* (g, _) := wg_Add 1 (wg m) in
      Ok (set_wait (callers m) g m, StartGo)
  | StartGo => Ok (set_runners (runners m ++ [Looping]) m, Finished)
  | StopCancel => Ok (cancel m, StopRelease)
  | StopRelease => Ok (set_life (state m) (ctxs m) true m, StopWait)
  | StopWait =>
      let (g, returned) := wg_Wait (wg m) in
      Ok (set_wait (callers m) g m, if returned then Finished else StopBlocked)
  | StopBlocked =>
      match wg_wake (wg m) with
      | Some woken =>
          let* g := woken in
          Ok (set_wait (callers m) g m, Finished)
      | None => Ok (m, StopBlocked)
      end
  | Finished => Ok (m, Finished)
  end.

(** [m.wg.Done()] at the end of [runCollector]. *)
Definition runner_done (r : runner) (m : Monitor) : result (Monitor * runner) :=
  match r with
  | Returning =>
      let* (g, more) := wg_Add (-1) (wg m) in
      Ok (set_wait (callers m) g m, if (more : bool) then Releasing (blocked g) else Exited)
  | Releasing w =>
      let* g := wg_release w (wg m) in
      Ok (set_wait (callers m) g m, Exited)
  | _ => Ok (m, r)
  end.

(** ** A collection *)

(** [collectAllMetrics] up to its [select]: five tasks are submitted, and
    [taken] says which of them a pool that is not released takes. *)
Definition collect_begin (i : nat) (now : Z) (taken : task → bool) (m : Monitor) : Monitor :=
  match runners m !! i with
  | Some (Waiting _) =>
      let group := length (remaining m) in
      let accepted :=
        filter (λ t, negb (released m) && taken t = true) [TCPU; TMemory; TNetwork; TRuntime; TDisk] in
      set_tasks (running m ++ ((λ t, (group, t)) <$> accepted)) (remaining m ++ [workers])
        (set_runners (<[i := Collecting now group]> (runners m)) m)
  | _ => m
  end.

(** What the libraries return to a task. *)
Inductive task_env :=
  | ECPU (percs : option (list float64)) (times : option (list TimesStat))
      (avg : option (float64 * float64 * float64))
  | EMemory (vms : option MemoryStates)
  | ENetwork (connections : list C) (counters : list Collectors.IOCountersStat)
  | ERuntime (goroutines : Z) (stats : MemStats)
  | EDisk (e : DiskCollector.env).

(** The body of a task. *)
Definition run_task (t : task) (e : task_env) (m : Monitor) : result Monitor :=
  let x := metrics m in
  match t, e with
  | TCPU, ECPU percs times avg =>
      let* c := CPU_Collect percs times avg in
      Ok (set_metrics (mkMetrics (Timestamp x) c (Memory x) (Disk x) (Runtime x) (Network x))
            (diskCollector m) m)
  | TMemory, EMemory vms =>
      Ok (set_metrics (mkMetrics (Timestamp x) (CPU x) (Memory_Collect vms) (Disk x) (Runtime x)
            (Network x)) (diskCollector m) m)
  | TNetwork, ENetwork connections counters =>
      Ok (set_metrics (mkMetrics (Timestamp x) (CPU x) (Memory x) (Disk x) (Runtime x)
            (Network_Collect connections counters)) (diskCollector m) m)
  | TRuntime, ERuntime goroutines stats =>
      let* r := Runtimes_Collect goroutines stats in
      Ok (set_metrics (mkMetrics (Timestamp x) (CPU x) (Memory x) (Disk x) r (Network x))
            (diskCollector m) m)
  | TDisk, EDisk e =>
      let (dc, d) := DiskCollector.Collect e (LastCollectTime (meta m)) (diskCollector m) in
      Ok (set_metrics (mkMetrics (Timestamp x) (CPU x) (Memory x) d (Runtime x) (Network x)) dc m)
  | _, _ => Ok m
  end.

Definition matching (t : task) (e : task_env) : bool :=
  match t, e with
  | TCPU, ECPU _ _ _ | TMemory, EMemory _ | TNetwork, ENetwork _ _ | TRuntime, ERuntime _ _
  | TDisk, EDisk _ => true
  | _, _ => false
  end.

(** The [k]-th running task runs to its end and calls [wg.Done]. *)
Definition task_done (k : nat) (e : task_env) (m : Monitor) : result Monitor :=
  match running m !! k with
  | Some (group, t) =>
      if matching t e then
        let* m := run_task t e m in
        Ok (set_tasks (delete k (running m)) (alter pred group (remaining m)) m)
      else Ok m
  | None => Ok m
  end.

(** The average over the whole queue. *)
Definition average (queue : list Z) : result Z :=
  if decide (queue = []) then Panics IntegerDivideByZero
  else Ok (Z.quot (foldl (λ n d, int64 (n + d)) 0 queue) (Z.of_nat (length queue))).

(** The branch of the [select] in which every task is done; the clock is read
    for the duration and again, at [last], for the time of the collection. *)
Definition collect_success (start now last : Z) (m : Monitor) : result Monitor :=
  let timeTaken := Z.quot (since now start) millisecond in
  let x := metrics m in
  let me := meta m in
  let queue := TimeTakenQueue me ++ [timeTaken] in
  let count := int64 (SuccessCount me + 1) in
  let* avg := if decide (Z.rem count mod5 = 0) then average queue else Ok (AverageTimeTaken me) in
  Ok (set_meta (mkMeta (Some last) count (ErrCount me) avg queue)
        (set_metrics (mkMetrics timeTaken (CPU x) (Memory x) (Disk x) (Runtime x) (Network x))
           (diskCollector m) m)).

(** The branch in which the timeout has passed. *)
Definition collect_timeout (now : Z) (m : Monitor) : Monitor :=
  let me := meta m in
  set_meta (mkMeta (Some now) (SuccessCount me) (int64 (ErrCount me + 1)) (AverageTimeTaken me)
              (TimeTakenQueue me)) m.

(** ** Events *)

Inductive event :=
  | EvRegister (o : nat)
  | EvUnregister (o : nat)
  | EvStart
  | EvStop
  | EvCaller (j : nat)                                  (** call [j] of [Start] or [Stop] goes on *)
  | EvCancel (c : nat)                                  (** the context given to a [Start] ends *)
  | EvSelect (i : nat)                                  (** runner [i] comes to its [select] *)
  | EvTick (i : nat) (now : Z) (taken : task → bool)    (** and begins a collection *)
  | EvTask (k : nat) (e : task_env)                     (** a task ends *)
  | EvDone (i : nat) (now last : Z)                     (** runner [i] sees its tasks done *)
  | EvTimeout (i : nat) (now : Z)                       (** or its timeout pass *)
  | EvNotify (i : nat)
  | EvExit (i : nat)                                    (** runner [i] sees its context end *)
  | EvFinish (i : nat).                                 (** and is in [m.wg.Done()] *)

Definition set_runner (i : nat) (r : runner) (m : Monitor) : Monitor :=
  set_runners (<[i := r]> (runners m)) m.

Definition step (ev : event) (m : Monitor) : result Monitor :=
  match ev with
  | EvRegister o => Ok (Register o m)
  | EvUnregister o => Ok (Unregister o m)
  | EvStart => Ok (Start m)
  | EvStop => Ok (Stop m)
  | EvCaller j =>
      match callers m !! j with
      | Some c =>
          let* (m, c) := caller_step c m in
          Ok (set_wait (<[j := c]> (callers m)) (wg m) m)
      | None => Ok m
      end
  | EvCancel c => Ok (set_life (state m) (<[c := true]> (ctxs m)) (released m) m)
  | EvSelect i =>
      match runners m !! i with
      | Some Looping => Ok (set_runner i (Waiting (pred (length (ctxs m)))) m)
      | _ => Ok m
      end
  | EvTick i now taken => Ok (collect_begin i now taken m)
  | EvTask k e => task_done k e m
  | EvDone i now last =>
      match runners m !! i with
      | Some (Collecting start group) =>
          if decide (remaining m !! group = Some 0%nat) then
            let* m := collect_success start now last m in
            Ok (set_runner i Notifying m)
          else Ok m
      | _ => Ok m
      end
  | EvTimeout i now =>
      match runners m !! i with
      | Some (Collecting start group) =>
          if decide (timeoutCtrl m (reportInterval m) ≤ since now start) then
            Ok (set_runner i Looping (collect_timeout now m))
          else Ok m
      | _ => Ok m
      end
  | EvNotify i =>
      match runners m !! i with
      | Some Notifying => Ok (set_runner i Looping (NotifyAll m))
      | _ => Ok m
      end
  | EvExit i =>
      match runners m !! i with
      | Some (Waiting c) =>
          if decide (ctxs m !! c = Some true) then Ok (set_runner i Returning m) else Ok m
      | _ => Ok m
      end
  | EvFinish i =>
      match runners m !! i with
      | Some r =>
          let* (m, r) := runner_done r m in
          Ok (set_runner i r m)
      | None => Ok m
      end
  end.

Fixpoint run (evs : list event) (m : Monitor) : result Monitor :=
  match evs with
  | [] => Ok m
  | ev :: evs =>
      let* m := step ev m in
      run evs m
  end.
End monitor.
Arguments Monitor C : clear implicits.
Arguments option_ : clear implicits.
Arguments task_env C : clear implicits.
Arguments event C : clear implicits.

(** ** Lemmas *)

#[export] Instance runner_eq_dec : EqDecision runner.
Proof. solve_decision. Defined.

Section lemmas.
  Context {C : Type}.

(** What the libraries are documented to return: a processor reading has a
    value, and the ring of collection pauses has 256 entries. *)
Definition sane (ev : event C) : Prop :=
  match ev with
  | EvTask _ (ECPU (Some percs) _ _) => percs ≠ []
  | EvTask _ (ERuntime _ stats) => length (PauseNs stats) = 256%nat
  | _ => True
  end.

(** A task changes the metrics and the disk collector only. *)
Lemma run_task_ok (t : task) (k : nat) (e : task_env C) (m : Monitor C) :
  sane (EvTask k e) →
  ∃ (x : Metrics C) (dc : DiskCollector), run_task t e m = Ok (set_metrics x dc m).
Proof.
  intros Hs. destruct t, e as [[[|p ps]|] times avg|vms|cs l|g st|e];
    cbn in Hs |- *; try done; try (eexists _, _; reflexivity);
    try (exists (metrics m), (diskCollector m); by destruct m).
  - destruct (gc_pause_ok st Hs) as (q & Eq & _). unfold Runtimes_Collect. rewrite Eq. cbn. eauto.
  - destruct (DiskCollector.Collect _ _ _). eauto.
Qed.
Lemma run_task_frame (t : task) (e : task_env C) (m m' : Monitor C) :
  run_task t e m = Ok m' → ∃ (x : Metrics C) (dc : DiskCollector), m' = set_metrics x dc m.
Proof.
  intros E.
  destruct t, e; cbn [run_task] in E;
    first [ apply rbind_ok in E as (c & _ & [= <-]); eauto
          | destruct (DiskCollector.Collect _ _ _); injection E as <-; eauto
          | injection E as <-; first [ by eexists _, _
                                     | exists (metrics m), (diskCollector m); by destruct m ] ].
Qed.

(** The panics of a task that meets values the libraries do not return. *)
Lemma run_task_panics (t : task) (e : task_env C) (m : Monitor C) :
  match run_task t e m with
  | Ok _ => True
  | Panics p => p = IndexOutOfRange ∨ p = IntegerDivideByZero
  | OutOfFuel => False
  end.
Proof.
  destruct t, e as [[[|p ps]|] times avg|vms|cs l|g st|e]; cbn; try done; auto.
  all: unfold Runtimes_Collect, gc_pause, indexZ, index; repeat case_match; simplify_eq/=; auto.
Qed.
End lemmas.

(** The default controller multiplies the interval, in nanoseconds, by five
    billion: the product does not fit 64 bits, and where the conversion gives
    the smallest integer every collection may time out at once. *)
Lemma default_timeout_overflows (ub : float64 → Z) :
  OpenSourceTimeout_Timeout ub (f64_of_Z default_interval) default_interval =
    ub (f64_of_Z (25 * 10 ^ 18)) ∧
  OpenSourceTimeout_Timeout amd64_overflow (f64_of_Z default_interval) default_interval < 0.
Proof. split; vm_compute; reflexivity. Qed.
