(* ===== verification/MonitorBooks.v ===== *)
(** * The books of the monitor

    What every run of [Monitor] keeps: the counts and the average of [Meta],
    and the wait group, which can panic only when [Start] is called after
    [Stop]. *)
From S2P Require Import Prelude.
From S2P Require Import Runtime.
From S2P Require Import Float64.
From S2P Require Import Collectors.
From S2P Require Import DiskCollector.
From S2P Require Import WaitGroup.
From S2P Require Import Monitor.
Open Scope Z_scope.
Open Scope go_scope.

(** ** Counting *)

Definition is_notifying (r : runner) : nat := if decide (r = Notifying) then 1 else 0.

(** The runners about to notify. *)
Definition notifying (rs : list runner) : nat := sum_list_with is_notifying rs.

(** The average the monitor shows: that of the first [5 * k] collections. *)
Definition shown_average (queue : list Z) : Z :=
  let n := (5 * (length queue / 5))%nat in
  Z.quot (int64 (foldr Z.add 0 (take n queue))) (Z.of_nat n).

Lemma foldl_int64 (queue : list Z) (n : Z) :
  foldl (λ n d, int64 (n + d)) (int64 n) queue = int64 (n + foldr Z.add 0 queue).
Proof.
  revert n. induction queue as [|d queue IH]; intros n; cbn [foldl foldr].
  - by rewrite Z.add_0_r.
  - by rewrite signed_idemp_add_l, IH, Z.add_assoc.
Qed.

Lemma average_ok (queue : list Z) :
  queue ≠ [] → average queue = Ok (Z.quot (int64 (foldr Z.add 0 queue)) (Z.of_nat (length queue))).
Proof.
  intros Hq. unfold average. rewrite decide_False by done. do 2 f_equal.
  apply (foldl_int64 queue 0).
Qed.

#[local] Arguments notifying : simpl never.
#[local] Arguments shown_average : simpl never.

Lemma shown_average_snoc (queue : list Z) (d : Z) :
  (if decide (Z.rem (Z.of_nat (length queue) + 1) mod5 = 0) then average (queue ++ [d])
   else Ok (shown_average queue)) = Ok (shown_average (queue ++ [d])).
Proof.
  unfold shown_average. rewrite length_app. cbn [length].
  set (l := length queue). unfold mod5.
  assert (Z.of_nat l + 1 = Z.of_nat (l + 1)) as -> by lia.
  rewrite Z.rem_mod_nonneg by lia. case_decide as H.
  - assert (5 * ((l + 1) / 5) = l + 1)%nat as ->.
    { apply Nat2Z.inj. rewrite Nat2Z.inj_mul, Nat2Z.inj_div. change (Z.of_nat 5) with 5.
      pose proof (Z.div_mod (Z.of_nat (l + 1)) 5 ltac:(lia)). lia. }
    rewrite take_ge by (rewrite length_app; cbn; subst l; lia).
    rewrite average_ok by (by destruct queue). by rewrite length_app.
  - assert ((l + 1) / 5 = l / 5)%nat as ->.
    { apply Nat2Z.inj. rewrite !Nat2Z.inj_div. change (Z.of_nat 5) with 5.
      rewrite Nat2Z.inj_add in *. change (Z.of_nat 1) with 1 in *. mod_lia. }
    rewrite take_app_le; [done|].
    pose proof (Nat.Div0.mul_div_le l 5). subst l. lia.
Qed.

(** ** The books *)

Section books.
  Context {C : Type}.

(** What a call leaves when it returns, and how it panics. *)
Definition ends {A : Type} (P : A → Prop) (r : result A) : Prop :=
  match r with
  | Ok a => P a
  | Panics p => waitgroup_panic p
  | OutOfFuel => False
  end.

(** The books of the monitor, after at most [n] events. *)
Record books (n : Z) (m : Monitor C) : Prop := {
  bk_success : SuccessCount (meta m) = Z.of_nat (length (TimeTakenQueue (meta m)));
  bk_bound : Z.of_nat (length (TimeTakenQueue (meta m))) ≤ n;
  bk_average : AverageTimeTaken (meta m) = shown_average (TimeTakenQueue (meta m));
  bk_rounds : (rounds m + notifying (runners m))%nat = length (TimeTakenQueue (meta m));
  bk_interval : collectInterval m = default_interval;
  bk_groups : ∀ (g : nat) (t : task), (g, t) ∈ running m → (g < length (remaining m))%nat
}.

Lemma books_weaken (n n' : Z) (m : Monitor C) : books n m → n ≤ n' → books n' m.
Proof. intros [] ?. constructor; done || lia. Qed.

(** A runner that neither was nor is about to notify. *)
Lemma books_runner (n : Z) (m : Monitor C) (i : nat) (r r' : runner) :
  books n m → runners m !! i = Some r → r ≠ Notifying → r' ≠ Notifying →
  books n (set_runner i r' m).
Proof.
  intros [] Hi Hr Hr'. constructor; cbn; try done.
  pose proof (sum_list_with_insert is_notifying _ _ _ r' Hi) as Hn. unfold is_notifying in Hn.
  rewrite !decide_False in Hn by done. unfold notifying, is_notifying in *. lia.
Qed.

Lemma books_wait (n : Z) (m : Monitor C) (cs : list caller) (g : WaitGroup) :
  books n m → books n (set_wait cs g m).
Proof. by intros []. Qed.

Lemma books_caller (n : Z) (c : caller) (m : Monitor C) :
  books n m → ends (λ '(m', _), books n m') (caller_step c m).
Proof.
  intros Hb. destruct c; cbn [caller_step ends]; try (by destruct Hb); try done.
  - pose proof (wg_Add_panics 1 (wg m)). destruct (wg_Add 1 (wg m)) as [[g b]| |]; cbn; try done.
    by apply books_wait.
  - destruct Hb as [? ? ? Hr ? ?]. constructor; cbn; try done.
    unfold notifying in *. rewrite sum_list_with_app.
    change (sum_list_with is_notifying [Looping]) with 0%nat. lia.
  - destruct (wg_Wait (wg m)) as [g b]. by apply books_wait.
  - unfold wg_wake. destruct (sema (wg m)); cbn; [done|]. case_decide; cbn; [by apply books_wait|].
    by right; right.
Qed.

Lemma books_runner_done (n : Z) (i : nat) (r : runner) (m : Monitor C) :
  books n m → runners m !! i = Some r →
  ends (λ '(m', r'), books n (set_runner i r' m')) (runner_done r m).
Proof.
  intros Hb Hi.
  assert (∀ r' : runner, r ≠ Notifying → r' ≠ Notifying →
    ∀ cs g, books n (set_runner i r' (set_wait cs g m)))
    as Hw.
  { intros r' Hr Hr' cs g. apply (books_runner n (set_wait cs g m) i r); [by apply books_wait|done..]. }
  assert (set_runner i r m = m) as Hid
    by (unfold set_runner; rewrite list_insert_id by done; by destruct m).
  destruct r; cbn [runner_done ends]; rewrite ?Hid; try done.
  - pose proof (wg_Add_panics (-1) (wg m)). destruct (wg_Add (-1) (wg m)) as [[g b]| |]; cbn; try done.
    apply Hw; [done|]. by destruct b.
  - unfold wg_release. case_decide; cbn; [by apply Hw|]. by right; left.
Qed.

Lemma books_begin (n : Z) (m : Monitor C) (i : nat) (t : Z) (taken : task → bool) :
  books n m → books n (collect_begin i t taken m).
Proof.
  intros H. unfold collect_begin. destruct (runners m !! i) as [[]|] eqn:Hi; try done.
  destruct (books_runner n m i _ (Collecting t (length (remaining m))) H Hi)
    as [Hs Hb Ha Hr Hin Hg]; try done.
  constructor; cbn; try done. intros g t' [Ht|Ht]%elem_of_app; rewrite length_app; cbn.
  - specialize (Hg g t' Ht). cbn in Hg. lia.
  - apply list_elem_of_fmap in Ht as (t'' & [= -> ->] & _). lia.
Qed.

Lemma books_task (n : Z) (m : Monitor C) (k : nat) (e : task_env C) :
  books n m → sane (EvTask k e) → ends (books n) (task_done k e m).
Proof.
  intros H Hs. unfold task_done. destruct (running m !! k) as [[g t]|] eqn:Hk; [|done].
  destruct (matching t e); [|done].
  destruct (run_task_ok t k e m Hs) as (x & dc & ->). cbn [rbind ends].
  pose proof (bk_groups _ _ H) as Hg. destruct H. constructor; cbn; try done.
  intros g' t' Ht%list_elem_of_delete_inv. rewrite length_alter. by apply (Hg g' t').
Qed.

Lemma books_success (n : Z) (m : Monitor C) (i g : nat) (start now last : Z) :
  books n m → n < 2 ^ 63 - 1 → runners m !! i = Some (Collecting start g) →
  ∃ m' : Monitor C,
    collect_success start now last m = Ok m' ∧ books (n + 1) (set_runner i Notifying m').
Proof.
  intros [Hs Hb Ha Hr Hi Hg] Hn Hrun. unfold collect_success. cbv zeta.
  rewrite Hs, Ha. rewrite signed_id by (unfold in_signed; lia).
  rewrite shown_average_snoc. cbn [rbind].
  eexists. split; [done|]. constructor; cbn; try done.
  - rewrite length_app. cbn. lia.
  - rewrite length_app. cbn. lia.
  - pose proof (sum_list_with_insert is_notifying (runners m) i _ Notifying Hrun) as Hc.
    change (is_notifying Notifying) with 1%nat in Hc.
    change (is_notifying (Collecting start g)) with 0%nat in Hc.
    rewrite length_app. unfold notifying in *. cbn. lia.
Qed.

Lemma books_step (n : Z) (ev : event C) (m : Monitor C) :
  books n m → n < 2 ^ 63 - 1 → sane ev → ends (books (n + 1)) (step ev m).
Proof.
  intros H Hn Hs. pose proof (books_weaken n (n + 1) m H ltac:(lia)) as H1.
  destruct ev as [o|o| | |j|c|i|i now taken|k e|i now last|i now|i|i|i]; cbn [step].
  - by destruct H1.
  - by destruct H1.
  - cbn. unfold Start. destruct (state m); [done|]. by destruct H1.
  - cbn. unfold Stop. destruct (state m); [|done]. by destruct H1.
  - destruct (callers m !! j) as [c|]; [|done].
    pose proof (books_caller (n + 1) c m H1) as Hc. destruct (caller_step c m) as [[m' c']| |]; [|done..].
    by apply books_wait.
  - by destruct H1.
  - destruct (runners m !! i) as [[]|] eqn:Hi; try done. by apply (books_runner _ _ _ Looping).
  - by apply books_begin.
  - by apply books_task.
  - destruct (runners m !! i) as [[| |start g| | | |]|] eqn:Hi; try done. case_decide; [|done].
    destruct (books_success n m i g start now last H Hn Hi) as (m' & -> & H'). exact H'.
  - destruct (runners m !! i) as [[| |start g| | | |]|] eqn:Hi; try done. case_decide; [|done].
    apply (books_runner (n + 1) (collect_timeout now m) i (Collecting start g) Looping); try done.
    by destruct H1.
  - destruct (runners m !! i) as [[]|] eqn:Hi; try done.
    destruct H1 as [? ? ? Hr ? ?]. constructor; cbn; try done.
    pose proof (sum_list_with_insert is_notifying (runners m) i _ Looping Hi) as Hc.
    change (is_notifying Notifying) with 1%nat in Hc. change (is_notifying Looping) with 0%nat in Hc.
    unfold notifying in *. lia.
  - destruct (runners m !! i) as [[|c| | | | |]|] eqn:Hi; try done. case_decide; [|done].
    by apply (books_runner (n + 1) m i (Waiting c) Returning).
  - destruct (runners m !! i) as [r|] eqn:Hi; [|done].
    pose proof (books_runner_done (n + 1) i r m H1 Hi) as Hd.
    by destruct (runner_done r m) as [[m' r']| |].
Qed.

Lemma books_run (evs : list (event C)) (n : Z) (m : Monitor C) :
  books n m → n + Z.of_nat (length evs) < 2 ^ 63 → Forall sane evs →
  ends (books (n + Z.of_nat (length evs))) (run evs m).
Proof.
  intros H Hn Hs. revert n m H Hn. induction Hs as [|ev evs Hev Hs IH]; intros n m H Hn.
  { cbn. by rewrite Z.add_0_r. }
  cbn [length] in Hn. pose proof (books_step n ev m H ltac:(lia) Hev) as H1. cbn [run].
  destruct (step ev m) as [m1| |]; [|done..]. cbn [rbind].
  specialize (IH (n + 1) m1 H1 ltac:(lia)). destruct (run evs m1); [|done..].
  eapply books_weaken; [exact IH|]. cbn [length]. lia.
Qed.

Lemma New_books (ub : float64 → Z) (opts : list option_) : books 0 (@NewMonitor C ub opts).
Proof.
  unfold NewMonitor. set (m0 := mkMonitor _ _ _ _ _ _ _ _ _ _ _ _ _ _ _ _ _ _).
  assert (books 0 m0) as H0
    by (constructor; try done; intros g t Hx; by apply not_elem_of_nil in Hx).
  clearbody m0. revert m0 H0. induction opts as [|o opts IH]; intros m0 H0; [done|].
  cbn [foldl]. apply IH. destruct m0, o; by destruct H0.
Qed.
End books.

(** ** The wait group *)

Section waiting.
  Context {C : Type}.

(** Calls of [Start] in progress, and those past [m.wg.Add(1)]. *)
Definition starting (c : caller) : nat :=
  match c with StartContext | StartAdd | StartGo => 1 | _ => 0 end.
Definition added (c : caller) : nat := match c with StartGo => 1 | _ => 0 end.

(** Runners the counter counts, and those in the middle of [Done]. *)
Definition live (r : runner) : nat := match r with Releasing _ | Exited => 0 | _ => 1 end.
Definition leaving (r : runner) : nat := match r with Releasing _ => 1 | _ => 0 end.

(** At most one runner was or is being started; goroutines are blocked only
    while it is not gone, and released only when it is. *)
Record balanced (cs : list caller) (rs : list runner) (g : WaitGroup) : Prop := {
  ba_once : (sum_list_with starting cs + length rs ≤ 1)%nat;
  ba_counter : counter g = Z.of_nat (sum_list_with added cs + sum_list_with live rs);
  ba_sema : (0 < sema g →
    sum_list_with starting cs + sum_list_with live rs + sum_list_with leaving rs = 0)%nat;
  ba_blocked : (0 < blocked g →
    0 < sum_list_with added cs + sum_list_with live rs + sum_list_with leaving rs)%nat;
  ba_leaving (w : nat) : Releasing w ∈ rs → blocked g = w
}.

Definition calm (m : Monitor C) : Prop := balanced (callers m) (runners m) (wg m).

Lemma added_starting (cs : list caller) : (sum_list_with added cs ≤ sum_list_with starting cs)%nat.
Proof. induction cs as [|c cs IH]; [done|]. cbn. destruct c; cbn; lia. Qed.

Lemma live_leaving (rs : list runner) :
  (sum_list_with live rs + sum_list_with leaving rs ≤ length rs)%nat.
Proof. induction rs as [|r rs IH]; [done|]. cbn. destruct r; cbn; lia. Qed.

Lemma leaving_pos (w : nat) (rs : list runner) :
  Releasing w ∈ rs → (0 < sum_list_with leaving rs)%nat.
Proof.
  intros Hw. induction rs as [|r rs IH]; [by apply not_elem_of_nil in Hw|]. cbn.
  apply elem_of_cons in Hw as [<-|Hw]; [cbn; lia|]. specialize (IH Hw). lia.
Qed.

Lemma runner_kept (rs : list runner) (i : nat) (r x : runner) :
  x ∈ <[i := r]> rs → x = r ∨ x ∈ rs.
Proof.
  intros [j [(_ & <- & _)|[_ Hj]]%list_lookup_insert_Some]%list_elem_of_lookup; [by left|].
  right. by eapply list_elem_of_lookup_2.
Qed.

(** A runner that goes on without touching the wait group. *)
Lemma calm_runner (m : Monitor C) (i : nat) (r r' : runner) :
  calm m → runners m !! i = Some r → live r = 1%nat → live r' = 1%nat → calm (set_runner i r' m).
Proof.
  intros [H1 H2 H3 H4 H5] Hi Hr Hr'.
  pose proof (sum_list_with_insert live _ _ _ r' Hi). pose proof (sum_list_with_insert leaving _ _ _ r' Hi).
  assert (leaving r = 0%nat) by (by destruct r). assert (leaving r' = 0%nat) by (by destruct r').
  constructor; cbn; rewrite ?length_insert; try lia.
  intros w Hw. apply runner_kept in Hw as [<-|Hw]; [done|by apply H5].
Qed.

(** While the call of [Start] is before its [m.wg.Add(1)]. *)
Lemma calm_add (m : Monitor C) (j : nat) :
  calm m → callers m !! j = Some StartAdd → counter (wg m) = 0 ∧ blocked (wg m) = 0%nat.
Proof.
  intros [H1 H2 H3 H4 H5] Hj.
  pose proof (sum_list_with_insert starting _ _ _ Finished Hj) as Hs.
  pose proof (sum_list_with_insert added _ _ _ Finished Hj) as Ha.
  pose proof (added_starting (<[j := Finished]> (callers m))). pose proof (live_leaving (runners m)).
  cbn in Hs, Ha. lia.
Qed.

Lemma calm_caller (m m' : Monitor C) (j : nat) (c c' : caller) :
  calm m → callers m !! j = Some c → caller_step c m = Ok (m', c') →
  calm (set_wait (<[j := c']> (callers m')) (wg m') m').
Proof.
  intros [H1 H2 H3 H4 H5] Hj E.
  pose proof (sum_list_with_insert starting _ _ _ c' Hj) as Hs.
  pose proof (sum_list_with_insert added _ _ _ c' Hj) as Ha.
  pose proof (added_starting (callers m)). pose proof (live_leaving (runners m)).
  destruct c; cbn [caller_step] in E.
  - injection E as <- <-. cbn in *. constructor; cbn; (lia || done).
  - destruct (calm_add m j (Build_balanced _ _ _ H1 H2 H3 H4 H5) Hj). cbn in Hs, Ha.
    rewrite wg_Add_one in E by lia. injection E as <- <-. cbn in Hs, Ha |- *.
    pose proof (sum_list_with_insert starting _ _ _ Finished Hj) as Hf. cbn in Hf.
    constructor; cbn; try lia. intros w Hw%leaving_pos. lia.
  - injection E as <- <-. cbn in *.
    constructor; cbn; rewrite ?length_app, ?sum_list_with_app; cbn; try lia.
    intros w [Hw|Hw%list_elem_of_singleton]%elem_of_app; [by apply H5|done].
  - injection E as <- <-. cbn in *. constructor; cbn; (lia || done).
  - injection E as <- <-. cbn in *. constructor; cbn; (lia || done).
  - unfold wg_Wait in E. case_decide; injection E as <- <-; cbn in *; constructor; cbn; try (lia || done).
    intros w Hw. apply H5 in Hw as Hb. apply leaving_pos in Hw. lia.
  - unfold wg_wake in E. destruct (sema (wg m)) as [|n] eqn:Hn.
    + injection E as <- <-. cbn in *. constructor; cbn; (lia || done).
    + case_decide as Hg; [|done]. injection E as <- <-. cbn in *. constructor; cbn; try lia.
      intros w Hw%leaving_pos. lia.
  - injection E as <- <-. cbn in *. constructor; cbn; (lia || done).
Qed.

(** Without a second start no call of [Start] or [Stop] panics. *)
Lemma caller_returns (m : Monitor C) (j : nat) (c : caller) :
  calm m → callers m !! j = Some c → ∃ r : Monitor C * caller, caller_step c m = Ok r.
Proof.
  intros [H1 H2 H3 H4 H5] Hj.
  pose proof (added_starting (callers m)).
  destruct c; cbn [caller_step]; try by eexists.
  - destruct (calm_add m j (Build_balanced _ _ _ H1 H2 H3 H4 H5) Hj).
    rewrite wg_Add_one by done. by eexists.
  - destruct (wg_Wait _). by eexists.
  - unfold wg_wake. destruct (sema (wg m)); [by eexists|].
    rewrite decide_True by (split; lia). by eexists.
Qed.

Lemma calm_finish (m : Monitor C) (i : nat) (r : runner) :
  calm m → runners m !! i = Some r →
  ∃ (m' : Monitor C) (r' : runner), runner_done r m = Ok (m', r') ∧ calm (set_runner i r' m').
Proof.
  intros Hc Hi. pose proof Hc as [H1 H2 H3 H4 H5].
  pose proof (added_starting (callers m)). pose proof (live_leaving (runners m)).
  assert (calm (set_runner i r m)) as Hid
    by (unfold set_runner; rewrite list_insert_id by done; by destruct m).
  assert (0 < length (runners m))%nat by (apply lookup_lt_Some in Hi; lia).
  pose proof (λ r', sum_list_with_insert live _ _ _ r' Hi) as Hl.
  pose proof (λ r', sum_list_with_insert leaving _ _ _ r' Hi) as Hv.
  destruct r; try by exists m; eexists; split.
  - specialize (Hl Exited) as Hl1. specialize (Hl (Releasing (blocked (wg m)))).
    specialize (Hv Exited) as Hv1. specialize (Hv (Releasing (blocked (wg m)))). cbn in *.
    rewrite wg_Done_one by lia. cbn [rbind]. eexists _, _. split; [done|].
    case_bool_decide; constructor; cbn; rewrite ?length_insert; try lia;
      intros w [Hw|Hw%leaving_pos]%runner_kept; first [done | lia | by injection Hw as <-].
  - specialize (Hl Exited). specialize (Hv Exited). cbn in *.
    unfold wg_release.
    rewrite decide_True by (split; [lia|by apply H5; eapply list_elem_of_lookup_2]). cbn [rbind].
    eexists _, _. split; [done|]. constructor; cbn; rewrite ?length_insert; try lia.
    intros w' Hw%leaving_pos. lia.
Qed.
End waiting.

(** ** Runs without a second start *)

Section restarting.
  Context {C : Type}.

Definition is_start (ev : event C) : bool := match ev with EvStart => true | _ => false end.

Definition is_stop (ev : event C) : bool := match ev with EvStop => true | _ => false end.

(** Some call of [Start] comes after a call of [Stop]. *)
Fixpoint restarts (evs : list (event C)) : bool :=
  match evs with
  | [] => false
  | EvStop :: evs => existsb is_start evs
  | _ :: evs => restarts evs
  end.

(** As [NewMonitor] leaves it. *)
Definition unstarted (m : Monitor C) : Prop :=
  callers m = [] ∧ runners m = [] ∧ wg m = zeroWaitGroup.

(** The monitor after a step that is not a call of [Start] or [Stop]. *)
Definition goes_on (m : Monitor C) (r : result (Monitor C)) : Prop :=
  match r with
  | Ok m' => calm m' ∧ state m' = state m ∧ (unstarted m → unstarted m')
  | Panics p => ¬ waitgroup_panic p
  | OutOfFuel => False
  end.

Lemma caller_goes_on (m : Monitor C) (j : nat) (c : caller) :
  calm m → callers m !! j = Some c →
  ∃ (m' : Monitor C) (c' : caller), caller_step c m = Ok (m', c') ∧
    calm (set_wait (<[j := c']> (callers m')) (wg m') m') ∧ state m' = state m.
Proof.
  intros Hc Hj. destruct (caller_returns m j c Hc Hj) as [[m' c'] E].
  exists m', c'. split; [done|]. split; [by eapply calm_caller|].
  destruct c; cbn [caller_step] in E; try (by injection E as <- <-).
  - by apply rbind_ok in E as ([g b] & _ & [= <- <-]).
  - by destruct (wg_Wait _) as [g []]; injection E as <- <-.
  - destruct (wg_wake _); [by apply rbind_ok in E as (g & _ & [= <- <-])|by injection E as <- <-].
Qed.

Lemma runner_goes_on (m : Monitor C) (i : nat) (r r' : runner) :
  calm m → runners m !! i = Some r → live r = 1%nat → live r' = 1%nat →
  goes_on m (Ok (set_runner i r' m)).
Proof.
  intros Hc Hi Hr Hr'. split; [by eapply calm_runner|]. split; [done|].
  intros (_ & Hu & _). by rewrite Hu in Hi.
Qed.

Lemma task_goes_on (m : Monitor C) (k : nat) (e : task_env C) :
  calm m → goes_on m (task_done k e m).
Proof.
  intros Hc. unfold task_done. destruct (running m !! k) as [[g t]|]; [|done].
  destruct (matching t e); [|done]. pose proof (run_task_panics t e m) as Hp.
  destruct (run_task t e m) as [m'|p|] eqn:E; cbn; [|by destruct Hp as [-> | ->]; intros [|[|]]|done].
  by destruct (run_task_frame t e m m' E) as (x & dc & ->).
Qed.

Lemma calm_step (ev : event C) (m : Monitor C) :
  calm m → ev ≠ EvStart → ev ≠ EvStop → goes_on m (step ev m).
Proof.
  intros Hc Hstart Hstop.
  destruct ev as [o|o| | |j|c|i|i now taken|k e|i now last|i now|i|i|i]; cbn [step]; try done.
  - destruct (callers m !! j) as [c|] eqn:Hj; [|done].
    destruct (caller_goes_on m j c Hc Hj) as (m' & c' & -> & Hm & Hst). do 2 (split; [done|]).
    intros (Hu & _). by rewrite Hu in Hj.
  - destruct (runners m !! i) as [[]|] eqn:Hi; try done. by eapply runner_goes_on.
  - unfold collect_begin. destruct (runners m !! i) as [[]|] eqn:Hi; try done.
    by apply (runner_goes_on m i _ (Collecting now (length (remaining m)))) in Hi.
  - by apply task_goes_on.
  - destruct (runners m !! i) as [[| |start g| | | |]|] eqn:Hi; try done. case_decide; [|done].
    unfold collect_success. cbv zeta. case_decide as Hq; cbn [rbind];
      [|by apply (runner_goes_on m i _ Notifying) in Hi].
    destruct (average _) as [a|p|] eqn:E; cbn [rbind];
      [by apply (runner_goes_on m i _ Notifying) in Hi|..]; unfold average in E; case_decide; try done.
    injection E as <-. by intros [|[|]].
  - destruct (runners m !! i) as [[| |start g| | | |]|] eqn:Hi; try done. case_decide; [|done].
    by apply (runner_goes_on m i _ Looping) in Hi.
  - destruct (runners m !! i) as [[]|] eqn:Hi; try done. by apply (runner_goes_on m i _ Looping) in Hi.
  - destruct (runners m !! i) as [[]|] eqn:Hi; try done. case_decide; [|done]. by eapply runner_goes_on.
  - destruct (runners m !! i) as [r|] eqn:Hi; [|done].
    destruct (calm_finish m i r Hc Hi) as (m' & r' & E & H'). rewrite E. split; [done|]. split.
    + destruct r; cbn [runner_done] in E; try (by injection E as <- <-);
        apply rbind_ok in E as (x & _ & E); destruct x; by injection E as <- <-.
    + intros (_ & Hu & _). by rewrite Hu in Hi.
Qed.

(** After a call of [Stop], without a later call of [Start]. *)
Lemma calm_run (evs : list (event C)) (m : Monitor C) (p : panic) :
  calm m → existsb is_start evs = false → run evs m = Panics p → ¬ waitgroup_panic p.
Proof.
  revert m. induction evs as [|ev evs IH]; intros m Hc Hs E; [done|].
  cbn [existsb] in Hs. apply orb_false_iff in Hs as [Hev Hs]. cbn [run] in E.
  destruct (decide (is_stop ev = true)) as [Hst|Hst].
  - destruct ev; try done. cbn [step rbind] in E. apply IH in E; [done| |done].
    unfold Stop. destruct (state m); [|done]. destruct Hc as [H1 H2 H3 H4 H5].
    constructor; cbn; rewrite ?sum_list_with_app; cbn; try lia. exact H5.
  - assert (goes_on m (step ev m)) as Hg by (apply calm_step; [done|by destruct ev..]).
    destruct (step ev m) as [m'|q|]; cbn [rbind] in E; [|by injection E as <-|done].
    destruct Hg as (Hc' & _). by apply IH in E.
Qed.

(** From the beginning. *)
Lemma fresh_run (evs : list (event C)) (m : Monitor C) (p : panic) :
  calm m → (state m = false → unstarted m) → restarts evs = false →
  run evs m = Panics p → ¬ waitgroup_panic p.
Proof.
  revert m. induction evs as [|ev evs IH]; intros m Hc Hf Hs E; [done|].
  destruct (decide (is_stop ev = true)) as [Hst|Hst].
  { destruct ev; try done. by apply (calm_run (EvStop :: evs) m p) in E. }
  assert (restarts evs = false) as Hs' by (by destruct ev). cbn [run] in E.
  destruct (decide (is_start ev = true)) as [Hst'|Hst'].
  - destruct ev; try done. cbn [step rbind] in E. apply IH in E;
      [done| |by unfold Start; destruct (state m) eqn:Hm; rewrite ?Hm|done].
    unfold Start. destruct (state m) eqn:Hm; [done|]. destruct (Hf eq_refl) as (Hu1 & Hu2 & Hu3).
    constructor; cbn; rewrite ?Hu1, ?Hu2, ?Hu3; cbn; try lia. by intros w ?%not_elem_of_nil.
  - assert (goes_on m (step ev m)) as Hg by (apply calm_step; [done|by destruct ev..]).
    destruct (step ev m) as [m'|q|]; cbn [rbind] in E; [|by injection E as <-|done].
    destruct Hg as (Hc' & Hst1 & Hu). apply IH in E; [done..| |done]. rewrite Hst1. auto.
Qed.
End restarting.

Lemma New_unstarted {C : Type} (ub : float64 → Z) (opts : list option_) :
  unstarted (@NewMonitor C ub opts).
Proof.
  unfold NewMonitor. set (m0 := mkMonitor _ _ _ _ _ _ _ _ _ _ _ _ _ _ _ _ _ _).
  assert (unstarted m0) as H0 by done.
  clearbody m0. revert m0 H0. induction opts as [|o opts IH]; intros m0 H0; [done|].
  cbn [foldl]. apply IH. by destruct m0, o.
Qed.

Lemma unstarted_calm {C : Type} (m : Monitor C) : unstarted m → calm m.
Proof.
  intros (H1 & H2 & H3). constructor; rewrite ?H1, ?H2, ?H3; cbn; try lia.
  by intros w ?%not_elem_of_nil.
Qed.

(** ** Properties *)

(** C33. The monitor keeps its books: whatever its options and however its
    goroutines, tasks, timeouts and the calls of its methods interleave, as
    long as the libraries return what they document, the success count is the
    length of the queue of durations, every success has notified the observers
    once or is about to, and the average is the mean, rounded towards zero, of
    the first [n] durations, where [n] is the last multiple of five reached.  No
    option changes the interval of the ticker: [WithCollectInterval] sets the
    other one.  The only panics are those of the wait group, and there are none
    unless [Start] is called after [Stop]. *)
Theorem Monitor_books {C : Type} (ub : float64 → Z) (opts : list option_) (evs : list (event C))
    (Hs : Forall sane evs) (Hn : Z.of_nat (length evs) < 2 ^ 63) :
  match run evs (NewMonitor ub opts) with
  | Ok m =>
      let queue := TimeTakenQueue (meta m) in
      SuccessCount (meta m) = Z.of_nat (length queue) ∧
      (rounds m + notifying (runners m))%nat = length queue ∧
      let n := (5 * (length queue / 5))%nat in
      AverageTimeTaken (meta m) = Z.quot (int64 (foldr Z.add 0 (take n queue))) (Z.of_nat n) ∧
      collectInterval m = default_interval
  | Panics p => waitgroup_panic p ∧ restarts evs = true
  | OutOfFuel => False
  end.
Proof.
  pose proof (books_run evs 0 _ (New_books ub opts) ltac:(lia) Hs) as H.
  destruct (run evs (NewMonitor ub opts)) as [m|p|] eqn:E; [by destruct H| |done].
  split; [done|]. destruct (restarts evs) eqn:Hr; [done|]. exfalso.
  pose proof (@New_unstarted C ub opts) as Hu.
  by apply (fresh_run evs _ p (unstarted_calm _ Hu) (λ _, Hu) Hr E).
Qed.

(** A call of [Start], the [j]-th call of [Start] or [Stop], whose runner is
    the [i]-th. *)
Definition starting_up (j i : nat) : list (event unit) :=
  [EvStart; EvCaller j; EvCaller j; EvCaller j; EvSelect i].

(** Five tasks of one collection end. *)
Definition five_tasks : list (event unit) :=
  [EvTask 0 (ECPU (Some [f64_of_Z 12]) None None); EvTask 0 (EMemory None); EvTask 0 (ENetwork [] []);
   EvTask 0 (ERuntime 3 (mkMemStats 0 0 0 (replicate 256 0)));
   EvTask 0 (EDisk (mkEnv ∅ None [] (λ _, inr ""%string) 0))].

Definition one_collection (t : Z) : list (event unit) :=
  EvTick 0 t (λ _, true) :: five_tasks ++ [EvDone 0 (t + 7 * millisecond) (t + 8 * millisecond);
    EvNotify 0; EvSelect 0].

Definition five_rounds : list (event unit) :=
  EvRegister 1 :: starting_up 0 0 ++ concat (one_collection <$> [1; 2; 3; 4; 5]).

Definition watched : Monitor unit :=
  get_ok (NewMonitor amd64_overflow [])
    (run five_rounds (NewMonitor amd64_overflow [WithCollectInterval second])).

Lemma Monitor_books_witness :
  SuccessCount (meta watched) = 5 ∧ AverageTimeTaken (meta watched) = 7 ∧
  length (updates watched) = 5%nat ∧ collectInterval watched = 5 * second.
Proof.
  pose proof (Monitor_books amd64_overflow [WithCollectInterval second] five_rounds) as H.
  assert (run five_rounds (NewMonitor amd64_overflow [WithCollectInterval second]) = Ok watched) as E
    by (apply get_ok_ok; vm_compute; exact I).
  rewrite E in H. destruct H as (Hs & _ & Ha & Hc).
  - cbv [five_rounds starting_up fmap list_fmap concat one_collection five_tasks app].
    repeat constructor; discriminate.
  - vm_compute. reflexivity.
  - assert (TimeTakenQueue (meta watched) = [7; 7; 7; 7; 7]) as Hq by (vm_compute; reflexivity).
    rewrite Hq in Hs, Ha. split_and!; [exact Hs|exact Ha|vm_compute; reflexivity|exact Hc].
Defined.

(** A monitor that is started and stopped; the goroutine of [Stop] is blocked
    and the runner has reached its deferred calls. *)
Definition stopping : list (event unit) :=
  starting_up 0 0 ++ [EvStop; EvCaller 1; EvCaller 1; EvCaller 1; EvExit 0; EvFinish 0].

(** A restart can panic: when the new [m.wg.Add(1)] comes before the goroutine
    of the previous [Stop] has returned from [m.wg.Wait()], either this
    goroutine panics or, inside the last [Done], the call of [Start] itself. *)
Theorem restart_panics :
  run (stopping ++ [EvFinish 0; EvStart; EvCaller 2; EvCaller 2; EvCaller 1])
    (NewMonitor amd64_overflow []) = Panics WaitGroupReused ∧
  run (stopping ++ [EvStart; EvCaller 2; EvCaller 2]) (NewMonitor amd64_overflow []) =
    Panics WaitGroupMisuse.
Proof. split; vm_compute; reflexivity. Qed.

Definition missed : list (event unit) :=
  [EvStart; EvStop; EvCaller 1; EvCaller 1; EvCaller 1; EvCaller 0; EvCaller 0; EvCaller 0; EvSelect 0].

(** A call of [Stop] that meets a call of [Start] between its compare-and-swap
    and the context it makes cancels nothing: both return, the state is false,
    a further [Stop] does nothing, and the runner goes on unless the context
    that was given to [Start] ends. *)
Theorem Stop_meets_Start :
  ∃ m : Monitor unit,
    run missed (NewMonitor amd64_overflow []) = Ok m ∧ callers m = [Finished; Finished] ∧
    runners m = [Waiting 0] ∧ step (EvExit 0) m = Ok m ∧ Stop m = m.
Proof.
  set (r := run missed (NewMonitor amd64_overflow [])). set (m := get_ok (NewMonitor amd64_overflow []) r).
  assert (state m = false ∧ ctxs m = [false] ∧ runners m = [Waiting 0] ∧ callers m = [Finished; Finished])
    as (H1 & H2 & H3 & H4) by (split_and!; vm_compute; reflexivity).
  exists m. split; [apply get_ok_ok; vm_compute; exact I|]. split_and!; [done..| |].
  - cbn [step]. by rewrite H3, H2.
  - unfold Stop. by rewrite H1.
Qed.
