(* ===== verification/MonitorRestart.v ===== *)
(** * The monitor after a stop

    [Stop] releases the worker pool and [Start] makes no new one: in a run of
    [Monitor] that goes on from there no collection succeeds. *)
From S2P Require Import Prelude.
From S2P Require Import Runtime.
From S2P Require Import Float64.
From S2P Require Import Collectors.
From S2P Require Import DiskCollector.
From S2P Require Import WaitGroup.
From S2P Require Import Monitor.
From S2P Require Import MonitorBooks.
Open Scope Z_scope.
Open Scope go_scope.

(** ** A released pool *)

(** The collections in progress before group [g0]: one each, and one with
    those that are about to notify. *)
Definition begun (g0 : nat) (r : runner) : nat :=
  match r with Collecting _ g => if decide (g < g0)%nat then 1 else 0 | _ => 0 end.
Definition unfinished (g0 : nat) (r : runner) : nat := begun g0 r + is_notifying r.

(** Collections in progress or about to notify. *)
Definition in_progress (r : runner) : nat :=
  match r with Collecting _ _ | Notifying => 1 | _ => 0 end.

Lemma in_progress_counts (g0 : nat) (rs : list runner) :
  (sum_list_with (begun g0) rs ≤ sum_list_with in_progress rs ∧
   sum_list_with (unfinished g0) rs ≤ sum_list_with in_progress rs)%nat.
Proof.
  induction rs as [|r rs [IH1 IH2]]; [done|]. unfold unfinished, is_notifying in *. cbn.
  destruct r; cbn; repeat case_decide; simplify_eq; lia.
Qed.

Section restart.
  Context {C : Type} (g0 : nat).

(** The pool is released; the groups from [g0] on have lost all their tasks. *)
Record dead (m : Monitor C) : Prop := {
  dd_released : released m = true;
  dd_remaining (g k : nat) : (g0 ≤ g)%nat → remaining m !! g = Some k → k = workers;
  dd_running (g : nat) (t : task) : (g, t) ∈ running m → (g < g0)%nat;
  dd_groups : (g0 ≤ length (remaining m))%nat
}.

(** What a successful collection changes. *)
Definition outcome (m : Monitor C) : Z * list Z * nat * list (nat * Metrics C) :=
  (SuccessCount (meta m), TimeTakenQueue (meta m), rounds m, updates m).

(** From [m] to [m'] only collections of before [g0] have ended. *)
Record fades (m m' : Monitor C) : Prop := {
  fa_successes :
    (length (TimeTakenQueue (meta m')) + sum_list_with (begun g0) (runners m') ≤
     length (TimeTakenQueue (meta m)) + sum_list_with (begun g0) (runners m))%nat;
  fa_rounds :
    (rounds m' + sum_list_with (unfinished g0) (runners m') ≤
     rounds m + sum_list_with (unfinished g0) (runners m))%nat;
  fa_none : sum_list_with (unfinished g0) (runners m) = 0%nat →
    sum_list_with (unfinished g0) (runners m') = 0%nat ∧ outcome m' = outcome m
}.

Lemma fades_refl (m : Monitor C) : fades m m.
Proof. by constructor. Qed.

Lemma fades_trans (m1 m2 m3 : Monitor C) : fades m1 m2 → fades m2 m3 → fades m1 m3.
Proof.
  intros [H1 H2 H3] [H4 H5 H6]. constructor; [lia..|]. intros H.
  destruct (H3 H) as [H' E]. destruct (H6 H') as [H'' E']. by rewrite E', E.
Qed.

(** A runner that is not in a collection begun before [g0] and does not come
    to be in one. *)
Lemma fades_runner (m m' : Monitor C) (i : nat) (r r' : runner) :
  runners m !! i = Some r → unfinished g0 r' = 0%nat →
  runners m' = <[i := r']> (runners m) → outcome m' = outcome m → fades m m'.
Proof.
  intros Hi Hr' Hrun Ho. injection Ho as Hc Hq Hro Hu.
  pose proof (sum_list_with_insert (begun g0) _ _ _ r' Hi).
  pose proof (sum_list_with_insert (unfinished g0) _ _ _ r' Hi).
  assert (begun g0 r' = 0%nat) by (unfold unfinished in Hr'; lia).
  constructor; rewrite Hrun, ?Hq, ?Hro; [lia..|]. intros Hz.
  split; [lia|]. by unfold outcome; rewrite Hc, Hq, Hro, Hu.
Qed.

#[local] Ltac runner_fades Hi := eapply fades_runner; [exact Hi| |reflexivity|done]; done.

(** A step that leaves the runners and the outcome alone. *)
Lemma fades_same (m m' : Monitor C) : runners m' = runners m → outcome m' = outcome m → fades m m'.
Proof.
  intros Hr Ho. injection Ho as Hc Hq Hro Hu. constructor; rewrite Hr, ?Hq, ?Hro; [lia..|].
  intros Hz. split; [done|]. by unfold outcome; rewrite Hc, Hq, Hro, Hu.
Qed.

Lemma dead_begin (m : Monitor C) (i : nat) (t : Z) (taken : task → bool) :
  dead m → dead (collect_begin i t taken m) ∧ fades m (collect_begin i t taken m).
Proof.
  intros Hd. unfold collect_begin.
  destruct (runners m !! i) as [[]|] eqn:Hi; try (split; [done|apply fades_refl]).
  destruct Hd as [Hr Hre Hrn Hg]. rewrite Hr. split.
  - constructor; cbn; [done| |by rewrite app_nil_r|rewrite length_app; lia].
    intros g k Hge [Hk|[_ Hk]]%lookup_app_Some; [by apply (Hre g)|].
    by apply list_lookup_singleton_Some in Hk as [_ <-].
  - eapply (fades_runner _ _ i _ (Collecting t (length (remaining m)))); [exact Hi| |done..].
    unfold unfinished. cbn. by rewrite decide_False by lia.
Qed.

Lemma dead_task (k : nat) (m m' : Monitor C) (e : task_env C) :
  dead m → task_done k e m = Ok m' → dead m' ∧ fades m m'.
Proof.
  intros Hd. unfold task_done.
  destruct (running m !! k) as [[g t]|] eqn:Hk; [|intros [= <-]; split; [done|apply fades_refl]].
  destruct (matching t e); [|intros [= <-]; split; [done|apply fades_refl]].
  intros (m1 & E & [= <-])%rbind_ok. apply run_task_frame in E as (x & dc & ->).
  split; [|by apply fades_same]. destruct Hd as [Hr Hre Hrn Hg].
  pose proof (Hrn g t (list_elem_of_lookup_2 _ _ _ Hk)) as Hlt. constructor; cbn; try done.
  - intros g' k' Hge. rewrite list_lookup_alter_ne by lia. by apply Hre.
  - intros g' t' Ht%list_elem_of_delete_inv. by apply (Hrn g' t').
  - by rewrite length_alter.
Qed.

Lemma dead_caller (c c' : caller) (m m' : Monitor C) :
  dead m → caller_step c m = Ok (m', c') → dead m' ∧ fades m m'.
Proof.
  intros Hd E. destruct c; cbn [caller_step] in E;
    try (injection E as <- <-; split; [by destruct Hd|by apply fades_same]).
  - apply rbind_ok in E as ([g b] & _ & [= <- <-]). split; [by destruct Hd|by apply fades_same].
  - injection E as <- <-. split; [by destruct Hd|].
    constructor; cbn -[sum_list_with]; rewrite ?sum_list_with_app;
      change (sum_list_with (begun g0) [Looping]) with 0%nat;
      change (sum_list_with (unfinished g0) [Looping]) with 0%nat; [lia..|].
    rewrite Nat.add_0_r. done.
  - destruct (wg_Wait _). injection E as <- <-. split; [by destruct Hd|by apply fades_same].
  - destruct (wg_wake _); [apply rbind_ok in E as (g & _ & [= <- <-])|injection E as <- <-];
      (split; [by destruct Hd|by apply fades_same]).
Qed.

Lemma dead_success (m m' : Monitor C) (i g : nat) (start now last : Z) :
  dead m → runners m !! i = Some (Collecting start g) → remaining m !! g = Some 0%nat →
  collect_success start now last m = Ok m' →
  dead (set_runner i Notifying m') ∧ fades m (set_runner i Notifying m').
Proof.
  intros [Hr Hre Hrn Hg] Hi H0 E. unfold collect_success in E. cbv zeta in E.
  apply rbind_ok in E as (avg & _ & [= <-]). split; [by constructor|].
  assert (g < g0)%nat as Hlt.
  { destruct (decide (g < g0)%nat); [done|]. by specialize (Hre g 0%nat ltac:(lia) H0). }
  pose proof (sum_list_with_insert (begun g0) _ _ _ Notifying Hi) as Hb.
  pose proof (sum_list_with_insert (unfinished g0) _ _ _ Notifying Hi) as Hu.
  assert (begun g0 (Collecting start g) = 1%nat) as Ec by (cbn; by rewrite decide_True).
  assert (unfinished g0 (Collecting start g) = 1%nat) as Eu by (unfold unfinished; by rewrite Ec).
  change (begun g0 Notifying) with 0%nat in Hb. change (unfinished g0 Notifying) with 1%nat in Hu.
  rewrite Ec in Hb. rewrite Eu in Hu.
  constructor; cbn; rewrite ?length_app; cbn; try lia. intros Hz.
  pose proof (sum_list_with_in _ (unfinished g0) _ (list_elem_of_lookup_2 _ _ _ Hi)). lia.
Qed.

Lemma dead_step (ev : event C) (m m' : Monitor C) :
  dead m → step ev m = Ok m' → dead m' ∧ fades m m'.
Proof.
  intros Hd E.
  assert (dead m ∧ fades m m) as Hsame by (split; [done|apply fades_refl]).
  destruct ev as [o|o| | |j|c|i|i now taken|k e|i now last|i now|i|i|i]; cbn [step] in E.
  - injection E as <-. split; [by destruct Hd|by apply fades_same].
  - injection E as <-. split; [by destruct Hd|by apply fades_same].
  - injection E as <-. unfold Start. destruct (state m); [done|]. split; [by destruct Hd|by apply fades_same].
  - injection E as <-. unfold Stop. destruct (state m); [|done]. split; [by destruct Hd|by apply fades_same].
  - destruct (callers m !! j) as [c|]; [|by injection E as <-].
    apply rbind_ok in E as ([m1 c'] & E & [= <-]). destruct (dead_caller c c' m m1 Hd E) as [H1 H2].
    split; [by destruct H1|]. eapply fades_trans; [exact H2|by apply fades_same].
  - injection E as <-. split; [by destruct Hd|by apply fades_same].
  - destruct (runners m !! i) as [[]|] eqn:Hi; try by injection E as <-. injection E as <-.
    split; [by destruct Hd|runner_fades Hi].
  - injection E as <-. by apply dead_begin.
  - by eapply dead_task.
  - destruct (runners m !! i) as [[| |start g| | | |]|] eqn:Hi; try by injection E as <-.
    case_decide as H0; [|by injection E as <-].
    apply rbind_ok in E as (m1 & E & [= <-]). by eapply dead_success.
  - destruct (runners m !! i) as [[| |start g| | | |]|] eqn:Hi; try by injection E as <-.
    case_decide; injection E as <-; [|done]. split; [by destruct Hd|runner_fades Hi].
  - destruct (runners m !! i) as [[]|] eqn:Hi; try by injection E as <-. injection E as <-.
    split; [by destruct Hd|].
    pose proof (sum_list_with_insert (begun g0) _ _ _ Looping Hi) as Hb.
    pose proof (sum_list_with_insert (unfinished g0) _ _ _ Looping Hi) as Hu.
    change (unfinished g0 Notifying) with 1%nat in Hu. change (unfinished g0 Looping) with 0%nat in Hu.
    cbn in Hb. constructor; cbn; lia.
  - destruct (runners m !! i) as [[]|] eqn:Hi; try by injection E as <-.
    case_decide; injection E as <-; [|done]. split; [by destruct Hd|runner_fades Hi].
  - destruct (runners m !! i) as [r|] eqn:Hi; [|by injection E as <-].
    apply rbind_ok in E as ([m1 r1] & E & [= <-]).
    destruct r; cbn [runner_done] in E;
      try (injection E as <- <-; unfold set_runner; rewrite list_insert_id by done; by destruct m).
    + apply rbind_ok in E as ([g b] & _ & [= <- <-]). split; [by destruct Hd|].
      eapply fades_runner; [exact Hi| |done..]. by destruct b.
    + apply rbind_ok in E as (g & _ & [= <- <-]). split; [by destruct Hd|runner_fades Hi].
Qed.

Lemma dead_run (evs : list (event C)) (m m' : Monitor C) :
  dead m → run evs m = Ok m' → fades m m'.
Proof.
  revert m. induction evs as [|ev evs IH]; intros m Hd E; [injection E as <-; apply fades_refl|].
  cbn [run] in E. apply rbind_ok in E as (m1 & E1 & E).
  destruct (dead_step ev m m1 Hd E1) as [Hd1 Hf]. eapply fades_trans; [exact Hf|by apply IH].
Qed.
End restart.

(** ** Properties *)


Definition life : list (event unit) :=
  EvRegister 1 :: starting_up 0 0 ++ one_collection 1 ++
  [EvStop; EvCaller 1; EvCaller 1; EvCaller 1; EvExit 0; EvFinish 0; EvFinish 0; EvCaller 1].

Definition second_life : list (event unit) :=
  starting_up 2 1 ++ EvTick 1 10 (λ _, true) :: five_tasks ++ [EvDone 1 20 21; EvTimeout 1 30; EvNotify 1].

Definition stopped : Monitor unit :=
  get_ok (NewMonitor amd64_overflow []) (run life (NewMonitor amd64_overflow [])).

Definition restarted : Monitor unit := get_ok stopped (run second_life stopped).

