(* ===== verification/MonitorRates.v ===== *)
(** * The disk rates of the monitor

    What the disk task of [Monitor] computes in any run: its calls of
    [DiskCollector] are made with the time the monitor stored when its last
    collection ended or timed out. *)
From S2P Require Import Prelude.
From S2P Require Import Runtime.
From S2P Require Import Float64.
From S2P Require Import Collectors.
From S2P Require Import DiskCollector.
From S2P Require Import WaitGroup.
From S2P Require Import Monitor.
From S2P Require Import MonitorBooks.
Open Scope Z_scope.
Open Scope go_scope.

Section rates.
  Context {C : Type}.

(** The time a step stores as that of the last collection. *)
Definition closing (ev : event C) (m : Monitor C) : option Z :=
  match ev with
  | EvDone i _ last =>
      match runners m !! i with
      | Some (Collecting _ group) => if decide (remaining m !! group = Some 0%nat) then Some last else None
      | _ => None
      end
  | EvTimeout i now =>
      match runners m !! i with
      | Some (Collecting start _) =>
          if decide (timeoutCtrl m (reportInterval m) ≤ since now start) then Some now else None
      | _ => None
      end
  | _ => None
  end.

(** The call of the disk collector a step makes. *)
Definition disk_call (ev : event C) (m : Monitor C) : option (option Z * env) :=
  match ev with
  | EvTask k (EDisk e) =>
      match running m !! k with
      | Some (_, TDisk) => Some (LastCollectTime (meta m), e)
      | _ => None
      end
  | _ => None
  end.

(** What [f] sees along a run. *)
Fixpoint along {A : Type} (f : event C → Monitor C → option A) (evs : list (event C)) (m : Monitor C) :
    list A :=
  match evs with
  | [] => []
  | ev :: evs =>
      option_list (f ev m) ++
      match step ev m with
      | Ok m => along f evs m
      | _ => []
      end
  end.

(** ** Lemmas *)

(** The two parts of the state the rates depend on. *)
Definition clock (m : Monitor C) : option Z * gmap string IOCountersStat :=
  (LastCollectTime (meta m), prevIOCounters (diskCollector m)).

Definition advance (ev : event C) (m : Monitor C) : option Z * gmap string IOCountersStat :=
  (match closing ev m with Some t => Some t | None => LastCollectTime (meta m) end,
   match disk_call ev m with
   | Some call => reading (prevIOCounters (diskCollector m)) call
   | None => prevIOCounters (diskCollector m)
   end).

Lemma caller_clock (c c' : caller) (m m' : Monitor C) :
  caller_step c m = Ok (m', c') → clock m' = clock m.
Proof.
  intros E. destruct c; cbn [caller_step] in E; try (by injection E as <- <-).
  - by apply rbind_ok in E as ([g b] & _ & [= <- <-]).
  - destruct (wg_Wait _). by injection E as <- <-.
  - destruct (wg_wake _); [by apply rbind_ok in E as (g & _ & [= <- <-])|by injection E as <- <-].
Qed.

Lemma runner_clock (r r' : runner) (m m' : Monitor C) :
  runner_done r m = Ok (m', r') → clock m' = clock m.
Proof.
  intros E. destruct r; cbn [runner_done] in E; try (by injection E as <- <-).
  - by apply rbind_ok in E as ([g b] & _ & [= <- <-]).
  - by apply rbind_ok in E as (g & _ & [= <- <-]).
Qed.

Lemma task_clock (k : nat) (e : task_env C) (m m' : Monitor C) :
  task_done k e m = Ok m' → clock m' = advance (EvTask k e) m.
Proof.
  unfold task_done, advance, clock. cbn [closing disk_call].
  destruct (running m !! k) as [[g t]|]; [|intros [= <-]; by destruct e].
  destruct t, e; cbn [matching]; intros E;
    try (injection E as <-; done); apply rbind_ok in E as (m1 & E & [= <-]); cbn [run_task] in E;
    try (by apply rbind_ok in E as (x & _ & [= <-])); try (by injection E as <-).
  pose proof (Collect_prev e (LastCollectTime (meta m)) (diskCollector m)) as Hp.
  destruct (DiskCollector.Collect e _ _) as [dc s]. injection E as <-. cbn in *. by rewrite Hp.
Qed.

Lemma step_clock (ev : event C) (m m' : Monitor C) : step ev m = Ok m' → clock m' = advance ev m.
Proof.
  destruct ev as [o|o| | |j|c|i|i now taken|k e|i now last|i now|i|i|i]; cbn [step]; intros E;
    try (change (clock m' = clock m); injection E as <-; done).
  - injection E as <-. unfold Start. by destruct (state m).
  - injection E as <-. unfold Stop. by destruct (state m).
  - change (clock m' = clock m). destruct (callers m !! j) as [c|]; [|by injection E as <-].
    apply rbind_ok in E as ([m1 c'] & E & [= <-]). by apply caller_clock in E.
  - destruct (runners m !! i) as [[]|]; by injection E as <-.
  - injection E as <-. unfold collect_begin. by destruct (runners m !! i) as [[]|].
  - by apply task_clock.
  - unfold advance. cbn [closing disk_call].
    destruct (runners m !! i) as [[| |start g| | | |]|]; try by injection E as <-.
    case_decide; [|by injection E as <-].
    apply rbind_ok in E as (m1 & E & [= <-]). unfold collect_success in E. cbv zeta in E.
    by apply rbind_ok in E as (avg & _ & [= <-]).
  - unfold advance. cbn [closing disk_call].
    destruct (runners m !! i) as [[| |start g| | | |]|]; try by injection E as <-.
    case_decide; by injection E as <-.
  - destruct (runners m !! i) as [[]|]; by injection E as <-.
  - destruct (runners m !! i) as [[]|]; [..|by injection E as <-]; try case_decide; by injection E as <-.
  - change (clock m' = clock m). destruct (runners m !! i) as [r|]; [|by injection E as <-].
    apply rbind_ok in E as ([m1 r'] & E & [= <-]). by apply runner_clock in E.
Qed.

Lemma run_clock (evs : list (event C)) (m m' : Monitor C) :
  run evs m = Ok m' →
  LastCollectTime (meta m') =
    match last (along closing evs m) with Some t => Some t | None => LastCollectTime (meta m) end ∧
  prevIOCounters (diskCollector m') =
    foldl reading (prevIOCounters (diskCollector m)) (along disk_call evs m).
Proof.
  revert m. induction evs as [|ev evs IH]; intros m E; [by injection E as <-|].
  cbn [run along] in *. apply rbind_ok in E as (m1 & E1 & E). rewrite E1.
  apply step_clock in E1. injection E1 as Hl Hp. destruct (IH m1 E) as [-> ->].
  rewrite Hl, Hp, last_app, foldl_app. split.
  - destruct (last _); [done|]. by destruct (closing ev m).
  - by destruct (disk_call ev m).
Qed.
End rates.

Lemma New_clock {C : Type} (ub : float64 → Z) (opts : list option_) :
  clock (@NewMonitor C ub opts) = (None, ∅).
Proof.
  unfold NewMonitor. set (m0 := mkMonitor _ _ _ _ _ _ _ _ _ _ _ _ _ _ _ _ _ _).
  assert (clock m0 = (None, ∅)) as H0 by done.
  clearbody m0. revert m0 H0. induction opts as [|o opts IH]; intros m0 H0; [done|].
  cbn [foldl]. apply IH. by destruct m0, o.
Qed.

(** ** Properties *)


(** A disk that reads 100 blocks a second. *)
Definition steady (t : Z) (err : option string) : env :=
  mkEnv {["sda"%string := mkCounters (100 * t) 0 0 0 0 0 0]} err [] (λ _, inr ""%string) (t * second).

(** A collection that begins with the disk task, at [t] seconds, and ends one
    second later. *)
Definition slow_collection (t : Z) (err : option string) : list (event unit) :=
  EvTick 0 (t * second) (λ _, true) :: EvTask 4 (EDisk (steady t err)) :: take 4 five_tasks ++
  [EvDone 0 ((t + 1) * second) ((t + 1) * second); EvNotify 0; EvSelect 0].

Definition two_readings : list (event unit) :=
  starting_up 0 0 ++ slow_collection 10 None ++ slow_collection 15 (Some "busy"%string) ++
  [EvTick 0 (20 * second) (λ _, true)].

Definition before_third : Monitor unit :=
  get_ok (NewMonitor amd64_overflow []) (run two_readings (NewMonitor amd64_overflow [])).

