(* ===== verification/Observers.v ===== *)
(** * The observers of [src/metrics/observer.go]

    The observer that prints a summary of the metrics and the one that copies
    them to gauges of the Prometheus client.  The logger and the gauges are
    the lists of the calls made to them; what [json.MarshalIndent] returns is
    an argument. *)
From Stdlib Require Import SpecFloat.
From stdpp Require Import pretty.
From S2P Require Import Prelude.
From S2P Require Import Consts.
From S2P Require Import Interfaces.
From S2P Require Import Runtime.
From S2P Require Import Float64.
From S2P Require Import Collectors.
From S2P Require Import DiskCollector.
From S2P Require Import Monitor.
Open Scope Z_scope.
Open Scope go_scope.

(** ** The verb [%.1f] *)

(** The quotient of two numbers, rounded to the nearest integer and to even
    in the middle. *)
Definition div_half_even (n d : Z) : Z :=
  let q := n `div` d in
  match 2 * (n `mod` d) ?= d with
  | Lt => q
  | Gt => q + 1
  | Eq => if Z.even q then q else q + 1
  end.

(** The tenths of [m * 2 ^ e]. *)
Definition tenths (m : positive) (e : Z) : Z :=
  if decide (0 ≤ e) then 10 * Z.pos m * 2 ^ e else div_half_even (10 * Z.pos m) (2 ^ (- e)).

Definition sign (s : bool) : string := if s then "-" else "".

Definition format_1f (x : float64) : string :=
  match x with
  | S754_nan => "NaN"
  | S754_infinity s => if s then "-Inf" else "+Inf"
  | S754_zero s => sign s +:+ "0.0"
  | S754_finite s m e =>
      sign s +:+ pretty (tenths m e `div` 10) +:+ "." +:+ pretty (tenths m e `mod` 10)
  end.

(** ** The console *)

Section observers.
  Context {C : Type}.

(** [infos] are the messages passed to [l.Info]. *)
Record ConsoleObserver := mkConsole { infos : list string }.

Definition NewConsoleObserver : ConsoleObserver := mkConsole [].

Definition summary (m : Metrics C) : string :=
  "[Metrics] Timestamp: " +:+ pretty (Timestamp m) +:+
  " | CPU: " +:+ format_1f (Usage (CPU m)) +:+ "%" +:+
  " | Memory: " +:+ format_1f (Collectors.UsedPercent (Memory m)) +:+ "%" +:+
  " | Goroutines: " +:+ pretty (Goroutines (Runtime m)).

Definition console_Update (MarshalIndent : Metrics C → string + error) (m : Metrics C)
    (c : ConsoleObserver) : ConsoleObserver :=
  mkConsole (infos c ++ summary m ::
    match MarshalIndent m with
    | inl data => ["Detailed metrics:"; data]
    | inr _ => []
    end).

(** ** Prometheus *)

Inductive gauge := cpuUsage | memUsage | goroutines | heapAlloc | networkSent | networkRcv.

#[export] Instance gauge_eq_dec : EqDecision gauge.
Proof. solve_decision. Defined.

(** The collectors of the observer: six gauges and the vector [diskUsage],
    [None]. *)
Definition gauge_descriptions : list (option gauge * string * string) := [
  (Some cpuUsage, "system_cpu_usage_percent", "Current CPU usage in percent");
  (Some memUsage, "system_memory_usage_percent", "Current memory usage in percent");
  (Some goroutines, "runtime_goroutines", "Number of active goroutines");
  (Some heapAlloc, "runtime_heap_alloc_bytes", "Bytes allocated on the heap");
  (Some networkSent, "network_bytes_sent", "Total bytes sent over the network");
  (Some networkRcv, "network_bytes_received", "Total bytes received over the network");
  (None, "disk_usage_percent", "Disk usage by partition")
].

(** A call of [Set], on a gauge or on the gauge of two label values. *)
Inductive gauge_call :=
  | GSet (g : gauge) (v : float64)
  | GSetLabels (partition mountpoint : string) (v : float64).

Record PrometheusObserver {R : Type} := mkObserver { observer_registry : R; sets : list gauge_call }.
Arguments PrometheusObserver R : clear implicits.
Arguments mkObserver {R}.

Definition NewPrometheusObserver {R : Type} `{!Registry (option gauge) R} :
    result (PrometheusObserver R) :=
  let* r := register_all ((λ '(g, name, help), (mkOpts "" name help, g)) <$> gauge_descriptions)
    NewRegistry in
  Ok (mkObserver r []).

(** What a gauge is set to. *)
Definition gauge_value (g : gauge) (m : Metrics C) : float64 :=
  match g with
  | cpuUsage => Usage (CPU m)
  | memUsage => Collectors.UsedPercent (Memory m)
  | goroutines => f64_of_Z (Goroutines (Runtime m))
  | heapAlloc => f64_of_Z (HeapAlloc (Runtime m))
  | networkSent => f64_of_Z (TotalBytesSent (Network m))
  | networkRcv => f64_of_Z (TotalBytesRecv (Network m))
  end.

Definition prom_Update {R : Type} (m : Metrics C) (p : PrometheusObserver R) : PrometheusObserver R :=
  mkObserver (observer_registry p)
    (sets p ++
     ((λ g, GSet g (gauge_value g m)) <$>
        [cpuUsage; memUsage; goroutines; heapAlloc; networkSent; networkRcv]) ++
     ((λ p, GSetLabels (pDevice p) (MountPoint p) (DiskCollector.UsedPercent p)) <$>
        Partitions (Disk m))).

Definition observer_Registry {R : Type} (p : PrometheusObserver R) : R := observer_registry p.

(** ** What the gauges show *)

(** A gauge shows the value it was set to last. *)
Definition shown {R : Type} (g : gauge) (p : PrometheusObserver R) : option float64 :=
  last (omap (λ c, match c with
                   | GSet g' v => if decide (g' = g) then Some v else None
                   | _ => None
                   end) (sets p)).

Definition shown_labels {R : Type} (device mount : string) (p : PrometheusObserver R) :
    option float64 :=
  last (omap (λ c, match c with
                   | GSetLabels d mp v => if decide (d = device ∧ mp = mount) then Some v else None
                   | _ => None
                   end) (sets p)).

(** The usage a report gives for a partition, the last entry when there are
    several. *)
Definition reported_usage (device mount : string) (m : Metrics C) : option float64 :=
  last (omap (λ x, if decide (pDevice x = device ∧ MountPoint x = mount)
                   then Some (DiskCollector.UsedPercent x) else None) (Partitions (Disk m))).

(** The reports passed to observer [o] of a monitor. *)
Definition reports_to (o : nat) (m : @Monitor C) : list (Metrics C) :=
  omap (λ u, if decide (u.1 = o) then Some u.2 else None) (updates m).

Definition observe {R : Type} (ms : list (Metrics C)) (p : PrometheusObserver R) :
    PrometheusObserver R :=
  foldl (λ p m, prom_Update m p) p ms.

(** ** Lemmas *)

Lemma last_app_default {A : Type} (l l' : list A) :
  last (l ++ l') = match last l' with Some x => Some x | None => last l end.
Proof. rewrite last_app. by destruct (last l'). Qed.

Lemma shown_Update {R : Type} (g : gauge) (m : Metrics C) (p : PrometheusObserver R) :
  shown g (prom_Update m p) = Some (gauge_value g m).
Proof.
  unfold shown. cbn [sets prom_Update]. rewrite !omap_app, !last_app_default.
  assert (omap (λ c, match c with GSet g' v => if decide (g' = g) then Some v else None | _ => None end)
    ((λ p, GSetLabels (pDevice p) (MountPoint p) (DiskCollector.UsedPercent p)) <$>
      Partitions (Disk m)) = []) as -> by (by induction (Partitions (Disk m))).
  by destruct g.
Qed.

Lemma shown_labels_Update {R : Type} (d mp : string) (m : Metrics C) (p : PrometheusObserver R) :
  shown_labels d mp (prom_Update m p) =
    match reported_usage d mp m with Some v => Some v | None => shown_labels d mp p end.
Proof.
  unfold shown_labels, reported_usage. cbn [sets prom_Update]. rewrite !omap_app, !last_app_default.
  assert (∀ l : list PartitionState,
    omap (λ c, match c with
               | GSetLabels d' mp' v => if decide (d' = d ∧ mp' = mp) then Some v else None
               | _ => None end)
      ((λ p, GSetLabels (pDevice p) (MountPoint p) (DiskCollector.UsedPercent p)) <$> l) =
    omap (λ x, if decide (pDevice x = d ∧ MountPoint x = mp)
               then Some (DiskCollector.UsedPercent x) else None) l) as ->.
  { induction l as [|x l IH]; [done|]. cbn. case_decide; by rewrite IH. }
  by destruct (last _).
Qed.

Lemma observe_app {R : Type} (ms ms' : list (Metrics C)) (p : PrometheusObserver R) :
  observe (ms ++ ms') p = observe ms' (observe ms p).
Proof. apply foldl_app. Qed.

Lemma observe_registry {R : Type} (ms : list (Metrics C)) (p : PrometheusObserver R) :
  observer_registry (observe ms p) = observer_registry p.
Proof. revert p. induction ms as [|m ms IH]; intros p; [done|].
  exact (IH (prom_Update m p)).
Qed.

Lemma shown_labels_observe {R : Type} (d mp : string) (ms : list (Metrics C))
    (p : PrometheusObserver R) :
  (∀ m : Metrics C, m ∈ ms → reported_usage d mp m = None) →
  shown_labels d mp (observe ms p) = shown_labels d mp p.
Proof.
  revert p. induction ms as [|m ms IH]; intros p Hm; [done|]. cbn. unfold observe in IH.
  rewrite IH by (intros m' ?; apply Hm; by right).
  rewrite shown_labels_Update, Hm by left. done.
Qed.
End observers.
Arguments mkObserver {R}.
Arguments PrometheusObserver R : clear implicits.
(** ** Properties *)

(** C40. When the monitor has notified an observer, its gauges show the metrics
    the monitor holds, whatever was reported before; the gauge of a partition
    shows the last entry of the report for its labels, and when the report no
    longer has the partition it goes on showing what it showed before. *)
Theorem PrometheusObserver_shows_metrics {C R : Type} (o : nat) (mon : @Monitor C)
    (p : PrometheusObserver R) (Ho : o ∈ observers mon) :
  let p' := observe (reports_to o (NotifyAll mon)) p in
  let m := metrics mon in
  (shown cpuUsage p' = Some (Usage (CPU m)) ∧
   shown memUsage p' = Some (Collectors.UsedPercent (Memory m)) ∧
   shown goroutines p' = Some (f64_of_Z (Goroutines (Runtime m))) ∧
   shown heapAlloc p' = Some (f64_of_Z (HeapAlloc (Runtime m))) ∧
   shown networkSent p' = Some (f64_of_Z (TotalBytesSent (Network m))) ∧
   shown networkRcv p' = Some (f64_of_Z (TotalBytesRecv (Network m)))) ∧
  (∀ device mount : string, shown_labels device mount p' =
     match reported_usage device mount m with
     | Some v => Some v
     | None => shown_labels device mount (observe (reports_to o mon) p)
     end) ∧
  observer_Registry p' = observer_Registry p.
Proof.
  assert (∃ n : nat, reports_to o (NotifyAll mon) = reports_to o mon ++ replicate (S n) (metrics mon))
    as [n ->].
  { unfold reports_to. cbn. rewrite omap_app. revert Ho. generalize (observers mon).
    induction l as [|x l IH]; [by intros ?%elem_of_nil|]. intros Hin. cbn.
    destruct (decide (x = o)) as [->|Hne].
    - destruct (decide (o ∈ l)) as [Hl|Hl].
      + destruct (IH Hl) as [n E%app_inv_head]. exists (S n). by rewrite E.
      + exists 0%nat. do 2 f_equal. clear IH Hin. induction l as [|y l IH]; [done|]. cbn.
        rewrite decide_False by (intros ->; apply Hl; left). apply IH. intros ?. apply Hl. by right.
    - apply IH. apply elem_of_cons in Hin as [->|?]; done. }
  cbn zeta. rewrite observe_app.
  rewrite replicate_S_end, observe_app.
  set (q := observe (replicate n (metrics mon)) _).
  change (observe [metrics mon] q) with (prom_Update (metrics mon) q). split; [|split].
  - split_and!; by rewrite shown_Update.
  - intros d mp. rewrite (shown_labels_Update d mp). destruct (reported_usage d mp (metrics mon)) eqn:E; [done|].
    apply shown_labels_observe. by intros m [-> _]%elem_of_replicate.
  - unfold observer_Registry, q. cbn. by rewrite !observe_registry.
Qed.

(** A report with one partition, and one without. *)
Definition mounted (usage : Z) : Metrics unit :=
  let m := @zeroMetrics unit in
  mkMetrics 1 (CPU m) (Memory m)
    (mkDisk 1 [mkPartitionState "/dev/sdb1" "/mnt/usb" "ext4" "rw" 100 usage (100 - usage)
      (f64_of_Z usage) 1 1 0 false] ∅ []) (Runtime m) (Network m).

(** Observer 0 is told of a partition that is gone at the next report. *)
Definition unmounting : @Monitor unit :=
  let m := set_observers [0%nat] (NewMonitor amd64_overflow []) in
  set_metrics zeroMetrics newDiskCollector
    (NotifyAll (set_metrics (mounted 97) newDiskCollector m)).

Lemma PrometheusObserver_shows_metrics_witness :
  let p := observe (reports_to 0 (NotifyAll unmounting)) (mkObserver tt []) in
  reported_usage "/dev/sdb1" "/mnt/usb" (metrics unmounting) = None ∧
  shown_labels "/dev/sdb1" "/mnt/usb" p = Some (f64_of_Z 97).
Proof.
  intros p. split; [vm_compute; reflexivity|].
  destruct (PrometheusObserver_shows_metrics 0 unmounting (mkObserver tt [])) as (_ & H & _).
  - apply list_elem_of_lookup. by exists 0%nat.
  - etrans; [apply H|]. vm_compute. reflexivity.
Defined.

(** The names of the observer's collectors differ, so that registering them
    succeeds when the library takes the names. *)
Theorem NewPrometheusObserver_registers {R : Type} `{RegistryLaws (option gauge) R} :
  (∀ name : string, name ∈ gauge_descriptions.*1.*2 → valid_name ("", name) = true) →
  ∃ p : PrometheusObserver R, NewPrometheusObserver = Ok p ∧ sets p = [] ∧
    registered (observer_Registry p) = (λ '(g, name, help), (mkOpts "" name help, g)) <$> gauge_descriptions.
Proof.
  intros Hv. set (l := (λ '(g, name, help), (mkOpts "" name help, g)) <$> gauge_descriptions).
  destruct (register_all_ok l NewRegistry) as (r & E & Er).
  - intros o Ho. apply list_elem_of_fmap in Ho as ([o' c] & -> & Ho).
    apply list_elem_of_fmap in Ho as ([[g name] help] & [= -> ->] & Ho). apply Hv.
    apply list_elem_of_fmap. exists (g, name). split; [done|]. apply list_elem_of_fmap.
    by exists (g, name, help).
  - rewrite NewRegistry_ok. by apply (bool_decide_unpack _); vm_compute.
  - unfold NewPrometheusObserver. fold l. rewrite E. cbn. eexists. split; [done|]. split; [done|].
    cbn. by rewrite Er, NewRegistry_ok.
Qed.

(** ** The printed numbers *)

Lemma div_half_even_bound (n d : Z) :
  0 < d → 2 * Z.abs (n - d * div_half_even n d) ≤ d ∧
  (2 * Z.abs (n - d * div_half_even n d) = d → Z.even (div_half_even n d) = true).
Proof.
  intros Hd. unfold div_half_even. pose proof (Z.div_mod n d ltac:(lia)).
  pose proof (Z.mod_pos_bound n d Hd). destruct (Z.compare_spec (2 * (n `mod` d)) d).
  - destruct (Z.even (n `div` d)) eqn:E; (split; [lia|done || intros _]).
    by rewrite Z.add_1_r, Z.even_succ, <- Z.negb_even, E.
  - split; lia.
  - split; lia.
Qed.

(** The numbers of the summary line: the finite value [m * 2 ^ e] is
    printed with its sign, the integer part and one digit, and the printed
    number [t / 10] differs from the value, [n / d], by at most a twentieth;
    a value half way between two tenths is printed as the even one. *)
Theorem format_1f_rounds (s : bool) (m : positive) (e : Z) :
  let n := Z.pos m * 2 ^ Z.max e 0 in
  let d := 2 ^ Z.max (- e) 0 in
  ∃ t : Z, 0 ≤ t ∧
    format_1f (S754_finite s m e) = sign s +:+ pretty (t `div` 10) +:+ "." +:+ pretty (t `mod` 10) ∧
    2 * Z.abs (10 * n - t * d) ≤ d ∧
    (2 * Z.abs (10 * n - t * d) = d → Z.even t = true).
Proof.
  intros n d. exists (tenths m e).
  assert (0 ≤ tenths m e ∧ 2 * Z.abs (10 * n - tenths m e * d) ≤ d ∧
    (2 * Z.abs (10 * n - tenths m e * d) = d → Z.even (tenths m e) = true)) as (? & ? & ?); [|done].
  subst n d. unfold tenths. case_decide.
  - rewrite Z.max_l, (Z.max_r (- e)) by lia. cbn [Z.pow].
    pose proof (Z.pow_nonneg 2 e ltac:(lia)). split; [nia|]. split; lia.
  - rewrite Z.max_r, Z.max_l by lia. cbn [Z.pow]. rewrite Z.mul_1_r.
    assert (0 < 2 ^ (- e)) as Hd by (apply Z.pow_pos_nonneg; lia).
    rewrite (Z.mul_comm (div_half_even _ _)). split; [|by apply div_half_even_bound].
    pose proof (Z.div_pos (10 * Z.pos m) (2 ^ (- e)) ltac:(lia) Hd).
    unfold div_half_even. destruct (_ ?= _); [destruct (Z.even _)| |]; lia.
Qed.

Example format_1f_examples :
  format_1f (f64_ratio 1 4) = "0.2" ∧ format_1f (f64_ratio 9725 100) = "97.2" ∧
  format_1f (f64_neg (f64_ratio 1 100)) = "-0.0" ∧ format_1f (f64_of_Z 100) = "100.0".
Proof. vm_compute. done. Qed.
