(* ===== verification/Logging.v ===== *)
(** * The log adapters of [src/utils/log]

    Levels, fields and the two adapters that pass messages to the libraries
    zap and logrus.  The libraries are not modelled: an adapter's world has
    the list of the calls made to its library.  Adapters are objects: [With]
    may return a new one or the same one. *)
From S2P Require Import Prelude.
From S2P Require Import Consts.
Open Scope Z_scope.

(** ** Levels and fields: [src/utils/log/type.go] *)

Definition LevelDebug : Z := 0.
Definition LevelInfo : Z := 1.
Definition LevelWarn : Z := 2.
Definition LevelError : Z := 3.
Definition LevelFatal : Z := 4.
Definition LevelPanic : Z := 5.
Definition LevelInvalid : Z := 6.

Definition Level_String (l : Z) : string :=
  if decide (l = LevelDebug) then "debug"
  else if decide (l = LevelInfo) then "info"
  else if decide (l = LevelWarn) then "warn"
  else if decide (l = LevelError) then "error"
  else if decide (l = LevelFatal) then "fatal"
  else if decide (l = LevelPanic) then "panic"
  else "unknown".

Definition Level_valid (l : Z) : bool :=
  bool_decide (l ∈ [LevelDebug; LevelInfo; LevelWarn; LevelError; LevelFatal; LevelPanic]).

Definition Level_UpperString (l : Z) : string :=
  if decide (l = LevelDebug) then "DEBUG"
  else if decide (l = LevelInfo) then "INFO"
  else if decide (l = LevelWarn) then "WARN"
  else if decide (l = LevelError) then "ERROR"
  else if decide (l = LevelFatal) then "FATAL"
  else if decide (l = LevelPanic) then "PANIC"
  else "UNKNOWN".

(** A field; [V] is Go's [any]. *)
Definition Field (V : Type) : Type := string * V.

(** The dynamic types the constructors of fields use; a duration and an
    instant are nanoseconds. *)
Inductive any :=
  | AString (s : string)
  | AInt (n : Z)
  | ABool (b : bool)
  | AError (e : error)
  | ADuration (d : Z)
  | ATime (t : Z).

Definition StringField (key val : string) : Field any := (key, AString val).
Definition IntField (key : string) (val : Z) : Field any := (key, AInt val).
Definition BoolField (key : string) (val : bool) : Field any := (key, ABool val).
Definition ErrorField (err : error) : Field any := ("error"%string, AError err).
Definition DurationField (key : string) (val : Z) : Field any := (key, ADuration val).
Definition TimeField (key : string) (val : Z) : Field any := (key, ATime val).

(** [LoggerType.valid] *)
Definition LoggerType_valid (t : string) : bool :=
  bool_decide (t ∈ ["default"; "zap"; "logrus"; "logstash"; "zerolog"]%string).

(** ** Conversions between the levels of the package and of a library

    [L] is the library's type of levels, with its constants. *)
Record library_levels (L : Type) := mkLevels {
  DebugLevel : L; InfoLevel : L; WarnLevel : L; ErrorLevel : L; FatalLevel : L; PanicLevel : L
}.
Arguments mkLevels {L}.
Arguments DebugLevel {L}. Arguments InfoLevel {L}. Arguments WarnLevel {L}.
Arguments ErrorLevel {L}. Arguments FatalLevel {L}. Arguments PanicLevel {L}.

Section levels.
  Context {L : Type} `{!EqDecision L} (lv : library_levels L).

(** [other] is [InfoLevel] for logrus and [InvalidLevel] for zap. *)
Definition convert_level (other : L) (level : Z) : L :=
  if decide (level = LevelDebug) then DebugLevel lv
  else if decide (level = LevelInfo) then InfoLevel lv
  else if decide (level = LevelWarn) then WarnLevel lv
  else if decide (level = LevelError) then ErrorLevel lv
  else if decide (level = LevelFatal) then FatalLevel lv
  else if decide (level = LevelPanic) then PanicLevel lv
  else other.

Definition convertLogrusLevel (level : Z) : L := convert_level (InfoLevel lv) level.
Definition convertToZapLevel (InvalidLevel : L) (level : Z) : L := convert_level InvalidLevel level.

Definition convertToLevel (level : L) : Z :=
  if decide (level = DebugLevel lv) then LevelDebug
  else if decide (level = InfoLevel lv) then LevelInfo
  else if decide (level = WarnLevel lv) then LevelWarn
  else if decide (level = ErrorLevel lv) then LevelError
  else if decide (level = FatalLevel lv) then LevelFatal
  else if decide (level = PanicLevel lv) then LevelPanic
  else LevelInvalid.

(** The method of the same name of the logrus adapter has the same cases. *)
Definition logrus_convertToLevel (level : L) : Z := convertToLevel level.

(** The library's constants differ. *)
Definition distinct_levels : Prop :=
  NoDup [DebugLevel lv; InfoLevel lv; WarnLevel lv; ErrorLevel lv; FatalLevel lv; PanicLevel lv].
End levels.

(** ** The level of the package: [src/utils/log/adapter.go] *)

Definition currentLevel : Z := LevelInfo.
Definition SetLevel (level current : Z) : Z := level.
Definition getLevel (current : Z) : Z := current.

(** ** The adapters *)

Inductive op (V : Type) :=
  | OLog (i : nat) (level : Z) (format : string) (fields : list (Field V))
  | OWith (i : nat) (fields : list (Field V))
  | OSetLevel (i : nat) (level : Z)
  | OPackageLevel (level : Z)      (** [SetLevel] of the package *)
  | ONew.                          (** a new adapter *)
Arguments OLog {V}. Arguments OWith {V}. Arguments OSetLevel {V}.
Arguments OPackageLevel {V}. Arguments ONew {V}.

(** A message passed to the library: the method, the text and the fields. *)
Record message (F : Type) := mkMessage { mlevel : Z; mtext : string; mfields : F }.
Arguments mkMessage {F}. Arguments mlevel {F}. Arguments mtext {F}. Arguments mfields {F}.

(** The methods of the two libraries for these levels do not return. *)
Definition ends_program (level : Z) : bool :=
  bool_decide (level = LevelFatal ∨ level = LevelPanic).

(** What [SetLevel] of both adapters returns; when it is an error they change
    nothing. *)
Definition SetLevel_error (level : Z) : option error :=
  if Level_valid level then None else Some (ErrorsNew "invalid log level").

Section adapters.
  Context {V : Type}.

(** A field list as a logrus map: a later field replaces an earlier one. *)
Definition to_logrus (fields : list (Field V)) : gmap string V :=
  foldl (λ m f, <[f.1 := f.2]> m) ∅ fields.

Record LogrusAdapter := mkLogrus { entry : gmap string V; llevel : Z }.

(** [current] is the level of the package at the time. *)
Definition NewLogrusAdapter (current : Z) : LogrusAdapter := mkLogrus ∅ (getLevel current).

(** The adapters of one program over one logger, the last level given to that
    logger, the messages passed to it, and the level of the package. *)
Record logrus_world := mkLW {
  ladapters : list LogrusAdapter;
  logger_level : option Z;
  lmessages : list (message (gmap string V));
  lcurrent : Z
}.

(** [entry.WithFields]: the new fields replace old ones of the same key. *)
Definition WithFields (old new : gmap string V) : gmap string V := new ∪ old.

Definition logrus_log (l : LogrusAdapter) (level : Z) (format : string) (fields : list (Field V)) :
    option (message (gmap string V)) :=
  if decide (level < llevel l) then None
  else
    let entry := if decide (fields = []) then entry l else WithFields (entry l) (to_logrus fields) in
    if Level_valid level then Some (mkMessage level format entry) else None.

(** One call; the flag tells whether the program goes on. *)
Definition logrus_exec (o : op V) (w : logrus_world) : logrus_world * bool :=
  match o with
  | OLog i level format fields =>
      match ladapters w !! i ≫= λ l, logrus_log l level format fields with
      | Some msg =>
          (mkLW (ladapters w) (logger_level w) (lmessages w ++ [msg]) (lcurrent w),
           negb (ends_program level))
      | None => (w, true)
      end
  | OWith i fields =>
      match ladapters w !! i with
      | Some l =>
          (mkLW (ladapters w ++ [mkLogrus (WithFields (entry l) (to_logrus fields)) (llevel l)])
             (logger_level w) (lmessages w) (lcurrent w), true)
      | None => (w, true)
      end
  | OSetLevel i level =>
      if decide (SetLevel_error level = None) then
        match ladapters w !! i with
        | Some l =>
            (mkLW (<[i := mkLogrus (entry l) level]> (ladapters w)) (Some level) (lmessages w)
               (lcurrent w), true)
        | None => (w, true)
        end
      else (w, true)
  | OPackageLevel level =>
      (mkLW (ladapters w) (logger_level w) (lmessages w) (SetLevel level (lcurrent w)), true)
  | ONew =>
      (mkLW (ladapters w ++ [NewLogrusAdapter (lcurrent w)]) (logger_level w) (lmessages w)
         (lcurrent w), true)
  end.

(** The zap logger an adapter holds has the fields given to [With] so far. *)
Record ZapAdapter := mkZap { zlogger : list (Field V); zlevel : Z }.

Definition NewZapAdapter (current : Z) : ZapAdapter := mkZap [] (getLevel current).

(** [handles] are the adapters the program holds; several handles can be the
    same adapter. *)
Record zap_world := mkZW {
  zadapters : list ZapAdapter;
  handles : list nat;
  zmessages : list (message (list (Field V)));
  zcurrent : Z
}.

Definition zap_log (z : ZapAdapter) (level : Z) (format : string) (fields : list (Field V)) :
    option (message (list (Field V))) :=
  if decide (level < zlevel z) then None
  else if Level_valid level then Some (mkMessage level format (zlogger z ++ fields)) else None.

Definition zap_exec (o : op V) (w : zap_world) : zap_world * bool :=
  match o with
  | OLog i level format fields =>
      match handles w !! i ≫= λ a, zadapters w !! a ≫= λ z, zap_log z level format fields with
      | Some msg =>
          (mkZW (zadapters w) (handles w) (zmessages w ++ [msg]) (zcurrent w),
           negb (ends_program level))
      | None => (w, true)
      end
  | OWith i fields =>
      match handles w !! i with
      | Some a =>
          match zadapters w !! a with
          | Some z =>
              if decide (fields = []) then
                (mkZW (zadapters w) (handles w ++ [a]) (zmessages w) (zcurrent w), true)
              else
                (mkZW (zadapters w ++ [mkZap (zlogger z ++ fields) (zlevel z)])
                   (handles w ++ [length (zadapters w)]) (zmessages w) (zcurrent w), true)
          | None => (w, true)
          end
      | None => (w, true)
      end
  | OSetLevel i level =>
      if decide (SetLevel_error level = None) then
        match handles w !! i with
        | Some a =>
            match zadapters w !! a with
            | Some z =>
                (mkZW (<[a := mkZap (zlogger z) level]> (zadapters w)) (handles w) (zmessages w)
                   (zcurrent w), true)
            | None => (w, true)
            end
        | None => (w, true)
        end
      else (w, true)
  | OPackageLevel level =>
      (mkZW (zadapters w) (handles w) (zmessages w) (SetLevel level (zcurrent w)), true)
  | ONew =>
      (mkZW (zadapters w ++ [NewZapAdapter (zcurrent w)]) (handles w ++ [length (zadapters w)])
         (zmessages w) (zcurrent w), true)
  end.

(** Before any adapter is made. *)
Definition logrus_start : logrus_world := mkLW [] None [] currentLevel.
Definition zap_start : zap_world := mkZW [] [] [] currentLevel.

Fixpoint logrus_all (os : list (op V)) (w : logrus_world) : logrus_world :=
  match os with
  | [] => w
  | o :: os => let (w, goes_on) := logrus_exec o w in if goes_on then logrus_all os w else w
  end.

Fixpoint zap_all (os : list (op V)) (w : zap_world) : zap_world :=
  match os with
  | [] => w
  | o :: os => let (w, goes_on) := zap_exec o w in if goes_on then zap_all os w else w
  end.
End adapters.

(** ** Lemmas *)

Section lemmas.
  Context {V : Type}.

Lemma to_logrus_from (l : list (Field V)) (m : gmap string V) :
  foldl (λ m f, <[f.1 := f.2]> m) m l = to_logrus l ∪ m.
Proof.
  unfold to_logrus. revert m. induction l as [|[k v] l IH]; intros m; cbn [foldl fst snd].
  - by rewrite map_empty_union.
  - rewrite IH, (IH (<[k := v]> ∅)), <- map_union_assoc. f_equal.
    by rewrite <- insert_union_l, map_empty_union.
Qed.

(** Fields added in two steps are fields added in one. *)
Lemma to_logrus_app (l l' : list (Field V)) :
  to_logrus (l ++ l') = WithFields (to_logrus l) (to_logrus l').
Proof. unfold to_logrus at 1, WithFields. rewrite foldl_app. apply to_logrus_from. Qed.

Definition as_logrus (m : message (list (Field V))) : message (gmap string V) :=
  mkMessage (mlevel m) (mtext m) (to_logrus (mfields m)).

Definition same_adapter (l : LogrusAdapter) (z : ZapAdapter) : Prop :=
  entry l = to_logrus (zlogger z) ∧ llevel l = @zlevel V z.

(** The two worlds hold the same adapters and have passed on the same
    messages. *)
Record agree (lw : @logrus_world V) (zw : @zap_world V) : Prop := {
  ag_adapters : Forall2 same_adapter (ladapters lw) (zadapters zw);
  ag_handles : handles zw = seq 0 (length (zadapters zw));
  ag_messages : lmessages lw = as_logrus <$> zmessages zw;
  ag_current : lcurrent lw = zcurrent zw
}.

Lemma agree_lookup (lw : logrus_world) (zw : zap_world) (i : nat) :
  agree lw zw →
  (∃ (l : LogrusAdapter) (z : ZapAdapter), ladapters lw !! i = Some l ∧ handles zw !! i = Some i ∧
     zadapters zw !! i = Some z ∧ same_adapter l z) ∨
  (ladapters lw !! i = None ∧ handles zw !! i = None).
Proof.
  intros [Ha Hh Hm Hcur]. rewrite Hh. destruct (ladapters lw !! i) as [l|] eqn:Hl.
  - destruct (Forall2_lookup_l _ _ _ _ _ Ha Hl) as (z & Hz & Hs). left. exists l, z.
    split_and!; [done| |done|done]. apply lookup_seq. split; [lia|]. by eapply lookup_lt_Some.
  - right. split; [done|]. apply lookup_seq_ge.
    rewrite <- (Forall2_length _ _ _ Ha). by apply lookup_ge_None.
Qed.

Lemma log_agree (l : LogrusAdapter) (z : ZapAdapter) (level : Z) (format : string)
    (fields : list (Field V)) :
  same_adapter l z → logrus_log l level format fields = as_logrus <$> zap_log z level format fields.
Proof.
  intros [He Hl]. unfold logrus_log, zap_log. rewrite Hl, He. case_decide; [done|].
  destruct (Level_valid level); [|done].
  change (as_logrus <$> Some ?x) with (Some (as_logrus x)). unfold as_logrus; cbn [mlevel mtext mfields].
  case_decide as Hf; [by rewrite Hf, app_nil_r|]. by rewrite to_logrus_app.
Qed.

(** A call that gives [With] at least one field. *)
Definition with_fields (o : op V) : Prop :=
  match o with OWith _ fields => fields ≠ [] | _ => True end.

Lemma exec_agree (o : op V) (lw : logrus_world) (zw : zap_world) :
  with_fields o → agree lw zw →
  agree (logrus_exec o lw).1 (zap_exec o zw).1 ∧ (logrus_exec o lw).2 = (zap_exec o zw).2.
Proof.
  intros Hw H.
  destruct o as [i level format fields|i fields|i level|level|]; cbn -[SetLevel_error].
  4:{ split; [|done]. by destruct H. }
  4:{ split; [|done]. destruct H as [Ha Hh Hm Hcur]. split; cbn; [| |done..].
    - apply Forall2_app; [done|]. by constructor.
    - by rewrite Hh, length_app, seq_app. }
  all: destruct (agree_lookup lw zw i H) as [(l & z & Hl & Hh & Hz & Hs)|[Hl Hh]];
    rewrite ?Hl, ?Hh; cbn -[SetLevel_error]; rewrite ?Hz; cbn -[SetLevel_error]; try done.
  - rewrite (log_agree l z) by done. destruct (zap_log z level format fields) as [m|]; [|done].
    cbn. split; [|done]. destruct H as [Ha Hh' Hm Hcur]. split; cbn; [done..| |done].
    by rewrite Hm, fmap_app.
  - cbn in Hw. rewrite decide_False by done. cbn. split; [|done].
    destruct H as [Ha Hh' Hm Hcur], Hs as [He Hlv]. split; cbn; [| |done..].
    + apply Forall2_app; [done|]. constructor; [|done].
      split; cbn [entry zlogger llevel zlevel]; [|done]. by rewrite to_logrus_app, He.
    + by rewrite Hh', length_app, seq_app.
  - case_decide; [|done]. cbn. split; [|done].
    destruct H as [Ha Hh' Hm Hcur], Hs as [He Hlv]. split; cbn; [| |done..].
    + by apply Forall2_insert.
    + by rewrite length_insert.
  - by case_decide.
Qed.

Lemma all_agree (os : list (op V)) (lw : logrus_world) (zw : zap_world) :
  Forall with_fields os → agree lw zw → agree (logrus_all os lw) (zap_all os zw).
Proof.
  intros Hos. revert lw zw. induction Hos as [|o os Ho Hos IH]; intros lw zw H; [done|].
  cbn [logrus_all zap_all]. destruct (exec_agree o lw zw Ho H) as [H1 H2].
  destruct (logrus_exec o lw) as [lw1 g], (zap_exec o zw) as [zw1 g']. cbn in H1, H2. subst g'.
  destruct g; [by apply IH|done].
Qed.
End lemmas.

Lemma convert_valid {L : Type} (lv : library_levels L) (other : L) :
  convert_level lv other LevelDebug = DebugLevel lv ∧ convert_level lv other LevelInfo = InfoLevel lv ∧
  convert_level lv other LevelWarn = WarnLevel lv ∧ convert_level lv other LevelError = ErrorLevel lv ∧
  convert_level lv other LevelFatal = FatalLevel lv ∧ convert_level lv other LevelPanic = PanicLevel lv.
Proof. split_and!; reflexivity. Qed.

(** ** Properties *)

(** C37. The two adapters are interchangeable: any calls of the package and of
    the logger interface, on new adapters and those derived from them, pass
    the same messages to zap and to logrus, in the same order and up to the
    same last one, and the logrus fields of each are its zap fields, the last
    one of each key; provided [With] is given a field. *)
Theorem adapters_agree {V : Type} (os : list (op V)) (Hos : Forall with_fields os) :
  lmessages (logrus_all os logrus_start) = as_logrus <$> zmessages (zap_all os zap_start).
Proof. apply all_agree; [done|]. by split. Qed.

(** The level of the package counts for the adapters made after it is set. *)
Lemma adapters_agree_witness :
  let os := [ONew; OPackageLevel LevelDebug; ONew; OLog 0 LevelDebug "x" []; OLog 1 LevelDebug "y" [];
             OWith 0 [("user", 1)]%string; OLog 2 LevelWarn "a" [("user", 2); ("n", 3)]%string;
             OSetLevel 2 LevelError; OLog 2 LevelWarn "b" []; OLog 0 LevelWarn "c" [];
             OLog 0 LevelFatal "d" []; OLog 0 LevelError "e" []] in
  lmessages (logrus_all os logrus_start) = as_logrus <$> zmessages (zap_all os zap_start) ∧
  (mtext <$> zmessages (zap_all os zap_start)) = ["y"; "a"; "c"; "d"]%string.
Proof.
  intros os. split; [|reflexivity]. apply (adapters_agree os). repeat constructor; discriminate.
Defined.

(** Without fields they differ: zap's [With] returns the adapter itself, so a
    level set on the result is set on the original as well. *)
Lemma With_nothing_shares :
  let os : list (op nat) := [ONew; OWith 0 []; OSetLevel 1 LevelPanic; OLog 0 LevelError "x" []] in
  length (lmessages (logrus_all os logrus_start)) = 1%nat ∧
  length (zmessages (zap_all os zap_start)) = 0%nat.
Proof. split; reflexivity. Qed.

(** C38. Levels survive the way through a library and back: every valid level
    converts to the library's level of the same name and back to itself, the
    names of distinct valid levels differ, and an invalid level becomes
    logrus's info level, or the invalid level on the way through zap. *)
Theorem Level_roundtrip {L : Type} `{!EqDecision L} (lv : library_levels L) (invalid : L)
    (Hd : distinct_levels lv)
    (Hi : invalid ∉ [DebugLevel lv; InfoLevel lv; WarnLevel lv; ErrorLevel lv; FatalLevel lv; PanicLevel lv])
    (l : Z) :
  convertToLevel lv (convertToZapLevel lv invalid l) = (if Level_valid l then l else LevelInvalid) ∧
  logrus_convertToLevel lv (convertLogrusLevel lv l) = (if Level_valid l then l else LevelInfo) ∧
  (∀ l' : Z, Level_valid l = true → Level_valid l' = true → Level_String l = Level_String l' → l = l').
Proof.
  unfold distinct_levels in Hd. rewrite !NoDup_cons, !elem_of_cons in Hd.
  rewrite !elem_of_cons in Hi.
  assert (Hv : ∀ n, Level_valid n = true →
    n = LevelDebug ∨ n = LevelInfo ∨ n = LevelWarn ∨ n = LevelError ∨ n = LevelFatal ∨ n = LevelPanic)
    by (intros n Hn; unfold Level_valid in Hn; apply bool_decide_eq_true in Hn;
        rewrite !elem_of_cons, elem_of_nil in Hn; tauto).
  assert (Hn : Level_valid l = false →
    l ≠ LevelDebug ∧ l ≠ LevelInfo ∧ l ≠ LevelWarn ∧ l ≠ LevelError ∧ l ≠ LevelFatal ∧ l ≠ LevelPanic)
    by (intros Hn; unfold Level_valid in Hn; apply bool_decide_eq_false in Hn;
        rewrite !elem_of_cons in Hn; tauto).
  assert (Hback : ∀ other : L, Level_valid l = true → convertToLevel lv (convert_level lv other l) = l).
  { intros other Hval. destruct (convert_valid lv other) as (E1 & E2 & E3 & E4 & E5 & E6).
    unfold convertToLevel.
    destruct (Hv l Hval) as [->|[->|[->|[->|[->| ->]]]]]; rewrite ?E1, ?E2, ?E3, ?E4, ?E5, ?E6;
      repeat first [ rewrite decide_True by done
                   | rewrite decide_False by (clear -Hd; intuition congruence) ]; done. }
  unfold convertToZapLevel, convertLogrusLevel. destruct (Level_valid l) eqn:Hval.
  - split_and!; [by apply Hback..|]. intros l' _ H2.
    destruct (Hv l Hval) as [->|[->|[->|[->|[->| ->]]]]], (Hv l' H2) as [->|[->|[->|[->|[->| ->]]]]];
      done.
  - destruct (Hn eq_refl) as (?&?&?&?&?&?). unfold logrus_convertToLevel, convert_level, convertToLevel.
    rewrite !(decide_False (P := l = _)) by done. split_and!; [| |done].
    + repeat (rewrite decide_False by (clear -Hi; intuition congruence)). done.
    + rewrite decide_False by (clear -Hd; intuition congruence). by rewrite decide_True.
Qed.

Lemma Level_roundtrip_witness :
  let lv := mkLevels 5%nat 4%nat 3%nat 2%nat 1%nat 0%nat in
  convertToLevel lv (convertToZapLevel lv 7%nat LevelFatal) = LevelFatal ∧
  convertToLevel lv (convertToZapLevel lv 7%nat 9) = LevelInvalid.
Proof.
  intros lv.
  assert (distinct_levels lv) as Hd by (apply (bool_decide_unpack _); exact I).
  assert (7%nat ∉ [DebugLevel lv; InfoLevel lv; WarnLevel lv; ErrorLevel lv; FatalLevel lv; PanicLevel lv])
    as Hi by (apply (bool_decide_unpack _); exact I).
  destruct (Level_roundtrip lv 7%nat Hd Hi LevelFatal) as [H1 _].
  destruct (Level_roundtrip lv 7%nat Hd Hi 9) as [H2 _]. split; [exact H1|exact H2].
Defined.
