(* ===== verification/OpenSourceTimeout.v ===== *)
(** * The timeout controller of [src/metrics/opensource_timeout.go] and its logger

    The controller is a client of the logger interface: the class [Logger]
    says what an implementation promises, both adapters are instances, and
    [HandleTimeout] is proved against the class. *)
From Stdlib Require Import SpecFloat.
From S2P Require Import Prelude.
From S2P Require Import Runtime.
From S2P Require Import Float64.
From S2P Require Import Consts.
From S2P Require Import Monitor.
From S2P Require Import Logging.
Open Scope Z_scope.

(** ** The interface *)

(** [W] is the world of the program's loggers; a logger is a handle.  The
    fields of a message are those a reader of the log sees, by key. *)
Class Logger (V W : Type) := {
  log_exec : op V → W → W * bool;
  log_level : W → nat → option Z;              (** the level of a logger *)
  log_context : W → nat → gmap string V;       (** the fields given to [With] *)
  log_messages : W → list (message (gmap string V))
}.

(** A call below the level of the logger passes nothing on; the others pass on
    one message with the fields of the call over those of the logger, and the
    program goes on unless the level is fatal or panic. *)
Class LoggerLaws (V W : Type) `{!Logger V W} := {
  log_below (i : nat) (li level : Z) (format : string) (fields : list (Field V)) (w : W) :
    log_level w i = Some li → level < li →
    log_exec (OLog i level format fields) w = (w, true);
  log_passes (i : nat) (li level : Z) (format : string) (fields : list (Field V)) (w : W) :
    log_level w i = Some li → li ≤ level → Level_valid level = true →
    ∃ w' : W, log_exec (OLog i level format fields) w = (w', negb (ends_program level)) ∧
      log_messages w' = log_messages w ++
        [mkMessage level format (WithFields (log_context w i) (to_logrus fields))]
}.

(** ** The two implementations *)

#[export] Instance logrus_Logger (V : Type) : Logger V (@logrus_world V) := {
  log_exec := logrus_exec;
  log_level w i := llevel <$> ladapters w !! i;
  log_context w i := from_option entry ∅ (ladapters w !! i);
  log_messages := lmessages
}.

#[export] Instance zap_Logger (V : Type) : Logger V (@zap_world V) := {
  log_exec := zap_exec;
  log_level w i := a ← handles w !! i; zlevel <$> zadapters w !! a;
  log_context w i := from_option (λ z, to_logrus (zlogger z)) ∅ (a ← handles w !! i; zadapters w !! a);
  log_messages w := as_logrus <$> zmessages w
}.

Lemma WithFields_nil {V : Type} (m : gmap string V) : WithFields m (to_logrus []) = m.
Proof. apply map_empty_union. Qed.

#[export] Instance logrus_LoggerLaws (V : Type) : LoggerLaws V (@logrus_world V).
Proof.
  split; intros i li level format fields w; cbn; destruct (ladapters w !! i) as [l|]; cbn; try done;
    intros [= <-]; unfold logrus_log.
  - intros Hl. by rewrite decide_True.
  - intros Hl Hv. rewrite decide_False, Hv by lia. eexists. split; [done|]. cbn. do 3 f_equal.
    case_decide as Hf; [|done]. by rewrite Hf, WithFields_nil.
Qed.

#[export] Instance zap_LoggerLaws (V : Type) : LoggerLaws V (@zap_world V).
Proof.
  split; intros i li level format fields w; cbn; destruct (handles w !! i) as [a|]; cbn; try done;
    destruct (zadapters w !! a) as [z|]; cbn; try done; intros [= <-]; unfold zap_log.
  - intros Hl. by rewrite decide_True.
  - intros Hl Hv. rewrite decide_False, Hv by lia. eexists. split; [done|]. cbn.
    rewrite fmap_app. cbn. unfold as_logrus at 2. cbn [mlevel mtext mfields].
    do 3 f_equal. apply to_logrus_app.
Qed.

(** ** The controller *)

Record OpenSourceTimeout := mkOpenSourceTimeout { fixedRatio : float64; l : nat }.

Definition newOpenSourceTimeout (ratio : float64) (logger : nat) : OpenSourceTimeout :=
  mkOpenSourceTimeout ratio logger.

(** [ub] is the platform's conversion of floats that are out of range. *)
Definition Timeout (ub : float64 → Z) (o : OpenSourceTimeout) (collectInterval : Z) : Z :=
  OpenSourceTimeout_Timeout ub (fixedRatio o) collectInterval.

Definition HandleTimeout {W : Type} `{!Logger any W} (o : OpenSourceTimeout) (component : string)
    (collected latency : Z) (w : W) : W * bool :=
  log_exec (OLog (l o) LevelWarn "collect context deadline"
    [StringField "component" component; IntField "collected" collected;
     DurationField "latency" latency]) w.

Definition Recover {W : Type} (w : W) : W := w.

(** A timeout is reported once, as a warning with its three fields, by every
    logger whose level lets warnings through, and by no other; the program
    goes on. *)
Theorem HandleTimeout_warns {W : Type} `{LoggerLaws any W} (o : OpenSourceTimeout)
    (component : string) (collected latency : Z) (w : W) (li : Z) (Hl : log_level w (l o) = Some li) :
  ∃ w' : W, HandleTimeout o component collected latency w = (w', true) ∧
    if decide (LevelWarn < li) then w' = w
    else ∃ fields : gmap string any,
      log_messages w' = log_messages w ++ [mkMessage LevelWarn "collect context deadline" fields] ∧
      fields !! "component"%string = Some (AString component) ∧
      fields !! "collected"%string = Some (AInt collected) ∧
      fields !! "latency"%string = Some (ADuration latency).
Proof.
  unfold HandleTimeout. case_decide as Hd; [by rewrite (log_below _ li); eauto|].
  destruct (log_passes (l o) li LevelWarn "collect context deadline"
    [StringField "component" component; IntField "collected" collected; DurationField "latency" latency] w)
    as (w' & -> & E); [done|lia|done|].
  exists w'. split; [done|]. eexists. split; [exact E|]. unfold WithFields, to_logrus. cbn.
  split_and!; by apply lookup_union_Some_l.
Qed.
